(** * Dialogue-state engine of the satellite assistant: a shallow embedding

    The development follows four Python modules of the backend:

    - [graph/nodes/buffered_streaming_planning_nodes.py]
      ([StreamingContentBuffer], [call_deepseek_streaming_api_buffered]);
    - [graph/nodes/uncertainty_calculator.py]
      ([ParameterUncertaintyCalculator]);
    - [graph/nodes/enhanced_parameter_clarification_node.py]
      ([parse_user_response], [_parse_response_by_rules],
       [should_skip_clarification], [apply_smart_defaults]);
    - [graph/nodes/staged_parameter_clarification_node.py]
      ([StagedParameterClarificationNode] and the two [process_staged_*]
       entry points), with [graph/state.py] for [WorkflowState].

    Python [str] values are sequences of Unicode code points and are modelled
    as [list N]; dictionaries are [gmap]s; calls that leave the process
    (language models, web search, the regular-expression engine, the JSON
    configuration files) are fields of an environment record and every
    theorem quantifies over them. *)

From Stdlib Require Import ZArith NArith QArith Qround List Lia String Ascii Bool PrimFloat.
From stdpp Require Import base option list gmap fin_maps.

Import ListNotations.
Local Open Scope Z_scope.

(** ** Python strings *)

Module Py.

Abbreviation str := (list N).

(** Decoder for the UTF-8 bytes of a literal of this file, so that the
    literals of the Python source can be written as they are there. *)
Fixpoint utf8_decode (fuel : nat) (bs : list N) : str :=
  match fuel with
  | O => []
  | S fuel' =>
    match bs with
    | [] => []
    | b0 :: r0 =>
      if (b0 <? 128)%N then b0 :: utf8_decode fuel' r0
      else if (b0 <? 224)%N then
        match r0 with
        | b1 :: r1 => ((b0 - 192) * 64 + (b1 - 128))%N :: utf8_decode fuel' r1
        | _ => []
        end
      else if (b0 <? 240)%N then
        match r0 with
        | b1 :: b2 :: r2 =>
          ((b0 - 224) * 4096 + (b1 - 128) * 64 + (b2 - 128))%N
            :: utf8_decode fuel' r2
        | _ => []
        end
      else
        match r0 with
        | b1 :: b2 :: b3 :: r3 =>
          ((b0 - 240) * 262144 + (b1 - 128) * 4096 + (b2 - 128) * 64
           + (b3 - 128))%N :: utf8_decode fuel' r3
        | _ => []
        end
    end
  end.

Definition u (s : string) : str :=
  let bs := List.map N_of_ascii (list_ascii_of_string s) in
  utf8_decode (List.length bs) bs.

Definition LF : N := 10%N.
Definition CR : N := 13%N.
Definition PIPE : N := 124%N.

(** [len(s)] *)
Definition len (s : str) : Z := Z.of_nat (List.length s).

(** Truth value of a string: non-empty. *)
Definition truthy (s : str) : bool :=
  match s with [] => false | _ => true end.

(** [s.startswith(p)] *)
Fixpoint startswith (p s : str) : bool :=
  match p, s with
  | [], _ => true
  | _ :: _, [] => false
  | a :: p', b :: s' => (a =? b)%N && startswith p' s'
  end.

(** [p in s] for strings: [p] occurs as a contiguous run of [s]. *)
Fixpoint contains (p s : str) : bool :=
  startswith p s ||
  match s with
  | [] => false
  | _ :: s' => contains p s'
  end.

(** [s.count(c)] for a needle of one character. *)
Fixpoint count (c : N) (s : str) : Z :=
  match s with
  | [] => 0
  | a :: s' => (if (a =? c)%N then 1 else 0) + count c s'
  end.

(** [s.replace(ab, new)] for a needle of two characters [a], [b]:
    left to right, occurrences do not overlap. *)
Fixpoint replace2 (a b : N) (new : str) (s : str) : str :=
  match s with
  | [] => []
  | x :: s' =>
    match s' with
    | y :: s'' =>
      if (x =? a)%N && (y =? b)%N then new ++ replace2 a b new s''
      else x :: replace2 a b new s'
    | [] => [x]
    end
  end.

(** [s.replace(a, new)] for a needle of one character. *)
Fixpoint replace1 (a : N) (new : str) (s : str) : str :=
  match s with
  | [] => []
  | x :: s' => (if (x =? a)%N then new else [x]) ++ replace1 a new s'
  end.

(** [str.isspace] on one code point (the Unicode white-space set of
    CPython). *)
Definition isspace (c : N) : bool :=
  ((9 <=? c) && (c <=? 13) || (28 <=? c) && (c <=? 32)
   || (c =? 133) || (c =? 160) || (c =? 5760)
   || (8192 <=? c) && (c <=? 8202)
   || (c =? 8232) || (c =? 8233) || (c =? 8239) || (c =? 8287)
   || (c =? 12288))%N.

Fixpoint lstrip (s : str) : str :=
  match s with
  | [] => []
  | c :: s' => if isspace c then lstrip s' else s
  end.

Definition rstrip (s : str) : str := rev (lstrip (rev s)).

(** [s.strip()] *)
Definition strip (s : str) : str := lstrip (rstrip s).

(** First occurrence of the two-character separator [a b]:
    the text before it and the text after it. *)
Fixpoint find2 (a b : N) (s : str) : option (str * str) :=
  match s with
  | [] => None
  | x :: s' =>
    match s' with
    | y :: s'' =>
      if (x =? a)%N && (y =? b)%N then Some ([], s'')
      else match find2 a b s' with
           | Some (pre, post) => Some (x :: pre, post)
           | None => None
           end
    | [] => None
    end
  end.

(** [s.split(ab, 1)]: at most one cut. *)
Definition split2_once (a b : N) (s : str) : list str :=
  match find2 a b s with
  | Some (pre, post) => [pre; post]
  | None => [s]
  end.

(** [s.split(d)] for a non-empty separator [d].  [skip] counts the
    characters of a separator just matched that are still to be passed. *)
Fixpoint split_go (d : str) (skip : nat) (cur : str) (s : str) : list str :=
  match s with
  | [] => [rev cur]
  | c :: s' =>
    match skip with
    | S k => split_go d k cur s'
    | O =>
      if startswith d s
      then rev cur :: split_go d (Nat.pred (List.length d)) [] s'
      else split_go d O (c :: cur) s'
    end
  end.

Definition split (d s : str) : list str := split_go d O [] s.

(** [str.lower] restricted to the ASCII letters; the identity elsewhere.
    It agrees with Python on text without cased characters outside ASCII
    (in particular on CJK text). *)
Definition ascii_lower (s : str) : str :=
  List.map (fun c => if (65 <=? c) && (c <=? 90) then c + 32 else c)%N s.

Definition eqb (a b : str) : bool := bool_decide (a = b).

(** [x in l] for a list of strings. *)
Definition mem (x : str) (l : list str) : bool := existsb (eqb x) l.

End Py.

(** ** The streaming content buffer
    ([buffered_streaming_planning_nodes.py], class [StreamingContentBuffer]) *)

Module Buffer.
Import Py.

(** One call of the streaming callback: the dictionary
    [{"type": "plan_content_chunk", "content", "accumulated_content",
      "is_table"}]. *)
Record chunk := Chunk {
  content : str;
  accumulated_content : str;
  is_table : bool
}.

(** The two readings of [time.time()] an [add_content] call may make: the
    one compared with [last_send_time] and the one stored by
    [_send_buffer].  Time is counted in ticks of a millisecond; the
    readings are inputs, and no property below depends on them. *)
Record clock := Clock {
  t_check : Z;
  t_send : Z
}.

(** The fields of a [StreamingContentBuffer].  [has_callback] is
    [streaming_callback is not None]; [sent] is the sequence of calls made
    to the callback so far. *)
Record t := Mk {
  min_chunk_size : Z;
  max_buffer_time : Z;
  has_callback : bool;
  buffer : str;
  full_content : str;
  last_send_time : Z;
  chunk_count : Z;
  in_table : bool;
  table_buffer : str;
  table_line_count : Z;
  sent : list chunk
}.

(** Assignment to one attribute. *)
Definition with_buffer (v : str) (s : t) : t :=
  {| min_chunk_size := min_chunk_size s;
     max_buffer_time := max_buffer_time s;
     has_callback := has_callback s;
     buffer := v;
     full_content := full_content s;
     last_send_time := last_send_time s;
     chunk_count := chunk_count s;
     in_table := in_table s;
     table_buffer := table_buffer s;
     table_line_count := table_line_count s;
     sent := sent s |}.

Definition with_full_content (v : str) (s : t) : t :=
  {| min_chunk_size := min_chunk_size s;
     max_buffer_time := max_buffer_time s;
     has_callback := has_callback s;
     buffer := buffer s;
     full_content := v;
     last_send_time := last_send_time s;
     chunk_count := chunk_count s;
     in_table := in_table s;
     table_buffer := table_buffer s;
     table_line_count := table_line_count s;
     sent := sent s |}.

Definition with_last_send_time (v : Z) (s : t) : t :=
  {| min_chunk_size := min_chunk_size s;
     max_buffer_time := max_buffer_time s;
     has_callback := has_callback s;
     buffer := buffer s;
     full_content := full_content s;
     last_send_time := v;
     chunk_count := chunk_count s;
     in_table := in_table s;
     table_buffer := table_buffer s;
     table_line_count := table_line_count s;
     sent := sent s |}.

Definition with_chunk_count (v : Z) (s : t) : t :=
  {| min_chunk_size := min_chunk_size s;
     max_buffer_time := max_buffer_time s;
     has_callback := has_callback s;
     buffer := buffer s;
     full_content := full_content s;
     last_send_time := last_send_time s;
     chunk_count := v;
     in_table := in_table s;
     table_buffer := table_buffer s;
     table_line_count := table_line_count s;
     sent := sent s |}.

Definition with_in_table (v : bool) (s : t) : t :=
  {| min_chunk_size := min_chunk_size s;
     max_buffer_time := max_buffer_time s;
     has_callback := has_callback s;
     buffer := buffer s;
     full_content := full_content s;
     last_send_time := last_send_time s;
     chunk_count := chunk_count s;
     in_table := v;
     table_buffer := table_buffer s;
     table_line_count := table_line_count s;
     sent := sent s |}.

Definition with_table_buffer (v : str) (s : t) : t :=
  {| min_chunk_size := min_chunk_size s;
     max_buffer_time := max_buffer_time s;
     has_callback := has_callback s;
     buffer := buffer s;
     full_content := full_content s;
     last_send_time := last_send_time s;
     chunk_count := chunk_count s;
     in_table := in_table s;
     table_buffer := v;
     table_line_count := table_line_count s;
     sent := sent s |}.

Definition with_table_line_count (v : Z) (s : t) : t :=
  {| min_chunk_size := min_chunk_size s;
     max_buffer_time := max_buffer_time s;
     has_callback := has_callback s;
     buffer := buffer s;
     full_content := full_content s;
     last_send_time := last_send_time s;
     chunk_count := chunk_count s;
     in_table := in_table s;
     table_buffer := table_buffer s;
     table_line_count := v;
     sent := sent s |}.

Definition with_sent (v : list chunk) (s : t) : t :=
  {| min_chunk_size := min_chunk_size s;
     max_buffer_time := max_buffer_time s;
     has_callback := has_callback s;
     buffer := buffer s;
     full_content := full_content s;
     last_send_time := last_send_time s;
     chunk_count := chunk_count s;
     in_table := in_table s;
     table_buffer := table_buffer s;
     table_line_count := table_line_count s;
     sent := v |}.

(** [__init__] *)
Definition init (min_size max_time : Z) (callback : bool) (now : Z) : t :=
  {| min_chunk_size := min_size; max_buffer_time := max_time;
     has_callback := callback;
     buffer := []; full_content := []; last_send_time := now;
     chunk_count := 0; in_table := false; table_buffer := [];
     table_line_count := 0; sent := [] |}.

(** [_send_table] *)
Definition _send_table (s : t) : t :=
  if truthy (table_buffer s) && has_callback s then
    with_table_line_count 0
      (with_table_buffer []
        (with_sent (sent s ++ [Chunk (table_buffer s) (full_content s) true])
           s))
  else s.

(** [_send_buffer] *)
Definition _send_buffer (now : Z) (s : t) : t :=
  if truthy (buffer s) && has_callback s then
    with_chunk_count 0
      (with_last_send_time now
        (with_buffer []
          (with_sent (sent s ++ [Chunk (buffer s) (full_content s) false])
             s)))
  else s.

(** The first statement of [add_content]:
    [content_chunk.replace('\r\n', '\n').replace('\r', '\n')]. *)
Definition normalize (content_chunk : str) : str :=
  replace1 CR [LF] (replace2 CR LF [LF] content_chunk).

Definition table_marker : str := u "| ---".
Definition blank_line : str := [LF; LF].

(** The test that ends a table. *)
Definition table_ends (content_chunk : str) (s : t) : bool :=
  contains blank_line (table_buffer s)
  || (contains [LF] content_chunk
      && negb (startswith [PIPE] (strip content_chunk))
      && (3 <=? table_line_count s)).

(** The table branch of [add_content], entered with [in_table] set. *)
Definition add_in_table (content_chunk : str) (s0 : t) : t :=
  let s :=
    with_table_line_count (table_line_count s0 + count LF content_chunk)
      (with_table_buffer (table_buffer s0 ++ content_chunk) s0) in
  if table_ends content_chunk s then
    let s1 := _send_table (with_in_table false s) in
    match split2_once LF LF content_chunk with
    | _ :: rest :: _ => with_buffer (blank_line ++ rest) s1
    | _ => s1
    end
  else s.

(** The branch of [add_content] that opens a table. *)
Definition open_table (clk : clock) (content_chunk : str) (s0 : t) : t :=
  let s1 := with_in_table true s0 in
  let s2 := if truthy (buffer s1) then _send_buffer (t_send clk) s1 else s1 in
  with_table_line_count (count LF content_chunk)
    (with_buffer []
      (with_table_buffer (buffer s2 ++ content_chunk) s2)).

(** The test that sends ordinary content. *)
Definition should_send (clk : clock) (s : t) : bool :=
  let time_since_last_send := t_check clk - last_send_time s in
  (min_chunk_size s <=? len (buffer s))
  || (max_buffer_time s <=? time_since_last_send)
  || contains blank_line (buffer s)
  || (10 <=? chunk_count s).

(** The last branch of [add_content]: ordinary content. *)
Definition add_ordinary (clk : clock) (content_chunk : str) (s0 : t) : t :=
  let s :=
    with_chunk_count (chunk_count s0 + 1)
      (with_buffer (buffer s0 ++ content_chunk) s0) in
  if should_send clk s then _send_buffer (t_send clk) s else s.

(** [add_content] *)
Definition add_content (clk : clock) (chunk0 : str) (s0 : t) : t :=
  let content_chunk := normalize chunk0 in
  let s := with_full_content (full_content s0 ++ content_chunk) s0 in
  if contains table_marker content_chunk && negb (in_table s)
  then open_table clk content_chunk s
  else if in_table s then add_in_table content_chunk s
  else add_ordinary clk content_chunk s.

(** [flush]; [now] is the clock reading [_send_buffer] stores. *)
Definition flush (now : Z) (s : t) : t :=
  let s1 := if truthy (table_buffer s) then _send_table s else s in
  if truthy (buffer s1) then _send_buffer now s1 else s1.

(** A sequence of [add_content] calls, each with its clock readings. *)
Definition feed (inputs : list (clock * str)) (s : t) : t :=
  fold_left (fun acc i => add_content (fst i) (snd i) acc) inputs s.

(** The inputs, then one final [flush]. *)
Definition run (inputs : list (clock * str)) (now : Z) (s : t) : t :=
  flush now (feed inputs s).

(** Concatenation of the ["content"] fields of the calls made. *)
Definition emitted (s : t) : str := concat (List.map content (sent s)).

(** The text a fragment repeats when it closes a table: [add_in_table]
    sends the whole table buffer, the fragment included, and then puts
    the part of the fragment after its first blank line into [buffer]
    again. *)
Definition repeated (in_tbl : bool) (content_chunk : str) : str :=
  if in_tbl then
    match find2 LF LF content_chunk with
    | Some (_, rest) => blank_line ++ rest
    | None => []
    end
  else [].

(** No fragment of [inputs] that arrives in table mode holds a blank
    line, from state [s] on. *)
Fixpoint no_blank_line_in_table (inputs : list (clock * str)) (s : t) : bool :=
  match inputs with
  | [] => true
  | i :: rest =>
    negb (in_table s && contains blank_line (normalize (snd i)))
    && no_blank_line_in_table rest (add_content (fst i) (snd i) s)
  end.

(** Everything the buffer has taken in and not lost: what was sent, then
    what the two buffers hold. *)
Definition total (s : t) : str :=
  emitted s ++ table_buffer s ++ buffer s.

(** With a callback, at most one of the two buffers is in use. *)
Definition well_formed (s : t) : Prop :=
  has_callback s = true
  /\ (in_table s = true -> buffer s = [])
  /\ (in_table s = false -> table_buffer s = []).

(** What a sequence of fragments makes the buffer send in all: every
    fragment normalised, followed by what it repeats. *)
Fixpoint echo (inputs : list (clock * str)) (s : t) : str :=
  match inputs with
  | [] => []
  | i :: rest =>
    normalize (snd i) ++ repeated (in_table s) (normalize (snd i))
    ++ echo rest (add_content (fst i) (snd i) s)
  end.

(** Chunks with content only. *)
Definition nonempty_chunks (s : t) : Prop :=
  Forall (fun c => content c <> []) (sent s).

End Buffer.

(** ** One streaming generation call
    ([call_deepseek_streaming_api_buffered]) *)

Module Streaming.
Import Py.

(** What one line of a network chunk does once it is stripped, checked
    for the ['data: '] prefix and parsed. *)
Inductive line :=
| LineDone
  (** ['data: [DONE]'], which leaves the loop over the lines *)
| LineSkip
  (** no ['data: '] prefix, an empty payload, a [JSONDecodeError], or a
      payload without [choices[0].delta.content] *)
| LineDelta (clk : Buffer.clock) (content_chunk : str)
  (** a payload with [delta['content']] *)
| LineFault.
  (** any other exception raised while the chunk is handled; the handler
      around the chunk body logs it and goes on with the next chunk.
      The callback itself is taken to return normally. *)

Inductive exn :=
| TimeoutError
| CancelledError
| OtherException.

(** What the asynchronous iterator [response.content.iter_chunked(1024)]
    does at each step before the body ends: it yields a chunk, or
    raises. *)
Inductive net_event :=
| NetChunk (lines : list line)
| NetRaise (e : exn).

Inductive api_result :=
| ApiSuccess (content : str)
| ApiFailure
| ApiPropagated (e : exn).

Record outcome := Outcome {
  result : api_result;
  content_buffer : option Buffer.t;
  flushed : bool
}.

(** The loop [for line in lines] of one chunk. [acc] is [full_content]
    of the call and the buffer. *)
Fixpoint handle_lines (lines : list line) (acc : str * Buffer.t)
  : str * Buffer.t :=
  match lines with
  | [] => acc
  | LineDone :: _ => acc
  | LineSkip :: rest => handle_lines rest acc
  | LineDelta clk content_chunk :: rest =>
    handle_lines rest
      (fst acc ++ content_chunk, Buffer.add_content clk content_chunk (snd acc))
  | LineFault :: _ => acc
  end.

(** The loop [async for chunk in ...]: the state when the body ends, or
    when the iterator raises. *)
Fixpoint iter_chunked (body : list net_event) (acc : str * Buffer.t)
  : str * Buffer.t * option exn :=
  match body with
  | [] => (acc, None)
  | NetChunk lines :: rest => iter_chunked rest (handle_lines lines acc)
  | NetRaise e :: _ => (acc, Some e)
  end.

(** The handlers at the end of the function: [asyncio.TimeoutError] and
    [Exception] give an error result; [CancelledError] derives from
    [BaseException] and is not caught. *)
Definition on_exception (e : exn) : api_result :=
  match e with
  | TimeoutError => ApiFailure
  | OtherException => ApiFailure
  | CancelledError => ApiPropagated CancelledError
  end.

(** [call_deepseek_streaming_api_buffered].  [api_key] is the truth value
    of [DEEPSEEK_API_KEY]; [connect] is what opening the session and
    posting the request raise, if anything; [status] is the response
    status; [body] is the behaviour of the body iterator; [t0] and
    [t_end] are the clock readings at construction and in [flush]. *)
Definition call_deepseek_streaming_api_buffered
    (api_key : bool) (streaming_callback : bool) (t0 : Z)
    (connect : option exn) (status : Z) (body : list net_event) (t_end : Z)
  : outcome :=
  if negb api_key then Outcome ApiFailure None false
  else
    let content_buffer := Buffer.init 10 300 streaming_callback t0 in
    match connect with
    | Some e => Outcome (on_exception e) (Some content_buffer) false
    | None =>
      if negb (status =? 200) then Outcome ApiFailure (Some content_buffer) false
      else
        match iter_chunked body ([], content_buffer) with
        | (full_content, b, Some e) => Outcome (on_exception e) (Some b) false
        | (full_content, b, None) =>
          let b' := Buffer.flush t_end b in
          if truthy full_content
          then Outcome (ApiSuccess full_content) (Some b') true
          else Outcome ApiFailure (Some b') true
        end
    end.

(** The body iterator never raises. *)
Definition ends_normally (body : list net_event) : bool :=
  forallb (fun ev => match ev with NetChunk _ => true | NetRaise _ => false end)
          body.

(** Text held back in the buffer of an outcome: in [buffer] or in
    [table_buffer]. *)
Definition held (o : outcome) : str :=
  match content_buffer o with
  | Some b => Buffer.table_buffer b ++ Buffer.buffer b
  | None => []
  end.

End Streaming.

(** ** The uncertainty gate
    ([uncertainty_calculator.py], class [ParameterUncertaintyCalculator]) *)

Module Gate.
Import Py.
Local Open Scope Q_scope.

(** The vocabulary file [monitoring_target_vocabulary.json]: the
    professional terms with their keywords, and the synonyms with their
    main terms, in file order. *)
Record vocabulary := Vocabulary {
  professional_terms : list (str * list str);
  synonyms : list (str * list str)
}.

(** What the calculator consults outside its own code.  Both remote
    checks return [False] when they fail. *)
Record collaborators := Collaborators {
  lower : str -> str;
  vocab : vocabulary;
  _check_web_search : str -> bool;
  _check_llm_professional : str -> bool
}.

(** [self.weights] and [self.threshold] of [__init__]. *)
Definition w_knowledge_base : Q := 2 # 10.
Definition w_web_search : Q := 3 # 10.
Definition w_llm_judgment : Q := 5 # 10.
Definition threshold : Q := 5 # 10.

Record details := Details {
  existence : bool;
  knowledge_base_match : bool;
  web_search_match : bool;
  llm_professional : bool;
  matched_terms : list str;
  confidence_level : str;
  clarity_score : option Q
}.

Record verdict := Verdict {
  uncertainty_score : Q;
  needs_clarification : bool;
  verdict_details : details
}.

(** [x > y] *)
Definition Qgtb (x y : Q) : bool := negb (Qle_bool x y).

(** [round(x, 2)]: the nearest multiple of 1/100, ties to the even one. *)
Definition round2 (x : Q) : Q :=
  let y := x * 100 in
  let n := Qfloor y in
  let r := y - inject_Z n in
  let up := Qgtb r (1 # 2) || (Qeq_bool r (1 # 2) && Z.odd n) in
  inject_Z (if up then n + 1 else n) / 100.

Definition hit (c : collaborators) (target_text needle : str) : bool :=
  contains needle target_text
  || contains (lower c needle) (lower c target_text).

(** [_check_knowledge_base] *)
Fixpoint scan_keywords (c : collaborators) (target_text term : str)
    (keywords : list str) : option (list str) :=
  match keywords with
  | [] => None
  | keyword :: rest =>
    if hit c target_text keyword
    then Some [term ++ u "(关键词:" ++ keyword ++ u ")"]
    else scan_keywords c target_text term rest
  end.

Fixpoint scan_terms (c : collaborators) (target_text : str)
    (terms : list (str * list str)) : option (list str) :=
  match terms with
  | [] => None
  | (term, keywords) :: rest =>
    if hit c target_text term then Some [term]
    else match scan_keywords c target_text term keywords with
         | Some m => Some m
         | None => scan_terms c target_text rest
         end
  end.

Fixpoint scan_synonyms (c : collaborators) (target_text : str)
    (syns : list (str * list str)) : option (list str) :=
  match syns with
  | [] => None
  | (synonym, main_terms) :: rest =>
    if hit c target_text synonym then Some main_terms
    else scan_synonyms c target_text rest
  end.

Definition _check_knowledge_base (c : collaborators) (target_text : str)
  : bool * list str :=
  match scan_terms c target_text (professional_terms (vocab c)) with
  | Some m => (true, m)
  | None =>
    match scan_synonyms c target_text (synonyms (vocab c)) with
    | Some m => (true, m)
    | None => (false, [])
    end
  end.

Definition b2q (b : bool) : Q := if b then 1 else 0.

(** The weighted sum and its complement, lines 93 to 103. *)
Definition clarity (kb web llm : bool) : Q :=
  w_knowledge_base * b2q kb + w_web_search * b2q web
  + w_llm_judgment * b2q llm.

Definition uncertainty (kb web llm : bool) : Q := 1 - clarity kb web llm.

Definition clarify (kb web llm : bool) : bool :=
  Qgtb (uncertainty kb web llm) threshold.

(** [not target_text or not target_text.strip()] *)
Definition absent (target_text : option str) : bool :=
  match target_text with
  | None => true
  | Some s => negb (truthy s) || negb (truthy (strip s))
  end.

(** [calculate_monitoring_target_uncertainty] *)
Definition calculate_monitoring_target_uncertainty (c : collaborators)
    (target_text : option str) (enable_web_search enable_llm : bool)
  : verdict :=
  match target_text with
  | Some s =>
    if absent target_text then
      Verdict 1 true (Details false false false false [] (u "none") None)
    else
      let target_text := strip s in
      let '(kb_match, matched) := _check_knowledge_base c target_text in
      let web_match :=
        if enable_web_search then _check_web_search c target_text else false in
      let llm_match :=
        if enable_llm then _check_llm_professional c target_text else false in
      let clarity_score := clarity kb_match web_match llm_match in
      let uncertainty_score := 1 - clarity_score in
      let needs := Qgtb uncertainty_score threshold in
      let confidence_level :=
        if Qle_bool (7 # 10) clarity_score then u "high"
        else if Qle_bool (4 # 10) clarity_score then u "medium"
        else u "low" in
      Verdict (round2 uncertainty_score) needs
        (Details true kb_match web_match llm_match matched confidence_level
                 (Some (round2 clarity_score)))
  | None =>
    Verdict 1 true (Details false false false false [] (u "none") None)
  end.

(** [accept] of the specification: the value needs no clarification. *)
Definition accept (v : verdict) : bool := negb (needs_clarification v).

(** The same decision computed in IEEE 754 binary64, the arithmetic the
    interpreter uses for lines 93 to 103. *)
Definition b2f (b : bool) : float := if b then 1%float else 0%float.

#[warnings="-inexact-float"]
Definition clarify_binary64 (kb web llm : bool) : bool :=
  let clarity_score :=
    (0.2 * b2f kb + 0.3 * b2f web + 0.5 * b2f llm)%float in
  PrimFloat.ltb 0.5%float (1 - clarity_score)%float.

(** Signals ordered pointwise: [false] below [true]. *)
Definition signal_le (a b : bool) : Prop := a = true -> b = true.

End Gate.

(** ** The response parser
    ([enhanced_parameter_clarification_node.py], [parse_user_response],
    [_parse_response_by_rules], [_check_skip_remaining]) *)

Module Parser.
Import Py.

(** An entry of a question's ["options"]: a dictionary with ["value"],
    ["label"] and possibly ["description"], or a bare string. *)
Inductive choice :=
| ChoiceDict (value label : str) (description : option str)
| ChoiceStr (s : str).

(** The fields of a pending question the controller and the parser read.
    The prompt, hint and example texts are left out. *)
Record question := Question {
  parameter_key : str;
  parameter_name : option str;
  options : list choice;
  required : bool;
  stage : str;
  retry_count : Z
}.

(** What the parser calls outside its own code.
    - [lower] is [str.lower];
    - [search_labelled name response] is group 1 of
      [re.search(f"{name}[:：]\s*(.+?)(?=\s*(?:{name}|$))", response,
      re.IGNORECASE | re.DOTALL)];
    - [_extract_param_value_from_response] is the method of that name,
      a cascade of regular-expression searches per parameter kind;
    - [analyze_user_response] is the language-model analysis:
      [Some (parsed_parameters, skip_remaining)], or [None] when the
      call raises. *)
Record env := Env {
  lower : str -> str;
  search_labelled : str -> str -> option str;
  _extract_param_value_from_response : str -> question -> option str;
  ai_mode_enabled : bool;
  analyze_user_response :
    str -> list question -> option (gmap str str * bool)
}.

Definition skip_words : list str :=
  [u "跳过技术参数"; u "技术参数用默认"; u "使用推荐参数"; u "使用默认值"].

(** One turn of the inner loop [for option in question['options']]. *)
Definition choice_hit (response : str) (o : choice) : option str :=
  match o with
  | ChoiceDict value label _ =>
    if contains value response || contains label response
    then Some value else None
  | ChoiceStr s => if contains s response then Some s else None
  end.

Fixpoint first_hit (response : str) (os : list choice) : option str :=
  match os with
  | [] => None
  | o :: rest =>
    match choice_hit response o with
    | Some v => Some v
    | None => first_hit response rest
    end
  end.

(** The first loop over the questions: exact option matching. *)
Definition exact_step (response : str) (parsed : gmap str str) (q : question)
  : gmap str str :=
  match first_hit response (options q) with
  | Some v => <[parameter_key q := v]> parsed
  | None => parsed
  end.

Definition exact_pass (response : str) (questions : list question)
  : gmap str str :=
  fold_left (exact_step response) questions ∅.

Definition delimiters : list str :=
  [u " | "; u "|"; u "，"; u ","; u "；"; u ";"; [LF]].

(** [parts]: the response cut at the first delimiter of the list that
    occurs in it. *)
Definition parts_of (response : str) : list str :=
  match List.find (fun d => contains d response) delimiters with
  | Some d => split d response
  | None => [response]
  end.

(** [for i, part in enumerate(parts)]: positional assignment. *)
Definition positional_step (parsed : gmap str str) (pq : str * question)
  : gmap str str :=
  match parsed !! parameter_key (snd pq) with
  | Some _ => parsed
  | None => <[parameter_key (snd pq) := strip (fst pq)]> parsed
  end.

Definition positional (parts : list str) (questions : list question)
    (parsed : gmap str str) : gmap str str :=
  fold_left positional_step (combine parts questions) parsed.

(** [re.sub(r'[。，,;；]+$', '', value)] on a stripped value. *)
Definition trailing_punct (c : N) : bool :=
  existsb (N.eqb c) (u "。，,;；").

Fixpoint drop_leading (f : N -> bool) (s : str) : str :=
  match s with
  | [] => []
  | c :: s' => if f c then drop_leading f s' else s
  end.

Definition sub_trailing_punct (value : str) : str :=
  rev (drop_leading trailing_punct (rev value)).

(** [for pattern in param_patterns]: the name pattern, then the key
    pattern. *)
Definition labelled (e : env) (response : str) (q : question)
    (parsed : gmap str str) : gmap str str :=
  let param_key := parameter_key q in
  let name := default param_key (parameter_name q) in
  match search_labelled e name response with
  | Some g => <[param_key := sub_trailing_punct (strip g)]> parsed
  | None =>
    match search_labelled e param_key response with
    | Some g => <[param_key := sub_trailing_punct (strip g)]> parsed
    | None => parsed
    end
  end.

(** The body of the second loop over the questions. *)
Definition rule_step (e : env) (response : str) (questions : list question)
    (parsed : gmap str str) (q : question) : gmap str str :=
  let param_key := parameter_key q in
  match parsed !! param_key with
  | Some _ => parsed
  | None =>
    let parts := parts_of response in
    if Nat.eqb (List.length parts) (List.length questions)
    then positional parts questions parsed
    else
      let parsed1 := labelled e response q parsed in
      match parsed1 !! param_key with
      | Some _ => parsed1
      | None =>
        match _extract_param_value_from_response e response q with
        | Some value =>
          if truthy value then <[param_key := value]> parsed1 else parsed1
        | None => parsed1
        end
      end
  end.

Definition affirmatives : list str := [u "是"; u "否"; u "好"; u "可以"].

(** The test of the last loop: [len(value) < 2 or value in [...]] on
    the stripped value. *)
Definition noise (value : str) : bool :=
  let value := strip value in
  (len value <? 2) || mem value affirmatives.

(** The last loop: [del parsed[param_key]] for every noisy value. *)
Definition validate (parsed : gmap str str) : gmap str str :=
  filter (fun kv => noise (snd kv) = false) parsed.

(** [_parse_response_by_rules] *)
Definition _parse_response_by_rules (e : env) (response : str)
    (questions : list question) : gmap str str :=
  let response_lower := lower e response in
  if existsb (fun skip_word => contains skip_word response_lower) skip_words
  then ∅
  else
    let parsed := exact_pass response questions in
    if Nat.eqb (size parsed) (List.length questions) then parsed
    else
      validate (fold_left (rule_step e response questions) questions parsed).

Definition skip_phrases : list str :=
  [u "跳过"; u "默认"; u "推荐"; u "自动"; u "快速生成";
   u "不用问了"; u "直接生成"; u "都行"; u "随便";
   u "跳过技术参数"; u "技术参数用默认"; u "使用推荐参数"].

(** [_check_skip_remaining] *)
Definition _check_skip_remaining (e : env) (response : str) : bool :=
  let response_lower := lower e response in
  existsb (fun phrase => contains phrase response_lower) skip_phrases.

Record parse_result := ParseResult {
  parameters : gmap str str;
  skip_remaining : bool
}.

(** [parse_user_response] *)
Definition parse_user_response (e : env) (response : str)
    (pending_questions : list question) : parse_result :=
  let by_rules :=
    ParseResult (_parse_response_by_rules e response pending_questions)
                (_check_skip_remaining e response) in
  if ai_mode_enabled e then
    match analyze_user_response e response pending_questions with
    | Some (parsed_params, skip) =>
      if bool_decide (parsed_params = ∅)
      then ParseResult
             (_parse_response_by_rules e response pending_questions) skip
      else ParseResult parsed_params skip
    | None => by_rules
    end
  else by_rules.

(** The parameter keys of the pending questions. *)
Definition pending_keys (questions : list question) : list str :=
  List.map parameter_key questions.

(** Every key of [m] is the key of a question of [questions]. *)
Definition keys_within (questions : list question) (m : gmap str str) : Prop :=
  forall k, is_Some (m !! k) -> In k (pending_keys questions).

End Parser.

(** ** The staged controller
    ([staged_parameter_clarification_node.py], [state.py], and
    [should_skip_clarification], [_is_new_requirement],
    [extract_existing_parameters], [apply_smart_defaults] of
    [enhanced_parameter_clarification_node.py]) *)

Module Stage.
Import Py.
Import Parser.

(** A [Message]: role and content. *)
Record message := Message {
  role : str;
  msg_content : str
}.

(** The entries [set_collection_stage] and the end of
    [process_staged_parameter_clarification] append to [thinking_steps]:
    ["参数收集阶段" / "进入 {stage} 阶段"] and
    ["{name}参数收集" / "需要澄清 {n} 个参数"]. *)
Inductive step :=
| StepEnter (stage : str)
| StepAsk (stage : str) (n : nat).

(** A value of an uncertainty dictionary: the two entries read outside
    the calculator. *)
Record uresult := UResult {
  needs_clarification : bool;
  uncertainty_score : Q
}.

(** The dictionaries handed to [streaming_callback]. *)
Inductive event :=
| ClarificationStart
| ClarificationComplete (parameters : gmap str str)
| ClarificationQuestions (questions : list question) (stage : str)
                         (retry_count : Z)
| StageComplete (stage : str) (collected_params : gmap str str).

(** [WorkflowState]: the fields the controller reads or writes.  The
    entries of [metadata] are fields of their own, an absent entry being
    its default; [parameter_collection_history] keeps the ["stage"] of
    each record; [callback_log] is the sequence of calls made to
    [streaming_callback]. *)
Record WorkflowState := Mk {
  messages : list message;
  current_stage : str;
  thinking_steps : list step;
  parameter_collection_stage : str;
  parameter_collection_history : list str;
  stage_retry_count : gmap str Z;
  extracted_parameters : gmap str str;
  clarification_completed : bool;
  clarification_skipped : bool;
  awaiting_clarification : bool;
  pending_questions : list question;
  current_stage_uncertainty : gmap str uresult;
  callback_log : list event
}.

Definition with_messages (v : list message) (s : WorkflowState) : WorkflowState :=
  {| messages := v;
     current_stage := current_stage s;
     thinking_steps := thinking_steps s;
     parameter_collection_stage := parameter_collection_stage s;
     parameter_collection_history := parameter_collection_history s;
     stage_retry_count := stage_retry_count s;
     extracted_parameters := extracted_parameters s;
     clarification_completed := clarification_completed s;
     clarification_skipped := clarification_skipped s;
     awaiting_clarification := awaiting_clarification s;
     pending_questions := pending_questions s;
     current_stage_uncertainty := current_stage_uncertainty s;
     callback_log := callback_log s |}.

Definition with_current_stage (v : str) (s : WorkflowState) : WorkflowState :=
  {| messages := messages s;
     current_stage := v;
     thinking_steps := thinking_steps s;
     parameter_collection_stage := parameter_collection_stage s;
     parameter_collection_history := parameter_collection_history s;
     stage_retry_count := stage_retry_count s;
     extracted_parameters := extracted_parameters s;
     clarification_completed := clarification_completed s;
     clarification_skipped := clarification_skipped s;
     awaiting_clarification := awaiting_clarification s;
     pending_questions := pending_questions s;
     current_stage_uncertainty := current_stage_uncertainty s;
     callback_log := callback_log s |}.

Definition with_thinking_steps (v : list step) (s : WorkflowState) : WorkflowState :=
  {| messages := messages s;
     current_stage := current_stage s;
     thinking_steps := v;
     parameter_collection_stage := parameter_collection_stage s;
     parameter_collection_history := parameter_collection_history s;
     stage_retry_count := stage_retry_count s;
     extracted_parameters := extracted_parameters s;
     clarification_completed := clarification_completed s;
     clarification_skipped := clarification_skipped s;
     awaiting_clarification := awaiting_clarification s;
     pending_questions := pending_questions s;
     current_stage_uncertainty := current_stage_uncertainty s;
     callback_log := callback_log s |}.

Definition with_parameter_collection_stage (v : str) (s : WorkflowState) : WorkflowState :=
  {| messages := messages s;
     current_stage := current_stage s;
     thinking_steps := thinking_steps s;
     parameter_collection_stage := v;
     parameter_collection_history := parameter_collection_history s;
     stage_retry_count := stage_retry_count s;
     extracted_parameters := extracted_parameters s;
     clarification_completed := clarification_completed s;
     clarification_skipped := clarification_skipped s;
     awaiting_clarification := awaiting_clarification s;
     pending_questions := pending_questions s;
     current_stage_uncertainty := current_stage_uncertainty s;
     callback_log := callback_log s |}.

Definition with_parameter_collection_history (v : list str) (s : WorkflowState) : WorkflowState :=
  {| messages := messages s;
     current_stage := current_stage s;
     thinking_steps := thinking_steps s;
     parameter_collection_stage := parameter_collection_stage s;
     parameter_collection_history := v;
     stage_retry_count := stage_retry_count s;
     extracted_parameters := extracted_parameters s;
     clarification_completed := clarification_completed s;
     clarification_skipped := clarification_skipped s;
     awaiting_clarification := awaiting_clarification s;
     pending_questions := pending_questions s;
     current_stage_uncertainty := current_stage_uncertainty s;
     callback_log := callback_log s |}.

Definition with_stage_retry_count (v : gmap str Z) (s : WorkflowState) : WorkflowState :=
  {| messages := messages s;
     current_stage := current_stage s;
     thinking_steps := thinking_steps s;
     parameter_collection_stage := parameter_collection_stage s;
     parameter_collection_history := parameter_collection_history s;
     stage_retry_count := v;
     extracted_parameters := extracted_parameters s;
     clarification_completed := clarification_completed s;
     clarification_skipped := clarification_skipped s;
     awaiting_clarification := awaiting_clarification s;
     pending_questions := pending_questions s;
     current_stage_uncertainty := current_stage_uncertainty s;
     callback_log := callback_log s |}.

Definition with_extracted_parameters (v : gmap str str) (s : WorkflowState) : WorkflowState :=
  {| messages := messages s;
     current_stage := current_stage s;
     thinking_steps := thinking_steps s;
     parameter_collection_stage := parameter_collection_stage s;
     parameter_collection_history := parameter_collection_history s;
     stage_retry_count := stage_retry_count s;
     extracted_parameters := v;
     clarification_completed := clarification_completed s;
     clarification_skipped := clarification_skipped s;
     awaiting_clarification := awaiting_clarification s;
     pending_questions := pending_questions s;
     current_stage_uncertainty := current_stage_uncertainty s;
     callback_log := callback_log s |}.

Definition with_clarification_completed (v : bool) (s : WorkflowState) : WorkflowState :=
  {| messages := messages s;
     current_stage := current_stage s;
     thinking_steps := thinking_steps s;
     parameter_collection_stage := parameter_collection_stage s;
     parameter_collection_history := parameter_collection_history s;
     stage_retry_count := stage_retry_count s;
     extracted_parameters := extracted_parameters s;
     clarification_completed := v;
     clarification_skipped := clarification_skipped s;
     awaiting_clarification := awaiting_clarification s;
     pending_questions := pending_questions s;
     current_stage_uncertainty := current_stage_uncertainty s;
     callback_log := callback_log s |}.

Definition with_clarification_skipped (v : bool) (s : WorkflowState) : WorkflowState :=
  {| messages := messages s;
     current_stage := current_stage s;
     thinking_steps := thinking_steps s;
     parameter_collection_stage := parameter_collection_stage s;
     parameter_collection_history := parameter_collection_history s;
     stage_retry_count := stage_retry_count s;
     extracted_parameters := extracted_parameters s;
     clarification_completed := clarification_completed s;
     clarification_skipped := v;
     awaiting_clarification := awaiting_clarification s;
     pending_questions := pending_questions s;
     current_stage_uncertainty := current_stage_uncertainty s;
     callback_log := callback_log s |}.

Definition with_awaiting_clarification (v : bool) (s : WorkflowState) : WorkflowState :=
  {| messages := messages s;
     current_stage := current_stage s;
     thinking_steps := thinking_steps s;
     parameter_collection_stage := parameter_collection_stage s;
     parameter_collection_history := parameter_collection_history s;
     stage_retry_count := stage_retry_count s;
     extracted_parameters := extracted_parameters s;
     clarification_completed := clarification_completed s;
     clarification_skipped := clarification_skipped s;
     awaiting_clarification := v;
     pending_questions := pending_questions s;
     current_stage_uncertainty := current_stage_uncertainty s;
     callback_log := callback_log s |}.

Definition with_pending_questions (v : list question) (s : WorkflowState) : WorkflowState :=
  {| messages := messages s;
     current_stage := current_stage s;
     thinking_steps := thinking_steps s;
     parameter_collection_stage := parameter_collection_stage s;
     parameter_collection_history := parameter_collection_history s;
     stage_retry_count := stage_retry_count s;
     extracted_parameters := extracted_parameters s;
     clarification_completed := clarification_completed s;
     clarification_skipped := clarification_skipped s;
     awaiting_clarification := awaiting_clarification s;
     pending_questions := v;
     current_stage_uncertainty := current_stage_uncertainty s;
     callback_log := callback_log s |}.

Definition with_current_stage_uncertainty (v : gmap str uresult) (s : WorkflowState) : WorkflowState :=
  {| messages := messages s;
     current_stage := current_stage s;
     thinking_steps := thinking_steps s;
     parameter_collection_stage := parameter_collection_stage s;
     parameter_collection_history := parameter_collection_history s;
     stage_retry_count := stage_retry_count s;
     extracted_parameters := extracted_parameters s;
     clarification_completed := clarification_completed s;
     clarification_skipped := clarification_skipped s;
     awaiting_clarification := awaiting_clarification s;
     pending_questions := pending_questions s;
     current_stage_uncertainty := v;
     callback_log := callback_log s |}.

Definition with_callback_log (v : list event) (s : WorkflowState) : WorkflowState :=
  {| messages := messages s;
     current_stage := current_stage s;
     thinking_steps := thinking_steps s;
     parameter_collection_stage := parameter_collection_stage s;
     parameter_collection_history := parameter_collection_history s;
     stage_retry_count := stage_retry_count s;
     extracted_parameters := extracted_parameters s;
     clarification_completed := clarification_completed s;
     clarification_skipped := clarification_skipped s;
     awaiting_clarification := awaiting_clarification s;
     pending_questions := pending_questions s;
     current_stage_uncertainty := current_stage_uncertainty s;
     callback_log := v |}.


(** [WorkflowState()] *)
Definition initial : WorkflowState :=
  {| messages := []; current_stage := u "requirement_analysis";
     thinking_steps := [];
     parameter_collection_stage := u "not_started";
     parameter_collection_history := [];
     stage_retry_count := ∅;
     extracted_parameters := ∅;
     clarification_completed := false; clarification_skipped := false;
     awaiting_clarification := false; pending_questions := [];
     current_stage_uncertainty := ∅; callback_log := [] |}.

(** [add_message] *)
Definition add_message (r content : str) (s : WorkflowState) : WorkflowState :=
  with_messages (messages s ++ [Message r content]) s.

(** [get_current_collection_stage] *)
Definition get_current_collection_stage (s : WorkflowState) : str :=
  parameter_collection_stage s.

(** [set_collection_stage] *)
Definition set_collection_stage (stage : str) (s : WorkflowState)
  : WorkflowState :=
  with_thinking_steps (thinking_steps s ++ [StepEnter stage])
    (with_parameter_collection_stage stage s).

(** [stage_retry_count.get(stage, 0)] *)
Definition retries (stage : str) (s : WorkflowState) : Z :=
  default 0 (stage_retry_count s !! stage).

(** [increment_stage_retry] *)
Definition increment_stage_retry (stage : str) (s : WorkflowState)
  : WorkflowState :=
  with_stage_retry_count (<[stage := retries stage s + 1]> (stage_retry_count s)) s.

(** [streaming_callback(ev)] when a callback was given. *)
Definition emit (callback : bool) (ev : event) (s : WorkflowState)
  : WorkflowState :=
  if callback then with_callback_log (callback_log s ++ [ev]) s else s.

(** The reset [analyze_intent] of [workflow_streaming.py] applies when a
    new plan is requested while a plan exists. *)
Definition reset_clarification (s : WorkflowState) : WorkflowState :=
  with_stage_retry_count ∅
    (with_parameter_collection_history []
      (with_parameter_collection_stage (u "not_started")
        (with_pending_questions []
          (with_awaiting_clarification false
            (with_extracted_parameters ∅
              (with_clarification_skipped false
                (with_clarification_completed false s))))))).

(** An entry of [COLLECTION_STAGES]. *)
Record stage_info := StageInfo {
  name : str;
  params : list str;
  stage_required : bool;
  max_retries : Z
}.

Definition COLLECTION_STAGES : list (str * stage_info) :=
  [ (u "purpose",
     StageInfo (u "监测目标") [u "monitoring_target"] true 2);
    (u "time",
     StageInfo (u "时间参数")
               [u "observation_frequency"; u "monitoring_period"] true 2);
    (u "location_area",
     StageInfo (u "观测区域") [u "observation_area"] true 2);
    (u "location_range",
     StageInfo (u "覆盖范围") [u "coverage_range"] true 2);
    (u "technical",
     StageInfo (u "技术参数")
               [u "spatial_resolution"; u "spectral_bands";
                u "analysis_requirements"; u "output_format";
                u "accuracy_requirements"] false 1) ].

(** [COLLECTION_STAGES[stage]]; [None] is the [KeyError]. *)
Fixpoint assoc {A} (k : str) (l : list (str * A)) : option A :=
  match l with
  | [] => None
  | (k', v) :: rest => if eqb k k' then Some v else assoc k rest
  end.

Definition stage_entry (stage : str) : option stage_info :=
  assoc stage COLLECTION_STAGES.

Definition stage_order : list str :=
  [u "purpose"; u "time"; u "location_area"; u "location_range"; u "technical"].

(** [l.index(x)]; [None] is the [ValueError]. *)
Fixpoint index (x : str) (l : list str) : option nat :=
  match l with
  | [] => None
  | y :: rest => if eqb x y then Some O else option_map S (index x rest)
  end.

(** [_user_wants_stage]: both branches return [True]. *)
Definition _user_wants_stage (s : WorkflowState) (stage : str) : bool :=
  if eqb stage (u "technical") then true else true.

(** The test of the loop body of [get_next_collection_stage]. *)
Definition needs_stage (s : WorkflowState) (next_stage : str) : bool :=
  match stage_entry next_stage with
  | Some info =>
    let missing_params :=
      List.filter (fun p => bool_decide (extracted_parameters s !! p = None))
                  (params info) in
    negb (Nat.eqb (List.length missing_params) 0)
    && (stage_required info || _user_wants_stage s next_stage)
  | None => false
  end.

(** [get_next_collection_stage] *)
Definition get_next_collection_stage (s : WorkflowState) : option str :=
  let current := get_current_collection_stage s in
  if eqb current (u "not_started") then Some (u "purpose")
  else if eqb current (u "completed") then None
  else
    match index current stage_order with
    | None => Some (u "purpose")
    | Some current_index =>
      List.find (needs_stage s) (List.skipn (S current_index) stage_order)
    end.

(** The exceptions the controller can run into: an unknown stage name
    used as a key of [COLLECTION_STAGES], and the call of
    [node._get_stage_default], a method no class defines. *)
Inductive pyerr :=
| KeyError
| AttributeError.

(** The result of a call that mutates the state object: it returns, or
    it raises and leaves the object as it was then. *)
Inductive result :=
| Ok (s : WorkflowState)
| Raised (e : pyerr) (s : WorkflowState).

Definition state_of (r : result) : WorkflowState :=
  match r with
  | Ok s => s
  | Raised _ s => s
  end.

(** What the controller calls outside its own code.
    - [gate]: the collaborators of the monitoring-target gate;
    - [calculate_time_uncertainty], [calculate_location_uncertainty]:
      the two-parameter calculators, each returning the results of its
      two keys;
    - [parser]: the collaborators of the response parser;
    - [extract_parameters]: what [extract_existing_parameters] returns
      after its bookkeeping (rule-based and language-model extraction);
    - [param_config key]: the ["name"] of the configuration entry
      [_get_param_config] finds, [None] when it finds none;
    - [generate_dynamic_options], [generate_batch_dynamic_options]: the
      option generators;
    - [smart_defaults]: that entry of the parameter configuration, in
      file order;
    - [build_stage_clarification_message]: the message text. *)
Record env := Env {
  gate : Gate.collaborators;
  calculate_time_uncertainty : option str -> option str -> uresult * uresult;
  calculate_location_uncertainty :
    option str -> option str -> uresult * uresult;
  parser : Parser.env;
  extract_parameters : WorkflowState -> gmap str str;
  param_config : str -> option str;
  generate_dynamic_options : str -> WorkflowState -> list choice;
  generate_batch_dynamic_options :
    list str -> WorkflowState -> gmap str (list choice);
  smart_defaults : list (str * gmap str str);
  build_stage_clarification_message :
    list question -> str -> Z -> gmap str uresult -> str
}.

Definition of_verdict (v : Gate.verdict) : uresult :=
  UResult (Gate.needs_clarification v) (Gate.uncertainty_score v).

(** [check_stage_uncertainty] *)
Definition check_stage_uncertainty (e : env) (s : WorkflowState) (stage : str)
  : option (gmap str uresult) :=
  let extracted_params := extracted_parameters s in
  match stage_entry stage with
  | None => None
  | Some stage_info =>
    Some
      (if eqb stage (u "purpose") then
         match extracted_params !! u "monitoring_target" with
         | Some v =>
           {[ u "monitoring_target" :=
                of_verdict
                  (Gate.calculate_monitoring_target_uncertainty
                     (gate e) (Some v) true true) ]}
         | None => ∅
         end
       else if eqb stage (u "time") then
         let '(f, p) :=
           calculate_time_uncertainty e
             (extracted_params !! u "observation_frequency")
             (extracted_params !! u "monitoring_period") in
         <[ u "monitoring_period" := p ]> {[ u "observation_frequency" := f ]}
       else if eqb stage (u "location_area") then
         match extracted_params !! u "observation_area" with
         | Some _ =>
           let '(a, _) :=
             calculate_location_uncertainty e
               (extracted_params !! u "observation_area") None in
           {[ u "observation_area" := a ]}
         | None => ∅
         end
       else if eqb stage (u "location_range") then
         match extracted_params !! u "coverage_range" with
         | Some _ =>
           let '(_, r) :=
             calculate_location_uncertainty e
               (extracted_params !! u "observation_area")
               (extracted_params !! u "coverage_range") in
           {[ u "coverage_range" := r ]}
         | None => ∅
         end
       else ∅)
  end.

(** [should_retry_stage] *)
Definition should_retry_stage (uncertainty_results : gmap str uresult)
    (stage : str) (retry_count : Z) : option bool :=
  match stage_entry stage with
  | None => None
  | Some stage_info =>
    if max_retries stage_info <=? retry_count then Some false
    else
      let high_uncertainty_params :=
        filter (fun kv => needs_clarification (snd kv) = true)
               uncertainty_results in
      Some (negb (bool_decide (high_uncertainty_params = ∅)))
  end.

Definition target_specific_params : list (str * list str) :=
  [ (u "水质", [u "spectral_bands"; u "accuracy_requirements";
                u "analysis_requirements"]);
    (u "农业", [u "spatial_resolution"; u "spectral_bands";
                u "monitoring_season"]);
    (u "城市", [u "spatial_resolution"; u "analysis_requirements";
                u "data_processing_level"]);
    (u "灾害", [u "time_criticality"; u "weather_dependency";
                u "spatial_resolution"]);
    (u "植被", [u "spectral_bands"; u "spatial_resolution";
                u "analysis_requirements"]);
    (u "环境", [u "spectral_bands"; u "analysis_requirements";
                u "accuracy_requirements"]) ].

Definition absent_in (m : gmap str str) (k : str) : bool :=
  bool_decide (m !! k = None).

(** [_get_relevant_technical_params_for_stage] *)
Definition _get_relevant_technical_params_for_stage (monitoring_target : str)
    (existing_params : gmap str str) : list str :=
  let base_tech_params :=
    [u "spatial_resolution"; u "analysis_requirements"; u "output_format"] in
  let selected_params :=
    match List.find (fun kv => contains (fst kv) monitoring_target)
                    target_specific_params with
    | Some (_, specific_params) =>
      fold_left
        (fun sel param =>
           if negb (mem param sel) && absent_in existing_params param
           then sel ++ [param] else sel)
        specific_params base_tech_params
    | None => base_tech_params
    end in
  List.filter (absent_in existing_params) selected_params.

(** The parameters [generate_stage_questions] settles on. *)
Definition params_to_collect (s : WorkflowState) (stage : str)
    (stage_info : stage_info) (uncertainty_results : gmap str uresult)
  : list str :=
  let extracted_params := extracted_parameters s in
  let retry_count := retries stage s in
  if eqb stage (u "technical") then
    let monitoring_target :=
      default [] (extracted_params !! u "monitoring_target") in
    List.firstn 4
      (_get_relevant_technical_params_for_stage monitoring_target
                                                extracted_params)
  else
    List.filter
      (fun param_key =>
         if (0 <? retry_count) && negb (bool_decide (uncertainty_results = ∅))
         then
           match uncertainty_results !! param_key with
           | Some r => needs_clarification r
           | None => false
           end
         else absent_in extracted_params param_key)
      (params stage_info).

(** [generate_stage_questions]; [None] is the [KeyError]. *)
Definition generate_stage_questions (e : env) (s : WorkflowState)
    (stage : str) (uncertainty_results : gmap str uresult)
  : option (list question) :=
  match stage_entry stage with
  | None => None
  | Some stage_info =>
    let retry_count := retries stage s in
    let to_collect := params_to_collect s stage stage_info uncertainty_results in
    let batch :=
      eqb stage (u "technical") && (1 <? List.length to_collect)%nat in
    let batch_options :=
      generate_batch_dynamic_options e
        (List.filter (fun k => bool_decide (param_config e k <> None))
                     to_collect) s in
    Some
      (omap
         (fun param_key =>
            match param_config e param_key with
            | None => None
            | Some param_name =>
              let opts :=
                if batch then default [] (batch_options !! param_key)
                else generate_dynamic_options e param_key s in
              Some (Question param_key (Some param_name) opts
                             (negb (eqb stage (u "technical")))
                             stage retry_count)
            end)
         to_collect)
  end.

Definition user_messages (s : WorkflowState) : list message :=
  List.filter (fun m => eqb (role m) (u "user")) (messages s).

(** [l[-1]] and [l[-2]] *)
Definition last_of {A} (l : list A) : option A := List.head (rev l).
Definition before_last {A} (l : list A) : option A :=
  List.head (List.tl (rev l)).

(** [_is_new_requirement] *)
Definition _is_new_requirement (e : env) (s : WorkflowState) : bool :=
  let lower := Parser.lower (parser e) in
  match last_of (user_messages s), before_last (user_messages s) with
  | Some latest, Some previous =>
    let latest_message := lower (msg_content latest) in
    if awaiting_clarification s then false
    else if
      match before_last (messages s) with
      | Some prev_message =>
        eqb (role prev_message) (u "assistant")
        && existsb (fun keyword => contains keyword (msg_content prev_message))
             [u "请提供"; u "需要了解"; u "参数收集"; u "请回答"; u "选择或输入"]
      | None => false
      end
    then false
    else
      let previous_message := lower (msg_content previous) in
      if contains (u "柬埔寨") latest_message
         && negb (contains (u "柬埔寨") previous_message)
         || contains (u "农业") latest_message
            && contains (u "水质") previous_message
      then true
      else
        existsb (fun keyword => contains keyword latest_message)
          [u "我想监测"; u "我需要监测"; u "我想要监测";
           u "帮我设计"; u "换一个"; u "重新设计";
           u "另外"; u "还想"; u "改为监测";
           u "请为我规划"; u "请规划"; u "请帮我监测";
           u "监测.*的.*情况"]
  | _, _ => false
  end.

(** [should_skip_clarification]: the answer, and the state, which the
    method resets when it takes the turn for a new requirement. *)
Definition should_skip_clarification (e : env) (s : WorkflowState)
  : bool * WorkflowState :=
  let lower := Parser.lower (parser e) in
  if match last_of (user_messages s) with
     | Some latest =>
       let latest_message := lower (msg_content latest) in
       existsb (fun keyword => eqb keyword (strip latest_message))
         [u "直接生成方案"; u "跳过所有问题"; u "使用默认参数"]
     | None => false
     end
  then (true, s)
  else
    let current := get_current_collection_stage s in
    if negb (eqb current (u "completed")) && negb (eqb current (u "not_started"))
       && match index current
                  [u "purpose"; u "time"; u "location"; u "technical"] with
          | Some current_index => (current_index <? 3)%nat
          | None => false
          end
    then (false, s)
    else if clarification_completed s then
      if _is_new_requirement e s
      then (false,
            with_extracted_parameters ∅ (with_clarification_completed false s))
      else (true, s)
    else
      let existing_params := extracted_parameters s in
      let essential_params :=
        [u "monitoring_target"; u "observation_area";
         u "observation_frequency"; u "monitoring_period"] in
      let missing_params :=
        List.filter
          (fun param => negb (truthy (default [] (existing_params !! param))))
          essential_params in
      if negb (Nat.eqb (List.length missing_params) 0) then (false, s)
      else
        let has_technical_stage :=
          existsb (eqb (u "technical")) (parameter_collection_history s) in
        if negb has_technical_stage && negb (eqb current (u "technical"))
        then (false, s)
        else (true, s).

(** [apply_smart_defaults] *)
Definition default_coverage (area : str) : str :=
  if contains (u "湖") area || contains (u "水库") area then u "whole_lake"
  else if contains (u "市") area then u "urban_area"
  else if contains (u "县") area || contains (u "区") area then u "regional"
  else if contains (u "省") area
          || existsb (fun country => contains country area)
               [u "柬埔寨"; u "越南"; u "泰国"]
  then u "large"
  else u "regional".

Definition apply_smart_defaults (e : env) (params0 : gmap str str)
  : gmap str str :=
  let monitoring_target := default [] (params0 !! u "monitoring_target") in
  let params1 :=
    match params0 !! u "coverage_range", params0 !! u "observation_area" with
    | None, Some area => <[ u "coverage_range" := default_coverage area ]> params0
    | _, _ => params0
    end in
  let defaults :=
    match List.find
            (fun kv => contains (fst kv) monitoring_target
                       && negb (eqb (fst kv) (u "default")))
            (smart_defaults e) with
    | Some (_, target_defaults) => target_defaults
    | None => default ∅ (assoc (u "default") (smart_defaults e))
    end in
  fold_left
    (fun params param_key =>
       match params !! param_key, defaults !! param_key with
       | None, Some v => <[ param_key := v ]> params
       | _, _ => params
       end)
    [u "spatial_resolution"; u "spectral_bands"; u "analysis_requirements";
     u "accuracy_requirements"; u "time_criticality"; u "weather_dependency";
     u "output_format"]
    params1.

(** [extract_existing_parameters]: the parameters, and the state after
    the bookkeeping for a new requirement. *)
Definition extract_existing_parameters (e : env) (s : WorkflowState)
  : gmap str str * WorkflowState :=
  if awaiting_clarification s then (extracted_parameters s, s)
  else
    let s1 :=
      if _is_new_requirement e s
      then with_clarification_completed false (with_extracted_parameters ∅ s)
      else s in
    (extract_parameters e s1, s1).

(** The block that ends the collection in the main path: stage
    [completed], the flag, the defaults, the callback. *)
Definition complete_collection (e : env) (callback : bool)
    (existing_params : gmap str str) (s : WorkflowState) : WorkflowState :=
  let complete_params := apply_smart_defaults e existing_params in
  emit callback (ClarificationComplete complete_params)
    (with_extracted_parameters complete_params
      (with_clarification_completed true
        (set_collection_stage (u "completed") s))).

(** The block that ends the collection when clarification is skipped. *)
Definition skip_collection (e : env) (s : WorkflowState) : WorkflowState :=
  let s1 :=
    set_collection_stage (u "completed")
      (with_clarification_completed true (with_clarification_skipped true s)) in
  with_extracted_parameters (apply_smart_defaults e (extracted_parameters s1)) s1.

(** The end of [process_staged_parameter_clarification]: the questions
    are stored, shown and logged. *)
Definition ask (e : env) (callback : bool) (questions : list question)
    (current : str) (retry_count : Z) (uncertainty_results : gmap str uresult)
    (s : WorkflowState) : WorkflowState :=
  let s1 :=
    with_current_stage (u "parameter_clarification")
      (with_awaiting_clarification true
        (with_current_stage_uncertainty uncertainty_results
          (with_pending_questions questions s))) in
  let clarification_message :=
    build_stage_clarification_message e questions current retry_count
                                      uncertainty_results in
  let s2 := add_message (u "assistant") clarification_message s1 in
  let s3 :=
    emit callback (ClarificationQuestions questions current retry_count) s2 in
  with_thinking_steps
    (thinking_steps s3 ++ [StepAsk current (List.length questions)]) s3.

(** The start of [process_staged_parameter_clarification]: a
    collection not started enters [purpose]. *)
Definition enter (callback : bool) (s : WorkflowState) : WorkflowState :=
  if eqb (get_current_collection_stage s) (u "not_started")
  then emit callback ClarificationStart (set_collection_stage (u "purpose") s)
  else s.

(** The test [has_all_stages] of the branch taken when clarification is
    to be skipped. *)
Definition has_all_stages (s : WorkflowState) : bool :=
  forallb
    (fun stage => existsb (eqb stage) (parameter_collection_history s))
    [u "purpose"; u "time"; u "location"; u "technical"].

(** The parameters the main path works with: extracted afresh when none
    are there and the stage is [purpose]. *)
Definition prepare (e : env) (s : WorkflowState)
  : gmap str str * WorkflowState :=
  if bool_decide (extracted_parameters s = ∅)
     && eqb (get_current_collection_stage s) (u "purpose")
  then
    let '(extracted, s') := extract_existing_parameters e s in
    (extracted, with_extracted_parameters extracted s')
  else (extracted_parameters s, s).

(** [uncertainty_results and node.should_retry_stage(...)] *)
Definition wants_retry (uncertainty_results : gmap str uresult)
    (stage : str) (retry_count : Z) : bool :=
  negb (bool_decide (uncertainty_results = ∅))
  && default false (should_retry_stage uncertainty_results stage retry_count).

(** From the generation of the questions to the end of the function;
    [again] is the function itself. *)
Definition continue_with (again : WorkflowState -> option result)
    (e : env) (callback : bool) (s : WorkflowState) (current : str)
    (retry_count : Z) (uncertainty_results : gmap str uresult)
  : option result :=
  match generate_stage_questions e s current uncertainty_results with
  | None => Some (Raised KeyError s)
  | Some [] =>
    match get_next_collection_stage s with
    | Some next_stage => again (set_collection_stage next_stage s)
    | None =>
      Some (Ok (with_clarification_completed true
                  (set_collection_stage (u "completed") s)))
    end
  | Some questions =>
    Some (Ok (ask e callback questions current retry_count
                  uncertainty_results s))
  end.

(** The main path, after the test for skipping: retry the stage, move
    to the next one, or complete. *)
Definition main_path (again : WorkflowState -> option result)
    (e : env) (callback : bool) (s2 : WorkflowState) : option result :=
  let current_stage := get_current_collection_stage s2 in
  let '(existing_params, s3) := prepare e s2 in
  match check_stage_uncertainty e s3 current_stage with
  | None => Some (Raised KeyError s3)
  | Some uncertainty_results =>
    let retry_count := retries current_stage s3 in
    if wants_retry uncertainty_results current_stage retry_count then
      continue_with again e callback
        (increment_stage_retry current_stage s3)
        current_stage retry_count uncertainty_results
    else
      match get_next_collection_stage s3 with
      | Some next_stage =>
        continue_with again e callback
          (set_collection_stage next_stage s3) next_stage 0 ∅
      | None =>
        Some (Ok (complete_collection e callback existing_params s3))
      end
  end.

(** [process_staged_parameter_clarification].  The function calls itself
    after it has moved the stage; [fuel] bounds the depth of these
    calls, and [None] means the bound was reached. *)
Fixpoint process_fuel (fuel : nat) (e : env) (callback : bool)
    (s0 : WorkflowState) : option result :=
  match fuel with
  | O => None
  | S fuel' =>
    let s1 := enter callback s0 in
    if eqb (get_current_collection_stage s1) (u "completed") then Some (Ok s1)
    else
      let '(skip, s2) := should_skip_clarification e s1 in
      if skip then
        match
          (if has_all_stages s2 then None else get_next_collection_stage s2)
        with
        | Some next_stage =>
          process_fuel fuel' e callback (set_collection_stage next_stage s2)
        | None => Some (Ok (skip_collection e s2))
        end
      else main_path (process_fuel fuel' e callback) e callback s2
  end.

(** Every chain of self-calls starts from a stage, known or not, and
    then climbs [stage_order]; eight levels are more than it can use. *)
Definition process_staged_parameter_clarification :=
  process_fuel 8.

(** [process_staged_clarification_response] *)
Definition process_staged_clarification_response (e : env) (callback : bool)
    (s : WorkflowState) (user_response : str) : option result :=
  if negb (awaiting_clarification s) then Some (Ok s)
  else
    let current_stage := get_current_collection_stage s in
    match pending_questions s with
    | [] => Some (Ok (with_awaiting_clarification false s))
    | _ :: _ =>
      let parse_result :=
        parse_user_response (parser e) user_response (pending_questions s) in
      let parsed_params := parameters parse_result in
      let existing_params := parsed_params ∪ extracted_parameters s in
      let s1 :=
        with_pending_questions []
          (with_awaiting_clarification false
            (with_parameter_collection_history
               (parameter_collection_history s ++ [current_stage])
               (with_extracted_parameters existing_params s))) in
      let confirm s2 :=
        if callback then
          match stage_entry current_stage with
          | None => Some (Raised KeyError s2)
          | Some _ =>
            process_staged_parameter_clarification e callback
              (emit callback (StageComplete current_stage parsed_params) s2)
          end
        else process_staged_parameter_clarification e callback s2 in
      if skip_remaining parse_result then
        if eqb current_stage (u "technical") then
          let complete_params := apply_smart_defaults e existing_params in
          confirm
            (emit callback (ClarificationComplete complete_params)
               (with_extracted_parameters complete_params
                  (with_clarification_completed true
                     (set_collection_stage (u "completed") s1))))
        else
          match stage_entry current_stage with
          | None => Some (Raised KeyError s1)
          | Some stage_info =>
            if existsb (absent_in existing_params) (params stage_info)
            then Some (Raised AttributeError s1)
            else process_staged_parameter_clarification e callback s1
          end
      else confirm s1
    end.

(** [handle_parameter_clarification] of [workflow_streaming.py]. *)
Definition after_turn (awaiting_branch : bool) (s : WorkflowState)
  : WorkflowState :=
  if awaiting_branch then
    if eqb (get_current_collection_stage s) (u "completed")
    then with_current_stage (u "retrieve_knowledge") s else s
  else if awaiting_clarification s
  then with_current_stage (u "awaiting_clarification") s
  else if eqb (get_current_collection_stage s) (u "completed")
  then with_current_stage (u "retrieve_knowledge") s
  else s.

Definition lift (f : WorkflowState -> WorkflowState) (r : option result)
  : option result :=
  match r with
  | Some (Ok s) => Some (Ok (f s))
  | other => other
  end.

Definition handle_parameter_clarification (e : env) (callback : bool)
    (s : WorkflowState) : option result :=
  match (if awaiting_clarification s then last_of (user_messages s) else None)
  with
  | Some latest =>
    lift (after_turn true)
         (process_staged_clarification_response e callback s
                                                (msg_content latest))
  | None =>
    lift (after_turn false)
         (process_staged_parameter_clarification e callback s)
  end.

(** One turn of a conversation: the user's message is appended, then
    the clarification handler runs with the collaborators as they
    answer during that turn. *)
Record turn := Turn {
  turn_env : env;
  turn_callback : bool;
  user_text : str
}.

Definition take_turn (t : turn) (s : WorkflowState) : option result :=
  handle_parameter_clarification (turn_env t) (turn_callback t)
    (add_message (u "user") (user_text t) s).

(** A conversation without task-boundary reset: the state object is
    carried from turn to turn, also after a turn that raised. *)
Fixpoint converse (turns : list turn) (s : WorkflowState)
  : option WorkflowState :=
  match turns with
  | [] => Some s
  | t :: rest =>
    match take_turn t s with
    | Some r => converse rest (state_of r)
    | None => None
    end
  end.

(** How often the questions of [stage] were put to the user. *)
Definition asks (stage : str) (steps : list step) : nat :=
  List.length
    (List.filter
       (fun st => match st with
                  | StepAsk stage' _ => eqb stage stage'
                  | StepEnter _ => false
                  end)
       steps).

Definition asked (stage : str) (s : WorkflowState) : nat :=
  asks stage (thinking_steps s).

(** The position of a stage in the life of a collection. *)
Definition rank (stage : str) : nat :=
  if eqb stage (u "not_started") then 0
  else match index stage stage_order with
       | Some i => S i
       | None => if eqb stage (u "completed") then 6 else 0
       end.

Definition known_stage (stage : str) : bool :=
  mem stage (u "not_started" :: stage_order ++ [u "completed"]).

(** What the ordering and the counting of questions depend on. *)
Definition view (s : WorkflowState) : str * gmap str Z * list step :=
  (parameter_collection_stage s, stage_retry_count s, thinking_steps s).

(** 1 once the collection has reached [stage], 0 before. *)
Definition entered (stage : str) (s : WorkflowState) : Z :=
  if (rank stage <=? rank (parameter_collection_stage s))%nat then 1 else 0.

(** The questions of a stage were put once for the entry into the stage,
    if it was entered, and once for every retry counted; and no more
    retries are counted than the stage allows. *)
Definition within_budget (s : WorkflowState) : Prop :=
  forall stage info,
    stage_entry stage = Some info ->
    Z.of_nat (asked stage s) <= retries stage s + entered stage s
    /\ retries stage s <= max_retries info.

(** [s'] is not behind [s]. *)
Definition advances (s s' : WorkflowState) : Prop :=
  known_stage (parameter_collection_stage s') = true
  /\ (rank (parameter_collection_stage s)
      <= rank (parameter_collection_stage s'))%nat
  /\ (within_budget s -> within_budget s').

(** Self-calls still possible from a stage. *)
Definition remaining (stage : str) : nat :=
  if known_stage stage then 6 - rank stage else 7.

(** The calls of the callback that carry questions. *)
Definition questions_sent (log : list event) : list event :=
  List.filter
    (fun ev => match ev with
               | ClarificationQuestions _ _ _ => true
               | _ => false
               end)
    log.

(** Every parameter of every stage is there. *)
Definition all_present (s : WorkflowState) : Prop :=
  forall stage info p,
    stage_entry stage = Some info -> In p (params info) ->
    is_Some (extracted_parameters s !! p).

(** The gate asks for clarification of nothing, whatever the stage. *)
Definition all_accepted (e : env) (s : WorkflowState) : Prop :=
  forall stage results k r,
    check_stage_uncertainty e s stage = Some results ->
    results !! k = Some r -> needs_clarification r = false.

(** A call returns normally, not behind [b], at rank [lo] or beyond. *)
Definition good (b : WorkflowState) (lo : nat) (r : option result) : Prop :=
  exists s', r = Some (Ok s') /\ advances b s'
             /\ (lo <= rank (parameter_collection_stage s'))%nat.

(** Between [s] and [s'] nothing was asked: no asking logged, no
    questions handed to the callback, none stored, no message added. *)
Definition quiet (s s' : WorkflowState) : Prop :=
  (forall stage, asked stage s' = asked stage s)
  /\ questions_sent (callback_log s') = questions_sent (callback_log s)
  /\ pending_questions s' = pending_questions s
  /\ messages s' = messages s.

(** The gate asks for clarification of nothing in [stage]: the test. *)
Definition accepted_in (e : env) (s : WorkflowState) (stage : str) : bool :=
  match check_stage_uncertainty e s stage with
  | Some results =>
    forallb (fun kv => negb (needs_clarification (snd kv)))
            (map_to_list results)
  | None => true
  end.

(** Every parameter of [stage] is there: the test. *)
Definition present_in (s : WorkflowState) (stage : str) : bool :=
  match stage_entry stage with
  | Some info =>
    forallb (fun p => negb (absent_in (extracted_parameters s) p))
            (params info)
  | None => true
  end.

End Stage.

(** ** Collaborators and states for the examples *)

Module Demo.
Import Py Parser Stage.

(** A parser without language model whose searches find nothing. *)
Definition rules_only : Parser.env :=
  Parser.Env ascii_lower (fun _ _ => None) (fun _ _ => None) false
             (fun _ _ => None).

(** A gate whose remote checks vouch for everything, and one whose
    checks vouch for nothing. *)
Definition trusting : Gate.collaborators :=
  Gate.Collaborators ascii_lower (Gate.Vocabulary [] [])
                     (fun _ => true) (fun _ => true).

Definition doubting : Gate.collaborators :=
  Gate.Collaborators ascii_lower (Gate.Vocabulary [] [])
                     (fun _ => false) (fun _ => false).

Definition accepting : uresult := UResult false 0.
Definition rejecting : uresult := UResult true 1.

(** Collaborators that accept every value, and collaborators that
    accept none; both know every parameter and offer no options. *)
Definition lenient : Stage.env :=
  Stage.Env trusting
            (fun _ _ => (accepting, accepting))
            (fun _ _ => (accepting, accepting))
            rules_only (fun _ => ∅) (fun k => Some k)
            (fun _ _ => []) (fun _ _ => ∅) [] (fun _ _ _ _ => []).

Definition strict : Stage.env :=
  Stage.Env doubting
            (fun _ _ => (rejecting, rejecting))
            (fun _ _ => (rejecting, rejecting))
            rules_only (fun _ => ∅) (fun k => Some k)
            (fun _ _ => []) (fun _ _ => ∅) [] (fun _ _ _ _ => []).

(** The mandatory parameters of the four required stages. *)
Definition mandatory : list (str * str) :=
  [ (u "monitoring_target", u "水质变化");
    (u "observation_frequency", u "每周2次");
    (u "monitoring_period", u "6个月");
    (u "observation_area", u "青海湖");
    (u "coverage_range", u "whole_lake") ].

(** The parameters of the technical stage. *)
Definition technical : list (str * str) :=
  [ (u "spatial_resolution", u "10米");
    (u "spectral_bands", u "多光谱");
    (u "analysis_requirements", u "变化检测");
    (u "output_format", u "geotiff");
    (u "accuracy_requirements", u "高精度") ].

(** A fresh state with the mandatory parameters, and one with all. *)
Definition with_mandatory : WorkflowState :=
  with_extracted_parameters (list_to_map mandatory) initial.

Definition with_all : WorkflowState :=
  with_extracted_parameters (list_to_map (mandatory ++ technical)) initial.

(** A state in stage [time] whose two retries are used up. *)
Definition time_exhausted : WorkflowState :=
  with_stage_retry_count {[ u "time" := 2 ]}
    (with_parameter_collection_stage (u "time") initial).

(** Four turns with collaborators that accept nothing. *)
Definition stubborn : list turn :=
  List.repeat (Turn strict true (u "嗯")) 4.

End Demo.

(** ** What a stream delivers
    (views of [StreamingContentBuffer] and of the loop of
    [call_deepseek_streaming_api_buffered] used to state their properties) *)

Module Delivery.
Import Py Buffer Streaming.

(** The text of the first [k] fragments as [add_content] keeps it. *)
Definition normalized_prefix (inputs : list (clock * str)) (k : nat) : str :=
  concat (List.map (fun i => normalize (snd i)) (firstn k inputs)).

(** [full_content] is [F] and every chunk sent satisfies [P]. *)
Definition stamped (P : chunk -> Prop) (F : str) (s : Buffer.t) : Prop :=
  full_content s = F /\ Forall P (sent s).

(** A chunk flagged as a table holds the separator row marker. *)
Definition marked (c : chunk) : Prop :=
  is_table c = true -> contains table_marker (content c) = true.

Definition table_held (s : Buffer.t) : Prop :=
  Forall marked (sent s)
  /\ (table_buffer s = [] \/ contains table_marker (table_buffer s) = true)
  /\ (in_table s = true -> contains table_marker (table_buffer s) = true).

(** The [delta['content']] values one network chunk hands to
    [add_content]: those before the first ['[DONE]'] line or fault. *)
Fixpoint lines_deltas (lines : list line) : list (clock * str) :=
  match lines with
  | [] => []
  | LineDone :: _ => []
  | LineSkip :: rest => lines_deltas rest
  | LineDelta clk content_chunk :: rest => (clk, content_chunk) :: lines_deltas rest
  | LineFault :: _ => []
  end.

(** The same for a response body, up to the point where the iterator
    raises. *)
Fixpoint deltas (body : list net_event) : list (clock * str) :=
  match body with
  | [] => []
  | NetChunk lines :: rest => lines_deltas lines ++ deltas rest
  | NetRaise _ :: _ => []
  end.

End Delivery.
(** ** How a call of the controller ends
    (what [process_staged_parameter_clarification] leaves behind, used to
    state its properties) *)

Module Outcome.
Import Py Parser Stage.

(** Apart from the bookkeeping of the collection, [s] is as [b] was:
    nothing was asked, and the waiting flag and the workflow stage are
    the same. *)
Definition steady (b s : WorkflowState) : Prop :=
  quiet b s
  /\ awaiting_clarification s = awaiting_clarification b
  /\ Stage.current_stage s = Stage.current_stage b.

(** No retry counter of [s] is below that of [b]. *)
Definition retries_kept (b s : WorkflowState) : Prop :=
  forall st, retries st b <= retries st s.

(** The call has closed the collection without asking. *)
Definition completes (b s' : WorkflowState) : Prop :=
  parameter_collection_stage s' = u "completed"
  /\ clarification_completed s' = true
  /\ steady b s'.

(** The call has put the questions of one stage to the user. *)
Definition asks_user (e : env) (callback : bool) (b s' : WorkflowState)
  : Prop :=
  exists (questions : list question) (retry_count : Z)
         (results : gmap str uresult),
    In (parameter_collection_stage s') stage_order
    /\ questions <> []
    /\ pending_questions s' = questions
    /\ Forall (fun q => Parser.stage q = parameter_collection_stage s')
              questions
    /\ awaiting_clarification s' = true
    /\ Stage.current_stage s' = u "parameter_clarification"
    /\ messages s'
       = messages b
         ++ [Message (u "assistant")
               (build_stage_clarification_message e questions
                  (parameter_collection_stage s') retry_count results)]
    /\ (forall st,
          asked st s'
          = (asked st b
             + if eqb st (parameter_collection_stage s') then 1 else 0)%nat)
    /\ questions_sent (callback_log s')
       = questions_sent (callback_log b)
         ++ (if callback
             then [ClarificationQuestions questions
                     (parameter_collection_stage s') retry_count]
             else []).

(** How a call that returns or raises has ended. *)
Definition ended (e : env) (callback : bool) (b : WorkflowState)
    (r : result) : Prop :=
  retries_kept b (state_of r)
  /\ match r with
     | Ok s' => completes b s' \/ asks_user e callback b s'
     | Raised err s' => err = KeyError /\ steady b s'
     end.

(** Some parameter of [stage] is not among the extracted ones. *)
Definition incomplete (s : WorkflowState) (stage : str) : Prop :=
  exists info p,
    stage_entry stage = Some info /\ In p (params info)
    /\ extracted_parameters s !! p = None.

(** While the controller waits for an answer there are questions
    pending and the collection is in a stage of the list. *)
Definition waiting_well (s : WorkflowState) : Prop :=
  awaiting_clarification s = true ->
  pending_questions s <> []
  /\ In (parameter_collection_stage s) stage_order.

(** How a turn of the clarification handler ends: the collection is
    closed and the workflow goes on to the knowledge retrieval; or the
    user is asked; or the answer was a request to skip that ran into the
    undefined [_get_stage_default]. *)
Definition turn_ended (s : WorkflowState) (r : result) : Prop :=
  match r with
  | Ok s' =>
    (parameter_collection_stage s' = u "completed"
     /\ Stage.current_stage s' = u "retrieve_knowledge"
     /\ awaiting_clarification s' = false)
    \/ (awaiting_clarification s' = true
        /\ pending_questions s' <> []
        /\ In (parameter_collection_stage s') stage_order
        /\ (Stage.current_stage s' = u "awaiting_clarification"
            \/ Stage.current_stage s' = u "parameter_clarification"))
  | Raised err s' =>
    err = AttributeError
    /\ awaiting_clarification s' = false
    /\ pending_questions s' = []
    /\ parameter_collection_stage s' = parameter_collection_stage s
  end.

(** The defaults [apply_smart_defaults] settles on for a monitoring
    target: those of the first keyword of the configuration, other than
    ["default"], that occurs in the target, else those of ["default"]. *)
Definition defaults_for (e : env) (monitoring_target : str) : gmap str str :=
  match List.find
          (fun kv => contains (fst kv) monitoring_target
                     && negb (eqb (fst kv) (u "default")))
          (smart_defaults e) with
  | Some (_, target_defaults) => target_defaults
  | None => default ∅ (assoc (u "default") (smart_defaults e))
  end.

(** The technical parameters [apply_smart_defaults] fills in. *)
Definition defaulted_keys : list str :=
  [u "spatial_resolution"; u "spectral_bands"; u "analysis_requirements";
   u "accuracy_requirements"; u "time_criticality"; u "weather_dependency";
   u "output_format"].

End Outcome.

(** ** The structural calculators and the custom input
    ([uncertainty_calculator.py]: [calculate_time_uncertainty],
    [calculate_location_uncertainty], their four helpers,
    [calculate_all_parameters_uncertainty], [validate_custom_input],
    [_normalize_frequency_expression], [_check_location_validity],
    [_check_descriptive_range]) *)

Module Calc.
Import Py.
Local Open Scope Q_scope.

(** What these methods consult outside their own code: the
    regular-expression engine and the language model.
    - [_check_frequency_format], [_check_duration_info],
      [_check_start_end_info], [_check_numeric_range]: the methods of
      these names, each a list of [re.search] calls; the last three
      return the text that goes with [True], and [None] stands for
      [(False, "")];
    - [search_admin_patterns], [search_coord_patterns]: the two lists of
      regular expressions of [_check_location_validity], with the groups
      of the first match;
    - [search_frequency_patterns]: the list of regular expressions of
      [_normalize_frequency_expression], with the text its handler
      builds;
    - the four [_check_*_with_llm]: the language-model checks, [False]
      when they fail. *)
Record env := Env {
  lower : str -> str;
  _check_frequency_format : str -> bool;
  _check_frequency_with_llm : str -> bool;
  _check_duration_info : str -> option str;
  _check_start_end_info : str -> option str;
  _check_period_with_llm : str -> bool;
  search_admin_patterns : str -> option str;
  search_coord_patterns : str -> option (str * str);
  _check_numeric_range : str -> option str;
  _check_area_with_llm : str -> bool;
  _check_range_with_llm : str -> bool;
  search_frequency_patterns : str -> option str
}.

(** A result dictionary: the score, the decision, the details. *)
Record outcome (D : Type) := Outcome {
  uncertainty_score : Q;
  needs_clarification : bool;
  details : D
}.
Arguments Outcome {D}.
Arguments uncertainty_score {D}.
Arguments needs_clarification {D}.
Arguments details {D}.

(** The four ["details"] dictionaries; an entry that the dictionary of
    the first [return] lacks is [None] there. *)
Record frequency_details := FrequencyDetails {
  f_existence : bool;
  f_valid_format : bool;
  f_missing_info : str;
  f_confidence_level : str;
  f_provided_text : option str
}.

Record period_details := PeriodDetails {
  p_existence : bool;
  p_completeness : bool;
  p_has_duration : bool;
  p_has_start_end : bool;
  p_duration_info : option str;
  p_start_end_info : option str;
  p_missing_info : str;
  p_confidence_level : str;
  p_provided_text : option str
}.

Record area_details := AreaDetails {
  a_existence : bool;
  a_valid_location : bool;
  a_location_type : str;
  a_location_info : option str;
  a_missing_info : str;
  a_confidence_level : str;
  a_provided_text : option str
}.

Record range_details := RangeDetails {
  r_existence : bool;
  r_has_numeric_value : bool;
  r_has_descriptive_value : bool;
  r_unit_type : str;
  r_range_info : option str;
  r_missing_info : str;
  r_confidence_level : str;
  r_provided_text : option str
}.

(** [uncertainty_score > 0.5] *)
Definition above_half (score : Q) : bool := Gate.Qgtb score (5 # 10).

(** [_calculate_frequency_uncertainty] *)
Definition _calculate_frequency_uncertainty (e : env)
    (frequency_text : option str) (enable_llm : bool)
  : outcome frequency_details :=
  if Gate.absent frequency_text then
    Outcome 1 true
      (FrequencyDetails false false (u "未提供观测频率信息") (u "none") None)
  else
    let frequency_text := strip (default [] frequency_text) in
    let valid_format := _check_frequency_format e frequency_text in
    let llm_valid :=
      if enable_llm && negb valid_format
      then _check_frequency_with_llm e frequency_text else false in
    if valid_format || llm_valid then
      Outcome 0 (above_half 0)
        (FrequencyDetails true (valid_format || llm_valid) [] (u "high")
                          (Some frequency_text))
    else
      Outcome 1 (above_half 1)
        (FrequencyDetails true (valid_format || llm_valid)
           (u "观测频率格式不明确，需要澄清具体的观测间隔") (u "low")
           (Some frequency_text)).

(** [_calculate_period_uncertainty] *)
Definition _calculate_period_uncertainty (e : env)
    (period_text : option str) (enable_llm : bool)
  : outcome period_details :=
  if Gate.absent period_text then
    Outcome 1 true
      (PeriodDetails false false false false None None
                     (u "未提供监测周期信息") (u "none") None)
  else
    let period_text := strip (default [] period_text) in
    let duration_info := _check_duration_info e period_text in
    let start_end_info := _check_start_end_info e period_text in
    let has_duration := bool_decide (duration_info <> None) in
    let has_start_end := bool_decide (start_end_info <> None) in
    let llm_valid :=
      if enable_llm && negb (has_duration || has_start_end)
      then _check_period_with_llm e period_text else false in
    let is_complete := has_duration || has_start_end || llm_valid in
    let missing_info :=
      if negb has_duration && negb has_start_end then
        if llm_valid then u "监测周期表述不够明确"
        else u "缺少具体的监测时长或起止时间"
      else [] in
    let score : Q := if is_complete then 0 else 1 in
    Outcome score (above_half score)
      (PeriodDetails true is_complete has_duration has_start_end
         (Some (default [] duration_info)) (Some (default [] start_end_info))
         missing_info
         (if is_complete then u "high" else u "low") (Some period_text)).

(** [calculate_time_uncertainty]: the results under
    ["observation_frequency"] and ["monitoring_period"]. *)
Definition calculate_time_uncertainty (e : env)
    (frequency_text period_text : option str) (enable_llm : bool)
  : outcome frequency_details * outcome period_details :=
  (_calculate_frequency_uncertainty e frequency_text enable_llm,
   _calculate_period_uncertainty e period_text enable_llm).

Definition specific_locations : list str :=
  [u "青海湖"; u "太湖"; u "洞庭湖"; u "鄱阳湖"; u "洪泽湖"; u "巢湖";
   u "滇池"; u "抚仙湖";
   u "长江"; u "黄河"; u "珠江"; u "松花江"; u "淮河"; u "海河"; u "辽河";
   u "秦岭"; u "太行山"; u "昆仑山"; u "天山"; u "祁连山";
   u "华北平原"; u "长三角"; u "珠三角"; u "京津冀"; u "成渝地区"].

Definition provinces : list str :=
  [u "北京"; u "天津"; u "上海"; u "重庆"; u "河北"; u "山西"; u "辽宁";
   u "吉林"; u "黑龙江";
   u "江苏"; u "浙江"; u "安徽"; u "福建"; u "江西"; u "山东"; u "河南";
   u "湖北"; u "湖南";
   u "广东"; u "海南"; u "四川"; u "贵州"; u "云南"; u "陕西"; u "甘肃";
   u "青海"; u "台湾";
   u "内蒙古"; u "广西"; u "西藏"; u "宁夏"; u "新疆"; u "香港"; u "澳门"].

Definition countries : list str :=
  [u "中国"; u "柬埔寨"; u "越南"; u "泰国"; u "老挝"; u "缅甸";
   u "马来西亚"; u "新加坡";
   u "印度尼西亚"; u "菲律宾"; u "日本"; u "韩国"; u "印度"; u "巴基斯坦";
   u "孟加拉国";
   u "俄罗斯"; u "蒙古"; u "哈萨克斯坦"].

(** [_check_location_validity]: validity, kind, what was found. *)
Definition _check_location_validity (e : env) (area_text : str)
  : bool * str * str :=
  match List.find (fun location => contains location area_text)
                  specific_locations with
  | Some location => (true, u "specific", location)
  | None =>
    match List.find (fun province => contains province area_text)
                    provinces with
    | Some province =>
      (true, u "administrative",
       if negb (mem province [u "北京"; u "天津"; u "上海"; u "重庆"])
       then province ++ u "省" else province)
    | None =>
      match search_admin_patterns e area_text with
      | Some group1 => (true, u "administrative", group1)
      | None =>
        match List.find (fun country => contains country area_text)
                        countries with
        | Some country => (true, u "country", country)
        | None =>
          match search_coord_patterns e area_text with
          | Some (group1, group2) =>
            (true, u "coordinates",
             u "经度" ++ group1 ++ u ", 纬度" ++ group2)
          | None => (false, u "unknown", [])
          end
        end
      end
    end
  end.

(** [_calculate_area_uncertainty] *)
Definition _calculate_area_uncertainty (e : env)
    (area_text : option str) (enable_llm : bool) : outcome area_details :=
  if Gate.absent area_text then
    Outcome 1 true
      (AreaDetails false false (u "none") None (u "未提供观测区域信息")
                   (u "none") None)
  else
    let area_text := strip (default [] area_text) in
    let '(is_valid, location_type, location_info) :=
      _check_location_validity e area_text in
    let llm_valid :=
      if enable_llm && negb is_valid
      then _check_area_with_llm e area_text else false in
    if is_valid || llm_valid then
      Outcome 0 (above_half 0)
        (AreaDetails true (is_valid || llm_valid) location_type
                     (Some location_info) [] (u "high") (Some area_text))
    else
      Outcome 1 (above_half 1)
        (AreaDetails true (is_valid || llm_valid) location_type
           (Some location_info)
           (u "观测区域不明确，需要提供具体的地理位置（如城市、湖泊、经纬度等）")
           (u "low") (Some area_text)).

Definition descriptive_patterns : list (str * str) :=
  [ (u "全市", u "city"); (u "全省", u "province"); (u "全县", u "county");
    (u "全区", u "district"); (u "全流域", u "basin");
    (u "全境", u "entire_area");
    (u "整个", u "entire"); (u "局部", u "partial");
    (u "重点区域", u "key_areas"); (u "核心区", u "core_area");
    (u "中心区", u "central_area"); (u "周边", u "surrounding");
    (u "大范围", u "large_scale"); (u "中等范围", u "medium_scale");
    (u "小范围", u "small_scale"); (u "点位", u "point");
    (u "单点", u "single_point");
    (u "全覆盖", u "full_coverage"); (u "部分覆盖", u "partial_coverage");
    (u "重点覆盖", u "key_coverage"); (u "密集覆盖", u "dense_coverage");
    (u "稀疏覆盖", u "sparse_coverage") ].

(** [_check_descriptive_range]; [None] stands for [(False, "")]. *)
Definition _check_descriptive_range (range_text : str) : option str :=
  match List.find (fun kv => contains (fst kv) range_text)
                  descriptive_patterns with
  | Some (pattern, range_type) =>
    Some (pattern ++ u "（" ++ range_type ++ u "）")
  | None => None
  end.

(** [_calculate_range_uncertainty] *)
Definition _calculate_range_uncertainty (e : env)
    (range_text : option str) (enable_llm : bool) : outcome range_details :=
  if Gate.absent range_text then
    Outcome 1 true
      (RangeDetails false false false (u "none") None
                    (u "未提供覆盖范围信息") (u "none") None)
  else
    let range_text := strip (default [] range_text) in
    let numeric_info := _check_numeric_range e range_text in
    let descriptive_info := _check_descriptive_range range_text in
    let has_numeric := bool_decide (numeric_info <> None) in
    let has_descriptive := bool_decide (descriptive_info <> None) in
    let llm_valid :=
      if enable_llm && negb (has_numeric || has_descriptive)
      then _check_range_with_llm e range_text else false in
    let is_valid := has_numeric || has_descriptive || llm_valid in
    let '(unit_type, range_info) :=
      if has_numeric then (u "area", default [] numeric_info)
      else if has_descriptive then (u "descriptive", default [] descriptive_info)
      else (u "unknown", []) in
    if is_valid then
      Outcome 0 (above_half 0)
        (RangeDetails true has_numeric has_descriptive unit_type
                      (Some range_info) [] (u "high") (Some range_text))
    else
      Outcome 1 (above_half 1)
        (RangeDetails true has_numeric has_descriptive unit_type
           (Some range_info)
           (u "覆盖范围不明确，需要提供具体的面积或范围描述（如100平方公里、全市范围等）")
           (u "low") (Some range_text)).

(** [calculate_location_uncertainty]: the results under
    ["observation_area"] and ["coverage_range"]. *)
Definition calculate_location_uncertainty (e : env)
    (area_text range_text : option str) (enable_llm : bool)
  : outcome area_details * outcome range_details :=
  (_calculate_area_uncertainty e area_text enable_llm,
   _calculate_range_uncertainty e range_text enable_llm).

(** The two entries of a result that are read outside the calculator. *)
Definition summary {D} (o : outcome D) : Stage.uresult :=
  Stage.UResult (needs_clarification o) (uncertainty_score o).

(** [calculate_all_parameters_uncertainty], each result by its two
    entries read outside. *)
Definition calculate_all_parameters_uncertainty (e : env)
    (gate : Gate.collaborators) (parameters : gmap str str)
  : gmap str Stage.uresult :=
  let results : gmap str Stage.uresult :=
    match parameters !! u "monitoring_target" with
    | Some target =>
      {[ u "monitoring_target" :=
           Stage.of_verdict
             (Gate.calculate_monitoring_target_uncertainty
                gate (Some target) true true) ]}
    | None => ∅
    end in
  let '(frequency_result, period_result) :=
    calculate_time_uncertainty e (parameters !! u "observation_frequency")
                               (parameters !! u "monitoring_period") true in
  let results :=
    <[ u "monitoring_period" := summary period_result ]>
      (<[ u "observation_frequency" := summary frequency_result ]> results) in
  let '(area_result, range_result) :=
    calculate_location_uncertainty e (parameters !! u "observation_area")
                                   (parameters !! u "coverage_range") true in
  <[ u "coverage_range" := summary range_result ]>
    (<[ u "observation_area" := summary area_result ]> results).

Definition frequency_mappings : list (str * str) :=
  [ (u "每天", u "每天1次"); (u "天天", u "每天1次"); (u "每日", u "每天1次");
    (u "一天一次", u "每天1次"); (u "一天两次", u "每天2次");
    (u "一周一次", u "每周1次"); (u "每星期", u "每周1次");
    (u "每礼拜", u "每周1次");
    (u "两天一次", u "每2天1次"); (u "三天一次", u "每3天1次");
    (u "实时", u "每小时1次"); (u "准实时", u "每2小时1次");
    (u "尽可能频繁", u "每天3次"); (u "高频", u "每天多次");
    (u "常规", u "每周2次") ].

(** [_normalize_frequency_expression] *)
Definition _normalize_frequency_expression (e : env) (expr : str)
  : option str :=
  let expr_lower := lower e expr in
  match List.find (fun kv => contains (fst kv) expr_lower)
                  frequency_mappings with
  | Some (_, value) => Some value
  | None => search_frequency_patterns e expr_lower
  end.

(** What a call of [validate_custom_input] comes to: the dictionary
    [{"valid", "normalized_value", "confidence"}] of its last three
    [return] statements, or the [AttributeError] of a method the class
    does not define.  Two are called: [_get_param_display_name], inside
    the dictionary of the first [return] (an input that is too short),
    and [_validate_location_with_ai], for an observation area. *)
Inductive validation :=
| Returns (valid : bool) (normalized_value : str) (confidence : Q)
| RaisesAttributeError.

Definition monitoring_keywords : list str :=
  [u "监测"; u "观测"; u "检测"; u "分析"; u "评估"; u "调查"].

(** [validate_custom_input] *)
Definition validate_custom_input (e : env) (param_key custom_value : str)
  : validation :=
  if negb (truthy custom_value) || (len (strip custom_value) <? 2)%Z
  then RaisesAttributeError
  else
    let accept_as_is := Returns true custom_value (7 # 10) in
    if eqb param_key (u "monitoring_target") then
      if negb (existsb (fun keyword => contains keyword custom_value)
                       monitoring_keywords)
      then Returns true (custom_value ++ u "监测") (8 # 10)
      else accept_as_is
    else if eqb param_key (u "observation_frequency") then
      match _normalize_frequency_expression e custom_value with
      | Some normalized =>
        if truthy normalized then Returns true normalized (9 # 10)
        else accept_as_is
      | None => accept_as_is
      end
    else if eqb param_key (u "observation_area") then RaisesAttributeError
    else accept_as_is.

(** The collaborators of the staged controller with the two calculators
    of this class in the place of its two calculator fields. *)
Definition with_calculators (c : env) (e : Stage.env) : Stage.env :=
  {| Stage.gate := Stage.gate e;
     Stage.calculate_time_uncertainty :=
       fun f p =>
         let '(fr, pr) := calculate_time_uncertainty c f p true in
         (summary fr, summary pr);
     Stage.calculate_location_uncertainty :=
       fun a r =>
         let '(ar, rr) := calculate_location_uncertainty c a r true in
         (summary ar, summary rr);
     Stage.parser := Stage.parser e;
     Stage.extract_parameters := Stage.extract_parameters e;
     Stage.param_config := Stage.param_config e;
     Stage.generate_dynamic_options := Stage.generate_dynamic_options e;
     Stage.generate_batch_dynamic_options :=
       Stage.generate_batch_dynamic_options e;
     Stage.smart_defaults := Stage.smart_defaults e;
     Stage.build_stage_clarification_message :=
       Stage.build_stage_clarification_message e |}.

End Calc.

(** ** The conversation record
    ([state.py]: [add_message], [get_conversation_history],
    [mark_new_plan_request], [get_messages_since_latest_plan_request],
    [get_conversation_history_since_latest_plan],
    [add_extracted_satellite], [set_extracted_satellites]) *)

Module History.
Import Py.

(** The fields of [WorkflowState] these methods read or write;
    [marks] keeps the index recorded by each ["新方案标记"] thinking
    step. *)
Record t := Mk {
  messages : list Stage.message;
  latest_plan_request_index : Z;
  marks : list Z;
  extracted_satellites : list str
}.

(** [WorkflowState()] *)
Definition initial : t := Mk [] (-1) [] [].

(** [l[i:]] *)
Definition slice_from {A} (i : Z) (l : list A) : list A :=
  if i <? 0 then skipn (List.length l - Z.to_nat (- i)) l
  else skipn (Z.to_nat i) l.

(** [add_message] *)
Definition add_message (r content : str) (s : t) : t :=
  Mk (messages s ++ [Stage.Message r content]) (latest_plan_request_index s)
     (marks s) (extracted_satellites s).

(** [f"{msg.role}: {msg.content}\n\n"] *)
Definition render (msg : Stage.message) : str :=
  Stage.role msg ++ u ": " ++ Stage.msg_content msg ++ [LF; LF].

(** The body the two history methods share, from the filter on. *)
Definition format_history (msgs : list Stage.message)
    (max_messages : option Z) : str :=
  let valid_messages :=
    List.filter (fun msg => mem (Stage.role msg) [u "user"; u "assistant"])
                msgs in
  let valid_messages :=
    match max_messages with
    | Some n => slice_from (- n) valid_messages
    | None => valid_messages
    end in
  strip (concat (List.map render valid_messages)).

(** [get_conversation_history] *)
Definition get_conversation_history (max_messages : option Z) (s : t) : str :=
  format_history (messages s) max_messages.

(** [mark_new_plan_request] *)
Definition mark_new_plan_request (s : t) : t :=
  let index := Z.of_nat (List.length (messages s)) - 3 in
  Mk (messages s) index (marks s ++ [index]) (extracted_satellites s).

(** [get_messages_since_latest_plan_request] *)
Definition get_messages_since_latest_plan_request (s : t)
  : list Stage.message :=
  if latest_plan_request_index s <? 0 then messages s
  else slice_from (latest_plan_request_index s) (messages s).

(** [get_conversation_history_since_latest_plan] *)
Definition get_conversation_history_since_latest_plan
    (max_messages : option Z) (s : t) : str :=
  format_history (get_messages_since_latest_plan_request s) max_messages.

(** [add_extracted_satellite] *)
Definition add_extracted_satellite (satellite_name : str) (s : t) : t :=
  if negb (mem satellite_name (extracted_satellites s))
  then Mk (messages s) (latest_plan_request_index s) (marks s)
          (extracted_satellites s ++ [satellite_name])
  else s.

(** [set_extracted_satellites] *)
Definition set_extracted_satellites (satellites : list str) (s : t) : t :=
  Mk (messages s) (latest_plan_request_index s) (marks s) satellites.

(** Messages added one after the other. *)
Definition add_messages (more : list Stage.message) (s : t) : t :=
  fold_left (fun st msg => add_message (Stage.role msg) (Stage.msg_content msg) st)
            more s.

(** Names added one after the other. *)
Definition add_satellites (names : list str) (s : t) : t :=
  fold_left (fun st satellite_name => add_extracted_satellite satellite_name st)
            names s.

End History.

(** ** Options and technical parameters
    ([enhanced_parameter_clarification_node.py]:
    [_validate_and_optimize_options],
    [_get_relevant_technical_params_from_config],
    [_get_most_relevant_technical_params]) *)

Module Options.
Import Py.
Local Open Scope Q_scope.

(** An option dictionary: its ["value"] and ["label"]. *)
Record choice := Choice {
  value : str;
  label : str
}.

Definition frequency_order : list (str * Q) :=
  [ (u "每小时1次", 24); (u "每3小时1次", 8); (u "每6小时1次", 4);
    (u "每12小时1次", 2); (u "每天1次", 1); (u "每2天1次", 5 # 10);
    (u "每3天1次", 33 # 100); (u "每5天1次", 2 # 10);
    (u "每周1次", 14 # 100); (u "每周2次", 29 # 100);
    (u "每10天1次", 1 # 10); (u "每两周1次", 7 # 100);
    (u "每月2次", 67 # 1000); (u "每月1次", 33 # 1000) ].

Definition period_order : list (str * Q) :=
  [ (u "1周", 25 # 100); (u "2周", 5 # 10); (u "1个月", 1); (u "2个月", 2);
    (u "3个月", 3); (u "6个月", 6); (u "9个月", 9); (u "1年", 12);
    (u "2年", 24); (u "长期监测", 999); (u "完整生长季", 8);
    (u "下一生长季", 8) ].

(** [order.get(x['value'], 0)] *)
Definition rank_in (order : list (str * Q)) (x : choice) : Q :=
  default 0 (Stage.assoc (value x) order).

(** [sorted(options, key=...)], and with [reverse=True]: the sort is
    stable in both directions, so an option goes in front of the first
    one of those after it whose key is not smaller (not greater, when
    reversed). *)
Fixpoint insert_sorted (reverse : bool) (key : choice -> Q) (x : choice)
    (l : list choice) : list choice :=
  match l with
  | [] => [x]
  | y :: rest =>
    if (if reverse then Qle_bool (key y) (key x) else Qle_bool (key x) (key y))
    then x :: y :: rest
    else y :: insert_sorted reverse key x rest
  end.

Definition sorted (reverse : bool) (key : choice -> Q) (options : list choice)
  : list choice :=
  fold_right (insert_sorted reverse key) [] options.

(** [a] may stand before [b] in the sorted list, and the lists in which
    every option may stand before all those after it. *)
Definition before (reverse : bool) (key : choice -> Q) (a b : choice) : Prop :=
  (if reverse then Qle_bool (key b) (key a) else Qle_bool (key a) (key b))
  = true.

Fixpoint ordered (reverse : bool) (key : choice -> Q) (l : list choice)
  : Prop :=
  match l with
  | [] => True
  | x :: rest => Forall (before reverse key x) rest /\ ordered reverse key rest
  end.

(** What a call comes to: the list returned, or the
    [ZeroDivisionError] of one of the two quotients. *)
Inductive outcome :=
| Returns (options : list choice)
| RaisesZeroDivisionError.

(** [last_frequency / current_frequency >= 2]; [None] when the divisor
    is zero. *)
Definition frequency_apart (last current : Q) : option bool :=
  if Qeq_bool current 0 then None else Some (Qle_bool 2 (last / current)).

(** [current_period / last_period >= 1.5] *)
Definition period_apart (last current : Q) : option bool :=
  if Qeq_bool last 0 then None else Some (Qle_bool (15 # 10) (current / last)).

(** The two loops over the sorted options: the options appended to
    [filtered_options], given the last value kept. *)
Fixpoint keep_apart (apart : Q -> Q -> option bool) (key : choice -> Q)
    (last : option Q) (options : list choice) : option (list choice) :=
  match options with
  | [] => Some []
  | option :: rest =>
    let current := key option in
    match last with
    | None => option_map (cons option) (keep_apart apart key (Some current) rest)
    | Some last_value =>
      match apart last_value current with
      | None => None
      | Some true =>
        option_map (cons option) (keep_apart apart key (Some current) rest)
      | Some false => keep_apart apart key last rest
      end
    end
  end.

(** [l[::step]] for a positive [step]; [skip] counts the elements still
    to be passed over. *)
Fixpoint every_go (step skip : nat) {A} (l : list A) : list A :=
  match l with
  | [] => []
  | x :: rest =>
    match skip with
    | O => x :: every_go step (Nat.pred step) rest
    | S skip' => every_go step skip' rest
    end
  end.

Definition every (step : nat) {A} (l : list A) : list A := every_go step 0 l.

(** [_validate_and_optimize_options] *)
Definition _validate_and_optimize_options (options : list choice)
    (param_key : str) : outcome :=
  if eqb param_key (u "observation_frequency") then
    let key := rank_in frequency_order in
    match keep_apart frequency_apart key None (sorted true key options) with
    | None => RaisesZeroDivisionError
    | Some filtered_options =>
      if (4 <? List.length filtered_options)%nat then
        let step := (List.length filtered_options / 4)%nat in
        Returns (firstn 4 (every step filtered_options))
      else Returns filtered_options
    end
  else if eqb param_key (u "monitoring_period") then
    let key := rank_in period_order in
    match keep_apart period_apart key None (sorted false key options) with
    | None => RaisesZeroDivisionError
    | Some filtered_options => Returns (firstn 4 filtered_options)
    end
  else Returns options.

(** The two tables and the two comparisons as Python has them, on
    binary64 numbers. *)
#[warnings="-inexact-float"]
Definition frequency_order_binary64 : list (str * float) :=
  [ (u "每小时1次", 24); (u "每3小时1次", 8); (u "每6小时1次", 4);
    (u "每12小时1次", 2); (u "每天1次", 1); (u "每2天1次", 0.5);
    (u "每3天1次", 0.33); (u "每5天1次", 0.2);
    (u "每周1次", 0.14); (u "每周2次", 0.29);
    (u "每10天1次", 0.1); (u "每两周1次", 0.07);
    (u "每月2次", 0.067); (u "每月1次", 0.033) ]%float.

#[warnings="-inexact-float"]
Definition period_order_binary64 : list (str * float) :=
  [ (u "1周", 0.25); (u "2周", 0.5); (u "1个月", 1); (u "2个月", 2);
    (u "3个月", 3); (u "6个月", 6); (u "9个月", 9); (u "1年", 12);
    (u "2年", 24); (u "长期监测", 999); (u "完整生长季", 8);
    (u "下一生长季", 8) ]%float.

Definition frequency_apart_binary64 (last current : float) : bool :=
  PrimFloat.leb 2 (last / current).

Definition period_apart_binary64 (last current : float) : bool :=
  PrimFloat.leb 1.5 (current / last).

(** The rational comparison and the binary64 one give the same answer
    on every pair of entries of the two tables, and the two orders agree
    on the entries and the default 0. *)
Definition same_on_tables : bool :=
  let agree (apart : Q -> Q -> option bool) (apart64 : float -> float -> bool)
            (table : list (str * Q)) (table64 : list (str * float)) :=
    let both := combine table table64 in
    let both0 := (([], 0), ([], 0%float)) :: both in
    forallb
      (fun a =>
         forallb
           (fun b =>
              Bool.eqb (default false (apart (snd (fst a)) (snd (fst b))))
                       (apart64 (snd (snd a)) (snd (snd b))))
           both)
      both
    && forallb
         (fun a =>
            forallb
              (fun b =>
                 Bool.eqb (Qle_bool (snd (fst a)) (snd (fst b)))
                          (PrimFloat.leb (snd (snd a)) (snd (snd b))))
              both0)
         both0
    && forallb (fun ab => eqb (fst (fst ab)) (fst (snd ab))) both
    && Nat.eqb (List.length table) (List.length table64) in
  agree frequency_apart frequency_apart_binary64
        frequency_order frequency_order_binary64
  && agree period_apart period_apart_binary64
           period_order period_order_binary64.

Definition tech_params : list str :=
  [u "spatial_resolution"; u "spectral_bands"; u "analysis_requirements";
   u "accuracy_requirements"; u "time_criticality"; u "weather_dependency";
   u "output_format"; u "data_processing_level"].

Definition target_tech_mapping : list (str * list str) :=
  [ (u "水质", [u "spectral_bands"; u "analysis_requirements";
                u "accuracy_requirements"]);
    (u "农业", [u "spatial_resolution"; u "spectral_bands";
                u "output_format"]);
    (u "城市", [u "spatial_resolution"; u "analysis_requirements";
                u "output_format"]);
    (u "灾害", [u "time_criticality"; u "weather_dependency";
                u "spatial_resolution"]);
    (u "植被", [u "spectral_bands"; u "spatial_resolution";
                u "analysis_requirements"]);
    (u "环境", [u "spectral_bands"; u "analysis_requirements";
                u "accuracy_requirements"]) ].

(** [list(dict.fromkeys(l))]: the first occurrence of each element, in
    order. *)
Definition fromkeys (l : list str) : list str :=
  fold_left (fun seen key => if mem key seen then seen else seen ++ [key])
            l [].

(** [_get_relevant_technical_params_from_config]; of
    [all_params_info] the function uses the keys only. *)
Definition _get_relevant_technical_params_from_config
    (existing_params : gmap str str) (all_params_info : gset str)
  : list str :=
  let monitoring_target :=
    default [] (existing_params !! u "monitoring_target") in
  let '(relevant_keys, matched) :=
    match List.find (fun kv => contains (fst kv) monitoring_target)
                    target_tech_mapping with
    | Some (_, tech_keys) => (tech_keys, true)
    | None => ([], false)
    end in
  let relevant_keys :=
    if negb matched || Nat.eqb (List.length relevant_keys) 0
    then [u "spatial_resolution"; u "analysis_requirements"; u "output_format"]
    else relevant_keys in
  let relevant_keys := fromkeys relevant_keys in
  let available_keys :=
    List.filter (fun key => bool_decide (key ∈ all_params_info))
                relevant_keys in
  if Nat.eqb (List.length available_keys) 0 then
    firstn 3 (List.filter (fun param => bool_decide (param ∈ all_params_info))
                          tech_params)
  else available_keys.

Definition priority_mapping : list (str * list str) :=
  [ (u "水质", [u "spectral_bands"; u "analysis_requirements";
                u "accuracy_requirements"; u "output_format"]);
    (u "农业", [u "spatial_resolution"; u "spectral_bands";
                u "analysis_requirements"; u "output_format"]);
    (u "城市", [u "spatial_resolution"; u "analysis_requirements";
                u "output_format"]);
    (u "灾害", [u "time_criticality"; u "weather_dependency";
                u "spatial_resolution"; u "output_format"]);
    (u "植被", [u "spectral_bands"; u "spatial_resolution";
                u "analysis_requirements"]);
    (u "环境", [u "spectral_bands"; u "analysis_requirements";
                u "accuracy_requirements"]) ].

(** A technical parameter dictionary: its ["key"] and the rest of it. *)
Record technical_param := TechnicalParam {
  param_key : str;
  param_rest : list (str * str)
}.

#[global] Instance technical_param_eq_dec : EqDecision technical_param.
Proof. solve_decision. Defined.

Definition default_priority : list str :=
  [u "spatial_resolution"; u "analysis_requirements"; u "output_format"].

(** The keys [_get_most_relevant_technical_params] sorts by. *)
Definition relevant_keys_for (monitoring_target : str) : list str :=
  match List.find (fun kv => contains (fst kv) monitoring_target)
                  priority_mapping with
  | Some (_, param_keys) => param_keys
  | None => default_priority
  end.

(** One pass over [tech_params]: the parameters that pass [test] and
    are not yet in [sorted_params] are appended. *)
Definition append_new (test : technical_param -> bool)
    (tech_params sorted_params : list technical_param)
  : list technical_param :=
  fold_left
    (fun sorted_params param =>
       if test param && negb (bool_decide (param ∈ sorted_params))
       then sorted_params ++ [param] else sorted_params)
    tech_params sorted_params.

(** [_get_most_relevant_technical_params] *)
Definition _get_most_relevant_technical_params
    (tech_params : list technical_param) (existing_params : gmap str str)
  : list technical_param :=
  let monitoring_target :=
    default [] (existing_params !! u "monitoring_target") in
  let relevant_keys := relevant_keys_for monitoring_target in
  let sorted_params :=
    fold_left
      (fun sorted_params key =>
         append_new (fun param => eqb (param_key param) key)
                    tech_params sorted_params)
      relevant_keys [] in
  append_new (fun _ => true) tech_params sorted_params.

(** The value of an option is not in the table. *)
Definition unknown (order : list (str * Q)) (x : choice) : Prop :=
  Stage.assoc (value x) order = None.

End Options.

(** ** Sample collaborators and states *)

Module Sample.
Import Py.

(** Collaborators of the calculator whose pattern checks look for one
    character each and whose language model vouches for nothing. *)
Definition patterns : Calc.env :=
  Calc.Env ascii_lower
           (fun text => contains (u "每") text) (fun _ => false)
           (fun text => if contains (u "月") text then Some text else None)
           (fun _ => None) (fun _ => false)
           (fun _ => None) (fun _ => None) (fun _ => None)
           (fun _ => false) (fun _ => false) (fun _ => None).

(** A state in stage [time] that holds a frequency and no period. *)
Definition time_answered : Stage.WorkflowState :=
  Stage.with_extracted_parameters
    {[ u "observation_frequency" := u "每天1次" ]}
    (Stage.with_parameter_collection_stage (u "time") Stage.initial).

End Sample.

(** ** What an exhausted stage leaves behind
    (views of the state used to state the forced move past a stage) *)

Module Forced.
Import Py Parser Stage.

(** Every value extracted in [b] is still there in [s]. *)
Definition values_kept (b s : WorkflowState) : Prop :=
  forall k v,
    extracted_parameters b !! k = Some v ->
    extracted_parameters s !! k = Some v.

(** The state is not taken for a new requirement after a completed
    clarification, the case in which [should_skip_clarification] and
    [extract_existing_parameters] empty the extracted parameters. *)
Definition same_requirement (e : env) (s : WorkflowState) : Prop :=
  clarification_completed s && _is_new_requirement e s = false.

(** [n] turns with collaborators that accept nothing. *)
Definition persistent (n : nat) : list turn :=
  List.repeat (Turn Demo.strict true (u "嗯")) n.

End Forced.

(** * Properties *)

(** ** Facts about the string primitives *)

Section PyFacts.
Import Py.

Lemma find2_split (a b : N) (s pre post : str) :
  find2 a b s = Some (pre, post) -> s = pre ++ a :: b :: post.
Proof.
  revert pre post.
  induction s as [|x s IH]; intros pre post H; [discriminate|].
  simpl in H. destruct s as [|y s']; [discriminate|].
  destruct ((x =? a)%N && (y =? b)%N) eqn:E.
  - apply andb_true_iff in E as [Ex Ey].
    apply N.eqb_eq in Ex, Ey. subst. inversion H; subst. reflexivity.
  - destruct (find2 a b (y :: s')) as [[pre' post']|] eqn:F; [|discriminate].
    inversion H; subst. simpl. f_equal. apply IH. reflexivity.
Qed.

Lemma startswith_app (p s r : str) :
  startswith p s = true -> startswith p (s ++ r) = true.
Proof.
  revert s. induction p as [|a p IH]; intros s H; [reflexivity|].
  destruct s as [|b s]; [discriminate|]. simpl in *.
  apply andb_true_iff in H as [H1 H2]. rewrite H1. simpl. auto.
Qed.

Lemma contains_cons (p : str) (c : N) (s : str) :
  contains p s = true -> contains p (c :: s) = true.
Proof. intros H. simpl. rewrite H. apply orb_true_r. Qed.

Lemma contains_app_r (p t s : str) :
  contains p s = true -> contains p (t ++ s) = true.
Proof.
  intros H. induction t as [|c t IH]; [exact H|].
  rewrite <- app_comm_cons. apply contains_cons, IH.
Qed.

Lemma contains_middle (p pre post : str) :
  contains p (pre ++ p ++ post) = true.
Proof.
  apply contains_app_r.
  assert (Hs : startswith p (p ++ post) = true).
  { clear. induction p as [|a p IH]; [reflexivity|].
    simpl. rewrite N.eqb_refl. exact IH. }
  destruct (p ++ post); simpl in *; rewrite Hs; reflexivity.
Qed.

Lemma find2_contains (a b : N) (s pre post : str) :
  find2 a b s = Some (pre, post) -> contains [a; b] s = true.
Proof.
  intros H. apply find2_split in H. subst.
  apply (contains_middle [a; b] pre post).
Qed.

Lemma truthy_false (s : str) : truthy s = false -> s = [].
Proof. destruct s; [reflexivity|discriminate]. Qed.

Lemma truthy_true (s : str) : truthy s = true -> s <> [].
Proof. destruct s; [discriminate|intros _ H; discriminate]. Qed.

End PyFacts.

(** ** The streaming content buffer *)

Section BufferFacts.
Import Py Buffer.

Lemma emitted_with_buffer v s : emitted (with_buffer v s) = emitted s.
Proof. reflexivity. Qed.

Lemma emitted_with_full_content v s : emitted (with_full_content v s) = emitted s.
Proof. reflexivity. Qed.

Lemma emitted_with_last_send_time v s : emitted (with_last_send_time v s) = emitted s.
Proof. reflexivity. Qed.

Lemma emitted_with_chunk_count v s : emitted (with_chunk_count v s) = emitted s.
Proof. reflexivity. Qed.

Lemma emitted_with_in_table v s : emitted (with_in_table v s) = emitted s.
Proof. reflexivity. Qed.

Lemma emitted_with_table_buffer v s : emitted (with_table_buffer v s) = emitted s.
Proof. reflexivity. Qed.

Lemma emitted_with_table_line_count v s : emitted (with_table_line_count v s) = emitted s.
Proof. reflexivity. Qed.

Create Rewrite HintDb buf.

#[local] Hint Rewrite
  emitted_with_buffer emitted_with_full_content emitted_with_last_send_time
  emitted_with_chunk_count emitted_with_in_table emitted_with_table_buffer
  emitted_with_table_line_count : buf.

Lemma emitted_snoc (l : list chunk) (c : chunk) :
  concat (List.map content (l ++ [c])) = concat (List.map content l) ++ content c.
Proof.
  rewrite List.map_app, concat_app. simpl. rewrite app_nil_r. reflexivity.
Qed.

Lemma send_buffer_spec (now : Z) (s : Buffer.t) :
  has_callback s = true ->
  let s' := _send_buffer now s in
  emitted s' = emitted s ++ buffer s /\ buffer s' = []
  /\ table_buffer s' = table_buffer s /\ in_table s' = in_table s
  /\ has_callback s' = true.
Proof.
  intros Hcb. unfold _send_buffer. rewrite Hcb, andb_true_r.
  destruct (truthy (buffer s)) eqn:E; simpl.
  - unfold emitted. simpl. rewrite emitted_snoc. simpl. auto.
  - apply truthy_false in E. rewrite E, app_nil_r. auto.
Qed.

Lemma send_table_spec (s : Buffer.t) :
  has_callback s = true ->
  let s' := _send_table s in
  emitted s' = emitted s ++ table_buffer s /\ table_buffer s' = []
  /\ buffer s' = buffer s /\ in_table s' = in_table s
  /\ has_callback s' = true.
Proof.
  intros Hcb. unfold _send_table. rewrite Hcb, andb_true_r.
  destruct (truthy (table_buffer s)) eqn:E; simpl.
  - unfold emitted. simpl. rewrite emitted_snoc. simpl. auto.
  - apply truthy_false in E. rewrite E, app_nil_r. auto.
Qed.

Lemma add_in_table_spec (c : str) (s : Buffer.t) :
  well_formed s -> in_table s = true ->
  well_formed (add_in_table c s)
  /\ total (add_in_table c s) = total s ++ c ++ repeated true c.
Proof.
  intros (Hcb & Hb & _) Hin. specialize (Hb Hin).
  unfold add_in_table.
  set (s' := with_table_line_count _ _).
  destruct (table_ends c s') eqn:Exit.
  - destruct (send_table_spec (with_in_table false s') Hcb)
      as (He & Ht & Hbuf & Hi & Hc).
    set (s1 := _send_table _) in *. simpl in Hbuf, Hi.
    unfold s' in He. autorewrite with buf in He. simpl in He.
    unfold repeated, split2_once.
    destruct (find2 LF LF c) as [[pre post]|] eqn:F.
    + split.
      * repeat split; simpl; try assumption; congruence.
      * unfold total. autorewrite with buf. simpl. rewrite He, Ht, Hb.
        rewrite !app_nil_r, <- !app_assoc. reflexivity.
    + split.
      * repeat split; try assumption; congruence.
      * unfold total. rewrite He, Ht, Hbuf, Hb.
        rewrite !app_nil_r. simpl. rewrite <- !app_assoc. reflexivity.
  - assert (F : find2 LF LF c = None).
    { destruct (find2 LF LF c) as [[pre post]|] eqn:F; [|reflexivity].
      apply find2_contains in F.
      apply orb_false_iff in Exit as [E1 _]. simpl in E1.
      unfold blank_line in E1. rewrite (contains_app_r _ _ _ F) in E1.
      discriminate. }
    unfold repeated. rewrite F. split.
    + repeat split; simpl; try assumption; congruence.
    + unfold total, s'. autorewrite with buf. simpl. rewrite Hb, !app_nil_r.
      rewrite <- !app_assoc. reflexivity.
Qed.

Lemma open_table_spec (clk : clock) (c : str) (s : Buffer.t) :
  well_formed s -> in_table s = false ->
  well_formed (open_table clk c s)
  /\ total (open_table clk c s) = total s ++ c.
Proof.
  intros (Hcb & _ & Ht) Hin. specialize (Ht Hin).
  unfold open_table.
  set (s1 := with_in_table true s).
  set (s2 := if truthy (buffer s1) then _send_buffer (t_send clk) s1 else s1).
  assert (H2 : emitted s2 ++ buffer s2 = emitted s ++ buffer s
               /\ has_callback s2 = true /\ in_table s2 = true).
  { unfold s2. destruct (truthy (buffer s1)) eqn:E.
    - destruct (send_buffer_spec (t_send clk) s1 Hcb) as (He & Hb & _ & Hi & Hc).
      rewrite He, Hb, Hi, app_nil_r. auto.
    - auto. }
  destruct H2 as (He & Hc & Hi). clearbody s2.
  split.
  - repeat split; simpl; try assumption; congruence.
  - unfold total. autorewrite with buf. simpl.
    rewrite Ht. simpl. rewrite !app_nil_r, !app_assoc, He. reflexivity.
Qed.

Lemma add_ordinary_spec (clk : clock) (c : str) (s : Buffer.t) :
  well_formed s -> in_table s = false ->
  well_formed (add_ordinary clk c s)
  /\ total (add_ordinary clk c s) = total s ++ c.
Proof.
  intros (Hcb & _ & Ht) Hin. specialize (Ht Hin).
  unfold add_ordinary.
  set (s1 := with_chunk_count _ _).
  destruct (should_send clk s1).
  - destruct (send_buffer_spec (t_send clk) s1 Hcb) as (He & Hb & Htb & Hi & Hc).
    set (s2 := _send_buffer _ _) in *. simpl in He, Htb, Hi.
    split.
    + repeat split; try assumption; try congruence.
    + unfold total. rewrite He, Hb, Htb, Ht, !app_nil_r.
      unfold s1. autorewrite with buf. rewrite app_assoc. reflexivity.
  - split.
    + repeat split; simpl; try assumption; congruence.
    + unfold total, s1. autorewrite with buf. simpl.
      rewrite Ht. simpl. rewrite app_assoc. reflexivity.
Qed.

(** One [add_content]: the total grows by the normalised fragment and by
    what the fragment repeats. *)
Lemma add_content_spec (clk : clock) (f : str) (s : Buffer.t) :
  well_formed s ->
  well_formed (add_content clk f s)
  /\ total (add_content clk f s)
     = total s ++ normalize f ++ repeated (in_table s) (normalize f).
Proof.
  intros Hwf. unfold add_content.
  set (c := normalize f).
  set (s1 := with_full_content _ s).
  assert (Hwf1 : well_formed s1) by exact Hwf.
  assert (Ht1 : total s1 = total s) by reflexivity.
  assert (Hi1 : in_table s1 = in_table s) by reflexivity.
  rewrite <- Ht1, <- Hi1. clearbody s1. clear Ht1 Hi1 Hwf.
  destruct (in_table s1) eqn:Hin.
  - rewrite andb_false_r. apply add_in_table_spec; assumption.
  - rewrite andb_true_r. unfold repeated. rewrite app_nil_r.
    destruct (contains table_marker c).
    + apply open_table_spec; assumption.
    + apply add_ordinary_spec; assumption.
Qed.

Lemma flush_spec (now : Z) (s : Buffer.t) :
  has_callback s = true ->
  emitted (flush now s) = total s
  /\ buffer (flush now s) = [] /\ table_buffer (flush now s) = [].
Proof.
  intros Hcb. unfold flush.
  set (s1 := if truthy (table_buffer s) then _send_table s else s).
  assert (H1 : emitted s1 = emitted s ++ table_buffer s
               /\ table_buffer s1 = [] /\ buffer s1 = buffer s
               /\ has_callback s1 = true).
  { unfold s1. destruct (truthy (table_buffer s)) eqn:E.
    - destruct (send_table_spec s Hcb) as (? & ? & ? & ? & ?). auto.
    - apply truthy_false in E. rewrite E, app_nil_r. auto. }
  destruct H1 as (He & Ht & Hb & Hc). clearbody s1.
  destruct (truthy (buffer s1)) eqn:E.
  - destruct (send_buffer_spec now s1 Hc) as (He' & Hb' & Ht' & _ & _).
    rewrite He', Hb', Ht', He, Hb, Ht. unfold total.
    rewrite app_assoc. auto.
  - apply truthy_false in E. unfold total.
    rewrite He, E, Ht. rewrite <- Hb, E, app_nil_r. auto.
Qed.

Lemma feed_spec (inputs : list (clock * str)) (s : Buffer.t) :
  well_formed s ->
  well_formed (feed inputs s)
  /\ total (feed inputs s) = total s ++ echo inputs s.
Proof.
  revert s. induction inputs as [|[clk f] rest IH]; intros s Hwf.
  - simpl. rewrite app_nil_r. auto.
  - destruct (add_content_spec clk f s Hwf) as [Hwf' Ht'].
    destruct (IH _ Hwf') as [Hwf'' Ht'']. split; [exact Hwf''|].
    unfold feed in *. simpl. rewrite Ht'', Ht'.
    rewrite <- !app_assoc. reflexivity.
Qed.

Lemma init_well_formed (min_size max_time now : Z) :
  well_formed (init min_size max_time true now).
Proof. repeat split. Qed.

(** The fragments, the final [flush]: all that is sent. *)
Lemma run_emits (inputs : list (clock * str)) (now : Z) (s : Buffer.t) :
  well_formed s ->
  emitted (run inputs now s) = total s ++ echo inputs s.
Proof.
  intros Hwf. destruct (feed_spec inputs s Hwf) as [[Hcb _] Ht].
  unfold run. destruct (flush_spec now (feed inputs s) Hcb) as [He _].
  rewrite He. exact Ht.
Qed.

Lemma echo_without_repeats (inputs : list (clock * str)) (s : Buffer.t) :
  no_blank_line_in_table inputs s = true ->
  echo inputs s = concat (List.map (fun i => normalize (snd i)) inputs).
Proof.
  revert s. induction inputs as [|[clk f] rest IH]; intros s H; [reflexivity|].
  simpl in *. apply andb_true_iff in H as [Hno Hrest].
  rewrite (IH _ Hrest). f_equal.
  assert (R : repeated (in_table s) (normalize f) = []).
  { unfold repeated. destruct (in_table s); [|reflexivity].
    destruct (find2 LF LF (normalize f)) as [[pre post]|] eqn:F; [|reflexivity].
    apply find2_contains in F. unfold blank_line in Hno.
    simpl in Hno. rewrite F in Hno. discriminate. }
  rewrite R. reflexivity.
Qed.

Lemma send_buffer_nonempty (now : Z) (s : Buffer.t) :
  nonempty_chunks s -> nonempty_chunks (_send_buffer now s).
Proof.
  intros H. unfold _send_buffer.
  destruct (truthy (buffer s)) eqn:E; [|exact H].
  destruct (has_callback s); [|exact H].
  unfold nonempty_chunks. simpl. apply Forall_app. split; [exact H|].
  constructor; [|constructor]. simpl. apply truthy_true, E.
Qed.

Lemma send_table_nonempty (s : Buffer.t) :
  nonempty_chunks s -> nonempty_chunks (_send_table s).
Proof.
  intros H. unfold _send_table.
  destruct (truthy (table_buffer s)) eqn:E; [|exact H].
  destruct (has_callback s); [|exact H].
  unfold nonempty_chunks. simpl. apply Forall_app. split; [exact H|].
  constructor; [|constructor]. simpl. apply truthy_true, E.
Qed.

Lemma add_content_nonempty (clk : clock) (f : str) (s : Buffer.t) :
  nonempty_chunks s -> nonempty_chunks (add_content clk f s).
Proof.
  intros H. unfold add_content.
  set (s1 := with_full_content _ s).
  assert (H1 : nonempty_chunks s1) by exact H. clearbody s1.
  destruct (contains table_marker (normalize f) && negb (in_table s1)).
  - unfold open_table.
    assert (H2 : nonempty_chunks
              (if truthy (buffer (with_in_table true s1))
               then _send_buffer (t_send clk) (with_in_table true s1)
               else with_in_table true s1)).
    { destruct (truthy _); [apply send_buffer_nonempty|]; exact H1. }
    exact H2.
  - destruct (in_table s1).
    + unfold add_in_table.
      destruct (table_ends _ _); [|exact H1].
      match goal with |- context [_send_table ?x] =>
        assert (H2 : nonempty_chunks (_send_table x))
          by (apply send_table_nonempty; exact H1)
      end.
      destruct (split2_once LF LF (normalize f)) as [|? [|? ?]]; exact H2.
    + unfold add_ordinary.
      destruct (should_send _ _); [apply send_buffer_nonempty|]; exact H1.
Qed.

Lemma flush_nonempty (now : Z) (s : Buffer.t) :
  nonempty_chunks s -> nonempty_chunks (flush now s).
Proof.
  intros H. unfold flush.
  set (s1 := if truthy (table_buffer s) then _send_table s else s).
  assert (H1 : nonempty_chunks s1).
  { unfold s1. destruct (truthy _); [apply send_table_nonempty|]; exact H. }
  clearbody s1.
  destruct (truthy (buffer s1)); [apply send_buffer_nonempty|]; exact H1.
Qed.

Lemma feed_nonempty (inputs : list (clock * str)) (s : Buffer.t) :
  nonempty_chunks s -> nonempty_chunks (feed inputs s).
Proof.
  revert s. induction inputs as [|[clk f] rest IH]; intros s H; [exact H|].
  apply IH, add_content_nonempty, H.
Qed.

End BufferFacts.

Section StreamingFacts.
Import Py Buffer Streaming.

Lemma handle_lines_well_formed (lines : list line) (acc : str * Buffer.t) :
  well_formed (snd acc) -> well_formed (snd (handle_lines lines acc)).
Proof.
  revert acc. induction lines as [|l rest IH]; intros acc H; [exact H|].
  destruct l; simpl; try exact H; apply IH; [exact H|].
  simpl. apply add_content_spec, H.
Qed.

Lemma iter_chunked_spec (body : list net_event) (acc : str * Buffer.t) :
  match iter_chunked body acc with
  | (acc', None) =>
    ends_normally body = true
    /\ (well_formed (snd acc) -> well_formed (snd acc'))
  | (_, Some _) => ends_normally body = false
  end.
Proof.
  revert acc. induction body as [|ev rest IH]; intros acc.
  - simpl. auto.
  - destruct ev as [lines|e]; simpl; [|reflexivity].
    specialize (IH (handle_lines lines acc)).
    destruct (iter_chunked rest (handle_lines lines acc)) as [acc' [e|]].
    + exact IH.
    + destruct IH as [Hn Hw]. split; [exact Hn|].
      intros H. apply Hw, handle_lines_well_formed, H.
Qed.

End StreamingFacts.

(** ** Claims about the stream buffer *)

Section BufferClaims.
Import Py Buffer Streaming.

(** C1, as amended.  Fed to a fresh buffer with a callback and followed by
    one final [flush], a sequence of fragments none of which arrives in
    table mode with a blank line in it is sent on complete and in order:
    the concatenation of the ["content"] fields is the concatenation of
    the fragments after [add_content] has replaced CR LF and CR by LF. *)
Theorem C1_roundtrip_normalized
    (min_size max_time t0 now : Z) (inputs : list (clock * str)) :
  no_blank_line_in_table inputs (init min_size max_time true t0) = true ->
  emitted (run inputs now (init min_size max_time true t0))
  = concat (List.map (fun i => normalize (snd i)) inputs).
Proof.
  intros H.
  rewrite (run_emits inputs now _ (init_well_formed min_size max_time t0)).
  rewrite (echo_without_repeats _ _ H). reflexivity.
Qed.

(** A run through table entry and table exit to which C1 applies. *)
Lemma C1_roundtrip_normalized_witness :
  let tick := Clock 0 0 in
  let inputs :=
    [ (tick, u "intro" ++ [CR; LF]);
      (tick, u "| a |" ++ [LF] ++ u "| --- |" ++ [LF]);
      (tick, u "| 1 |" ++ [LF]);
      (tick, u "| 2 |" ++ [LF]);
      (tick, u "after" ++ [LF]);
      (tick, u "tail") ] in
  no_blank_line_in_table inputs (init 10 300 true 0) = true
  /\ emitted (run inputs 0 (init 10 300 true 0))
     = concat (List.map (fun i => normalize (snd i)) inputs).
Proof.
  split; [reflexivity|].
  apply (C1_roundtrip_normalized 10 300 0 0). reflexivity.
Defined.

(** C1 as stated fails twice: a fragment with a carriage return is sent
    on changed, and a fragment that closes a table with a blank line has
    its tail sent twice. *)
Lemma C1_counterexample :
  let tick := Clock 0 0 in
  let altered := [ (tick, u "a" ++ [CR; LF] ++ u "b") ] in
  let doubled :=
    [ (tick, u "| --- |" ++ [LF]);
      (tick, u "| 1 |" ++ [LF; LF] ++ u "next") ] in
  emitted (run altered 0 (init 10 300 true 0)) <> concat (List.map snd altered)
  /\ emitted (run doubled 0 (init 10 300 true 0))
     <> concat (List.map snd doubled).
Proof. split; vm_compute; discriminate. Qed.

(** C10.  Whatever the fragments, the clock readings and the sizes, and
    with or without a callback, every chunk handed to the callback has
    content: after any number of fragments, and after the final
    [flush]; and a [flush] that finds both buffers empty hands over
    nothing. *)
Theorem C10_no_empty_chunk
    (min_size max_time t0 now : Z) (callback : bool)
    (inputs : list (clock * str)) :
  let s0 := init min_size max_time callback t0 in
  (forall k, Forall (fun c => content c <> [])
                    (sent (feed (List.firstn k inputs) s0)))
  /\ Forall (fun c => content c <> []) (sent (run inputs now s0))
  /\ (forall s : Buffer.t,
        buffer s = [] -> table_buffer s = [] -> sent (flush now s) = sent s).
Proof.
  assert (H0 : nonempty_chunks (init min_size max_time callback t0))
    by constructor.
  split; [|split].
  - intros k. apply feed_nonempty, H0.
  - apply flush_nonempty, feed_nonempty, H0.
  - intros s Hb Ht. unfold flush. rewrite Ht. simpl. rewrite Hb. reflexivity.
Qed.

(** A [flush] right after construction. *)
Lemma C10_no_empty_chunk_witness :
  buffer (init 10 300 true 0) = []
  /\ table_buffer (init 10 300 true 0) = []
  /\ sent (flush 0 (init 10 300 true 0)) = sent (init 10 300 true 0).
Proof.
  split; [reflexivity|]. split; [reflexivity|].
  apply (proj2 (proj2 (C10_no_empty_chunk 10 300 0 0 true []))); reflexivity.
Defined.

(** C9, as amended.  With the key set, the request accepted and status
    200, [flush] is invoked exactly when the body iterator ends without
    raising.  Then the buffer the call leaves is the buffer as the
    iterator left it, flushed; with a callback the text sent to it is
    the text sent before followed by what the table buffer and the
    ordinary buffer still held, and nothing stays in either.  When the
    iterator raises (timeout, cancellation, any other error) the call
    ends without [flush]: the buffer is left as the iterator left it,
    nothing more is sent and what it held stays there. *)
Theorem C9_flush_exactly_on_normal_end
    (callback : bool) (t0 t_end : Z) (body : list net_event) :
  let o :=
    call_deepseek_streaming_api_buffered true callback t0 None 200 body t_end in
  let left := snd (fst (iter_chunked body ([], init 10 300 callback t0))) in
  flushed o = ends_normally body
  /\ (ends_normally body = true ->
      content_buffer o = Some (flush t_end left)
      /\ (callback = true ->
          option_map emitted (content_buffer o)
          = Some (emitted left ++ table_buffer left ++ buffer left)
          /\ held o = []))
  /\ (ends_normally body = false ->
      content_buffer o = Some left
      /\ held o = table_buffer left ++ buffer left).
Proof.
  unfold call_deepseek_streaming_api_buffered. simpl.
  pose proof (iter_chunked_spec body ([], init 10 300 callback t0)) as H.
  destruct (iter_chunked body ([], init 10 300 callback t0))
    as [[full b] [e|]].
  - simpl. split; [symmetry; exact H|]. split.
    + intros Hn. rewrite Hn in H. discriminate.
    + intros _. split; reflexivity.
  - destruct H as [Hn Hw]. simpl in Hw. cbn [fst snd].
    assert (Hsent : callback = true ->
              emitted (flush t_end b)
              = emitted b ++ table_buffer b ++ buffer b
              /\ table_buffer (flush t_end b) ++ buffer (flush t_end b) = []).
    { intros ->. destruct (Hw (init_well_formed 10 300 t0)) as [Hcb _].
      destruct (flush_spec t_end b Hcb) as (He & Hb & Ht).
      rewrite Hb, Ht. split; [exact He|reflexivity]. }
    destruct (truthy full); simpl;
      (split; [symmetry; exact Hn|]);
      (split; [|intros Hf; rewrite Hn in Hf; discriminate]);
      intros _; (split; [reflexivity|]);
      intros Hc; destruct (Hsent Hc) as [He Hh];
      (split; [rewrite He; reflexivity|exact Hh]).
Qed.

(** A stream of two network chunks that ends normally with "abcdef"
    still in the ordinary buffer: [flush] sends it. *)
Lemma C9_flush_exactly_on_normal_end_witness :
  let body :=
    [ NetChunk [LineDelta (Clock 0 0) (u "abc"); LineSkip];
      NetChunk [LineDelta (Clock 1 1) (u "def"); LineDone] ] in
  let o := call_deepseek_streaming_api_buffered true true 0 None 200 body 2 in
  let left := snd (fst (iter_chunked body ([], init 10 300 true 0))) in
  (ends_normally body = true
   /\ emitted left = [] /\ buffer left = u "abcdef")
  /\ (option_map emitted (content_buffer o)
      = Some (emitted left ++ table_buffer left ++ buffer left)
      /\ held o = []).
Proof.
  intros body o left. split; [repeat split|].
  apply (proj1 (proj2 (C9_flush_exactly_on_normal_end true 0 2 body)));
    reflexivity.
Defined.

(** C9 as stated fails: the stream delivers "abc" and then times out;
    the call returns its error result without [flush], nothing was sent
    and "abc" is still in the buffer. *)
Lemma C9_counterexample :
  let o :=
    call_deepseek_streaming_api_buffered true true 0 None 200
      [ NetChunk [LineDelta (Clock 0 0) (u "abc")]; NetRaise TimeoutError ]
      0 in
  flushed o = false
  /\ held o = u "abc"
  /\ option_map sent (content_buffer o) = Some [].
Proof. vm_compute. auto. Qed.

End BufferClaims.

(** ** Claims about the uncertainty gate *)

Section GateClaims.
Import Py Gate.
Local Open Scope Q_scope.

Lemma weights_sum : w_knowledge_base + w_web_search + w_llm_judgment == 1.
Proof. reflexivity. Qed.

Lemma round2_uncertainty (kb web llm : bool) :
  round2 (1 - clarity kb web llm) == uncertainty kb web llm.
Proof. destruct kb, web, llm; reflexivity. Qed.

Lemma Qgtb_lt (x y : Q) : Qgtb x y = true <-> y < x.
Proof.
  unfold Qgtb. rewrite negb_true_iff. split.
  - intros H. apply Qnot_le_lt. intros Hle.
    apply Qle_bool_iff in Hle. congruence.
  - intros H. destruct (Qle_bool x y) eqn:E; [|reflexivity].
    apply Qle_bool_iff in E. exfalso. exact (Qlt_not_le _ _ H E).
Qed.

(** The verdict in terms of the three signals it records. *)
Lemma verdict_spec (c : collaborators) (target_text : option str)
    (enable_web_search enable_llm : bool) :
  let v := calculate_monitoring_target_uncertainty
             c target_text enable_web_search enable_llm in
  let d := verdict_details v in
  uncertainty_score v
  == uncertainty (knowledge_base_match d) (web_search_match d)
                 (llm_professional d)
  /\ needs_clarification v
     = clarify (knowledge_base_match d) (web_search_match d)
               (llm_professional d)
  /\ existence d = negb (absent target_text).
Proof.
  unfold calculate_monitoring_target_uncertainty.
  destruct target_text as [s|]; [|repeat split].
  destruct (absent (Some s)); [repeat split|].
  destruct (_check_knowledge_base c (strip s)) as [kb m].
  simpl. split; [apply round2_uncertainty|]. split; reflexivity.
Qed.

(** The signals of a candidate that exists are the answers of the
    collaborators, a disabled one counting as [false]. *)
Lemma verdict_signals (c : collaborators) (s : str)
    (enable_web_search enable_llm : bool) :
  absent (Some s) = false ->
  let d := verdict_details
             (calculate_monitoring_target_uncertainty
                c (Some s) enable_web_search enable_llm) in
  knowledge_base_match d = fst (_check_knowledge_base c (strip s))
  /\ web_search_match d
     = enable_web_search && _check_web_search c (strip s)
  /\ llm_professional d
     = enable_llm && _check_llm_professional c (strip s).
Proof.
  intros H. unfold calculate_monitoring_target_uncertainty. rewrite H.
  destruct (_check_knowledge_base c (strip s)) as [kb m]. simpl.
  destruct enable_web_search, enable_llm; auto.
Qed.

(** C2.  The three weights sum to 1.  For every candidate that is there
    the three signals are the answers of the collaborators on the
    stripped candidate (the vocabulary match, the web search and the
    language model, a disabled one counting as no); the score returned
    is 1 minus the weighted sum of these signals, and clarification is
    asked for exactly when that score exceeds 0.5 (the same decision
    comes out of the binary64 arithmetic).  A candidate that is absent,
    empty or blank scores 1 and needs clarification: it is not
    accepted. *)
Theorem C2_uncertainty_score
    (c : collaborators) (target_text : option str)
    (enable_web_search enable_llm : bool) :
  let v := calculate_monitoring_target_uncertainty
             c target_text enable_web_search enable_llm in
  let d := verdict_details v in
  let candidate := strip (default [] target_text) in
  let kb_signal := fst (_check_knowledge_base c candidate) in
  let web_signal := enable_web_search && _check_web_search c candidate in
  let llm_signal := enable_llm && _check_llm_professional c candidate in
  w_knowledge_base + w_web_search + w_llm_judgment == 1
  /\ (absent target_text = false ->
      knowledge_base_match d = kb_signal
      /\ web_search_match d = web_signal
      /\ llm_professional d = llm_signal
      /\ uncertainty_score v
         == 1 - (w_knowledge_base * b2q kb_signal
                 + w_web_search * b2q web_signal
                 + w_llm_judgment * b2q llm_signal)
      /\ (needs_clarification v = true
          <-> 5 # 10 < 1 - (w_knowledge_base * b2q kb_signal
                            + w_web_search * b2q web_signal
                            + w_llm_judgment * b2q llm_signal)))
  /\ uncertainty_score v
     == 1 - (w_knowledge_base * b2q (knowledge_base_match d)
             + w_web_search * b2q (web_search_match d)
             + w_llm_judgment * b2q (llm_professional d))
  /\ (needs_clarification v = true <-> 5 # 10 < uncertainty_score v)
  /\ needs_clarification v
     = clarify_binary64 (knowledge_base_match d) (web_search_match d)
                        (llm_professional d)
  /\ (absent target_text = true ->
      uncertainty_score v == 1 /\ needs_clarification v = true
      /\ accept v = false).
Proof.
  intros v d candidate kb_signal web_signal llm_signal.
  destruct (verdict_spec c target_text enable_web_search enable_llm)
    as (Hs & Hn & He).
  fold v in Hs, Hn, He. fold d in Hs, Hn, He.
  assert (Hiff : needs_clarification v = true <-> 5 # 10 < uncertainty_score v).
  { rewrite Hn, Hs. apply Qgtb_lt. }
  split; [reflexivity|]. split; [|split; [exact Hs|split; [exact Hiff|split]]].
  - intros Ha. destruct target_text as [s|]; [|discriminate].
    destruct (verdict_signals c s enable_web_search enable_llm Ha)
      as (Hk & Hw & Hl).
    fold v in Hk, Hw, Hl. fold d in Hk, Hw, Hl.
    change (strip (default [] (Some s))) with (strip s) in candidate.
    fold candidate in Hk, Hw, Hl.
    fold kb_signal in Hk. fold web_signal in Hw. fold llm_signal in Hl.
    split; [exact Hk|]. split; [exact Hw|]. split; [exact Hl|].
    rewrite <- Hk, <- Hw, <- Hl.
    split; [exact Hs|].
    rewrite Hiff, Hs. reflexivity.
  - rewrite Hn.
    destruct (knowledge_base_match d), (web_search_match d),
      (llm_professional d); vm_compute; reflexivity.
  - intros Ha. unfold v, accept, calculate_monitoring_target_uncertainty.
    destruct target_text as [s|]; [rewrite Ha|]; repeat split.
Qed.

(** A candidate the vocabulary and the language model vouch for and the
    web search does not: the score is 1 - (0.2 + 0.5); and an absent
    candidate. *)
Lemma C2_uncertainty_score_witness :
  let c := Collaborators ascii_lower
             (Vocabulary [(u "水质", [u "富营养化"])] [])
             (fun _ => false) (fun _ => true) in
  let v := calculate_monitoring_target_uncertainty
             c (Some (u " 水质变化 ")) true true in
  (absent (Some (u " 水质变化 ")) = false
   /\ uncertainty_score v
      == 1 - (w_knowledge_base * b2q true + w_web_search * b2q false
              + w_llm_judgment * b2q true)
   /\ needs_clarification v = false)
  /\ (absent None = true
      /\ accept (calculate_monitoring_target_uncertainty c None true true)
         = false).
Proof.
  intros c v. split.
  - split; [reflexivity|].
    destruct (proj1 (proj2 (C2_uncertainty_score
                              c (Some (u " 水质变化 ")) true true))
                    eq_refl) as (_ & _ & _ & Hs & Hn).
    split; [exact Hs|].
    destruct (needs_clarification v) eqn:E; [|reflexivity].
    apply Hn in E. vm_compute in E. discriminate.
  - split; [reflexivity|].
    apply (C2_uncertainty_score c None true true). reflexivity.
Defined.

Lemma uncertainty_monotone (kb web llm kb' web' llm' : bool) :
  signal_le kb kb' -> signal_le web web' -> signal_le llm llm' ->
  uncertainty kb' web' llm' <= uncertainty kb web llm
  /\ (clarify kb web llm = false -> clarify kb' web' llm' = false).
Proof.
  unfold signal_le. intros H1 H2 H3.
  destruct kb, web, llm;
    try (rewrite (H1 eq_refl)); try (rewrite (H2 eq_refl));
    try (rewrite (H3 eq_refl));
    destruct kb', web', llm'; split; vm_compute; congruence.
Qed.

(** C7.  Two runs of the gate, on any candidates and with any
    collaborators, that record the same three signals return the same
    score and the same decision; and when the signals of a second run are
    those of a first with some [false] turned [true], its score is not
    higher and an accept stays an accept. *)
Theorem C7_deterministic_and_monotone
    (c1 c2 : collaborators) (t1 t2 : option str) (w1 l1 w2 l2 : bool) :
  let v1 := calculate_monitoring_target_uncertainty c1 t1 w1 l1 in
  let v2 := calculate_monitoring_target_uncertainty c2 t2 w2 l2 in
  let d1 := verdict_details v1 in
  let d2 := verdict_details v2 in
  (knowledge_base_match d1 = knowledge_base_match d2 ->
   web_search_match d1 = web_search_match d2 ->
   llm_professional d1 = llm_professional d2 ->
   uncertainty_score v1 == uncertainty_score v2
   /\ needs_clarification v1 = needs_clarification v2)
  /\ (signal_le (knowledge_base_match d1) (knowledge_base_match d2) ->
      signal_le (web_search_match d1) (web_search_match d2) ->
      signal_le (llm_professional d1) (llm_professional d2) ->
      uncertainty_score v2 <= uncertainty_score v1
      /\ (accept v1 = true -> accept v2 = true)).
Proof.
  intros v1 v2 d1 d2.
  destruct (verdict_spec c1 t1 w1 l1) as (Hs1 & Hn1 & _).
  destruct (verdict_spec c2 t2 w2 l2) as (Hs2 & Hn2 & _).
  fold v1 in Hs1, Hn1. fold d1 in Hs1, Hn1.
  fold v2 in Hs2, Hn2. fold d2 in Hs2, Hn2.
  split.
  - intros E1 E2 E3. rewrite Hs1, Hs2, Hn1, Hn2, E1, E2, E3.
    split; reflexivity.
  - intros L1 L2 L3.
    destruct (uncertainty_monotone _ _ _ _ _ _ L1 L2 L3) as [Hle Hacc].
    rewrite Hs1, Hs2. split; [exact Hle|].
    unfold accept. rewrite Hn1, Hn2, !negb_true_iff. exact Hacc.
Qed.

(** Three candidates: the language model alone vouches for the first
    and for the third, the vocabulary as well for the second. *)
Lemma C7_deterministic_and_monotone_witness :
  let c := Collaborators ascii_lower
             (Vocabulary [(u "水质", [u "富营养化"])] [])
             (fun _ => false) (fun _ => true) in
  let v1 := calculate_monitoring_target_uncertainty
              c (Some (u "湖泊变化")) true true in
  let v2 := calculate_monitoring_target_uncertainty
              c (Some (u "水质变化")) true true in
  let v3 := calculate_monitoring_target_uncertainty
              c (Some (u "森林覆盖")) false true in
  (uncertainty_score v1 == uncertainty_score v3
   /\ needs_clarification v1 = needs_clarification v3)
  /\ (uncertainty_score v2 <= uncertainty_score v1
      /\ (accept v1 = true -> accept v2 = true)).
Proof.
  intros c v1 v2 v3. split.
  - apply (C7_deterministic_and_monotone c c (Some (u "湖泊变化"))
             (Some (u "森林覆盖")) true true false true); reflexivity.
  - apply (C7_deterministic_and_monotone c c (Some (u "湖泊变化"))
             (Some (u "水质变化")) true true true true);
      vm_compute; congruence.
Defined.

End GateClaims.

(** ** Claims about the response parser *)

Section ParserFacts.
Import Py Parser.

Lemma keys_within_empty (questions : list question) :
  keys_within questions ∅.
Proof. intros k [v H]. rewrite lookup_empty in H. discriminate. Qed.

Lemma keys_within_insert (questions : list question) (m : gmap str str)
    (q : question) (v : str) :
  In q questions -> keys_within questions m ->
  keys_within questions (<[parameter_key q := v]> m).
Proof.
  intros Hq Hm k Hk. apply lookup_insert_is_Some in Hk as [<-|[_ Hk]].
  - apply in_map, Hq.
  - apply Hm, Hk.
Qed.

(** A loop over some of the questions whose body keeps the keys within
    the pending ones. *)
Lemma fold_keys_within {A} (questions : list question)
    (f : gmap str str -> A -> gmap str str) (l : list A) (m : gmap str str) :
  (forall m a, In a l -> keys_within questions m ->
               keys_within questions (f m a)) ->
  keys_within questions m -> keys_within questions (fold_left f l m).
Proof.
  revert m. induction l as [|a l IH]; intros m Hf Hm; [exact Hm|].
  simpl. apply IH.
  - intros m' a' Ha'. apply Hf. right. exact Ha'.
  - apply Hf; [left; reflexivity|exact Hm].
Qed.

Lemma exact_pass_keys (response : str) (questions : list question) :
  keys_within questions (exact_pass response questions).
Proof.
  unfold exact_pass. apply fold_keys_within; [|apply keys_within_empty].
  intros m q Hq Hm. unfold exact_step.
  destruct (first_hit response (options q)); [|exact Hm].
  apply keys_within_insert; assumption.
Qed.

Lemma positional_keys (parts : list str) (questions : list question)
    (m : gmap str str) :
  keys_within questions m -> keys_within questions (positional parts questions m).
Proof.
  unfold positional. apply fold_keys_within.
  intros m' [part q] Hpq Hm'. unfold positional_step. simpl.
  destruct (m' !! parameter_key q); [exact Hm'|].
  apply keys_within_insert; [|exact Hm'].
  exact (in_combine_r _ _ _ _ Hpq).
Qed.

Lemma rule_step_keys (e : env) (response : str) (questions : list question)
    (m : gmap str str) (q : question) :
  In q questions -> keys_within questions m ->
  keys_within questions (rule_step e response questions m q).
Proof.
  intros Hq Hm. unfold rule_step.
  destruct (m !! parameter_key q); [exact Hm|].
  destruct (Nat.eqb _ _); [apply positional_keys, Hm|].
  assert (Hl : keys_within questions (labelled e response q m)).
  { unfold labelled.
    destruct (search_labelled e _ response);
      [apply keys_within_insert; assumption|].
    destruct (search_labelled e _ response);
      [apply keys_within_insert; assumption|exact Hm]. }
  destruct (labelled e response q m !! parameter_key q); [exact Hl|].
  destruct (_extract_param_value_from_response e response q) as [v|];
    [|exact Hl].
  destruct (truthy v); [apply keys_within_insert; assumption|exact Hl].
Qed.

Lemma validate_lookup (m : gmap str str) (k v : str) :
  validate m !! k = Some v <-> m !! k = Some v /\ noise v = false.
Proof. unfold validate. apply map_lookup_filter_Some. Qed.

Lemma rules_keys (e : env) (response : str) (questions : list question) :
  keys_within questions (_parse_response_by_rules e response questions).
Proof.
  unfold _parse_response_by_rules.
  destruct (existsb _ skip_words); [apply keys_within_empty|].
  destruct (Nat.eqb _ _); [apply exact_pass_keys|].
  intros k [v Hk]. apply validate_lookup in Hk as [Hk _].
  revert k Hk.
  cut (keys_within questions
         (fold_left (rule_step e response questions) questions
                    (exact_pass response questions))).
  { intros H k Hk. apply H. eauto. }
  apply fold_keys_within; [|apply exact_pass_keys].
  intros m q Hq Hm. apply rule_step_keys; assumption.
Qed.

(** What the last loop leaves: no value that strips to fewer than two
    characters or to a bare affirmative. *)
Lemma noise_false (v : str) :
  noise v = false -> 2 <= len v /\ ~ In v affirmatives.
Proof.
  unfold noise. intros H. apply orb_false_iff in H as [Hlen Hmem].
  apply Z.ltb_ge in Hlen.
  assert (Hle : len (strip v) <= len v).
  { unfold len, strip, rstrip.
    assert (L : forall s, (List.length (lstrip s) <= List.length s)%nat).
    { induction s as [|c s IH]; simpl; [lia|].
      destruct (isspace c); simpl; lia. }
    pose proof (L (rev (lstrip (rev v)))) as H1.
    pose proof (L (rev v)) as H2.
    rewrite !length_rev in *. lia. }
  split; [lia|].
  intros Hin.
  assert (Hs : strip v = v).
  { unfold affirmatives in Hin. simpl in Hin.
    destruct Hin as [<-|[<-|[<-|[<-|[]]]]]; reflexivity. }
  rewrite Hs in Hmem. unfold mem in Hmem.
  assert (Ht : existsb (eqb v) affirmatives = true).
  { apply existsb_exists. exists v. split; [exact Hin|].
    unfold eqb. apply bool_decide_eq_true. reflexivity. }
  congruence.
Qed.

(** Past the early return, every value the rule-based parser returns
    has been through the last loop. *)
Lemma rules_validated (e : env) (response : str) (questions : list question)
    (k v : str) :
  size (exact_pass response questions) <> List.length questions ->
  _parse_response_by_rules e response questions !! k = Some v ->
  2 <= len v /\ ~ In v affirmatives.
Proof.
  intros Hsize. unfold _parse_response_by_rules.
  destruct (existsb _ skip_words);
    [rewrite lookup_empty; discriminate|].
  destruct (Nat.eqb _ _) eqn:E; [apply Nat.eqb_eq in E; contradiction|].
  intros H. apply validate_lookup in H as [_ H]. exact (noise_false v H).
Qed.

End ParserFacts.

Section ParserClaims.
Import Py Parser.

(** C6, as amended.  Every key of the map the rule-based parser returns
    is the [parameter_key] of a pending question; every key of the map
    [parse_user_response] returns is such a key, or a key of the
    non-empty map the language model answered with, which is returned as
    it is. *)
Theorem C6_keys_pending_or_from_model
    (e : env) (response : str) (questions : list question) :
  (forall k, is_Some (_parse_response_by_rules e response questions !! k) ->
             In k (pending_keys questions))
  /\ (forall k,
        is_Some (parameters (parse_user_response e response questions) !! k) ->
        In k (pending_keys questions)
        \/ exists m skip,
             ai_mode_enabled e = true
             /\ analyze_user_response e response questions = Some (m, skip)
             /\ m <> ∅
             /\ parameters (parse_user_response e response questions) = m).
Proof.
  split; [apply rules_keys|].
  intros k. unfold parse_user_response.
  destruct (ai_mode_enabled e) eqn:Hai;
    [|simpl; intros H; left; exact (rules_keys e response questions k H)].
  destruct (analyze_user_response e response questions) as [[m skip]|] eqn:Ha;
    [|simpl; intros H; left; exact (rules_keys e response questions k H)].
  destruct (bool_decide (m = ∅)) eqn:Hm; simpl.
  - intros H; left; exact (rules_keys e response questions k H).
  - intros _. right. exists m, skip.
    apply bool_decide_eq_false in Hm. auto.
Qed.

(** C6 as stated fails: the model answers with a key nobody asked for
    and the parser returns it. *)
Lemma C6_counterexample :
  let q := Question (u "monitoring_target") None [] true (u "purpose") 0 in
  let e :=
    Env ascii_lower (fun _ _ => None) (fun _ _ => None) true
        (fun _ _ => Some ({[ u "budget" := u "low" ]}, false)) in
  parameters (parse_user_response e (u "water quality") [q]) !! u "budget"
  = Some (u "low")
  /\ ~ In (u "budget") (pending_keys [q]).
Proof.
  split; [vm_compute; reflexivity|].
  vm_compute. intros [H|[]]. discriminate.
Qed.

(** C8: the code departs from the claim.  One pending question whose
    option has the one-character value "高": the answer "高精度" matches
    the option, every question is resolved, and the parser returns the
    value without the last loop, although that loop counts it as noise.
    With a second, unanswered question pending, the same answer goes
    through the last loop and the assignment is removed. *)
Theorem C8_early_return_skips_validation :
  let e :=
    Env ascii_lower (fun _ _ => None) (fun _ _ => None) false
        (fun _ _ => None) in
  let q1 :=
    Question (u "accuracy_requirements") None
             [ChoiceDict (u "高") (u "高精度") None;
              ChoiceDict (u "中") (u "中等精度") None]
             false (u "technical") 0 in
  let q2 :=
    Question (u "output_format") None [] false (u "technical") 0 in
  _parse_response_by_rules e (u "高精度") [q1] !! u "accuracy_requirements"
  = Some (u "高")
  /\ noise (u "高") = true
  /\ len (u "高") < 2
  /\ _parse_response_by_rules e (u "高精度") [q1; q2]
     !! u "accuracy_requirements" = None.
Proof. vm_compute. auto. Qed.

End ParserClaims.

(** ** The staged controller *)

Section StageFacts.
Import Py Parser Stage.

Lemma str_eqb_eq (a b : str) : eqb a b = true <-> a = b.
Proof. unfold eqb. apply bool_decide_eq_true. Qed.

Lemma str_eqb_neq (a b : str) : eqb a b = false <-> a <> b.
Proof. unfold eqb. apply bool_decide_eq_false. Qed.

Lemma str_eqb_refl (a : str) : eqb a a = true.
Proof. apply str_eqb_eq. reflexivity. Qed.

(** Evaluation of the tests on stage names that are literals. *)
Ltac eval_names :=
  repeat match goal with
  | |- context [eqb (u ?a) (u ?b)] =>
    let v := eval vm_compute in (eqb (u a) (u b)) in
    change (eqb (u a) (u b)) with v
  | |- context [rank (u ?a)] =>
    let v := eval vm_compute in (rank (u a)) in
    change (rank (u a)) with v
  | |- context [known_stage (u ?a)] =>
    let v := eval vm_compute in (known_stage (u a)) in
    change (known_stage (u a)) with v
  | |- context [index (u ?a) ?l] =>
    let v := eval vm_compute in (index (u a) l) in
    change (index (u a) l) with v
  | |- context [stage_entry (u ?a)] =>
    let v := eval cbv in (stage_entry (u a)) in
    change (stage_entry (u a)) with v
  end.

Lemma in_order_cases (st : str) :
  In st stage_order ->
  st = u "purpose" \/ st = u "time" \/ st = u "location_area"
  \/ st = u "location_range" \/ st = u "technical".
Proof.
  unfold stage_order. simpl. intros [H|[H|[H|[H|[H|[]]]]]]; auto.
Qed.

Lemma known_cases (st : str) :
  known_stage st = true ->
  st = u "not_started" \/ In st stage_order \/ st = u "completed".
Proof.
  unfold known_stage, mem. intros H. apply existsb_exists in H as (x & Hx & E).
  apply str_eqb_eq in E. subst x. simpl in Hx.
  destruct Hx as [H|[H|[H|[H|[H|[H|[H|[]]]]]]]]; subst;
    auto; right; left; simpl; auto 10.
Qed.

Lemma in_order_known (st : str) :
  In st stage_order ->
  known_stage st = true /\ (1 <= rank st <= 5)%nat
  /\ st <> u "not_started" /\ st <> u "completed".
Proof.
  intros H. apply in_order_cases in H as [->|[->|[->|[->| ->]]]];
    vm_compute; repeat split; try lia; discriminate.
Qed.

Lemma stage_entry_in_order (st : str) :
  In st stage_order -> exists info, stage_entry st = Some info.
Proof.
  intros H. apply in_order_cases in H as [->|[->|[->|[->| ->]]]];
    eexists; vm_compute; reflexivity.
Qed.

Lemma stage_entry_Some (st : str) (info : stage_info) :
  stage_entry st = Some info -> In st stage_order.
Proof.
  unfold stage_entry, COLLECTION_STAGES, stage_order. cbn [assoc].
  repeat match goal with
  | |- context [eqb st ?x] =>
    let E := fresh "E" in
    destruct (eqb st x) eqn:E;
      [apply str_eqb_eq in E; subst; intros _; cbn [In]; auto 10|]
  end.
  discriminate.
Qed.

(** [get_next_collection_stage] from a known stage: a stage of
    [stage_order], strictly later. *)
Lemma get_next_later (s : WorkflowState) (next : str) :
  known_stage (parameter_collection_stage s) = true ->
  get_next_collection_stage s = Some next ->
  In next stage_order
  /\ (rank (parameter_collection_stage s) < rank next)%nat.
Proof.
  intros Hk. unfold get_next_collection_stage, get_current_collection_stage.
  apply known_cases in Hk as [H|[H|H]].
  - rewrite H. eval_names. intros E. inversion E; subst.
    split; [simpl; auto|vm_compute; lia].
  - apply in_order_cases in H as [H|[H|[H|[H|H]]]]; rewrite H; eval_names;
      cbn [skipn stage_order]; intros E; apply find_some in E as [E _];
      cbn [In] in E;
      repeat (destruct E as [E|E]; [subst next; split;
                [cbn [stage_order In]; auto 10|vm_compute; lia]|]);
      destruct E.
  - rewrite H. eval_names. discriminate.
Qed.

Lemma get_next_remaining (s : WorkflowState) (next : str) :
  known_stage (parameter_collection_stage s) = true ->
  get_next_collection_stage s = Some next ->
  (remaining next < remaining (parameter_collection_stage s))%nat.
Proof.
  intros Hk E. destruct (get_next_later s next Hk E) as [Hin Hlt].
  destruct (in_order_known next Hin) as (Hk' & Hr & _).
  unfold remaining. rewrite Hk, Hk'. lia.
Qed.

(** From an unknown stage the next stage is [purpose]. *)
Lemma get_next_unknown (s : WorkflowState) :
  known_stage (parameter_collection_stage s) = false ->
  get_next_collection_stage s = Some (u "purpose").
Proof.
  intros Hk. unfold get_next_collection_stage, get_current_collection_stage.
  set (st := parameter_collection_stage s) in *.
  unfold known_stage, mem in Hk. cbn [app stage_order existsb] in Hk.
  repeat (apply orb_false_iff in Hk as [?E Hk]).
  rewrite E, E5. unfold stage_order. cbn [index].
  rewrite E0, E1, E2, E3, E4. reflexivity.
Qed.

(** *** States with the same view *)

Lemma within_budget_view (s s' : WorkflowState) :
  view s' = view s -> within_budget s -> within_budget s'.
Proof.
  unfold view. intros E H st info Hst. inversion E as [[E1 E2 E3]].
  specialize (H st info Hst).
  unfold asked, retries, entered in *. rewrite E1, E2, E3. exact H.
Qed.

Lemma advances_refl (s : WorkflowState) :
  known_stage (parameter_collection_stage s) = true -> advances s s.
Proof. intros H. split; [exact H|]. split; [lia|auto]. Qed.

Lemma advances_trans (s1 s2 s3 : WorkflowState) :
  advances s1 s2 -> advances s2 s3 -> advances s1 s3.
Proof.
  intros (_ & R1 & B1) (K2 & R2 & B2).
  split; [exact K2|]. split; [lia|auto].
Qed.

Lemma advances_view (s s' : WorkflowState) :
  view s' = view s ->
  known_stage (parameter_collection_stage s) = true -> advances s s'.
Proof.
  intros E K. pose proof E as E'. unfold view in E'.
  inversion E' as [[E1 E2 E3]]. unfold advances. rewrite E1.
  split; [exact K|]. split; [lia|]. apply within_budget_view, E.
Qed.

Lemma advances_view_r (s s' s'' : WorkflowState) :
  advances s s' -> view s'' = view s' -> advances s s''.
Proof.
  intros H E. apply (advances_trans _ _ _ H), advances_view; [exact E|].
  apply H.
Qed.

Lemma advances_view_l (s s' s'' : WorkflowState) :
  view s' = view s -> advances s' s'' -> advances s s''.
Proof.
  intros E (K & R & B). pose proof E as E'. unfold view in E'.
  inversion E' as [[E1 E2 E3]]. rewrite E1 in R.
  split; [exact K|]. split; [exact R|].
  intros Hb. apply B, (within_budget_view _ _ E Hb).
Qed.

Lemma emit_view (callback : bool) (ev : event) (s : WorkflowState) :
  view (emit callback ev s) = view s.
Proof. destruct callback; reflexivity. Qed.

Lemma should_skip_view (e : env) (s : WorkflowState) :
  view (snd (should_skip_clarification e s)) = view s.
Proof.
  unfold should_skip_clarification.
  repeat match goal with
  | |- context [if ?b then _ else _] => destruct b
  end; reflexivity.
Qed.

Lemma extract_view (e : env) (s : WorkflowState) :
  view (snd (extract_existing_parameters e s)) = view s.
Proof.
  unfold extract_existing_parameters.
  destruct (awaiting_clarification s); [reflexivity|].
  destruct (_is_new_requirement e s); reflexivity.
Qed.

Lemma prepare_view (e : env) (s : WorkflowState) :
  view (snd (prepare e s)) = view s.
Proof.
  unfold prepare. destruct (_ && _); [|reflexivity].
  pose proof (extract_view e s) as H.
  destruct (extract_existing_parameters e s) as [p s']. exact H.
Qed.

(** *** The budget of questions *)

Lemma asks_app (st : str) (l l' : list step) :
  asks st (l ++ l') = (asks st l + asks st l')%nat.
Proof. unfold asks. rewrite List.filter_app, length_app. reflexivity. Qed.

Lemma entered_mono (st : str) (s s' : WorkflowState) :
  (rank (parameter_collection_stage s)
   <= rank (parameter_collection_stage s'))%nat ->
  entered st s <= entered st s'.
Proof.
  intros H. unfold entered.
  destruct (rank st <=? rank (parameter_collection_stage s))%nat eqn:E1;
    destruct (rank st <=? rank (parameter_collection_stage s'))%nat eqn:E2;
    try lia.
  apply Nat.leb_le in E1. apply Nat.leb_gt in E2. lia.
Qed.

Lemma entered_range (st : str) (s : WorkflowState) : 0 <= entered st s <= 1.
Proof. unfold entered. destruct (_ <=? _)%nat; lia. Qed.

(** Moving the stage forward costs nothing. *)
Lemma advances_set_stage (next : str) (s : WorkflowState) :
  known_stage next = true ->
  (rank (parameter_collection_stage s) <= rank next)%nat ->
  advances s (set_collection_stage next s).
Proof.
  intros K R. split; [exact K|]. split; [exact R|].
  intros B st info Hst. destruct (B st info Hst) as [B1 B2].
  split; [|exact B2].
  pose proof (entered_mono st s (set_collection_stage next s) R) as M.
  unfold asked, retries in *. simpl. rewrite asks_app. simpl.
  rewrite Nat.add_0_r. lia.
Qed.

(** A retry of the current stage with its questions: one more retry
    counted, one more asking. *)
Lemma advances_retry_ask (e : env) (callback : bool) (s : WorkflowState)
    (questions : list question) (retry_count : Z)
    (results : gmap str uresult) (info : stage_info) :
  let current := parameter_collection_stage s in
  known_stage current = true ->
  stage_entry current = Some info ->
  retries current s < max_retries info ->
  advances s (increment_stage_retry current s)
  /\ advances s (ask e callback questions current retry_count results
                     (increment_stage_retry current s)).
Proof.
  intros current K Hinfo Hlt.
  assert (Hret : forall st,
            retries st (increment_stage_retry current s)
            = if bool_decide (st = current) then retries st s + 1
              else retries st s).
  { intros st. unfold retries, increment_stage_retry. simpl.
    destruct (bool_decide (st = current)) eqn:E.
    - apply bool_decide_eq_true in E. subst. rewrite lookup_insert_eq.
      reflexivity.
    - apply bool_decide_eq_false in E. rewrite lookup_insert_ne by congruence.
      reflexivity. }
  assert (Hbud : forall st info',
            stage_entry st = Some info' -> within_budget s ->
            retries st (increment_stage_retry current s) <= max_retries info'
            /\ Z.of_nat (asked st s)
                 + (if bool_decide (st = current) then 1 else 0)
               <= retries st (increment_stage_retry current s)
                  + entered st s).
  { intros st info' Hst B. destruct (B st info' Hst) as [B1 B2].
    rewrite Hret. destruct (bool_decide (st = current)) eqn:E; [|lia].
    apply bool_decide_eq_true in E. subst st.
    rewrite Hinfo in Hst. inversion Hst; subst. lia. }
  split.
  - split; [exact K|]. split; [simpl; lia|].
    intros B st info' Hst. destruct (Hbud st info' Hst B) as [H1 H2].
    split; [|exact H1].
    change (asked st (increment_stage_retry current s)) with (asked st s).
    change (entered st (increment_stage_retry current s)) with (entered st s).
    destruct (bool_decide (st = current)); lia.
  - split; [destruct callback; exact K|].
    split; [destruct callback; simpl; lia|].
    intros B st info' Hst. destruct (Hbud st info' Hst B) as [H1 H2].
    assert (Ha : asked st (ask e callback questions current retry_count
                               results (increment_stage_retry current s))
                 = (asked st s
                    + if bool_decide (st = current) then 1 else 0)%nat).
    { unfold ask, asked. destruct callback; simpl; rewrite asks_app;
        unfold asks at 2; simpl; unfold eqb;
        destruct (bool_decide (st = current)); reflexivity. }
    rewrite Ha. split.
    + replace (retries st (ask e callback questions current retry_count
                               results (increment_stage_retry current s)))
        with (retries st (increment_stage_retry current s))
        by (destruct callback; reflexivity).
      replace (entered st (ask e callback questions current retry_count
                               results (increment_stage_retry current s)))
        with (entered st s) by (destruct callback; reflexivity).
      destruct (bool_decide (st = current)); lia.
    + replace (retries st (ask e callback questions current retry_count
                               results (increment_stage_retry current s)))
        with (retries st (increment_stage_retry current s))
        by (destruct callback; reflexivity).
      exact H1.
Qed.

(** The move to a later stage with its questions: the asking is the one
    the entry pays for. *)
Lemma advances_move_ask (e : env) (callback : bool) (s : WorkflowState)
    (next : str) (questions : list question) (retry_count : Z)
    (results : gmap str uresult) :
  In next stage_order ->
  (rank (parameter_collection_stage s) < rank next)%nat ->
  advances s (ask e callback questions next retry_count results
                  (set_collection_stage next s)).
Proof.
  intros Hin R. destruct (in_order_known next Hin) as (K & _).
  split; [destruct callback; exact K|].
  split; [destruct callback; simpl; lia|].
  intros B st info Hst. destruct (B st info Hst) as [B1 B2].
  set (s' := ask _ _ _ _ _ _ _).
  assert (Hr : retries st s' = retries st s)
    by (unfold s'; destruct callback; reflexivity).
  assert (Hs : parameter_collection_stage s' = next)
    by (unfold s'; destruct callback; reflexivity).
  assert (Ha : asked st s'
               = (asked st s + if bool_decide (st = next) then 1 else 0)%nat).
  { unfold s', ask, asked. destruct callback; simpl; rewrite !asks_app;
      unfold asks at 2 3; simpl; unfold eqb;
      destruct (bool_decide (st = next)); simpl; lia. }
  rewrite Ha, Hr. split; [|exact B2].
  unfold entered in *. rewrite Hs.
  destruct (bool_decide (st = next)) eqn:E.
  - apply bool_decide_eq_true in E. subst st.
    rewrite Nat.leb_refl.
    destruct (rank next <=? rank (parameter_collection_stage s))%nat eqn:E1;
      [apply Nat.leb_le in E1; lia|lia].
  - destruct (rank st <=? rank (parameter_collection_stage s))%nat eqn:E1;
      destruct (rank st <=? rank next)%nat eqn:E2; try lia.
    apply Nat.leb_le in E1. apply Nat.leb_gt in E2. lia.
Qed.

Lemma enter_advances (callback : bool) (s : WorkflowState) :
  known_stage (parameter_collection_stage s) = true ->
  advances s (enter callback s)
  /\ parameter_collection_stage (enter callback s) <> u "not_started".
Proof.
  intros K. unfold enter, get_current_collection_stage.
  destruct (eqb (parameter_collection_stage s) (u "not_started")) eqn:E.
  - apply str_eqb_eq in E. split.
    + apply (advances_view_r _ (set_collection_stage (u "purpose") s));
        [|apply emit_view].
      apply advances_set_stage; [reflexivity|].
      rewrite E. vm_compute. lia.
    + destruct callback; simpl; discriminate.
  - apply str_eqb_neq in E. split; [apply advances_refl, K|exact E].
Qed.

(** *** The calls return, and not behind where they started *)

Lemma check_stage_uncertainty_Some (e : env) (s : WorkflowState) (st : str)
    (info : stage_info) :
  stage_entry st = Some info ->
  exists results, check_stage_uncertainty e s st = Some results.
Proof. intros H. unfold check_stage_uncertainty. rewrite H. eauto. Qed.

Lemma generate_stage_questions_Some (e : env) (s : WorkflowState) (st : str)
    (results : gmap str uresult) (info : stage_info) :
  stage_entry st = Some info ->
  exists questions, generate_stage_questions e s st results = Some questions.
Proof. intros H. unfold generate_stage_questions. rewrite H. eauto. Qed.

Lemma wants_retry_true (results : gmap str uresult) (st : str) (rc : Z) :
  wants_retry results st rc = true ->
  exists info, stage_entry st = Some info /\ rc < max_retries info.
Proof.
  unfold wants_retry, should_retry_stage. intros H.
  apply andb_true_iff in H as [_ H].
  destruct (stage_entry st) as [info|]; [|discriminate].
  exists info. split; [reflexivity|].
  destruct (max_retries info <=? rc) eqn:E; [discriminate|].
  apply Z.leb_gt in E. exact E.
Qed.

Lemma wants_retry_exhausted (results : gmap str uresult) (st : str) (rc : Z)
    (info : stage_info) :
  stage_entry st = Some info -> max_retries info <= rc ->
  wants_retry results st rc = false.
Proof.
  intros H Hle. unfold wants_retry, should_retry_stage. rewrite H.
  apply Z.leb_le in Hle. rewrite Hle. apply andb_false_r.
Qed.

Lemma remaining_known (st : str) :
  known_stage st = true -> remaining st = (6 - rank st)%nat.
Proof. intros H. unfold remaining. rewrite H. reflexivity. Qed.

Lemma ask_stage (e : env) (callback : bool) (questions : list question)
    (current : str) (rc : Z) (results : gmap str uresult) (s : WorkflowState) :
  parameter_collection_stage (ask e callback questions current rc results s)
  = parameter_collection_stage s.
Proof. destruct callback; reflexivity. Qed.

Section Again.
Variables (again : WorkflowState -> option result) (fuel : nat).
Variables (e : env) (callback : bool).
Hypothesis again_good :
  forall t, known_stage (parameter_collection_stage t) = true ->
            (remaining (parameter_collection_stage t) < fuel)%nat ->
            good t (rank (parameter_collection_stage t)) (again t).

Lemma continue_with_good (b s : WorkflowState) (rc : Z)
    (results : gmap str uresult) :
  In (parameter_collection_stage s) stage_order ->
  advances b s ->
  (forall questions,
     advances b (ask e callback questions (parameter_collection_stage s)
                     rc results s)) ->
  (remaining (parameter_collection_stage s) <= fuel)%nat ->
  good b (rank (parameter_collection_stage s))
       (continue_with again e callback s (parameter_collection_stage s)
                      rc results).
Proof.
  intros Hin Hb Hask Hfuel.
  destruct (in_order_known _ Hin) as (K & Hr & _).
  destruct (stage_entry_in_order _ Hin) as [info Hinfo].
  destruct (generate_stage_questions_Some e s _ results info Hinfo)
    as [questions Hq].
  unfold continue_with. rewrite Hq. destruct questions as [|q questions].
  - destruct (get_next_collection_stage s) as [next|] eqn:Hn.
    + destruct (get_next_later s next K Hn) as [Hin' Hlt].
      pose proof (get_next_remaining s next K Hn) as Hrem.
      destruct (in_order_known _ Hin') as (K' & _).
      destruct (again_good (set_collection_stage next s)) as (s' & E & A & R);
        [exact K'|simpl; lia|].
      exists s'. split; [exact E|]. simpl in R. split; [|lia].
      apply (advances_trans _ _ _ Hb),
            (advances_trans _ (set_collection_stage next s) _);
        [apply advances_set_stage; [exact K'|lia]|exact A].
    + eexists. split; [reflexivity|]. split.
      * apply (advances_trans _ _ _ Hb).
        apply (advances_view_r _ (set_collection_stage (u "completed") s));
          [|reflexivity].
        apply advances_set_stage; [reflexivity|].
        change (rank (u "completed")) with 6%nat. lia.
      * simpl. change (rank (u "completed")) with 6%nat. lia.
  - eexists. split; [reflexivity|]. split; [apply Hask|].
    rewrite ask_stage. lia.
Qed.

Lemma main_path_good (s2 : WorkflowState) :
  In (parameter_collection_stage s2) stage_order ->
  (remaining (parameter_collection_stage s2) <= fuel)%nat ->
  exists s',
    main_path again e callback s2 = Some (Ok s')
    /\ advances s2 s'
    /\ (forall info,
          stage_entry (parameter_collection_stage s2) = Some info ->
          max_retries info <= retries (parameter_collection_stage s2) s2 ->
          (rank (parameter_collection_stage s2)
           < rank (parameter_collection_stage s'))%nat).
Proof.
  intros Hin Hfuel.
  destruct (in_order_known _ Hin) as (K & Hr & _).
  destruct (stage_entry_in_order _ Hin) as [info Hinfo].
  unfold main_path, get_current_collection_stage.
  pose proof (prepare_view e s2) as Hv.
  destruct (prepare e s2) as [existing s3]. simpl in Hv.
  assert (Hst : parameter_collection_stage s3 = parameter_collection_stage s2)
    by (unfold view in Hv; congruence).
  assert (Hrt : retries (parameter_collection_stage s2) s3
                = retries (parameter_collection_stage s2) s2)
    by (unfold view in Hv; unfold retries; congruence).
  destruct (check_stage_uncertainty_Some e s3 _ info Hinfo) as [results Hc].
  rewrite Hc, <- Hst.
  assert (Hin3 : In (parameter_collection_stage s3) stage_order)
    by (rewrite Hst; exact Hin).
  assert (K3 : known_stage (parameter_collection_stage s3) = true)
    by (rewrite Hst; exact K).
  destruct (wants_retry results (parameter_collection_stage s3)
                        (retries (parameter_collection_stage s3) s3)) eqn:W.
  - destruct (wants_retry_true _ _ _ W) as (info' & Hinfo' & Hlt).
    pose proof (fun qs =>
      advances_retry_ask e callback s3 qs
        (retries (parameter_collection_stage s3) s3) results info'
        K3 Hinfo' Hlt) as Hra.
    assert (G : good s3 (rank (parameter_collection_stage s3))
                  (continue_with again e callback
                     (increment_stage_retry (parameter_collection_stage s3) s3)
                     (parameter_collection_stage s3)
                     (retries (parameter_collection_stage s3) s3) results)).
    { apply (continue_with_good s3
               (increment_stage_retry (parameter_collection_stage s3) s3)).
      - exact Hin3.
      - apply (Hra []).
      - intros qs. apply (Hra qs).
      - change (parameter_collection_stage
                  (increment_stage_retry (parameter_collection_stage s3) s3))
          with (parameter_collection_stage s3).
        rewrite Hst. exact Hfuel. }
    destruct G as (s' & E & A & R).
    exists s'. split; [exact E|].
    split; [apply (advances_view_l _ s3); [exact Hv|exact A]|].
    intros info0 Hinfo0 Hmax.
    rewrite Hinfo0 in Hinfo'. inversion Hinfo'; subst info'.
    rewrite <- Hst in Hrt. lia.
  - destruct (get_next_collection_stage s3) as [next|] eqn:Hn.
    + destruct (get_next_later s3 next K3 Hn) as [Hin' Hlt].
      pose proof (get_next_remaining s3 next K3 Hn) as Hrem.
      destruct (in_order_known _ Hin') as (K' & _).
      assert (G : good s3 (rank next)
                    (continue_with again e callback
                       (set_collection_stage next s3) next 0 ∅)).
      { apply (continue_with_good s3 (set_collection_stage next s3)).
        - exact Hin'.
        - apply advances_set_stage; [exact K'|lia].
        - intros qs. apply advances_move_ask; assumption.
        - change (parameter_collection_stage (set_collection_stage next s3))
            with next. rewrite Hst in Hrem. lia. }
      destruct G as (s' & E & A & R).
      exists s'. split; [exact E|].
      split; [apply (advances_view_l _ s3); [exact Hv|exact A]|].
      intros _ _ _. lia.
    + eexists. split; [reflexivity|].
      assert (Hview : view (complete_collection e callback existing s3)
                      = view (set_collection_stage (u "completed") s3))
        by (unfold complete_collection; rewrite emit_view; reflexivity).
      split.
      * apply (advances_view_l _ s3); [exact Hv|].
        apply (advances_view_r _ (set_collection_stage (u "completed") s3));
          [|exact Hview].
        apply advances_set_stage; [reflexivity|].
        change (rank (u "completed")) with 6%nat. rewrite Hst. lia.
      * intros _ _ _. unfold view in Hview. inversion Hview as [[E1 E2 E3]].
        rewrite E1. simpl. change (rank (u "completed")) with 6%nat.
        rewrite Hst. lia.
Qed.

End Again.

Lemma skip_collection_view (e : env) (s : WorkflowState) :
  view (skip_collection e s) = view (set_collection_stage (u "completed") s).
Proof. reflexivity. Qed.

(** [process_staged_parameter_clarification] from a known stage, with
    fuel for the stages that are left: it returns, and not behind. *)
Lemma process_good (fuel : nat) (e : env) (callback : bool)
    (s0 : WorkflowState) :
  known_stage (parameter_collection_stage s0) = true ->
  (remaining (parameter_collection_stage s0) < fuel)%nat ->
  good s0 (rank (parameter_collection_stage s0))
       (process_fuel fuel e callback s0).
Proof.
  revert s0. induction fuel as [|fuel IH]; intros s0 K0 Hfuel; [lia|].
  cbn [process_fuel].
  destruct (enter_advances callback s0 K0) as [A1 Hns].
  set (s1 := enter callback s0) in *.
  pose proof A1 as (K1 & R1 & _).
  assert (Hrem1 : (remaining (parameter_collection_stage s1) <= fuel)%nat).
  { rewrite remaining_known in * by assumption. lia. }
  unfold get_current_collection_stage.
  destruct (eqb (parameter_collection_stage s1) (u "completed")) eqn:Ec.
  { exists s1. auto. }
  apply str_eqb_neq in Ec.
  assert (Hin1 : In (parameter_collection_stage s1) stage_order).
  { destruct (known_cases _ K1) as [H|[H|H]]; [contradiction|exact H|contradiction]. }
  pose proof (should_skip_view e s1) as Hv.
  destruct (should_skip_clarification e s1) as [skip s2]. simpl in Hv.
  assert (Hst : parameter_collection_stage s2 = parameter_collection_stage s1)
    by (unfold view in Hv; congruence).
  assert (A2 : advances s0 s2)
    by (apply (advances_view_r _ s1); assumption).
  assert (Hdone : good s0 (rank (parameter_collection_stage s0))
                       (Some (Ok (skip_collection e s2)))).
  { eexists. split; [reflexivity|]. split.
    - apply (advances_trans _ _ _ A2).
      apply (advances_view_r _ (set_collection_stage (u "completed") s2));
        [|apply skip_collection_view].
      apply advances_set_stage; [reflexivity|].
      rewrite Hst. destruct (in_order_known _ Hin1) as (_ & Hr & _).
      change (rank (u "completed")) with 6%nat. lia.
    - simpl. destruct (in_order_known _ Hin1) as (_ & Hr & _).
      change (rank (u "completed")) with 6%nat. lia. }
  destruct skip.
  - destruct (has_all_stages s2); [exact Hdone|].
    destruct (get_next_collection_stage s2) as [next|] eqn:Hn; [|exact Hdone].
    assert (K2 : known_stage (parameter_collection_stage s2) = true)
      by (rewrite Hst; exact K1).
    destruct (get_next_later s2 next K2 Hn) as [Hin' Hlt].
    pose proof (get_next_remaining s2 next K2 Hn) as Hrem.
    destruct (in_order_known _ Hin') as (K' & _).
    destruct (IH (set_collection_stage next s2)) as (s' & E & A & R);
      [exact K'|simpl; rewrite Hst in Hrem; lia|].
    exists s'. split; [exact E|]. simpl in R. split; [|rewrite Hst in Hlt; lia].
    apply (advances_trans _ _ _ A2),
          (advances_trans _ (set_collection_stage next s2) _);
      [apply advances_set_stage; [exact K'|lia]|exact A].
  - destruct (main_path_good (process_fuel fuel e callback) fuel e callback
                             IH s2) as (s' & E & A & _).
    + rewrite Hst. exact Hin1.
    + rewrite Hst. exact Hrem1.
    + exists s'. split; [exact E|].
      split; [apply (advances_trans _ _ _ A2 A)|].
      destruct A as (_ & R & _). rewrite Hst in R. lia.
Qed.

Lemma process_returns (e : env) (callback : bool) (s : WorkflowState) :
  known_stage (parameter_collection_stage s) = true ->
  good s (rank (parameter_collection_stage s))
       (process_staged_parameter_clarification e callback s).
Proof.
  intros K. apply process_good; [exact K|].
  rewrite remaining_known by exact K. lia.
Qed.

(** [process_staged_clarification_response] from a known stage: it
    returns or raises, and the state is not behind. *)
Lemma response_advances (e : env) (callback : bool) (s : WorkflowState)
    (user_response : str) :
  known_stage (parameter_collection_stage s) = true ->
  exists r,
    process_staged_clarification_response e callback s user_response = Some r
    /\ advances s (state_of r).
Proof.
  intros K. unfold process_staged_clarification_response.
  destruct (awaiting_clarification s);
    [|eexists; split; [reflexivity|apply advances_refl, K]].
  cbn [negb].
  destruct (pending_questions s) as [|q qs] eqn:Hq;
    [eexists; split; [reflexivity|apply advances_view; [reflexivity|exact K]]|].
  rewrite <- Hq.
  set (parse_result := parse_user_response _ _ _).
  set (existing := parameters parse_result ∪ extracted_parameters s).
  set (s1 := with_pending_questions [] _).
  assert (V1 : view s1 = view s) by reflexivity.
  assert (K1 : known_stage (parameter_collection_stage s1) = true) by exact K.
  assert (Hproc : forall s2,
            advances s s2 ->
            exists r,
              process_staged_parameter_clarification e callback s2 = Some r
              /\ advances s (state_of r)).
  { intros s2 A. destruct (process_returns e callback s2) as (s' & E & A' & _);
      [apply A|].
    exists (Ok s'). split; [exact E|]. exact (advances_trans _ _ _ A A'). }
  assert (Hconfirm : forall s2,
            advances s s2 ->
            exists r,
              (if callback then
                 match stage_entry (get_current_collection_stage s) with
                 | None => Some (Raised KeyError s2)
                 | Some _ =>
                   process_staged_parameter_clarification e callback
                     (emit callback
                        (StageComplete (get_current_collection_stage s)
                                       (parameters parse_result)) s2)
                 end
               else process_staged_parameter_clarification e callback s2)
              = Some r
              /\ advances s (state_of r)).
  { intros s2 A. destruct callback; [|apply Hproc, A].
    destruct (stage_entry _);
      [|eexists; split; [reflexivity|exact A]].
    apply Hproc. apply (advances_view_r _ s2 _ A). reflexivity. }
  destruct (skip_remaining parse_result).
  - destruct (eqb (get_current_collection_stage s) (u "technical")) eqn:Et.
    + apply Hconfirm.
      apply (advances_view_r _ (set_collection_stage (u "completed") s1));
        [|rewrite emit_view; reflexivity].
      apply (advances_view_l _ s1); [symmetry; exact V1|].
      apply advances_set_stage; [reflexivity|].
      apply str_eqb_eq in Et. unfold get_current_collection_stage in Et.
      change (parameter_collection_stage s1)
        with (parameter_collection_stage s).
      rewrite Et. vm_compute. lia.
    + destruct (stage_entry _) as [info|];
        [|eexists; split; [reflexivity|apply advances_view; assumption]].
      destruct (existsb _ _);
        [eexists; split; [reflexivity|apply advances_view; assumption]|].
      apply Hproc, advances_view; assumption.
  - apply Hconfirm, advances_view; assumption.
Qed.

Lemma after_turn_view (b : bool) (s : WorkflowState) :
  view (after_turn b s) = view s.
Proof.
  unfold after_turn.
  repeat match goal with
  | |- context [if ?c then _ else _] => destruct c
  end; reflexivity.
Qed.

Lemma lift_advances (b : bool) (s : WorkflowState) (r : option result) :
  (exists r', r = Some r' /\ advances s (state_of r')) ->
  exists r', lift (after_turn b) r = Some r' /\ advances s (state_of r').
Proof.
  intros (r' & -> & A). destruct r' as [s'|err s']; simpl.
  - eexists. split; [reflexivity|]. simpl.
    apply (advances_view_r _ s' _ A), after_turn_view.
  - eexists. split; [reflexivity|exact A].
Qed.

(** One turn from a known stage. *)
Lemma take_turn_advances (t : turn) (s : WorkflowState) :
  known_stage (parameter_collection_stage s) = true ->
  exists r, take_turn t s = Some r /\ advances s (state_of r).
Proof.
  intros K. unfold take_turn, handle_parameter_clarification.
  set (s1 := add_message (u "user") (user_text t) s).
  assert (V : view s1 = view s) by reflexivity.
  assert (K1 : known_stage (parameter_collection_stage s1) = true) by exact K.
  assert (H : forall r,
            (exists r', r = Some r' /\ advances s1 (state_of r')) ->
            exists r', r = Some r' /\ advances s (state_of r')).
  { intros r (r' & E & A). exists r'. split; [exact E|].
    apply (advances_view_l _ s1); [symmetry; exact V|exact A]. }
  destruct (if awaiting_clarification s1 then last_of (user_messages s1)
            else None) as [latest|].
  - apply H, lift_advances, response_advances, K1.
  - apply H, lift_advances.
    destruct (process_returns (turn_env t) (turn_callback t) s1 K1)
      as (s' & E & A & _).
    exists (Ok s'). auto.
Qed.

(** A conversation from a known stage. *)
Lemma converse_advances (turns : list turn) (s : WorkflowState) :
  known_stage (parameter_collection_stage s) = true ->
  exists s', converse turns s = Some s' /\ advances s s'.
Proof.
  revert s. induction turns as [|t turns IH]; intros s K.
  - exists s. split; [reflexivity|apply advances_refl, K].
  - destruct (take_turn_advances t s K) as (r & E & A).
    destruct (IH (state_of r)) as (s' & E' & A'); [apply A|].
    exists s'. simpl. rewrite E. split; [exact E'|].
    exact (advances_trans _ _ _ A A').
Qed.

(** Eight levels of self-calls are enough from every state, also from
    a stage that is none of the seven. *)
Lemma process_total (e : env) (callback : bool) (s : WorkflowState) :
  process_staged_parameter_clarification e callback s <> None.
Proof.
  destruct (known_stage (parameter_collection_stage s)) eqn:K.
  { destruct (process_returns e callback s K) as (s' & E & _).
    rewrite E. discriminate. }
  unfold process_staged_parameter_clarification. cbn [process_fuel].
  assert (Hu : forall st, known_stage st = false ->
                 eqb st (u "not_started") = false
                 /\ eqb st (u "completed") = false
                 /\ stage_entry st = None).
  { intros st Hk. unfold known_stage, mem in Hk.
    cbn [app stage_order existsb] in Hk.
    repeat (apply orb_false_iff in Hk as [?E Hk]).
    split; [exact E|]. split; [exact E5|].
    destruct (stage_entry st) as [info|] eqn:Hst; [|reflexivity].
    apply stage_entry_Some, in_order_known in Hst as (Hk' & _).
    unfold known_stage, mem in Hk'. cbn [app stage_order existsb] in Hk'.
    rewrite E, E0, E1, E2, E3, E4, E5 in Hk'. discriminate. }
  destruct (Hu _ K) as (E1 & E2 & E3).
  assert (Hs1 : enter callback s = s)
    by (unfold enter, get_current_collection_stage; rewrite E1; reflexivity).
  rewrite Hs1. unfold get_current_collection_stage. rewrite E2.
  pose proof (should_skip_view e s) as Hv.
  destruct (should_skip_clarification e s) as [skip s2]. simpl in Hv.
  assert (Hst : parameter_collection_stage s2 = parameter_collection_stage s)
    by (unfold view in Hv; congruence).
  destruct skip.
  - destruct (has_all_stages s2); [discriminate|].
    rewrite get_next_unknown by (rewrite Hst; exact K).
    destruct (process_good 7 e callback
                (set_collection_stage (u "purpose") s2)) as (s' & E & _);
      [reflexivity|vm_compute; lia|].
    intros Habs.
    assert (X : process_fuel 7 e callback
                  (set_collection_stage (u "purpose") s2) = None)
      by exact Habs.
    rewrite E in X. discriminate.
  - unfold main_path, get_current_collection_stage.
    pose proof (prepare_view e s2) as Hv'.
    destruct (prepare e s2) as [existing s3]. simpl in Hv'.
    unfold check_stage_uncertainty. rewrite Hst, E3. discriminate.
Qed.

Lemma initial_within_budget : within_budget initial.
Proof.
  intros st info Hst. unfold asked, retries, entered. simpl.
  rewrite lookup_empty. simpl.
  apply stage_entry_Some in Hst as Hin.
  apply in_order_cases in Hin as [->|[->|[->|[->| ->]]]];
    vm_compute in Hst; inversion Hst; subst; vm_compute; split; discriminate.
Qed.

(** *** States with every parameter present *)

Lemma find_none_all {A} (f : A -> bool) (l : list A) :
  (forall x, In x l -> f x = false) -> List.find f l = None.
Proof.
  induction l as [|a l IH]; intros H; [reflexivity|]. simpl.
  rewrite (H a) by (left; reflexivity). apply IH.
  intros x Hx. apply H. right. exact Hx.
Qed.

Lemma filter_nil_all {A} (f : A -> bool) (l : list A) :
  (forall x, In x l -> f x = false) -> List.filter f l = [].
Proof.
  induction l as [|a l IH]; intros H; [reflexivity|]. simpl.
  rewrite (H a) by (left; reflexivity). apply IH.
  intros x Hx. apply H. right. exact Hx.
Qed.

Lemma needs_stage_present (s : WorkflowState) (st : str) :
  all_present s -> needs_stage s st = false.
Proof.
  intros H. unfold needs_stage.
  destruct (stage_entry st) as [info|] eqn:E; [|reflexivity].
  rewrite filter_nil_all; [reflexivity|].
  intros p Hp. destruct (H st info p E Hp) as [v Hv].
  apply bool_decide_eq_false. congruence.
Qed.

Lemma get_next_present (s : WorkflowState) :
  In (parameter_collection_stage s) stage_order ->
  all_present s -> get_next_collection_stage s = None.
Proof.
  intros Hin H.
  destruct (get_next_collection_stage s) as [next|] eqn:E; [|reflexivity].
  exfalso. revert E.
  unfold get_next_collection_stage, get_current_collection_stage.
  apply in_order_cases in Hin as [Hs|[Hs|[Hs|[Hs|Hs]]]]; rewrite Hs;
    eval_names; intros E; apply find_some in E as [_ E];
    rewrite (needs_stage_present s next H) in E; discriminate.
Qed.

Lemma wants_retry_accepted (e : env) (s : WorkflowState) (st : str)
    (results : gmap str uresult) (rc : Z) :
  all_accepted e s -> check_stage_uncertainty e s st = Some results ->
  wants_retry results st rc = false.
Proof.
  intros H Hc. unfold wants_retry, should_retry_stage.
  destruct (stage_entry st) as [info|]; [|apply andb_false_r].
  destruct (max_retries info <=? rc); [apply andb_false_r|]. simpl.
  assert (F : filter (fun kv : str * uresult =>
                        needs_clarification (snd kv) = true) results = ∅).
  { apply map_empty. intros k. apply map_lookup_filter_None.
    right. intros r Hr. simpl. rewrite (H st results k r Hc Hr). discriminate. }
  rewrite F. destruct (bool_decide (results = ∅)); [reflexivity|].
  rewrite bool_decide_eq_true_2 by reflexivity. reflexivity.
Qed.

Lemma all_present_params (s s' : WorkflowState) :
  extracted_parameters s' = extracted_parameters s ->
  all_present s -> all_present s'.
Proof. intros E H st info p. rewrite E. apply H. Qed.

Lemma all_accepted_params (e : env) (s s' : WorkflowState) :
  extracted_parameters s' = extracted_parameters s ->
  all_accepted e s -> all_accepted e s'.
Proof.
  intros E H st results k r. unfold check_stage_uncertainty. rewrite E.
  apply H.
Qed.

Lemma should_skip_same (e : env) (s : WorkflowState) :
  clarification_completed s && _is_new_requirement e s = false ->
  snd (should_skip_clarification e s) = s.
Proof.
  intros H. unfold should_skip_clarification.
  destruct (clarification_completed s);
    [simpl in H; rewrite H|];
    repeat match goal with
    | |- context [if ?b then _ else _] => destruct b
    end; reflexivity.
Qed.

Lemma should_skip_purpose (e : env) (s : WorkflowState) :
  parameter_collection_stage s = u "purpose" ->
  snd (should_skip_clarification e s) = s.
Proof.
  intros H. unfold should_skip_clarification, get_current_collection_stage.
  rewrite H. eval_names.
  destruct (match last_of (user_messages s) with Some _ => _ | None => _ end);
    reflexivity.
Qed.

Lemma prepare_present (e : env) (s : WorkflowState) :
  all_present s -> prepare e s = (extracted_parameters s, s).
Proof.
  intros H. unfold prepare.
  destruct (H (u "purpose")
              (StageInfo (u "监测目标") [u "monitoring_target"] true 2)
              (u "monitoring_target")) as [v Hv];
    [vm_compute; reflexivity|left; reflexivity|].
  rewrite bool_decide_eq_false_2; [reflexivity|].
  intros E. rewrite E, lookup_empty in Hv. discriminate.
Qed.

Lemma asks_enter (st x : str) (l : list step) :
  asks st (l ++ [StepEnter x]) = asks st l.
Proof. rewrite asks_app. unfold asks at 2. simpl. lia. Qed.

Lemma quiet_refl (s : WorkflowState) : quiet s s.
Proof. repeat split. Qed.

Lemma quiet_trans (s1 s2 s3 : WorkflowState) :
  quiet s1 s2 -> quiet s2 s3 -> quiet s1 s3.
Proof.
  intros (A1 & B1 & C1 & D1) (A2 & B2 & C2 & D2).
  split; [intros st; rewrite A2; apply A1|].
  split; [congruence|]. split; congruence.
Qed.

Lemma quiet_enter (callback : bool) (s : WorkflowState) :
  quiet s (enter callback s).
Proof.
  unfold enter. destruct (eqb _ _); [|apply quiet_refl].
  destruct callback; (split; [|split; [|split]]); try reflexivity.
  - intros st. unfold asked. simpl. apply asks_enter.
  - simpl. unfold questions_sent. rewrite List.filter_app. simpl.
    apply app_nil_r.
  - intros st. unfold asked. simpl. apply asks_enter.
Qed.

Lemma quiet_skip_collection (e : env) (s : WorkflowState) :
  quiet s (skip_collection e s).
Proof.
  split; [|split; [|split]]; try reflexivity.
  intros st. unfold asked. simpl. apply asks_enter.
Qed.

Lemma quiet_complete_collection (e : env) (callback : bool)
    (existing : gmap str str) (s : WorkflowState) :
  quiet s (complete_collection e callback existing s).
Proof.
  unfold complete_collection.
  destruct callback; (split; [|split; [|split]]); try reflexivity.
  - intros st. unfold asked. simpl. apply asks_enter.
  - simpl. unfold questions_sent. rewrite List.filter_app. simpl.
    apply app_nil_r.
  - intros st. unfold asked. simpl. apply asks_enter.
Qed.

End StageFacts.

Section StageClaims.
Import Py Parser Stage.

(** C5.  From every stage of [purpose, time, location_area,
    location_range, technical], [get_next_collection_stage] returns none
    or a stage of that list strictly later in it; and through any
    sequence of turns of a conversation that starts in a known stage the
    stage never moves back.  The reset for a new plan puts it back to
    [not_started]. *)
Theorem C5_stage_moves_forward :
  (forall s : WorkflowState,
     In (parameter_collection_stage s) stage_order ->
     match get_next_collection_stage s with
     | None => True
     | Some next =>
       In next stage_order
       /\ (rank (parameter_collection_stage s) < rank next)%nat
     end)
  /\ (forall (turns : list turn) (s : WorkflowState),
        known_stage (parameter_collection_stage s) = true ->
        exists s',
          converse turns s = Some s'
          /\ (rank (parameter_collection_stage s)
              <= rank (parameter_collection_stage s'))%nat)
  /\ (forall s : WorkflowState,
        parameter_collection_stage (reset_clarification s) = u "not_started").
Proof.
  split; [|split].
  - intros s Hin. destruct (in_order_known _ Hin) as (K & _).
    destruct (get_next_collection_stage s) as [next|] eqn:E; [|exact I].
    exact (get_next_later s next K E).
  - intros turns s K. destruct (converse_advances turns s K) as (s' & E & A).
    exists s'. split; [exact E|apply A].
  - reflexivity.
Qed.

(** A state in stage [time] with nothing collected moves on to
    [location_area]; four turns from the start end in
    [location_area]. *)
Lemma C5_stage_moves_forward_witness :
  (In (parameter_collection_stage Demo.time_exhausted) stage_order
   /\ match get_next_collection_stage Demo.time_exhausted with
      | None => True
      | Some next =>
        In next stage_order
        /\ (rank (parameter_collection_stage Demo.time_exhausted)
            < rank next)%nat
      end)
  /\ (known_stage (parameter_collection_stage initial) = true
      /\ exists s',
           converse Demo.stubborn initial = Some s'
           /\ (rank (parameter_collection_stage initial)
               <= rank (parameter_collection_stage s'))%nat).
Proof.
  split.
  - assert (H : In (parameter_collection_stage Demo.time_exhausted)
                   stage_order) by (vm_compute; auto).
    split; [exact H|].
    exact (proj1 C5_stage_moves_forward Demo.time_exhausted H).
  - split; [reflexivity|].
    exact (proj1 (proj2 C5_stage_moves_forward) Demo.stubborn initial
                 eq_refl).
Defined.

Lemma all_accepted_test (e : env) (s : WorkflowState) :
  forallb (accepted_in e s) stage_order = true -> all_accepted e s.
Proof.
  intros H st results k r Hc Hk.
  assert (Hin : In st stage_order).
  { unfold check_stage_uncertainty in Hc.
    destruct (stage_entry st) as [info|] eqn:E; [|discriminate].
    exact (stage_entry_Some _ _ E). }
  rewrite forallb_forall in H. specialize (H st Hin).
  unfold accepted_in in H. rewrite Hc in H.
  rewrite forallb_forall in H.
  specialize (H (k, r)). simpl in H.
  apply negb_true_iff, H, list_elem_of_In, elem_of_map_to_list, Hk.
Qed.

Lemma all_present_test (s : WorkflowState) :
  forallb (present_in s) stage_order = true -> all_present s.
Proof.
  intros H st info p Hst Hp.
  rewrite forallb_forall in H.
  specialize (H st (stage_entry_Some _ _ Hst)).
  unfold present_in in H. rewrite Hst in H.
  rewrite forallb_forall in H. specialize (H p Hp).
  apply negb_true_iff in H. unfold absent_in in H.
  apply bool_decide_eq_false in H.
  destruct (extracted_parameters s !! p); [eauto|contradiction].
Qed.

(** C4, as amended.  From a state in a known stage in which every
    parameter of every stage, the five of the technical stage included,
    is present, the gate asks for clarification of none, and which is
    not taken for a new requirement after a completed clarification, one
    call of the controller returns with the collection completed and
    nothing asked. *)
Theorem C4_all_parameters_complete
    (e : env) (callback : bool) (s : WorkflowState) :
  known_stage (parameter_collection_stage s) = true ->
  all_present s -> all_accepted e s ->
  clarification_completed s && _is_new_requirement e s = false ->
  exists s',
    process_staged_parameter_clarification e callback s = Some (Ok s')
    /\ parameter_collection_stage s' = u "completed"
    /\ quiet s s'.
Proof.
  intros K Hp Ha Hnew.
  unfold process_staged_parameter_clarification. cbn [process_fuel].
  destruct (enter_advances callback s K) as [(K1 & _) Hns].
  pose proof (quiet_enter callback s) as Q1.
  assert (P1 : extracted_parameters (enter callback s)
               = extracted_parameters s).
  { unfold enter. destruct (eqb _ _); [destruct callback|]; reflexivity. }
  assert (S1 : snd (should_skip_clarification e (enter callback s))
               = enter callback s).
  { unfold enter in *. unfold get_current_collection_stage in *.
    destruct (eqb (parameter_collection_stage s) (u "not_started")).
    - apply should_skip_purpose. destruct callback; reflexivity.
    - apply should_skip_same, Hnew. }
  set (s1 := enter callback s) in *.
  pose proof (all_present_params s s1 P1 Hp) as Hp1.
  pose proof (all_accepted_params e s s1 P1 Ha) as Ha1.
  unfold get_current_collection_stage.
  destruct (eqb (parameter_collection_stage s1) (u "completed")) eqn:Ec.
  { apply str_eqb_eq in Ec. exists s1. auto. }
  apply str_eqb_neq in Ec.
  assert (Hin1 : In (parameter_collection_stage s1) stage_order).
  { destruct (known_cases _ K1) as [H|[H|H]];
      [contradiction|exact H|contradiction]. }
  pose proof (get_next_present s1 Hin1 Hp1) as Hn.
  destruct (should_skip_clarification e s1) as [skip s2]. simpl in S1.
  subst s2. destruct skip.
  - exists (skip_collection e s1). rewrite Hn.
    split; [destruct (has_all_stages s1); reflexivity|].
    split; [reflexivity|].
    exact (quiet_trans _ _ _ Q1 (quiet_skip_collection e s1)).
  - unfold main_path, get_current_collection_stage.
    rewrite (prepare_present e s1 Hp1).
    destruct (stage_entry_in_order _ Hin1) as [info Hinfo].
    destruct (check_stage_uncertainty_Some e s1 _ info Hinfo) as [results Hc].
    rewrite Hc, (wants_retry_accepted e s1 _ results _ Ha1 Hc), Hn.
    eexists. split; [reflexivity|].
    split; [unfold complete_collection; destruct callback; reflexivity|].
    exact (quiet_trans _ _ _ Q1 (quiet_complete_collection e callback _ s1)).
Qed.

(** A fresh state that holds all ten parameters, with collaborators
    that accept every value. *)
Lemma C4_all_parameters_complete_witness :
  known_stage (parameter_collection_stage Demo.with_all) = true
  /\ all_present Demo.with_all
  /\ all_accepted Demo.lenient Demo.with_all
  /\ clarification_completed Demo.with_all
     && _is_new_requirement Demo.lenient Demo.with_all = false
  /\ exists s',
       process_staged_parameter_clarification Demo.lenient true Demo.with_all
       = Some (Ok s')
       /\ parameter_collection_stage s' = u "completed"
       /\ quiet Demo.with_all s'.
Proof.
  assert (Hp : all_present Demo.with_all)
    by (apply all_present_test; vm_compute; reflexivity).
  assert (Ha : all_accepted Demo.lenient Demo.with_all)
    by (apply all_accepted_test; vm_compute; reflexivity).
  split; [reflexivity|]. split; [exact Hp|]. split; [exact Ha|].
  split; [reflexivity|].
  exact (C4_all_parameters_complete Demo.lenient true Demo.with_all
           eq_refl Hp Ha eq_refl).
Defined.

(** C4 as stated fails: the mandatory parameters of the four required
    stages are present and accepted, and one call of the controller
    ends in the technical stage with four questions asked. *)
Lemma C4_counterexample :
  forallb (present_in Demo.with_mandatory)
          [u "purpose"; u "time"; u "location_area"; u "location_range"]
  = true
  /\ forallb (accepted_in Demo.lenient Demo.with_mandatory) stage_order = true
  /\ match process_staged_parameter_clarification
             Demo.lenient true Demo.with_mandatory with
     | Some (Ok s') =>
       parameter_collection_stage s' = u "technical"
       /\ asked (u "technical") s' = 1%nat
       /\ List.map parameter_key (pending_questions s')
          = [u "spatial_resolution"; u "analysis_requirements";
             u "output_format"; u "spectral_bands"]
       /\ awaiting_clarification s' = true
     | _ => False
     end.
Proof. vm_compute. repeat split. Qed.

End StageClaims.

(** * Further properties of the code *)

(** ** Substrings and newline normalisation *)

Section PyMore.
Import Py Buffer.

Lemma startswith_prefix (p s : str) :
  startswith p s = true <-> exists post, s = p ++ post.
Proof.
  split.
  - revert s. induction p as [|a p IH]; intros s H.
    + exists s. reflexivity.
    + destruct s as [|b s]; [discriminate|]. simpl in H.
      apply andb_true_iff in H as [H1 H2]. apply N.eqb_eq in H1. subst b.
      destruct (IH _ H2) as [post ->]. exists post. reflexivity.
  - intros [post ->]. induction p as [|a p IH]; [reflexivity|].
    simpl. rewrite N.eqb_refl. exact IH.
Qed.

Lemma contains_infix (p s : str) :
  contains p s = true <-> exists pre post, s = pre ++ p ++ post.
Proof.
  split.
  - induction s as [|c s IH]; intros H.
    + simpl in H. rewrite orb_false_r in H.
      apply startswith_prefix in H as [post E]. exists [], post. exact E.
    + simpl in H. apply orb_true_iff in H as [H|H].
      * change (startswith p (c :: s) = true) in H.
        apply startswith_prefix in H as [post E]. exists [], post. exact E.
      * destruct (IH H) as (pre & post & ->). exists (c :: pre), post.
        reflexivity.
  - intros (pre & post & ->). apply contains_middle.
Qed.

Lemma contains_trans (q p s : str) :
  contains q p = true -> contains p s = true -> contains q s = true.
Proof.
  intros H1 H2. apply contains_infix in H1 as (a & b & ->).
  apply contains_infix in H2 as (c & d & ->).
  apply contains_infix. exists (c ++ a), (b ++ d).
  rewrite <- !app_assoc. reflexivity.
Qed.

Lemma contains_app_l (p s t : str) :
  contains p s = true -> contains p (s ++ t) = true.
Proof.
  intros H. apply contains_infix in H as (a & b & ->).
  apply contains_infix. exists a, (b ++ t). rewrite <- !app_assoc. reflexivity.
Qed.

Lemma contains_self (p : str) : contains p p = true.
Proof.
  apply contains_infix. exists [], []. rewrite app_nil_r. reflexivity.
Qed.

Lemma replace1_no (a : N) (new s : str) :
  ~ In a s -> replace1 a new s = s.
Proof.
  induction s as [|x s IH]; intros H; [reflexivity|].
  simpl. destruct (N.eqb_spec x a) as [->|Hx].
  - exfalso. apply H. left. reflexivity.
  - simpl. f_equal. apply IH. intros Hin. apply H. right. exact Hin.
Qed.

Lemma replace2_no (a b : N) (new s : str) :
  ~ In a s -> replace2 a b new s = s.
Proof.
  induction s as [|x s IH]; intros H; [reflexivity|].
  simpl. destruct s as [|y s']; [reflexivity|].
  destruct (N.eqb_spec x a) as [->|Hx].
  - exfalso. apply H. left. reflexivity.
  - simpl. f_equal. apply IH. intros Hin. apply H. right. exact Hin.
Qed.

Lemma replace1_app (a : N) (new s t : str) :
  replace1 a new (s ++ t) = replace1 a new s ++ replace1 a new t.
Proof.
  induction s as [|x s IH]; [reflexivity|].
  simpl. rewrite IH, app_assoc. reflexivity.
Qed.

Lemma replace1_clean (s : str) : ~ In CR (replace1 CR [LF] s).
Proof.
  induction s as [|x s IH]; [intros []|].
  simpl. intros H. apply in_app_or in H as [H|H]; [|exact (IH H)].
  destruct (N.eqb_spec x CR) as [->|Hx].
  - destruct H as [H|[]]. discriminate.
  - destruct H as [H|[]]. congruence.
Qed.

Lemma replace2_cons2 (a b : N) (new : str) (x y : N) (r : str) :
  replace2 a b new (x :: y :: r)
  = if (x =? a)%N && (y =? b)%N then new ++ replace2 a b new r
    else x :: replace2 a b new (y :: r).
Proof. reflexivity. Qed.

(** [replace] of CR LF goes through a cut unless the cut separates a CR
    from an LF. *)
Lemma replace2_app (n : nat) (s t : str) :
  (List.length s <= n)%nat ->
  hd 0%N t <> LF ->
  replace2 CR LF [LF] (s ++ t)
  = replace2 CR LF [LF] s ++ replace2 CR LF [LF] t.
Proof.
  revert s. induction n as [|n IH]; intros s Hn Ht.
  - destruct s; [reflexivity|simpl in Hn; lia].
  - destruct s as [|x s]; [reflexivity|].
    destruct s as [|y s'].
    + destruct t as [|z t']; [reflexivity|].
      simpl in Ht. change ([x] ++ z :: t') with (x :: z :: t').
      rewrite replace2_cons2.
      destruct (N.eqb_spec z LF) as [->|Hz]; [congruence|].
      rewrite andb_false_r. reflexivity.
    + change ((x :: y :: s') ++ t) with (x :: y :: (s' ++ t)).
      rewrite !replace2_cons2.
      destruct ((x =? CR)%N && (y =? LF)%N).
      * rewrite (IH s'); [|simpl in Hn; lia|exact Ht].
        rewrite app_assoc. reflexivity.
      * change (y :: s' ++ t) with ((y :: s') ++ t).
        rewrite (IH (y :: s')); [|simpl in *; lia|exact Ht].
        reflexivity.
Qed.

Lemma normalize_app (s t : str) :
  hd 0%N t <> LF -> normalize (s ++ t) = normalize s ++ normalize t.
Proof.
  intros H. unfold normalize.
  rewrite (replace2_app (List.length s) s t (Nat.le_refl _) H).
  apply replace1_app.
Qed.

End PyMore.

(** ** The stream buffer, continued *)

Section BufferMore.
Import Py Buffer Streaming Delivery.

(** X1.  With a callback, the fragments followed by the final [flush]
    are sent on complete and in order, and nothing else is sent but the
    repeats: the concatenation of the ["content"] fields is every
    fragment normalised, each followed, when it arrived in table mode, by
    a second copy of its text from the first blank line on. *)
Theorem X1_sent_text_with_repeats
    (min_size max_time t0 now : Z) (inputs : list (clock * str)) :
  emitted (run inputs now (init min_size max_time true t0))
  = echo inputs (init min_size max_time true t0).
Proof.
  rewrite (run_emits inputs now _ (init_well_formed min_size max_time t0)).
  reflexivity.
Qed.

Section Stamped.
Variable P : chunk -> Prop.
Variable F : str.
Hypothesis P_new : forall c tbl, P (Chunk c F tbl).

Lemma send_buffer_stamped (now : Z) (s : Buffer.t) :
  stamped P F s -> stamped P F (_send_buffer now s).
Proof.
  intros [HF HP]. unfold _send_buffer.
  destruct (truthy (buffer s) && has_callback s); [|split; assumption].
  split; [exact HF|]. simpl. apply Forall_app. split; [exact HP|].
  constructor; [|constructor]. rewrite HF. apply P_new.
Qed.

Lemma send_table_stamped (s : Buffer.t) :
  stamped P F s -> stamped P F (_send_table s).
Proof.
  intros [HF HP]. unfold _send_table.
  destruct (truthy (table_buffer s) && has_callback s); [|split; assumption].
  split; [exact HF|]. simpl. apply Forall_app. split; [exact HP|].
  constructor; [|constructor]. rewrite HF. apply P_new.
Qed.

Lemma flush_stamped (now : Z) (s : Buffer.t) :
  stamped P F s -> stamped P F (flush now s).
Proof.
  intros H. unfold flush.
  set (s1 := if truthy (table_buffer s) then _send_table s else s).
  assert (H1 : stamped P F s1).
  { unfold s1. destruct (truthy _); [apply send_table_stamped|]; exact H. }
  clearbody s1.
  destruct (truthy (buffer s1)); [apply send_buffer_stamped|]; exact H1.
Qed.

Lemma add_content_stamped (clk : clock) (f : str) (s : Buffer.t) :
  full_content s ++ normalize f = F -> Forall P (sent s) ->
  stamped P F (add_content clk f s).
Proof.
  intros HF HP. unfold add_content.
  set (s1 := with_full_content _ s).
  assert (H1 : stamped P F s1) by (split; [exact HF|exact HP]).
  clearbody s1.
  destruct (contains table_marker (normalize f) && negb (in_table s1)).
  - unfold open_table.
    assert (H2 : stamped P F
              (if truthy (buffer (with_in_table true s1))
               then _send_buffer (t_send clk) (with_in_table true s1)
               else with_in_table true s1)).
    { destruct (truthy _); [apply send_buffer_stamped|]; exact H1. }
    exact H2.
  - destruct (in_table s1).
    + unfold add_in_table.
      destruct (table_ends _ _); [|exact H1].
      match goal with |- context [_send_table ?x] =>
        assert (H2 : stamped P F (_send_table x))
          by (apply send_table_stamped; exact H1)
      end.
      destruct (split2_once LF LF (normalize f)) as [|? [|? ?]]; exact H2.
    + unfold add_ordinary.
      destruct (should_send _ _); [apply send_buffer_stamped|]; exact H1.
Qed.

End Stamped.

Lemma normalized_prefix_snoc (done : list (clock * str)) (i : clock * str)
      (k : nat) :
  exists k', normalized_prefix done k = normalized_prefix (done ++ [i]) k'.
Proof.
  exists (Nat.min k (List.length done)). unfold normalized_prefix.
  f_equal. f_equal.
  rewrite firstn_app.
  replace (Nat.min k (List.length done) - List.length done)%nat with 0%nat by lia.
  simpl. rewrite app_nil_r.
  destruct (Nat.le_gt_cases k (List.length done)) as [Hk|Hk].
  - rewrite Nat.min_l by exact Hk. reflexivity.
  - rewrite Nat.min_r by lia.
    rewrite !firstn_all2 by lia. reflexivity.
Qed.

Lemma normalized_prefix_all (inputs : list (clock * str)) :
  normalized_prefix inputs (List.length inputs)
  = concat (List.map (fun i => normalize (snd i)) inputs).
Proof. unfold normalized_prefix. rewrite firstn_all. reflexivity. Qed.

Lemma feed_stamped (inputs done : list (clock * str)) (s : Buffer.t) :
  stamped (fun c => exists k, accumulated_content c = normalized_prefix done k)
          (normalized_prefix done (List.length done)) s ->
  stamped (fun c => exists k,
             accumulated_content c = normalized_prefix (done ++ inputs) k)
          (normalized_prefix (done ++ inputs) (List.length (done ++ inputs)))
          (feed inputs s).
Proof.
  revert done s. induction inputs as [|i rest IH]; intros done s H.
  - rewrite app_nil_r. exact H.
  - replace (done ++ i :: rest) with ((done ++ [i]) ++ rest)
      by (rewrite <- app_assoc; reflexivity).
    apply IH. destruct H as [HF HP].
    apply add_content_stamped.
    + intros c tbl. exists (List.length (done ++ [i])). reflexivity.
    + rewrite HF, !normalized_prefix_all, List.map_app, concat_app.
      simpl. rewrite app_nil_r. reflexivity.
    + eapply List.Forall_impl; [|exact HP].
      intros c [k Hk]. destruct (normalized_prefix_snoc done i k) as [k' E].
      exists k'. rewrite Hk. exact E.
Qed.

(** X2.  [full_content] is the text of all fragments taken in so far,
    normalised, whether or not there is a callback; and the
    ["accumulated_content"] of every chunk sent, the final [flush]
    included, is the normalised text of the first [k] fragments for some
    [k]: the text received up to the fragment that made the chunk go. *)
Theorem X2_accumulated_content_is_a_prefix
    (min_size max_time t0 now : Z) (callback : bool)
    (inputs : list (clock * str)) :
  let s0 := init min_size max_time callback t0 in
  full_content (feed inputs s0)
  = concat (List.map (fun i => normalize (snd i)) inputs)
  /\ Forall (fun c => exists k : nat,
               (k <= List.length inputs)%nat
               /\ accumulated_content c = normalized_prefix inputs k)
            (sent (run inputs now s0)).
Proof.
  intros s0.
  assert (H0 : stamped
            (fun c => exists k, accumulated_content c = normalized_prefix [] k)
            (normalized_prefix [] (List.length (@nil (clock * str)))) s0).
  { split; [reflexivity|constructor]. }
  pose proof (feed_stamped inputs [] s0 H0) as H. simpl app in H.
  split.
  - destruct H as [HF _]. rewrite HF. apply normalized_prefix_all.
  - apply (flush_stamped _ _) with (now := now) in H.
    + destruct H as [_ HP]. eapply List.Forall_impl; [|exact HP].
      intros c [k Hk].
      exists (Nat.min k (List.length inputs)). split; [lia|].
      rewrite Hk. unfold normalized_prefix.
      destruct (Nat.le_gt_cases k (List.length inputs)) as [Hle|Hgt].
      * rewrite Nat.min_l by exact Hle. reflexivity.
      * rewrite Nat.min_r by lia. rewrite !firstn_all2 by lia. reflexivity.
    + intros c tbl. exists (List.length inputs). reflexivity.
Qed.

(** X3.  The first statement of [add_content] leaves no carriage return
    in a fragment, changes nothing in a fragment without one, and is
    applied fragment by fragment: a CR LF pair cut between two fragments
    comes out as two line feeds, where the same pair inside one fragment
    comes out as one. *)
Theorem X3_normalize_fragmentwise (a b : str) :
  ~ In CR (normalize a)
  /\ (~ In CR a -> normalize a = a)
  /\ normalize (a ++ [CR]) ++ normalize (LF :: b)
     = normalize a ++ [LF; LF] ++ normalize b
  /\ normalize (a ++ CR :: LF :: b) = normalize a ++ [LF] ++ normalize b.
Proof.
  split; [apply replace1_clean|]. split.
  - intros H. unfold normalize. rewrite (replace2_no _ _ _ _ H).
    apply replace1_no, H.
  - assert (HLF : forall t, normalize (LF :: t) = LF :: normalize t).
    { intros t. change (LF :: t) with ([LF] ++ t).
      destruct t as [|z t'].
      - reflexivity.
      - unfold normalize. cbn [app replace2].
        change ((LF =? CR)%N) with false. cbn [andb].
        reflexivity. }
    split.
    + rewrite (normalize_app a [CR]) by (simpl; discriminate).
      rewrite HLF, <- app_assoc. reflexivity.
    + rewrite (normalize_app a (CR :: LF :: b)) by (simpl; discriminate).
      reflexivity.
Qed.

Lemma send_buffer_marked (now : Z) (s : Buffer.t) :
  Forall marked (sent s) -> Forall marked (sent (_send_buffer now s)).
Proof.
  intros HP. unfold _send_buffer.
  destruct (truthy (buffer s) && has_callback s); [|exact HP].
  simpl. apply Forall_app. split; [exact HP|].
  constructor; [|constructor]. intros H. discriminate.
Qed.

Lemma send_buffer_keeps_table (now : Z) (s : Buffer.t) :
  table_buffer (_send_buffer now s) = table_buffer s
  /\ in_table (_send_buffer now s) = in_table s.
Proof.
  unfold _send_buffer.
  destruct (truthy (buffer s) && has_callback s); split; reflexivity.
Qed.

Lemma send_buffer_table_held (now : Z) (s : Buffer.t) :
  table_held s -> table_held (_send_buffer now s).
Proof.
  intros (HP & Ht & Hi).
  destruct (send_buffer_keeps_table now s) as [E1 E2].
  split; [apply send_buffer_marked, HP|]. rewrite E1, E2. split; assumption.
Qed.

Lemma send_table_table_held (s : Buffer.t) :
  Forall marked (sent s) ->
  table_buffer s = [] \/ contains table_marker (table_buffer s) = true ->
  in_table s = false ->
  table_held (_send_table s).
Proof.
  intros HP Ht Hi. unfold _send_table.
  destruct (truthy (table_buffer s) && has_callback s) eqn:E.
  - split; [|split].
    + simpl. apply Forall_app. split; [exact HP|].
      constructor; [|constructor]. intros _. simpl.
      destruct Ht as [Ht|Ht]; [|exact Ht].
      rewrite Ht in E. discriminate.
    + left. reflexivity.
    + simpl. rewrite Hi. discriminate.
  - split; [exact HP|]. split; [exact Ht|]. rewrite Hi. discriminate.
Qed.

Lemma add_content_table_held (clk : clock) (f : str) (s : Buffer.t) :
  table_held s -> table_held (add_content clk f s).
Proof.
  intros H. unfold add_content.
  set (c := normalize f).
  set (s1 := with_full_content _ s).
  assert (H1 : table_held s1) by exact H. clearbody s1. clear H.
  destruct H1 as (HP & Ht & Hi).
  destruct (in_table s1) eqn:Hin.
  - rewrite andb_false_r. specialize (Hi eq_refl).
    unfold add_in_table.
    set (s2 := with_table_line_count _ _).
    assert (H2 : contains table_marker (table_buffer s2) = true)
      by (simpl; apply contains_app_l, Hi).
    destruct (table_ends c s2).
    + assert (H3 : table_held (_send_table (with_in_table false s2))).
      { apply send_table_table_held; [exact HP|right; exact H2|reflexivity]. }
      destruct (split2_once LF LF c) as [|? [|? ?]]; exact H3.
    + split; [exact HP|]. split; [right; exact H2|]. intros _. exact H2.
  - rewrite andb_true_r.
    destruct (contains table_marker c) eqn:Hm.
    + unfold open_table.
      set (s2 := if truthy (buffer (with_in_table true s1))
                 then _send_buffer (t_send clk) (with_in_table true s1)
                 else with_in_table true s1).
      assert (H2 : Forall marked (sent s2) /\ in_table s2 = true).
      { unfold s2. destruct (truthy _).
        - split; [apply send_buffer_marked, HP|].
          apply (send_buffer_keeps_table (t_send clk) (with_in_table true s1)).
        - split; [exact HP|reflexivity]. }
      destruct H2 as [HP2 Hi2]. clearbody s2.
      assert (H3 : contains table_marker (buffer s2 ++ c) = true)
        by (apply contains_app_r, Hm).
      split; [exact HP2|]. split; [right; exact H3|]. intros _. exact H3.
    + unfold add_ordinary.
      set (s2 := with_chunk_count _ _).
      assert (H2 : table_held s2).
      { split; [exact HP|]. split; [exact Ht|].
        simpl. rewrite Hin. exact Hi. }
      destruct (should_send clk s2); [apply send_buffer_table_held|]; exact H2.
Qed.

Lemma feed_table_held (inputs : list (clock * str)) (s : Buffer.t) :
  table_held s -> table_held (feed inputs s).
Proof.
  revert s. induction inputs as [|[clk f] rest IH]; intros s H; [exact H|].
  apply IH, add_content_table_held, H.
Qed.

Lemma flush_table_held (now : Z) (s : Buffer.t) :
  table_held s -> Forall marked (sent (flush now s)).
Proof.
  intros (HP & Ht & Hi). unfold flush.
  set (s1 := if truthy (table_buffer s) then _send_table s else s).
  assert (H1 : Forall marked (sent s1)).
  { unfold s1. destruct (truthy (table_buffer s)) eqn:E; [|exact HP].
    unfold _send_table. rewrite E.
    destruct (has_callback s); [|exact HP].
    simpl. apply Forall_app. split; [exact HP|].
    constructor; [|constructor]. intros _. simpl.
    destruct Ht as [Ht|Ht]; [|exact Ht]. rewrite Ht in E. discriminate. }
  clearbody s1.
  destruct (truthy (buffer s1)); [apply send_buffer_marked|]; exact H1.
Qed.

(** X4.  A chunk is flagged ["is_table": True] only if its content holds
    the separator row marker ['| ---']: after any number of fragments and
    after the final [flush], whatever the fragments, the clock readings
    and the sizes. *)
Theorem X4_table_chunks_hold_a_separator_row
    (min_size max_time t0 now : Z) (callback : bool)
    (inputs : list (clock * str)) :
  let s0 := init min_size max_time callback t0 in
  Forall (fun c => is_table c = true ->
                   contains table_marker (content c) = true)
         (sent (feed inputs s0))
  /\ Forall (fun c => is_table c = true ->
                      contains table_marker (content c) = true)
            (sent (run inputs now s0)).
Proof.
  intros s0.
  assert (H0 : table_held s0).
  { split; [constructor|]. split; [left; reflexivity|discriminate]. }
  pose proof (feed_table_held inputs s0 H0) as H. split.
  - exact (proj1 H).
  - apply flush_table_held, H.
Qed.

Lemma handle_lines_deltas (lines : list line) (acc : str * Buffer.t) :
  handle_lines lines acc
  = (fst acc ++ concat (List.map snd (lines_deltas lines)),
     feed (lines_deltas lines) (snd acc)).
Proof.
  revert acc. induction lines as [|l rest IH]; intros [full b].
  - simpl. rewrite app_nil_r. reflexivity.
  - destruct l; simpl; try (rewrite app_nil_r; reflexivity).
    + apply IH.
    + rewrite IH. simpl. rewrite <- app_assoc. reflexivity.
Qed.

Lemma iter_chunked_deltas (body : list net_event) (acc : str * Buffer.t) :
  fst (iter_chunked body acc)
  = (fst acc ++ concat (List.map snd (deltas body)),
     feed (deltas body) (snd acc)).
Proof.
  revert acc. induction body as [|ev rest IH]; intros [full b].
  - simpl. rewrite app_nil_r. reflexivity.
  - destruct ev as [lines|e]; simpl; [|rewrite app_nil_r; reflexivity].
    rewrite IH, handle_lines_deltas. simpl.
    rewrite List.map_app, concat_app, <- app_assoc.
    unfold feed. rewrite fold_left_app. reflexivity.
Qed.

(** X5.  A call with the key set, the request accepted and status 200
    whose body iterator does not raise: the buffer has taken in every
    [delta['content']] met before a ['[DONE]'] line or a fault in its
    network chunk, in order, and was flushed once at the end; the call
    succeeds exactly when these deltas hold any text and then returns
    their concatenation as received, carriage returns included, while the
    text streamed to the callback is the normalised one with the repeats
    of [add_content]. *)
Theorem X5_streaming_call_delivers_the_deltas
    (callback : bool) (t0 t_end : Z) (body : list net_event) :
  ends_normally body = true ->
  let o :=
    call_deepseek_streaming_api_buffered true callback t0 None 200 body t_end in
  let received := concat (List.map snd (deltas body)) in
  content_buffer o = Some (run (deltas body) t_end (init 10 300 callback t0))
  /\ result o = (if truthy received then ApiSuccess received else ApiFailure)
  /\ (callback = true ->
      option_map emitted (content_buffer o)
      = Some (echo (deltas body) (init 10 300 true t0))).
Proof.
  intros Hn. unfold call_deepseek_streaming_api_buffered. simpl.
  pose proof (iter_chunked_spec body ([], init 10 300 callback t0)) as Hs.
  pose proof (iter_chunked_deltas body ([], init 10 300 callback t0)) as Hd.
  destruct (iter_chunked body ([], init 10 300 callback t0))
    as [[full b] [e|]].
  - rewrite Hn in Hs. discriminate.
  - simpl in Hd. injection Hd as -> ->.
    assert (Hrun : callback = true ->
              emitted (flush t_end (feed (deltas body) (init 10 300 callback t0)))
              = echo (deltas body) (init 10 300 true t0)).
    { intros ->.
      exact (run_emits (deltas body) t_end _ (init_well_formed 10 300 t0)). }
    destruct (truthy (concat (List.map snd (deltas body)))); simpl;
      (split; [reflexivity|]); (split; [reflexivity|]);
      intros Hc; rewrite (Hrun Hc); reflexivity.
Qed.

(** A body of two network chunks, the first ending with ['[DONE]']. *)
Lemma X5_streaming_call_delivers_the_deltas_witness :
  let body :=
    [ NetChunk [LineDelta (Clock 0 0) (u "abc" ++ [CR; LF]); LineDone;
                LineDelta (Clock 0 0) (u "lost")];
      NetChunk [LineSkip; LineDelta (Clock 1 1) (u "def")] ] in
  ends_normally body = true
  /\ result (call_deepseek_streaming_api_buffered true true 0 None 200 body 2)
     = ApiSuccess (u "abc" ++ [CR; LF] ++ u "def")
  /\ option_map emitted
       (content_buffer
          (call_deepseek_streaming_api_buffered true true 0 None 200 body 2))
     = Some (u "abc" ++ [LF] ++ u "def").
Proof.
  split; [reflexivity|].
  pose proof (X5_streaming_call_delivers_the_deltas true 0 2
     [ NetChunk [LineDelta (Clock 0 0) (u "abc" ++ [CR; LF]); LineDone;
                 LineDelta (Clock 0 0) (u "lost")];
       NetChunk [LineSkip; LineDelta (Clock 1 1) (u "def")] ] eq_refl)
    as (_ & Hr & He).
  split; [exact Hr|]. exact (He eq_refl).
Defined.

End BufferMore.
(** ** The uncertainty gate, continued *)

Section GateMore.
Import Py Gate.
Local Open Scope Q_scope.

(** X6.  The gate accepts a monitoring target exactly when the target
    is there and the language model, if enabled, vouches for the
    stripped text, or the vocabulary matches it and the web search, if
    enabled, confirms it; these three answers are the signals the
    verdict records.  It asks for clarification exactly when the
    confidence level it reports is "low" or "none".  With both remote
    checks disabled every target needs clarification, whatever the
    vocabulary says; with the language model alone disabled a target is
    accepted only on the vocabulary and the web search together. *)
Theorem X6_acceptance_in_terms_of_the_signals
    (c : collaborators) (target_text : option str)
    (enable_web_search enable_llm : bool) :
  let v := calculate_monitoring_target_uncertainty
             c target_text enable_web_search enable_llm in
  let d := verdict_details v in
  let text := strip (default [] target_text) in
  let kb := fst (_check_knowledge_base c text) in
  let web := enable_web_search && _check_web_search c text in
  let llm := enable_llm && _check_llm_professional c text in
  accept v = negb (absent target_text) && (llm || (kb && web))
  /\ (absent target_text = false ->
      knowledge_base_match d = kb /\ web_search_match d = web
      /\ llm_professional d = llm)
  /\ accept v
     = llm_professional d || (knowledge_base_match d && web_search_match d)
  /\ (needs_clarification v = true
      <-> confidence_level d = u "low" \/ confidence_level d = u "none")
  /\ needs_clarification
       (calculate_monitoring_target_uncertainty c target_text false false)
     = true
  /\ (forall s : str,
        accept (calculate_monitoring_target_uncertainty
                  c (Some s) enable_web_search false)
        = negb (absent (Some s))
          && fst (_check_knowledge_base c (strip s))
          && enable_web_search
          && _check_web_search c (strip s)).
Proof.
  intros v d text kb web llm.
  assert (Hrec : accept v
                 = llm_professional d
                   || (knowledge_base_match d && web_search_match d)).
  { unfold d, v, calculate_monitoring_target_uncertainty.
    destruct target_text as [s|]; [|reflexivity].
    destruct (absent (Some s)); [reflexivity|].
    destruct (_check_knowledge_base c (strip s)) as [k m].
    destruct k, enable_web_search, (_check_web_search c (strip s)),
      enable_llm, (_check_llm_professional c (strip s)); reflexivity. }
  assert (Hsig : absent target_text = false ->
                 knowledge_base_match d = kb /\ web_search_match d = web
                 /\ llm_professional d = llm).
  { intros Ha. destruct target_text as [s|]; [|discriminate].
    exact (verdict_signals c s enable_web_search enable_llm Ha). }
  split; [|split; [exact Hsig|split; [exact Hrec|split; [|split]]]].
  - destruct (absent target_text) eqn:Ha.
    + unfold v, accept, calculate_monitoring_target_uncertainty.
      destruct target_text as [s|]; [rewrite Ha|]; reflexivity.
    + destruct (Hsig eq_refl) as (Hk & Hw & Hl).
      rewrite Hrec, Hk, Hw, Hl. reflexivity.
  - unfold d, v, calculate_monitoring_target_uncertainty.
    destruct target_text as [s|];
      [destruct (absent (Some s));
       [|destruct (_check_knowledge_base c (strip s)) as [k m];
         destruct k, enable_web_search, (_check_web_search c (strip s)),
           enable_llm, (_check_llm_professional c (strip s))]|];
      vm_compute; (split; intros H);
      try reflexivity; try discriminate; auto;
      destruct H; discriminate.
  - unfold calculate_monitoring_target_uncertainty.
    destruct target_text as [s|]; [|reflexivity].
    destruct (absent (Some s)); [reflexivity|].
    destruct (_check_knowledge_base c (strip s)) as [k m].
    destruct k; reflexivity.
  - intros s. unfold calculate_monitoring_target_uncertainty.
    destruct (absent (Some s)); [reflexivity|].
    destruct (_check_knowledge_base c (strip s)) as [k m]. cbn [fst].
    destruct k, enable_web_search, (_check_web_search c (strip s));
      reflexivity.
Qed.

Lemma scan_keywords_Some (c : collaborators) (text term : str)
    (kws : list str) :
  is_Some (scan_keywords c text term kws)
  <-> exists kw, In kw kws /\ hit c text kw = true.
Proof.
  induction kws as [|kw rest IH]; simpl.
  - split; [intros [x H]; discriminate|intros (kw & [] & _)].
  - destruct (hit c text kw) eqn:E.
    + split; [intros _; exists kw; auto|intros _; eexists; reflexivity].
    + rewrite IH. split.
      * intros (k & Hk & Hh). exists k. auto.
      * intros (k & [<-|Hk] & Hh); [congruence|]. exists k. auto.
Qed.

Lemma scan_terms_Some (c : collaborators) (text : str)
    (terms : list (str * list str)) :
  is_Some (scan_terms c text terms)
  <-> exists term kws,
        In (term, kws) terms
        /\ (hit c text term = true
            \/ exists kw, In kw kws /\ hit c text kw = true).
Proof.
  induction terms as [|[term kws] rest IH]; simpl.
  - split; [intros [x H]; discriminate|intros (t & k & [] & _)].
  - destruct (hit c text term) eqn:E.
    + split; [|intros _; eexists; reflexivity].
      intros _. exists term, kws. auto.
    + pose proof (scan_keywords_Some c text term kws) as HK.
      destruct (scan_keywords c text term kws) as [m|].
      * split; [|intros _; eexists; reflexivity].
        intros _. exists term, kws. split; [auto|]. right.
        apply HK. eexists. reflexivity.
      * rewrite IH. split.
        -- intros (t & k & Hin & H). exists t, k. auto.
        -- intros (t & k & [Heq|Hin] & H); [|exists t, k; auto].
           inversion Heq; subst t k. destruct H as [H|H]; [congruence|].
           apply HK in H. destruct H as [x H]. discriminate.
Qed.

Lemma scan_synonyms_Some (c : collaborators) (text : str)
    (syns : list (str * list str)) :
  is_Some (scan_synonyms c text syns)
  <-> exists syn mains, In (syn, mains) syns /\ hit c text syn = true.
Proof.
  induction syns as [|[syn mains] rest IH]; simpl.
  - split; [intros [x H]; discriminate|intros (t & k & [] & _)].
  - destruct (hit c text syn) eqn:E.
    + split; [|intros _; eexists; reflexivity].
      intros _. exists syn, mains. auto.
    + rewrite IH. split.
      * intros (t & k & Hin & H). exists t, k. auto.
      * intros (t & k & [Heq|Hin] & H); [|exists t, k; auto].
        inversion Heq; subst t k. congruence.
Qed.

(** X7.  The vocabulary check answers yes exactly when some professional
    term, some keyword of a professional term or some synonym occurs in
    the target text, as it is written or after both are put in lower
    case. *)
Theorem X7_knowledge_base_match (c : collaborators) (target_text : str) :
  let occurs needle :=
    contains needle target_text = true
    \/ contains (lower c needle) (lower c target_text) = true in
  fst (_check_knowledge_base c target_text) = true
  <-> (exists term keywords,
         In (term, keywords) (professional_terms (vocab c))
         /\ (occurs term \/ exists keyword, In keyword keywords /\ occurs keyword))
      \/ (exists synonym main_terms,
            In (synonym, main_terms) (synonyms (vocab c)) /\ occurs synonym).
Proof.
  intros occurs.
  assert (Hocc : forall n, hit c target_text n = true <-> occurs n).
  { intros n. unfold hit, occurs. apply orb_true_iff. }
  unfold _check_knowledge_base.
  pose proof (scan_terms_Some c target_text (professional_terms (vocab c)))
    as HT.
  pose proof (scan_synonyms_Some c target_text (synonyms (vocab c))) as HS.
  destruct (scan_terms c target_text (professional_terms (vocab c))) as [m|].
  - simpl. split; [|reflexivity]. intros _. left.
    destruct (proj1 HT (ex_intro _ m eq_refl)) as (t & k & Hin & H).
    exists t, k. split; [exact Hin|].
    destruct H as [H|(kw & Hk & H)]; [left; apply Hocc, H|].
    right. exists kw. split; [exact Hk|apply Hocc, H].
  - destruct (scan_synonyms c target_text (synonyms (vocab c))) as [m|].
    + simpl. split; [|reflexivity]. intros _. right.
      destruct (proj1 HS (ex_intro _ m eq_refl)) as (t & k & Hin & H).
      exists t, k. split; [exact Hin|apply Hocc, H].
    + simpl. split; [discriminate|].
      intros [(t & k & Hin & H)|(t & k & Hin & H)].
      * assert (X : is_Some (@None (list str))).
        { apply HT. exists t, k. split; [exact Hin|].
          destruct H as [H|(kw & Hk & H)]; [left; apply Hocc, H|].
          right. exists kw. split; [exact Hk|apply Hocc, H]. }
        destruct X as [x X]. discriminate.
      * assert (X : is_Some (@None (list str))).
        { apply HS. exists t, k. split; [exact Hin|apply Hocc, H]. }
        destruct X as [x X]. discriminate.
Qed.

End GateMore.

(** ** The response parser, continued *)

Section ParserMore.
Import Py Parser.

Lemma noise_spec (v : str) :
  noise v = false <-> 2 <= len (strip v) /\ ~ In (strip v) affirmatives.
Proof.
  unfold noise. rewrite orb_false_iff, Z.ltb_ge. split.
  - intros [Hlen Hmem]. split; [exact Hlen|]. intros Hin.
    unfold mem in Hmem.
    assert (Ht : existsb (eqb (strip v)) affirmatives = true).
    { apply existsb_exists. exists (strip v). split; [exact Hin|].
      unfold eqb. apply bool_decide_eq_true. reflexivity. }
    congruence.
  - intros [Hlen Hnot]. split; [exact Hlen|].
    unfold mem. destruct (existsb (eqb (strip v)) affirmatives) eqn:E;
      [|reflexivity].
    apply existsb_exists in E as (x & Hx & Hxe).
    unfold eqb in Hxe. apply bool_decide_eq_true in Hxe. subst x.
    contradiction.
Qed.

(** X8.  When the options do not settle every pending question, every
    value the rule-based parser returns has been through its last loop:
    stripped, it has at least two characters and is not one of the bare
    answers "是", "否", "好", "可以". *)
Theorem X8_values_past_the_early_return_are_validated
    (e : env) (response : str) (questions : list question) (k v : str) :
  size (exact_pass response questions) <> List.length questions ->
  _parse_response_by_rules e response questions !! k = Some v ->
  2 <= len (strip v) /\ ~ In (strip v) affirmatives.
Proof.
  intros Hsize. unfold _parse_response_by_rules.
  destruct (existsb _ skip_words);
    [rewrite lookup_empty; discriminate|].
  destruct (Nat.eqb _ _) eqn:E; [apply Nat.eqb_eq in E; contradiction|].
  intros H. apply validate_lookup in H as [_ H]. apply noise_spec, H.
Qed.

(** Two pending questions, an answer that names the frequency only. *)
Lemma X8_values_past_the_early_return_are_validated_witness :
  let q1 :=
    Question (u "observation_frequency") None
             [ChoiceDict (u "每天1次") (u "每天") None] true (u "time") 0 in
  let q2 := Question (u "monitoring_period") None [] true (u "time") 0 in
  size (exact_pass (u "每天1次") [q1; q2]) <> List.length [q1; q2]
  /\ _parse_response_by_rules Demo.rules_only (u "每天1次") [q1; q2]
     !! u "observation_frequency" = Some (u "每天1次")
  /\ 2 <= len (strip (u "每天1次")) /\ ~ In (strip (u "每天1次")) affirmatives.
Proof.
  intros q1 q2.
  assert (H1 : size (exact_pass (u "每天1次") [q1; q2]) <> List.length [q1; q2])
    by (vm_compute; discriminate).
  assert (H2 : _parse_response_by_rules Demo.rules_only (u "每天1次") [q1; q2]
               !! u "observation_frequency" = Some (u "每天1次"))
    by (vm_compute; reflexivity).
  split; [exact H1|]. split; [exact H2|].
  exact (X8_values_past_the_early_return_are_validated
           Demo.rules_only (u "每天1次") [q1; q2] _ _ H1 H2).
Defined.

(** X9.  An answer that holds one of the four skip words of the
    rule-based parser yields no parameter at all, whatever else it says,
    and is taken as a request to skip the remaining questions: each of
    the four words holds a phrase of [_check_skip_remaining]. *)
Theorem X9_skip_words_empty_the_answer
    (e : env) (response : str) (questions : list question) :
  existsb (fun skip_word => contains skip_word (lower e response)) skip_words
  = true ->
  _parse_response_by_rules e response questions = ∅
  /\ _check_skip_remaining e response = true
  /\ (ai_mode_enabled e = false ->
      parse_user_response e response questions = ParseResult ∅ true).
Proof.
  intros H.
  assert (H1 : _parse_response_by_rules e response questions = ∅).
  { unfold _parse_response_by_rules. rewrite H. reflexivity. }
  assert (H2 : _check_skip_remaining e response = true).
  { unfold _check_skip_remaining.
    apply existsb_exists in H as (w & Hw & Hc).
    assert (Hp : exists p, In p skip_phrases /\ contains p w = true).
    { unfold skip_words in Hw. simpl in Hw.
      destruct Hw as [<-|[<-|[<-|[<-|[]]]]].
      - exists (u "跳过"). split; [|vm_compute; reflexivity].
        unfold skip_phrases. simpl. auto.
      - exists (u "默认"). split; [|vm_compute; reflexivity].
        unfold skip_phrases. simpl. auto.
      - exists (u "推荐"). split; [|vm_compute; reflexivity].
        unfold skip_phrases. simpl. auto.
      - exists (u "默认"). split; [|vm_compute; reflexivity].
        unfold skip_phrases. simpl. auto. }
    destruct Hp as (p & Hp & Hpw).
    apply existsb_exists. exists p. split; [exact Hp|].
    exact (contains_trans _ _ _ Hpw Hc). }
  split; [exact H1|]. split; [exact H2|].
  intros Hai. unfold parse_user_response. rewrite Hai, H1, H2. reflexivity.
Qed.

Lemma X9_skip_words_empty_the_answer_witness :
  let q := Question (u "spatial_resolution") None [] false (u "technical") 0 in
  _parse_response_by_rules Demo.rules_only (u "分辨率10米，其余使用默认值") [q] = ∅
  /\ _check_skip_remaining Demo.rules_only (u "分辨率10米，其余使用默认值") = true.
Proof.
  intros q.
  destruct (X9_skip_words_empty_the_answer Demo.rules_only
              (u "分辨率10米，其余使用默认值") [q]) as (H1 & H2 & _).
  - vm_compute. reflexivity.
  - split; [exact H1|exact H2].
Defined.

Lemma positional_step_keeps (m : gmap str str) (pq : str * question)
    (k v : str) :
  m !! k = Some v -> positional_step m pq !! k = Some v.
Proof.
  intros H. unfold positional_step.
  destruct (m !! parameter_key (snd pq)) eqn:E; [exact H|].
  rewrite lookup_insert_ne; [exact H|]. intros Heq. congruence.
Qed.

Lemma positional_keeps (parts : list str) (questions : list question)
    (m : gmap str str) (k v : str) :
  m !! k = Some v -> positional parts questions m !! k = Some v.
Proof.
  unfold positional. generalize (combine parts questions). intros l.
  revert m. induction l as [|pq l IH]; intros m H; [exact H|].
  simpl. apply IH, positional_step_keeps, H.
Qed.

Lemma rule_step_keeps (e : env) (response : str) (questions : list question)
    (m : gmap str str) (q : question) (k v : str) :
  m !! k = Some v -> rule_step e response questions m q !! k = Some v.
Proof.
  intros H. unfold rule_step.
  destruct (m !! parameter_key q) eqn:E; [exact H|].
  assert (Hne : parameter_key q <> k) by (intros Heq; congruence).
  destruct (Nat.eqb _ _); [apply positional_keeps, H|].
  assert (Hl : labelled e response q m !! k = Some v).
  { unfold labelled.
    destruct (search_labelled e _ response);
      [rewrite lookup_insert_ne; assumption|].
    destruct (search_labelled e _ response);
      [rewrite lookup_insert_ne; assumption|exact H]. }
  destruct (labelled e response q m !! parameter_key q); [exact Hl|].
  destruct (_extract_param_value_from_response e response q) as [x|];
    [|exact Hl].
  destruct (truthy x); [rewrite lookup_insert_ne; assumption|exact Hl].
Qed.

Lemma fold_rule_step_keeps (e : env) (response : str)
    (questions l : list question) (m : gmap str str) (k v : str) :
  m !! k = Some v ->
  fold_left (rule_step e response questions) l m !! k = Some v.
Proof.
  revert m. induction l as [|q l IH]; intros m H; [exact H|].
  simpl. apply IH, rule_step_keeps, H.
Qed.

Lemma exact_fold_other (response : str) (l : list question)
    (m : gmap str str) (k : str) :
  (forall q, In q l -> parameter_key q <> k) ->
  fold_left (exact_step response) l m !! k = m !! k.
Proof.
  revert m. induction l as [|q l IH]; intros m H; [reflexivity|].
  simpl. rewrite IH by (intros q' Hq'; apply H; right; exact Hq').
  unfold exact_step. destruct (first_hit response (options q)); [|reflexivity].
  apply lookup_insert_ne, H. left. reflexivity.
Qed.

Lemma key_not_in_rest (q0 : question) (rest : list question) :
  List.NoDup (pending_keys (q0 :: rest)) ->
  forall q, In q rest -> parameter_key q <> parameter_key q0.
Proof.
  intros Hnd q Hq Heq. inversion Hnd as [|? ? Hnot _]; subst.
  apply Hnot. rewrite <- Heq. apply in_map, Hq.
Qed.

Lemma exact_fold_lookup (response : str) (l : list question)
    (m : gmap str str) (q : question) :
  List.NoDup (pending_keys l) -> In q l ->
  fold_left (exact_step response) l m !! parameter_key q
  = match first_hit response (options q) with
    | Some v => Some v
    | None => m !! parameter_key q
    end.
Proof.
  revert m. induction l as [|q0 rest IH]; intros m Hnd Hq; [destruct Hq|].
  pose proof (key_not_in_rest q0 rest Hnd) as Hrest.
  simpl. destruct Hq as [->|Hq].
  - rewrite exact_fold_other by exact Hrest.
    unfold exact_step. destruct (first_hit response (options q));
      [apply lookup_insert_eq|reflexivity].
  - rewrite IH; [|inversion Hnd; assumption|exact Hq].
    destruct (first_hit response (options q)); [reflexivity|].
    unfold exact_step. destruct (first_hit response (options q0));
      [|reflexivity].
    apply lookup_insert_ne. intros Heq. exact (Hrest q Hq (eq_sym Heq)).
Qed.

Lemma exact_pass_lookup (response : str) (questions : list question)
    (q : question) :
  List.NoDup (pending_keys questions) -> In q questions ->
  exact_pass response questions !! parameter_key q
  = first_hit response (options q).
Proof.
  intros Hnd Hq. unfold exact_pass.
  rewrite (exact_fold_lookup response questions ∅ q Hnd Hq).
  destruct (first_hit response (options q)); [reflexivity|apply lookup_empty].
Qed.

Lemma validate_keep (m : gmap str str) (k v : str) :
  m !! k = Some v ->
  validate m !! k = if noise v then None else Some v.
Proof.
  intros H. destruct (noise v) eqn:E.
  - destruct (validate m !! k) as [x|] eqn:V; [|reflexivity].
    apply validate_lookup in V as [V1 V2]. congruence.
  - apply validate_lookup. auto.
Qed.

(** X10.  An option of a question that occurs in the answer decides the
    question, before any positional or labelled reading of the answer:
    when the pending questions have distinct keys and the answer holds no
    skip word, the value of the first option of [q] found in the answer
    is what the parser returns for [q], unless the last loop, which runs
    when some other question is still open, deletes it as noise. *)
Theorem X10_option_match_decides
    (e : env) (response : str) (questions : list question)
    (q : question) (v : str) :
  existsb (fun skip_word => contains skip_word (lower e response)) skip_words
  = false ->
  List.NoDup (pending_keys questions) -> In q questions ->
  first_hit response (options q) = Some v ->
  _parse_response_by_rules e response questions !! parameter_key q
  = if Nat.eqb (size (exact_pass response questions)) (List.length questions)
       || negb (noise v)
    then Some v else None.
Proof.
  intros Hskip Hnd Hq Hv. unfold _parse_response_by_rules. rewrite Hskip.
  pose proof (exact_pass_lookup response questions q Hnd Hq) as Hm.
  rewrite Hv in Hm.
  destruct (Nat.eqb _ _); [exact Hm|]. cbn [orb].
  rewrite (validate_keep _ _ v).
  - destruct (noise v); reflexivity.
  - apply fold_rule_step_keeps, Hm.
Qed.

Lemma X10_option_match_decides_witness :
  let q1 :=
    Question (u "observation_frequency") None
             [ChoiceDict (u "每天1次") (u "每天") None;
              ChoiceDict (u "每周1次") (u "每周") None] true (u "time") 0 in
  let q2 := Question (u "monitoring_period") None [] true (u "time") 0 in
  let response := u "每周，半年" in
  first_hit response (options q1) = Some (u "每周1次")
  /\ _parse_response_by_rules Demo.rules_only response [q1; q2]
     !! parameter_key q1
     = if Nat.eqb (size (exact_pass response [q1; q2])) (List.length [q1; q2])
          || negb (noise (u "每周1次"))
       then Some (u "每周1次") else None.
Proof.
  intros q1 q2 response.
  assert (H4 : first_hit response (options q1) = Some (u "每周1次"))
    by (vm_compute; reflexivity).
  split; [exact H4|].
  apply (X10_option_match_decides Demo.rules_only response [q1; q2] q1).
  - vm_compute. reflexivity.
  - unfold pending_keys. simpl. constructor.
    + intros [H|[]]. vm_compute in H. discriminate.
    + constructor; [intros []|constructor].
  - left. reflexivity.
  - exact H4.
Defined.

Lemma positional_other (parts : list str) (questions : list question)
    (m : gmap str str) (k : str) :
  (forall q, In q questions -> parameter_key q <> k) ->
  positional parts questions m !! k = m !! k.
Proof.
  unfold positional.
  revert parts m. induction questions as [|q0 rest IH]; intros parts m H.
  - destruct parts; reflexivity.
  - destruct parts as [|p ps]; [reflexivity|]. simpl.
    rewrite IH by (intros q' Hq'; apply H; right; exact Hq').
    unfold positional_step. simpl.
    destruct (m !! parameter_key q0); [reflexivity|].
    apply lookup_insert_ne, H. left. reflexivity.
Qed.

Lemma positional_lookup (parts : list str) (questions : list question)
    (m : gmap str str) (i : nat) (q : question) (part : str) :
  List.NoDup (pending_keys questions) ->
  nth_error questions i = Some q -> nth_error parts i = Some part ->
  positional parts questions m !! parameter_key q
  = Some (default (strip part) (m !! parameter_key q)).
Proof.
  revert parts m i.
  induction questions as [|q0 rest IH]; intros parts m i Hnd Hq Hp.
  - destruct i; discriminate.
  - destruct parts as [|p ps]; [destruct i; discriminate|].
    pose proof (key_not_in_rest q0 rest Hnd) as Hrest.
    destruct i as [|i]; simpl in Hq, Hp.
    + inversion Hq; inversion Hp; subst q0 p.
      change (positional (part :: ps) (q :: rest) m)
        with (positional ps rest (positional_step m (part, q))).
      rewrite positional_other by exact Hrest.
      unfold positional_step. simpl.
      destruct (m !! parameter_key q) eqn:E; simpl.
      * exact E.
      * apply lookup_insert_eq.
    + change (positional (p :: ps) (q0 :: rest) m)
        with (positional ps rest (positional_step m (p, q0))).
      assert (Hin : In q rest) by (eapply nth_error_In; exact Hq).
      rewrite (IH ps _ i); [|inversion Hnd; assumption|exact Hq|exact Hp].
      f_equal. f_equal. unfold positional_step. simpl.
      destruct (m !! parameter_key q0); [reflexivity|].
      apply lookup_insert_ne. intros Heq. exact (Hrest q Hin (eq_sym Heq)).
Qed.

Lemma positional_binds (parts : list str) (questions : list question)
    (m : gmap str str) (q : question) :
  List.length parts = List.length questions -> In q questions ->
  is_Some (positional parts questions m !! parameter_key q).
Proof.
  revert parts m.
  induction questions as [|q0 rest IH]; intros parts m Hlen Hq; [destruct Hq|].
  destruct parts as [|p ps]; [discriminate|].
  change (positional (p :: ps) (q0 :: rest) m)
    with (positional ps rest (positional_step m (p, q0))).
  destruct Hq as [->|Hq].
  - assert (H : is_Some (positional_step m (p, q) !! parameter_key q)).
    { unfold positional_step. simpl.
      destruct (m !! parameter_key q) eqn:E; [rewrite E; eauto|].
      rewrite lookup_insert_eq. eauto. }
    destruct H as [v H]. exists v. apply positional_keeps, H.
  - apply IH; [simpl in Hlen; lia|exact Hq].
Qed.

Lemma rule_step_bound (e : env) (response : str) (questions : list question)
    (m : gmap str str) (q : question) :
  is_Some (m !! parameter_key q) -> rule_step e response questions m q = m.
Proof. intros [v H]. unfold rule_step. rewrite H. reflexivity. Qed.

Lemma fold_rule_step_bound (e : env) (response : str)
    (questions l : list question) (m : gmap str str) :
  (forall q, In q l -> is_Some (m !! parameter_key q)) ->
  fold_left (rule_step e response questions) l m = m.
Proof.
  induction l as [|q l IH]; intros H; [reflexivity|].
  simpl. rewrite rule_step_bound by (apply H; left; reflexivity).
  apply IH. intros q' Hq'. apply H. right. exact Hq'.
Qed.

Lemma positional_bound (parts : list str) (questions : list question)
    (m : gmap str str) :
  (forall q, In q questions -> is_Some (m !! parameter_key q)) ->
  positional parts questions m = m.
Proof.
  revert parts. induction questions as [|q0 rest IH]; intros parts H.
  - destruct parts; reflexivity.
  - destruct parts as [|p ps]; [reflexivity|].
    change (positional (p :: ps) (q0 :: rest) m)
      with (positional ps rest (positional_step m (p, q0))).
    assert (E : positional_step m (p, q0) = m).
    { unfold positional_step. simpl.
      destruct (H q0 (or_introl eq_refl)) as [v ->]. reflexivity. }
    rewrite E. apply IH. intros q' Hq'. apply H. right. exact Hq'.
Qed.

Lemma rule_step_unbound (e : env) (response : str)
    (questions : list question) (m : gmap str str) (q : question) :
  List.length (parts_of response) = List.length questions ->
  m !! parameter_key q = None ->
  rule_step e response questions m q
  = positional (parts_of response) questions m.
Proof.
  intros Hlen E. unfold rule_step. rewrite E.
  apply Nat.eqb_eq in Hlen. rewrite Hlen. reflexivity.
Qed.

Lemma fold_rule_step_cases (e : env) (response : str)
    (questions l : list question) (m : gmap str str) :
  List.length (parts_of response) = List.length questions ->
  (forall q, In q l -> In q questions) ->
  fold_left (rule_step e response questions) l m
  = if forallb (fun q => match m !! parameter_key q with
                         | Some _ => true
                         | None => false
                         end) l
    then m else positional (parts_of response) questions m.
Proof.
  intros Hlen. revert m. induction l as [|q l IH]; intros m Hl; [reflexivity|].
  cbn [fold_left forallb]. destruct (m !! parameter_key q) eqn:E.
  - rewrite rule_step_bound by (rewrite E; eauto). cbn [andb].
    apply IH. intros q' Hq'. apply Hl. right. exact Hq'.
  - cbn [andb]. rewrite (rule_step_unbound _ _ _ _ _ Hlen E).
    apply fold_rule_step_bound. intros q' Hq'.
    apply positional_binds; [exact Hlen|]. apply Hl. right. exact Hq'.
Qed.

(** When the answer has as many parts as there are questions, the second
    loop is one positional assignment. *)
Lemma fold_rule_step_positional (e : env) (response : str)
    (questions : list question) (m : gmap str str) :
  List.length (parts_of response) = List.length questions ->
  fold_left (rule_step e response questions) questions m
  = positional (parts_of response) questions m.
Proof.
  intros Hlen.
  rewrite (fold_rule_step_cases e response questions questions m Hlen)
    by auto.
  destruct (forallb _ questions) eqn:E; [|reflexivity].
  symmetry. apply positional_bound. intros q Hq.
  rewrite forallb_forall in E. specialize (E q Hq).
  destruct (m !! parameter_key q); [eauto|discriminate].
Qed.

(** X11.  Positional answers.  When the answer holds no skip word, cut
    at the first delimiter of the list that occurs in it it has as many
    parts as there are pending questions, the questions have distinct
    keys and the options do not settle all of them, then the [i]-th
    question gets the value of its first option found in the answer, or
    else the [i]-th part stripped; the last loop then deletes the value
    if it is noise. *)
Theorem X11_positional_answers
    (e : env) (response : str) (questions : list question)
    (i : nat) (q : question) (part : str) :
  existsb (fun skip_word => contains skip_word (lower e response)) skip_words
  = false ->
  List.NoDup (pending_keys questions) ->
  List.length (parts_of response) = List.length questions ->
  size (exact_pass response questions) <> List.length questions ->
  nth_error questions i = Some q ->
  nth_error (parts_of response) i = Some part ->
  let value := default (strip part) (first_hit response (options q)) in
  _parse_response_by_rules e response questions !! parameter_key q
  = if noise value then None else Some value.
Proof.
  intros Hskip Hnd Hlen Hsize Hq Hp value.
  unfold _parse_response_by_rules. rewrite Hskip.
  destruct (Nat.eqb _ _) eqn:E; [apply Nat.eqb_eq in E; contradiction|].
  rewrite (fold_rule_step_positional e response questions _ Hlen).
  apply validate_keep.
  rewrite (positional_lookup _ _ _ i q part Hnd Hq Hp).
  rewrite (exact_pass_lookup response questions q Hnd
             (nth_error_In _ _ Hq)).
  reflexivity.
Qed.

Lemma X11_positional_answers_witness :
  let q1 :=
    Question (u "observation_frequency") None
             [ChoiceDict (u "每天1次") (u "每天") None;
              ChoiceDict (u "每周1次") (u "每周") None] true (u "time") 0 in
  let q2 := Question (u "monitoring_period") None [] true (u "time") 0 in
  let response := u "每周， 半年 " in
  nth_error (parts_of response) 1 = Some (u " 半年 ")
  /\ _parse_response_by_rules Demo.rules_only response [q1; q2]
     !! parameter_key q2
     = if noise (default (strip (u " 半年 ")) (first_hit response (options q2)))
       then None
       else Some (default (strip (u " 半年 "))
                          (first_hit response (options q2))).
Proof.
  intros q1 q2 response.
  assert (Hp : nth_error (parts_of response) 1 = Some (u " 半年 "))
    by (vm_compute; reflexivity).
  split; [exact Hp|].
  apply (X11_positional_answers Demo.rules_only response [q1; q2] 1%nat q2
           (u " 半年 ")).
  - vm_compute. reflexivity.
  - unfold pending_keys. simpl. constructor.
    + intros [H|[]]. vm_compute in H. discriminate.
    + constructor; [intros []|constructor].
  - vm_compute. reflexivity.
  - vm_compute. discriminate.
  - reflexivity.
  - exact Hp.
Defined.

End ParserMore.
(** ** The staged controller, continued *)

Section StageMore.
Import Py Parser Stage Outcome.

Ltac names :=
  repeat match goal with
  | |- context [eqb (u ?a) (u ?b)] =>
    let v := eval vm_compute in (eqb (u a) (u b)) in
    change (eqb (u a) (u b)) with v
  | |- context [rank (u ?a)] =>
    let v := eval vm_compute in (rank (u a)) in
    change (rank (u a)) with v
  | |- context [known_stage (u ?a)] =>
    let v := eval vm_compute in (known_stage (u a)) in
    change (known_stage (u a)) with v
  | |- context [index (u ?a) ?l] =>
    let v := eval vm_compute in (index (u a) l) in
    change (index (u a) l) with v
  | |- context [stage_entry (u ?a)] =>
    let v := eval cbv in (stage_entry (u a)) in
    change (stage_entry (u a)) with v
  end.

Lemma steady_refl (s : WorkflowState) : steady s s.
Proof. split; [apply quiet_refl|]. split; reflexivity. Qed.

Lemma steady_trans (s1 s2 s3 : WorkflowState) :
  steady s1 s2 -> steady s2 s3 -> steady s1 s3.
Proof.
  intros (Q1 & A1 & C1) (Q2 & A2 & C2).
  split; [exact (quiet_trans _ _ _ Q1 Q2)|]. split; congruence.
Qed.

Lemma steady_enter (callback : bool) (s : WorkflowState) :
  steady s (enter callback s).
Proof.
  split; [apply quiet_enter|].
  unfold enter. destruct (eqb _ _); [|split; reflexivity].
  destruct callback; split; reflexivity.
Qed.

Lemma steady_set_stage (next : str) (s : WorkflowState) :
  steady s (set_collection_stage next s).
Proof.
  split; [|split; reflexivity].
  split; [|split; [|split]]; try reflexivity.
  intros st. unfold asked. simpl. apply asks_enter.
Qed.

Lemma steady_should_skip (e : env) (s : WorkflowState) :
  steady s (snd (should_skip_clarification e s)).
Proof.
  unfold should_skip_clarification.
  repeat match goal with
  | |- context [if ?b then _ else _] => destruct b
  end; apply steady_refl || (repeat split; reflexivity).
Qed.

Lemma steady_prepare (e : env) (s : WorkflowState) :
  steady s (snd (prepare e s)).
Proof.
  unfold prepare. destruct (_ && _); [|apply steady_refl].
  unfold extract_existing_parameters.
  destruct (awaiting_clarification s); [repeat split; reflexivity|].
  destruct (_is_new_requirement e s); repeat split; reflexivity.
Qed.

Lemma prepare_params (e : env) (s : WorkflowState) :
  fst (prepare e s) = extracted_parameters (snd (prepare e s)).
Proof.
  unfold prepare. destruct (_ && _); [|reflexivity].
  destruct (extract_existing_parameters e s) as [p s']. reflexivity.
Qed.

Lemma steady_increment (st : str) (s : WorkflowState) :
  steady s (increment_stage_retry st s).
Proof. repeat split; reflexivity. Qed.

Lemma steady_skip_collection (e : env) (s : WorkflowState) :
  steady s (skip_collection e s).
Proof. split; [apply quiet_skip_collection|split; reflexivity]. Qed.

Lemma steady_complete_collection (e : env) (callback : bool)
    (existing : gmap str str) (s : WorkflowState) :
  steady s (complete_collection e callback existing s).
Proof.
  split; [apply quiet_complete_collection|].
  unfold complete_collection. destruct callback; split; reflexivity.
Qed.

Lemma retries_kept_refl (s : WorkflowState) : retries_kept s s.
Proof. intros st. lia. Qed.

Lemma retries_kept_trans (s1 s2 s3 : WorkflowState) :
  retries_kept s1 s2 -> retries_kept s2 s3 -> retries_kept s1 s3.
Proof. intros H1 H2 st. specialize (H1 st). specialize (H2 st). lia. Qed.

Lemma retries_kept_same (b s s' : WorkflowState) :
  stage_retry_count s' = stage_retry_count s ->
  retries_kept b s -> retries_kept b s'.
Proof. intros E H st. unfold retries in *. rewrite E. apply H. Qed.

Lemma retries_kept_view (b s s' : WorkflowState) :
  view s' = view s -> retries_kept b s -> retries_kept b s'.
Proof.
  intros E. apply retries_kept_same. unfold view in E. congruence.
Qed.

Lemma retries_kept_increment (b s : WorkflowState) (cur : str) :
  retries_kept b s -> retries_kept b (increment_stage_retry cur s).
Proof.
  intros H st. specialize (H st). unfold retries, increment_stage_retry in *.
  simpl. destruct (decide (cur = st)) as [->|Hne].
  - rewrite lookup_insert_eq. simpl. fold (retries st s). unfold retries. lia.
  - rewrite lookup_insert_ne by exact Hne. exact H.
Qed.

Lemma get_next_in_order (s : WorkflowState) (next : str) :
  get_next_collection_stage s = Some next -> In next stage_order.
Proof.
  unfold get_next_collection_stage.
  destruct (eqb _ (u "not_started"));
    [intros H; inversion H; simpl; auto|].
  destruct (eqb _ (u "completed")); [discriminate|].
  destruct (index _ stage_order) as [i|];
    [|intros H; inversion H; simpl; auto].
  intros H. apply find_some in H as [H _].
  revert H. generalize (S i). intros n H.
  rewrite <- (firstn_skipn n stage_order). apply in_or_app. right. exact H.
Qed.

Lemma in_order_not_completed (st : str) :
  In st stage_order -> st <> u "completed".
Proof. intros H. apply in_order_known in H. tauto. Qed.

Lemma omap_questions (e : env) (optsf : str -> list choice) (req : bool)
    (st : str) (rc : Z) (l : list str) :
  let f := fun k =>
    match param_config e k with
    | Some nm => Some (Question k (Some nm) (optsf k) req st rc)
    | None => None
    end in
  List.map parameter_key (omap f l)
  = List.filter (fun k => bool_decide (param_config e k <> None)) l
  /\ Forall (fun q =>
               Parser.stage q = st /\ retry_count q = rc /\ required q = req
               /\ parameter_name q = param_config e (parameter_key q))
            (omap f l).
Proof.
  intros f. induction l as [|k l [IH1 IH2]]; [split; [reflexivity|constructor]|].
  cbn [omap list_omap List.filter].
  assert (Hf : f k = match param_config e k with
                     | Some nm => Some (Question k (Some nm) (optsf k) req st rc)
                     | None => None
                     end) by reflexivity.
  destruct (param_config e k) as [nm|] eqn:Hk; rewrite Hf.
  - rewrite bool_decide_eq_true_2 by discriminate.
    cbn [List.map]. split; [f_equal; exact IH1|].
    constructor; [|exact IH2]. simpl. rewrite Hk. auto.
  - rewrite bool_decide_eq_false_2 by (intros X; apply X; reflexivity).
    split; assumption.
Qed.

(** The fields of the questions [generate_stage_questions] builds. *)
Lemma generate_stage_questions_fields (e : env) (s : WorkflowState)
    (st : str) (results : gmap str uresult) (questions : list question) :
  generate_stage_questions e s st results = Some questions ->
  exists info,
    stage_entry st = Some info
    /\ List.map parameter_key questions
       = List.filter (fun k => bool_decide (param_config e k <> None))
                     (params_to_collect s st info results)
    /\ Forall (fun q =>
                 Parser.stage q = st
                 /\ retry_count q = retries st s
                 /\ required q = negb (eqb st (u "technical"))
                 /\ parameter_name q = param_config e (parameter_key q))
              questions.
Proof.
  unfold generate_stage_questions.
  destruct (stage_entry st) as [info|]; [|discriminate].
  intros H. inversion H; subst questions. clear H.
  exists info. split; [reflexivity|].
  exact (omap_questions e
           (fun param_key =>
              if eqb st (u "technical")
                 && (1 <? List.length
                            (params_to_collect s st info results))%nat
              then default []
                     (generate_batch_dynamic_options e
                        (List.filter
                           (fun k => bool_decide (param_config e k <> None))
                           (params_to_collect s st info results)) s
                      !! param_key)
              else generate_dynamic_options e param_key s)
           (negb (eqb st (u "technical"))) st (retries st s)
           (params_to_collect s st info results)).
Qed.

Lemma ask_ends (e : env) (callback : bool) (b s : WorkflowState)
    (q : question) (qs : list question) (rc : Z)
    (results : gmap str uresult) :
  steady b s ->
  generate_stage_questions e s (parameter_collection_stage s) results
  = Some (q :: qs) ->
  asks_user e callback b
    (ask e callback (q :: qs) (parameter_collection_stage s) rc results s).
Proof.
  intros ((Qa & Qs & Qp & Qm) & Ha & Hc) Hg.
  destruct (generate_stage_questions_fields _ _ _ _ _ Hg)
    as (info & Hinfo & _ & Hf).
  pose proof (ask_stage e callback (q :: qs) (parameter_collection_stage s)
                        rc results s) as Est.
  assert (E : thinking_steps
                (ask e callback (q :: qs) (parameter_collection_stage s)
                     rc results s)
              = thinking_steps s
                ++ [StepAsk (parameter_collection_stage s)
                            (List.length (q :: qs))])
    by (destruct callback; reflexivity).
  assert (Em : messages
                 (ask e callback (q :: qs) (parameter_collection_stage s)
                      rc results s)
               = messages s
                 ++ [Message (u "assistant")
                       (build_stage_clarification_message e (q :: qs)
                          (parameter_collection_stage s) rc results)])
    by (destruct callback; reflexivity).
  assert (El : questions_sent
                 (callback_log
                    (ask e callback (q :: qs) (parameter_collection_stage s)
                         rc results s))
               = questions_sent (callback_log s)
                 ++ (if callback
                     then [ClarificationQuestions (q :: qs)
                             (parameter_collection_stage s) rc]
                     else [])).
  { destruct callback; simpl.
    - unfold questions_sent. rewrite List.filter_app. reflexivity.
    - rewrite app_nil_r. reflexivity. }
  assert (Ep : pending_questions
                 (ask e callback (q :: qs) (parameter_collection_stage s)
                      rc results s) = q :: qs)
    by (destruct callback; reflexivity).
  assert (Ew : awaiting_clarification
                 (ask e callback (q :: qs) (parameter_collection_stage s)
                      rc results s) = true)
    by (destruct callback; reflexivity).
  assert (Ec : Stage.current_stage
                 (ask e callback (q :: qs) (parameter_collection_stage s)
                      rc results s) = u "parameter_clarification")
    by (destruct callback; reflexivity).
  set (s' := ask e callback (q :: qs) (parameter_collection_stage s)
                 rc results s) in *.
  clearbody s'.
  exists (q :: qs), rc, results. rewrite Est.
  split; [exact (stage_entry_Some _ _ Hinfo)|].
  split; [discriminate|].
  split; [exact Ep|].
  split; [eapply List.Forall_impl; [|exact Hf]; intros a Ha';
          exact (proj1 Ha')|].
  split; [exact Ew|].
  split; [exact Ec|].
  split; [rewrite Em, Qm; reflexivity|].
  split.
  - intros st. unfold asked in *. rewrite E, asks_app, Qa. f_equal.
    unfold asks. simpl. destruct (eqb st _); reflexivity.
  - rewrite El, Qs. reflexivity.
Qed.

Section Recursion.
Variables (again : WorkflowState -> option result).
Variables (e : env) (callback : bool).
Hypothesis again_ended :
  forall b s r,
    steady b s -> retries_kept b s ->
    parameter_collection_stage s <> u "completed" ->
    again s = Some r -> ended e callback b r.

Lemma continue_with_ended (b s : WorkflowState) (rc : Z)
    (results : gmap str uresult) (r : result) :
  steady b s -> retries_kept b s ->
  continue_with again e callback s (parameter_collection_stage s) rc results
  = Some r ->
  ended e callback b r.
Proof.
  intros Hs Hr. unfold continue_with.
  destruct (generate_stage_questions e s _ results) as [[|q qs]|] eqn:Hg.
  - destruct (get_next_collection_stage s) as [next|] eqn:Hn.
    + apply again_ended.
      * exact (steady_trans _ _ _ Hs (steady_set_stage next s)).
      * exact Hr.
      * simpl. apply in_order_not_completed, (get_next_in_order s), Hn.
    + intros H. inversion H; subst r. split; [exact Hr|]. left.
      split; [reflexivity|]. split; [reflexivity|].
      apply (steady_trans _ _ _ Hs).
      apply (steady_trans _ _ _ (steady_set_stage (u "completed") s)).
      repeat split; reflexivity.
  - intros H. inversion H; subst r. split.
    + apply (retries_kept_same b s); [destruct callback; reflexivity|exact Hr].
    + right. apply ask_ends; assumption.
  - intros H. inversion H; subst r. split; [exact Hr|]. split; [reflexivity|].
    exact Hs.
Qed.

Lemma main_path_ended (b s2 : WorkflowState) (r : result) :
  steady b s2 -> retries_kept b s2 ->
  main_path again e callback s2 = Some r ->
  ended e callback b r.
Proof.
  intros Hs Hr. unfold main_path, get_current_collection_stage.
  pose proof (steady_prepare e s2) as Hp.
  pose proof (prepare_view e s2) as Hv.
  pose proof (prepare_params e s2) as Hpp.
  destruct (prepare e s2) as [existing s3]. simpl in Hp, Hv, Hpp.
  assert (Hst : parameter_collection_stage s3 = parameter_collection_stage s2)
    by (unfold view in Hv; congruence).
  assert (Hs3 : steady b s3) by exact (steady_trans _ _ _ Hs Hp).
  assert (Hr3 : retries_kept b s3)
    by (apply (retries_kept_view b s2); assumption).
  rewrite <- Hst.
  destruct (check_stage_uncertainty e s3 _) as [results|];
    [|intros H; inversion H; subst r; split; [exact Hr3|split; [reflexivity|exact Hs3]]].
  destruct (wants_retry results _ _).
  - apply (continue_with_ended b
             (increment_stage_retry (parameter_collection_stage s3) s3)).
    + exact (steady_trans _ _ _ Hs3 (steady_increment _ s3)).
    + apply retries_kept_increment, Hr3.
  - destruct (get_next_collection_stage s3) as [next|].
    + apply (continue_with_ended b (set_collection_stage next s3)).
      * exact (steady_trans _ _ _ Hs3 (steady_set_stage next s3)).
      * exact Hr3.
    + intros H. inversion H; subst r. split.
      * apply (retries_kept_same b s3); [|exact Hr3].
        unfold complete_collection. destruct callback; reflexivity.
      * left. split; [destruct callback; reflexivity|].
        split; [destruct callback; reflexivity|].
        exact (steady_trans _ _ _ Hs3
                 (steady_complete_collection e callback existing s3)).
Qed.

End Recursion.

(** However deep the self-calls go, a call that starts outside
    [completed] and comes back has closed the collection or asked. *)
Lemma process_ended (e : env) (callback : bool) (fuel : nat) :
  forall b s r,
    steady b s -> retries_kept b s ->
    parameter_collection_stage s <> u "completed" ->
    process_fuel fuel e callback s = Some r -> ended e callback b r.
Proof.
  induction fuel as [|fuel IH]; intros b s r Hs Hr Hnc; [discriminate|].
  cbn [process_fuel].
  pose proof (steady_enter callback s) as He.
  assert (Hv1 : view (enter callback s)
                = view s \/ parameter_collection_stage (enter callback s)
                            = u "purpose").
  { unfold enter. destruct (eqb _ _); [right|left; reflexivity].
    destruct callback; reflexivity. }
  assert (Hr1 : retries_kept b (enter callback s)).
  { apply (retries_kept_same b s); [|exact Hr].
    unfold enter. destruct (eqb _ _); [|reflexivity].
    destruct callback; reflexivity. }
  assert (Hnc1 : parameter_collection_stage (enter callback s)
                 <> u "completed").
  { destruct Hv1 as [Hv1|Hv1].
    - unfold view in Hv1. inversion Hv1 as [[E1 E2 E3]]. rewrite E1.
      exact Hnc.
    - rewrite Hv1. intros X. vm_compute in X. discriminate. }
  set (s1 := enter callback s) in *.
  unfold get_current_collection_stage.
  apply str_eqb_neq in Hnc1. rewrite Hnc1.
  pose proof (steady_should_skip e s1) as Hk.
  pose proof (should_skip_view e s1) as Hv.
  destruct (should_skip_clarification e s1) as [skip s2]. simpl in Hk, Hv.
  assert (Hs2 : steady b s2)
    by exact (steady_trans _ _ _ Hs (steady_trans _ _ _ He Hk)).
  assert (Hr2 : retries_kept b s2)
    by (apply (retries_kept_view b s1); assumption).
  assert (Hdone : ended e callback b (Ok (skip_collection e s2))).
  { split; [apply (retries_kept_same b s2); [reflexivity|exact Hr2]|].
    left. split; [reflexivity|]. split; [reflexivity|].
    exact (steady_trans _ _ _ Hs2 (steady_skip_collection e s2)). }
  destruct skip.
  - destruct (has_all_stages s2);
      [intros H; inversion H; subst r; exact Hdone|].
    destruct (get_next_collection_stage s2) as [next|] eqn:Hn;
      [|intros H; inversion H; subst r; exact Hdone].
    apply IH.
    + exact (steady_trans _ _ _ Hs2 (steady_set_stage next s2)).
    + exact Hr2.
    + simpl. apply in_order_not_completed, (get_next_in_order s2), Hn.
  - apply (main_path_ended (process_fuel fuel e callback) e callback);
      [|exact Hs2|exact Hr2].
    intros b' s' r'. apply IH.
Qed.

Lemma process_fuel_S (fuel : nat) (e : env) (callback : bool)
    (s0 : WorkflowState) :
  process_fuel (S fuel) e callback s0
  = let s1 := enter callback s0 in
    if eqb (get_current_collection_stage s1) (u "completed") then Some (Ok s1)
    else
      let '(skip, s2) := should_skip_clarification e s1 in
      if skip then
        match
          (if has_all_stages s2 then None else get_next_collection_stage s2)
        with
        | Some next_stage =>
          process_fuel fuel e callback (set_collection_stage next_stage s2)
        | None => Some (Ok (skip_collection e s2))
        end
      else main_path (process_fuel fuel e callback) e callback s2.
Proof. reflexivity. Qed.

Lemma process_completed (e : env) (callback : bool) (s : WorkflowState) :
  parameter_collection_stage s = u "completed" ->
  process_staged_parameter_clarification e callback s = Some (Ok s).
Proof.
  intros Hc. unfold process_staged_parameter_clarification.
  rewrite process_fuel_S. unfold enter, get_current_collection_stage.
  rewrite Hc. names. cbv iota zeta. rewrite Hc. names. reflexivity.
Qed.

(** X12.  A call of [process_staged_parameter_clarification] that starts
    in a known stage other than [completed] returns, and it has done one
    of two things.  Either it has closed the collection: the stage is
    [completed], [clarification_completed] is set, and nothing was asked
    (no message added, no questions stored or sent, the waiting flag and
    the workflow stage untouched).  Or it has asked the questions of
    exactly one stage, which is the stage the state is left in: they are
    not empty, they all carry that stage, they are stored as pending with
    the waiting flag set, sent once to the callback if there is one, and
    one assistant message was added.  No retry counter has gone down.  A
    call that starts in [completed] returns the state as it is. *)
Theorem X12_a_call_closes_the_collection_or_asks
    (e : env) (callback : bool) (s : WorkflowState) :
  (known_stage (parameter_collection_stage s) = true ->
   parameter_collection_stage s <> u "completed" ->
   exists s',
     process_staged_parameter_clarification e callback s = Some (Ok s')
     /\ retries_kept s s'
     /\ (completes s s' \/ asks_user e callback s s'))
  /\ (parameter_collection_stage s = u "completed" ->
      process_staged_parameter_clarification e callback s = Some (Ok s)).
Proof.
  split.
  - intros K Hnc.
    destruct (process_returns e callback s K) as (s' & E & _).
    exists s'. split; [exact E|].
    exact (process_ended e callback 8 s s (Ok s') (steady_refl s)
             (retries_kept_refl s) Hnc E).
  - apply process_completed.
Qed.

(** A fresh state with the mandatory parameters, and the same state once
    the collection is closed. *)
Lemma X12_a_call_closes_the_collection_or_asks_witness :
  (exists s',
     process_staged_parameter_clarification Demo.lenient true
                                            Demo.with_mandatory
     = Some (Ok s')
     /\ retries_kept Demo.with_mandatory s'
     /\ (completes Demo.with_mandatory s'
         \/ asks_user Demo.lenient true Demo.with_mandatory s'))
  /\ process_staged_parameter_clarification Demo.lenient true
       (with_parameter_collection_stage (u "completed") Demo.with_mandatory)
     = Some (Ok (with_parameter_collection_stage (u "completed")
                   Demo.with_mandatory)).
Proof.
  split.
  - apply (X12_a_call_closes_the_collection_or_asks
             Demo.lenient true Demo.with_mandatory).
    + reflexivity.
    + vm_compute. discriminate.
  - apply (X12_a_call_closes_the_collection_or_asks Demo.lenient true
             (with_parameter_collection_stage (u "completed")
                Demo.with_mandatory)).
    reflexivity.
Defined.

Lemma get_next_after_technical (s : WorkflowState) :
  parameter_collection_stage s = u "technical" ->
  get_next_collection_stage s = None.
Proof.
  intros H. unfold get_next_collection_stage, get_current_collection_stage.
  rewrite H. names. reflexivity.
Qed.

Lemma should_skip_in_technical (e : env) (s : WorkflowState) :
  parameter_collection_stage s = u "technical" ->
  forallb (fun p => truthy (default [] (extracted_parameters s !! p)))
          [u "monitoring_target"; u "observation_area";
           u "observation_frequency"; u "monitoring_period"] = true ->
  clarification_completed s && _is_new_requirement e s = false ->
  should_skip_clarification e s = (true, s).
Proof.
  intros Hst Hall Hnew. unfold should_skip_clarification.
  destruct (match last_of (user_messages s) with
            | Some latest => _
            | None => false
            end); [reflexivity|].
  unfold get_current_collection_stage. rewrite Hst. names. cbn [negb andb].
  change (3 <? 3)%nat with false. cbv iota.
  destruct (clarification_completed s).
  - cbn [andb] in Hnew. rewrite Hnew. reflexivity.
  - rewrite filter_nil_all.
    + cbn [negb List.length Nat.eqb]. names. cbn [negb].
      rewrite andb_false_r. reflexivity.
    + intros x Hx. rewrite forallb_forall in Hall. rewrite (Hall x Hx).
      reflexivity.
Qed.

(** X14.  In the technical stage, once the four essential parameters
    (target, area, frequency, period) are there, the next call closes
    the collection on the skip path, whatever was answered and whatever
    the gate makes of it: it returns with the stage [completed] and both
    [clarification_completed] and [clarification_skipped] set, asks
    nothing, and leaves the extracted parameters with the smart defaults
    applied.  So the one retry the technical stage is allowed is never
    used in such a state. *)
Theorem X14_technical_stage_closes_as_skipped
    (e : env) (callback : bool) (s : WorkflowState) :
  parameter_collection_stage s = u "technical" ->
  forallb (fun p => truthy (default [] (extracted_parameters s !! p)))
          [u "monitoring_target"; u "observation_area";
           u "observation_frequency"; u "monitoring_period"] = true ->
  clarification_completed s && _is_new_requirement e s = false ->
  exists s',
    process_staged_parameter_clarification e callback s = Some (Ok s')
    /\ completes s s'
    /\ clarification_skipped s' = true
    /\ extracted_parameters s'
       = apply_smart_defaults e (extracted_parameters s)
    /\ stage_retry_count s' = stage_retry_count s.
Proof.
  intros Hst Hall Hnew.
  exists (skip_collection e s). split.
  - unfold process_staged_parameter_clarification. rewrite process_fuel_S.
    assert (He : enter callback s = s).
    { unfold enter, get_current_collection_stage. rewrite Hst. names.
      reflexivity. }
    cbv zeta. rewrite He. unfold get_current_collection_stage at 1.
    rewrite Hst. names. cbv iota.
    rewrite (should_skip_in_technical e s Hst Hall Hnew).
    rewrite (get_next_after_technical s Hst).
    destruct (has_all_stages s); reflexivity.
  - split; [|repeat split; reflexivity].
    split; [reflexivity|]. split; [reflexivity|].
    apply steady_skip_collection.
Qed.

(** The state with every mandatory parameter, moved to the technical
    stage. *)
Lemma X14_technical_stage_closes_as_skipped_witness :
  exists s',
    process_staged_parameter_clarification Demo.strict true
      (with_parameter_collection_stage (u "technical") Demo.with_mandatory)
    = Some (Ok s')
    /\ completes
         (with_parameter_collection_stage (u "technical") Demo.with_mandatory)
         s'
    /\ clarification_skipped s' = true
    /\ extracted_parameters s'
       = apply_smart_defaults Demo.strict
           (extracted_parameters
              (with_parameter_collection_stage (u "technical")
                 Demo.with_mandatory))
    /\ stage_retry_count s'
       = stage_retry_count
           (with_parameter_collection_stage (u "technical")
              Demo.with_mandatory).
Proof.
  apply (X14_technical_stage_closes_as_skipped Demo.strict true
           (with_parameter_collection_stage (u "technical")
              Demo.with_mandatory)).
  - reflexivity.
  - vm_compute. reflexivity.
  - reflexivity.
Defined.

(** When no retry is wanted the main path leaves the stage. *)
Lemma main_path_moves_on (again : WorkflowState -> option result)
    (fuel : nat) (e : env) (callback : bool) (s2 : WorkflowState) :
  (forall t, known_stage (parameter_collection_stage t) = true ->
             (remaining (parameter_collection_stage t) < fuel)%nat ->
             good t (rank (parameter_collection_stage t)) (again t)) ->
  In (parameter_collection_stage s2) stage_order ->
  (remaining (parameter_collection_stage s2) <= fuel)%nat ->
  (forall results,
     check_stage_uncertainty e (snd (prepare e s2))
                             (parameter_collection_stage s2) = Some results ->
     wants_retry results (parameter_collection_stage s2)
                 (retries (parameter_collection_stage s2)
                          (snd (prepare e s2))) = false) ->
  exists s',
    main_path again e callback s2 = Some (Ok s')
    /\ (rank (parameter_collection_stage s2)
        < rank (parameter_collection_stage s'))%nat.
Proof.
  intros again_good Hin Hfuel Hno.
  destruct (in_order_known _ Hin) as (K & Hr & _).
  destruct (stage_entry_in_order _ Hin) as [info Hinfo].
  unfold main_path, get_current_collection_stage.
  pose proof (prepare_view e s2) as Hv.
  destruct (prepare e s2) as [existing s3]. simpl in Hv, Hno.
  assert (Hst : parameter_collection_stage s3 = parameter_collection_stage s2)
    by (unfold view in Hv; congruence).
  destruct (check_stage_uncertainty_Some e s3 _ info Hinfo) as [results Hc].
  rewrite Hc, (Hno results Hc).
  assert (K3 : known_stage (parameter_collection_stage s3) = true)
    by (rewrite Hst; exact K).
  destruct (get_next_collection_stage s3) as [next|] eqn:Hn.
  - destruct (get_next_later s3 next K3 Hn) as [Hin' Hlt].
    pose proof (get_next_remaining s3 next K3 Hn) as Hrem.
    destruct (in_order_known _ Hin') as (K' & _).
    assert (G : good s3 (rank next)
                  (continue_with again e callback
                     (set_collection_stage next s3) next 0 ∅)).
    { apply (continue_with_good again fuel e callback again_good s3
               (set_collection_stage next s3)).
      - exact Hin'.
      - apply advances_set_stage; [exact K'|lia].
      - intros qs. apply advances_move_ask; assumption.
      - change (parameter_collection_stage (set_collection_stage next s3))
          with next. rewrite Hst in Hrem. lia. }
    destruct G as (s' & E & A & R).
    exists s'. split; [exact E|]. rewrite Hst in Hlt. lia.
  - eexists. split; [reflexivity|].
    assert (E : parameter_collection_stage
                  (complete_collection e callback existing s3)
                = u "completed")
      by (unfold complete_collection; destruct callback; reflexivity).
    rewrite E. change (rank (u "completed")) with 6%nat. lia.
Qed.

Lemma prepare_lookup_none (e : env) (s : WorkflowState) (k : str) :
  extracted_parameters s !! k = None ->
  (forall t, extract_parameters e t !! k = None) ->
  extracted_parameters (snd (prepare e s)) !! k = None.
Proof.
  intros H1 H2. unfold prepare. destruct (_ && _); [|exact H1].
  unfold extract_existing_parameters.
  destruct (awaiting_clarification s); [exact H1|]. simpl. apply H2.
Qed.

(** X13.  A monitoring target that is missing is not asked for.  When a
    call starts before or in the [purpose] stage with no
    ["monitoring_target"] among the extracted parameters, and the
    extraction finds none, the call returns with the collection in a
    stage after [purpose] (or closed), and the questions of the
    [purpose] stage have not been put: that stage is asked only as a
    retry, for a target that was found and that the gate rejects. *)
Theorem X13_a_missing_target_is_not_asked_for
    (e : env) (callback : bool) (s : WorkflowState) :
  parameter_collection_stage s = u "not_started"
  \/ parameter_collection_stage s = u "purpose" ->
  extracted_parameters s !! u "monitoring_target" = None ->
  (forall t, extract_parameters e t !! u "monitoring_target" = None) ->
  exists s',
    process_staged_parameter_clarification e callback s = Some (Ok s')
    /\ (rank (u "purpose") < rank (parameter_collection_stage s'))%nat
    /\ asked (u "purpose") s' = asked (u "purpose") s.
Proof.
  intros Hst Hmt Hex.
  assert (K : known_stage (parameter_collection_stage s) = true)
    by (destruct Hst as [-> | ->]; reflexivity).
  assert (Hnc : parameter_collection_stage s <> u "completed")
    by (destruct Hst as [-> | ->]; vm_compute; discriminate).
  destruct (process_returns e callback s K) as (s' & E & _).
  exists s'. split; [exact E|].
  assert (Hrank : (rank (u "purpose")
                   < rank (parameter_collection_stage s'))%nat).
  { unfold process_staged_parameter_clarification in E.
    rewrite process_fuel_S in E. cbv zeta in E.
    assert (H1 : parameter_collection_stage (enter callback s) = u "purpose"
                 /\ extracted_parameters (enter callback s)
                    = extracted_parameters s).
    { unfold enter, get_current_collection_stage.
      destruct Hst as [H|H]; rewrite H; names;
        [destruct callback; split; reflexivity|split; [exact H|reflexivity]]. }
    destruct H1 as [Hp Hx].
    set (s1 := enter callback s) in *.
    unfold get_current_collection_stage in E at 1. rewrite Hp in E.
    change (eqb (u "purpose") (u "completed")) with false in E. cbv iota in E.
    pose proof (should_skip_purpose e s1 Hp) as Hsame.
    destruct (should_skip_clarification e s1) as [skip s2].
    simpl in Hsame. subst s2.
    assert (K1 : known_stage (parameter_collection_stage s1) = true)
      by (rewrite Hp; reflexivity).
    assert (Hin1 : In (parameter_collection_stage s1) stage_order)
      by (rewrite Hp; simpl; auto).
    assert (G7 : forall t,
              known_stage (parameter_collection_stage t) = true ->
              (remaining (parameter_collection_stage t) < 7)%nat ->
              good t (rank (parameter_collection_stage t))
                   (process_fuel 7 e callback t))
      by (intros t; apply process_good).
    destruct skip.
    - assert (Hdone : forall x,
                Some (Ok (skip_collection e s1)) = Some (Ok x) ->
                (rank (u "purpose") < rank (parameter_collection_stage x))%nat).
      { intros x Hx'. inversion Hx'; subst x. vm_compute. lia. }
      destruct (has_all_stages s1); [exact (Hdone _ E)|].
      destruct (get_next_collection_stage s1) as [next|] eqn:Hn;
        [|exact (Hdone _ E)].
      destruct (get_next_later s1 next K1 Hn) as [Hin' Hlt].
      destruct (in_order_known _ Hin') as (K' & Hr' & _).
      destruct (G7 (set_collection_stage next s1)) as (x & Ex & _ & Rx).
      + exact K'.
      + simpl. rewrite remaining_known by exact K'. lia.
      + rewrite Ex in E. inversion E; subst x.
        simpl in Rx. rewrite Hp in Hlt. lia.
    - destruct (main_path_moves_on (process_fuel 7 e callback) 7 e callback
                  s1 G7 Hin1) as (x & Ex & Rx).
      + rewrite Hp. vm_compute. lia.
      + intros results Hc. rewrite Hp in *.
        unfold check_stage_uncertainty in Hc.
        change (stage_entry (u "purpose"))
          with (Some (StageInfo (u "监测目标") [u "monitoring_target"] true 2))
          in Hc.
        change (eqb (u "purpose") (u "purpose")) with true in Hc.
        cbv iota in Hc.
        rewrite (prepare_lookup_none e s1 (u "monitoring_target")) in Hc;
          [|rewrite Hx; exact Hmt|exact Hex].
        inversion Hc; subst results. reflexivity.
      + rewrite Ex in E. inversion E; subst x. rewrite Hp in Rx. exact Rx. }
  split; [exact Hrank|].
  destruct (process_ended e callback 8 s s (Ok s') (steady_refl s)
              (retries_kept_refl s) Hnc E) as [_ [Hc|Ha]].
  - destruct Hc as (_ & _ & (Qa & _) & _). apply Qa.
  - destruct Ha as (qs & rc & res & _ & _ & _ & _ & _ & _ & _ & Hask & _).
    rewrite Hask.
    destruct (eqb (u "purpose") (parameter_collection_stage s')) eqn:Eq;
      [|lia].
    apply str_eqb_eq in Eq. rewrite <- Eq in Hrank. lia.
Qed.

(** A fresh conversation in which nothing is extracted. *)
Lemma X13_a_missing_target_is_not_asked_for_witness :
  exists s',
    process_staged_parameter_clarification Demo.strict true initial
    = Some (Ok s')
    /\ (rank (u "purpose") < rank (parameter_collection_stage s'))%nat
    /\ asked (u "purpose") s' = asked (u "purpose") initial.
Proof.
  apply (X13_a_missing_target_is_not_asked_for Demo.strict true initial).
  - left. reflexivity.
  - reflexivity.
  - intros t. reflexivity.
Defined.

Lemma process_returns_ok (e : env) (callback : bool) (s : WorkflowState) :
  known_stage (parameter_collection_stage s) = true ->
  exists s', process_staged_parameter_clarification e callback s
             = Some (Ok s').
Proof.
  intros K. destruct (process_returns e callback s K) as (s' & E & _).
  exists s'. exact E.
Qed.

(** X15.  The answer to the questions of a stage of the list.  The
    handler raises exactly in one case: the answer asks to skip the
    remaining questions, the stage is not [technical], and after the
    parsed values are merged in some parameter of the stage is still
    missing; the exception is the [AttributeError] of the undefined
    [_get_stage_default].  It is raised after the answer was recorded:
    the merged parameters are stored, the stage is added to the history
    and the waiting flag and the pending questions are cleared, while the
    collection stays in its stage.  In every other case the handler
    returns. *)
Theorem X15_skip_answer_with_a_missing_parameter_raises
    (e : env) (callback : bool) (s : WorkflowState) (user_response : str) :
  In (parameter_collection_stage s) stage_order ->
  let parse_result :=
    parse_user_response (parser e) user_response (pending_questions s) in
  let merged := parameters parse_result ∪ extracted_parameters s in
  let raises :=
    awaiting_clarification s
    && negb (Nat.eqb (List.length (pending_questions s)) 0)
    && skip_remaining parse_result
    && negb (eqb (parameter_collection_stage s) (u "technical"))
    && match stage_entry (parameter_collection_stage s) with
       | Some info => existsb (absent_in merged) (params info)
       | None => false
       end in
  (raises = true ->
   process_staged_clarification_response e callback s user_response
   = Some (Raised AttributeError
             (with_pending_questions []
                (with_awaiting_clarification false
                   (with_parameter_collection_history
                      (parameter_collection_history s
                       ++ [parameter_collection_stage s])
                      (with_extracted_parameters merged s))))))
  /\ (raises = false ->
      exists s',
        process_staged_clarification_response e callback s user_response
        = Some (Ok s')).
Proof.
  intros Hin. cbv zeta.
  destruct (in_order_known _ Hin) as (K & _).
  destruct (stage_entry_in_order _ Hin) as [info Hinfo].
  unfold process_staged_clarification_response,
    get_current_collection_stage.
  rewrite Hinfo.
  destruct (awaiting_clarification s); cbn [negb andb];
    [|split; [discriminate|intros _; eexists; reflexivity]].
  destruct (pending_questions s) as [|q qs] eqn:Hq;
    [split; [discriminate|intros _; eexists; reflexivity]|].
  rewrite <- Hq.
  replace (negb (Nat.eqb (List.length (pending_questions s)) 0)) with true
    by (rewrite Hq; reflexivity).
  cbn [andb].
  set (parse_result :=
         parse_user_response (parser e) user_response (pending_questions s)).
  set (merged := parameters parse_result ∪ extracted_parameters s).
  set (s1 := with_pending_questions [] _).
  assert (K1 : known_stage (parameter_collection_stage s1) = true) by exact K.
  destruct (skip_remaining parse_result); cbn [andb].
  - destruct (eqb (parameter_collection_stage s) (u "technical"));
      cbn [negb andb].
    + split; [discriminate|intros _].
      destruct callback; apply process_returns_ok; reflexivity.
    + destruct (existsb (absent_in merged) (params info));
        (split; intros X); try discriminate; [reflexivity|].
      apply process_returns_ok. exact K1.
  - split; [discriminate|intros _].
    destruct callback; apply process_returns_ok; exact K1.
Qed.

(** In the [time] stage, with a callback: the answer "默认" to two
    pending questions. *)
Lemma X15_skip_answer_with_a_missing_parameter_raises_witness :
  let q1 := Question (u "observation_frequency") None [] true (u "time") 0 in
  let q2 := Question (u "monitoring_period") None [] true (u "time") 0 in
  let s :=
    with_pending_questions [q1; q2]
      (with_awaiting_clarification true
         (with_parameter_collection_stage (u "time") initial)) in
  let parse_result :=
    parse_user_response (parser Demo.strict) (u "默认")
                        (pending_questions s) in
  let merged := parameters parse_result ∪ extracted_parameters s in
  In (parameter_collection_stage s) stage_order
  /\ process_staged_clarification_response Demo.strict true s (u "默认")
     = Some (Raised AttributeError
               (with_pending_questions []
                  (with_awaiting_clarification false
                     (with_parameter_collection_history
                        (parameter_collection_history s
                         ++ [parameter_collection_stage s])
                        (with_extracted_parameters merged s))))).
Proof.
  intros q1 q2 s parse_result merged.
  assert (Hin : In (parameter_collection_stage s) stage_order)
    by (right; left; reflexivity).
  split; [exact Hin|].
  apply (proj1 (X15_skip_answer_with_a_missing_parameter_raises
                  Demo.strict true s (u "默认") Hin)).
  vm_compute. reflexivity.
Defined.

Lemma process_keeps_retries (e : env) (callback : bool) (b s : WorkflowState)
    (r : result) :
  retries_kept b s ->
  process_staged_parameter_clarification e callback s = Some r ->
  retries_kept b (state_of r).
Proof.
  intros Hb E.
  destruct (eqb (parameter_collection_stage s) (u "completed")) eqn:Ec.
  - apply str_eqb_eq in Ec. rewrite (process_completed e callback s Ec) in E.
    inversion E; subst r. exact Hb.
  - apply str_eqb_neq in Ec.
    apply (retries_kept_trans _ s _ Hb).
    exact (proj1 (process_ended e callback 8 s s r (steady_refl s)
                    (retries_kept_refl s) Ec E)).
Qed.

Lemma response_keeps_retries (e : env) (callback : bool) (s : WorkflowState)
    (user_response : str) (r : result) :
  process_staged_clarification_response e callback s user_response = Some r ->
  retries_kept s (state_of r).
Proof.
  unfold process_staged_clarification_response.
  destruct (awaiting_clarification s); cbn [negb];
    [|intros H; inversion H; subst r; apply retries_kept_refl].
  destruct (pending_questions s) as [|q qs] eqn:Hq;
    [intros H; inversion H; subst r; intros st; apply Z.le_refl|].
  rewrite <- Hq.
  set (parse_result := parse_user_response _ _ _).
  set (s1 := with_pending_questions [] _).
  assert (H1 : retries_kept s s1) by (intros st; apply Z.le_refl).
  assert (Hproc : forall s2,
            retries_kept s s2 ->
            process_staged_parameter_clarification e callback s2 = Some r ->
            retries_kept s (state_of r)).
  { intros s2 H2. apply process_keeps_retries, H2. }
  assert (Hconfirm : forall s2,
            retries_kept s s2 ->
            (if callback then
               match stage_entry (get_current_collection_stage s) with
               | None => Some (Raised KeyError s2)
               | Some _ =>
                 process_staged_parameter_clarification e callback
                   (emit callback
                      (StageComplete (get_current_collection_stage s)
                                     (parameters parse_result)) s2)
               end
             else process_staged_parameter_clarification e callback s2)
            = Some r ->
            retries_kept s (state_of r)).
  { intros s2 H2. destruct callback; [|apply Hproc, H2].
    destruct (stage_entry _);
      [|intros H; inversion H; subst r; exact H2].
    apply Hproc. exact H2. }
  destruct (skip_remaining parse_result).
  - destruct (eqb (get_current_collection_stage s) (u "technical")).
    + apply Hconfirm. destruct callback; exact H1.
    + destruct (stage_entry _) as [info|];
        [|intros H; inversion H; subst r; exact H1].
      destruct (existsb _ _);
        [intros H; inversion H; subst r; exact H1|].
      apply Hproc, H1.
  - apply Hconfirm, H1.
Qed.

Lemma take_turn_keeps_retries (t : turn) (s : WorkflowState) (r : result) :
  take_turn t s = Some r -> retries_kept s (state_of r).
Proof.
  unfold take_turn, handle_parameter_clarification.
  set (s0 := add_message (u "user") (user_text t) s).
  assert (H0 : retries_kept s s0) by (intros st; apply Z.le_refl).
  assert (Hlift : forall b (x : option result),
            (forall r', x = Some r' -> retries_kept s (state_of r')) ->
            lift (after_turn b) x = Some r -> retries_kept s (state_of r)).
  { intros b [[s'|err s']|] Hx H; simpl in H; inversion H; subst r.
    - apply (retries_kept_same s s'); [|apply (Hx _ eq_refl)].
      pose proof (after_turn_view b s') as V. unfold view in V.
      inversion V. reflexivity.
    - apply (Hx _ eq_refl). }
  destruct (if awaiting_clarification s0 then last_of (user_messages s0)
            else None) as [latest|].
  - apply Hlift. intros r' Hr'.
    apply (retries_kept_trans _ s0 _ H0).
    exact (response_keeps_retries _ _ _ _ _ Hr').
  - apply Hlift. intros r' Hr'.
    exact (process_keeps_retries _ _ _ _ _ H0 Hr').
Qed.

Lemma converse_keeps_retries (turns : list turn) (s s' : WorkflowState) :
  converse turns s = Some s' -> retries_kept s s'.
Proof.
  revert s. induction turns as [|t rest IH]; intros s H.
  - inversion H; subst s'. apply retries_kept_refl.
  - simpl in H. destruct (take_turn t s) as [r|] eqn:E; [|discriminate].
    apply (retries_kept_trans _ (state_of r) _).
    + exact (take_turn_keeps_retries _ _ _ E).
    + apply IH, H.
Qed.

(** X19.  Retry counters in a conversation.  Through any sequence of
    turns that starts in a known stage, also through turns that raise, no
    retry counter goes down (only the reset for a new plan clears them);
    and if at the start every counter is within the [max_retries] of its
    stage and covers the askings logged so far, every counter is within
    [max_retries] at the end. *)
Theorem X19_retry_counters_only_grow_and_stay_bounded
    (turns : list turn) (s : WorkflowState) :
  known_stage (parameter_collection_stage s) = true ->
  exists s',
    converse turns s = Some s'
    /\ (forall st, retries st s <= retries st s')
    /\ (within_budget s ->
        forall st info,
          stage_entry st = Some info -> retries st s' <= max_retries info).
Proof.
  intros K. destruct (converse_advances turns s K) as (s' & E & _ & _ & W).
  exists s'. split; [exact E|]. split.
  - exact (converse_keeps_retries turns s s' E).
  - intros Hw st info Hinfo. exact (proj2 (W Hw st info Hinfo)).
Qed.

(** Four turns with collaborators that accept nothing, from a fresh
    state. *)
Lemma X19_retry_counters_only_grow_and_stay_bounded_witness :
  exists s',
    converse Demo.stubborn initial = Some s'
    /\ (forall st, retries st initial <= retries st s')
    /\ (within_budget initial ->
        forall st info,
          stage_entry st = Some info -> retries st s' <= max_retries info).
Proof.
  apply (X19_retry_counters_only_grow_and_stay_bounded Demo.stubborn initial).
  reflexivity.
Defined.

Lemma needs_stage_spec (s : WorkflowState) (st : str) :
  needs_stage s st = true <-> incomplete s st.
Proof.
  unfold needs_stage, incomplete.
  destruct (stage_entry st) as [info|].
  - assert (Hw : stage_required info || _user_wants_stage s st = true).
    { unfold _user_wants_stage. destruct (eqb st _); apply orb_true_r. }
    rewrite Hw, andb_true_r. split.
    + intros H.
      destruct (List.filter
                  (fun p => bool_decide (extracted_parameters s !! p = None))
                  (params info)) as [|p l] eqn:F; [discriminate|].
      assert (Hp : In p (List.filter
                  (fun p => bool_decide (extracted_parameters s !! p = None))
                  (params info))) by (rewrite F; left; reflexivity).
      apply List.filter_In in Hp as [Hp1 Hp2].
      apply bool_decide_eq_true in Hp2. exists info, p. auto.
    + intros (info' & p & Hi & Hp & Hn). inversion Hi; subst info'.
      assert (Hf : In p (List.filter
                  (fun p => bool_decide (extracted_parameters s !! p = None))
                  (params info))).
      { apply List.filter_In. split; [exact Hp|].
        apply bool_decide_eq_true. exact Hn. }
      destruct (List.filter _ (params info)); [destruct Hf|reflexivity].
  - split; [discriminate|]. intros (info & p & Hi & _). discriminate.
Qed.

Lemma needs_stage_false (s : WorkflowState) (st : str) :
  needs_stage s st = false -> ~ incomplete s st.
Proof.
  intros H Hi. apply needs_stage_spec in Hi. congruence.
Qed.

(** X17.  From a stage of the list, [get_next_collection_stage] returns
    the first later stage of the list that lacks one of its parameters:
    the stage returned is later, some parameter of it is not among the
    extracted ones, and every stage between the current and the returned
    one has all of its parameters; it returns none exactly when every
    later stage has all of its parameters. *)
Theorem X17_next_stage_is_the_first_incomplete_one (s : WorkflowState) :
  In (parameter_collection_stage s) stage_order ->
  match get_next_collection_stage s with
  | Some next =>
    In next stage_order
    /\ (rank (parameter_collection_stage s) < rank next)%nat
    /\ incomplete s next
    /\ forall st,
         In st stage_order ->
         (rank (parameter_collection_stage s) < rank st < rank next)%nat ->
         ~ incomplete s st
  | None =>
    forall st,
      In st stage_order ->
      (rank (parameter_collection_stage s) < rank st)%nat ->
      ~ incomplete s st
  end.
Proof.
  intros Hin.
  unfold get_next_collection_stage, get_current_collection_stage.
  apply in_order_cases in Hin.
  destruct Hin as [H|[H|[H|[H|H]]]]; rewrite H; names;
    cbn [option_map skipn stage_order List.find];
    repeat match goal with
    | |- context [if needs_stage s ?x then _ else _] =>
      let N := fresh "N" in destruct (needs_stage s x) eqn:N
    end;
    repeat match goal with
    | |- _ /\ _ => split
    | |- In _ stage_order => simpl; auto 10
    | |- incomplete _ _ => apply needs_stage_spec; assumption
    | |- (_ < _)%nat => vm_compute; lia
    end;
    intros st Hst Hr; apply in_order_cases in Hst;
    destruct Hst as [-> |[-> |[-> |[-> | ->]]]];
    try (apply needs_stage_false; assumption);
    exfalso; vm_compute in Hr; lia.
Qed.

(** From [time], with the area known and no coverage range. *)
Lemma X17_next_stage_is_the_first_incomplete_one_witness :
  let s :=
    with_extracted_parameters {[ u "observation_area" := u "青海湖" ]}
      (with_parameter_collection_stage (u "time") initial) in
  In (parameter_collection_stage s) stage_order
  /\ get_next_collection_stage s = Some (u "location_range")
  /\ ~ incomplete s (u "location_area").
Proof.
  intros s.
  assert (Hin : In (parameter_collection_stage s) stage_order)
    by (right; left; reflexivity).
  pose proof (X17_next_stage_is_the_first_incomplete_one s Hin) as H.
  assert (E : get_next_collection_stage s = Some (u "location_range"))
    by (vm_compute; reflexivity).
  rewrite E in H. destruct H as (_ & _ & _ & H).
  split; [exact Hin|]. split; [exact E|].
  apply H; [simpl; auto|]. vm_compute. lia.
Defined.

Lemma fold_defaults_lookup (d : gmap str str) (keys : list str)
    (m : gmap str str) (k : str) :
  fold_left
    (fun params param_key =>
       match params !! param_key, d !! param_key with
       | None, Some v => <[ param_key := v ]> params
       | _, _ => params
       end) keys m !! k
  = match m !! k with
    | Some v => Some v
    | None => if mem k keys then d !! k else None
    end.
Proof.
  revert m. induction keys as [|key rest IH]; intros m.
  - simpl. destruct (m !! k); reflexivity.
  - cbn [fold_left]. rewrite IH. unfold mem. cbn [existsb]. fold (mem k rest).
    destruct (decide (k = key)) as [->|Hne].
    + rewrite str_eqb_refl. cbn [orb].
      destruct (m !! key) eqn:Em; [rewrite Em; reflexivity|].
      destruct (d !! key) eqn:Ed.
      * rewrite lookup_insert_eq. reflexivity.
      * rewrite Em. destruct (mem key rest); reflexivity.
    + assert (Eq : eqb k key = false) by (apply str_eqb_neq; exact Hne).
      rewrite Eq. cbn [orb].
      assert (El : (match m !! key, d !! key with
                    | None, Some v => <[ key := v ]> m
                    | _, _ => m
                    end) !! k = m !! k).
      { destruct (m !! key); [reflexivity|].
        destruct (d !! key); [|reflexivity].
        apply lookup_insert_ne. intros X. apply Hne. symmetry. exact X. }
      rewrite El. reflexivity.
Qed.

(** What [apply_smart_defaults] leaves under each key. *)
Lemma apply_smart_defaults_lookup (e : env) (params : gmap str str)
    (k : str) :
  apply_smart_defaults e params !! k
  = match params !! k with
    | Some v => Some v
    | None =>
      if eqb k (u "coverage_range")
      then option_map default_coverage (params !! u "observation_area")
      else if mem k defaulted_keys
           then defaults_for e (default [] (params !! u "monitoring_target"))
                !! k
           else None
    end.
Proof.
  unfold apply_smart_defaults.
  change (match List.find _ (smart_defaults e) with
          | Some (_, target_defaults) => target_defaults
          | None => default ∅ (assoc (u "default") (smart_defaults e))
          end)
    with (defaults_for e (default [] (params !! u "monitoring_target"))).
  change [u "spatial_resolution"; u "spectral_bands";
          u "analysis_requirements"; u "accuracy_requirements";
          u "time_criticality"; u "weather_dependency"; u "output_format"]
    with defaulted_keys.
  rewrite fold_defaults_lookup.
  destruct (decide (k = u "coverage_range")) as [->|Hne].
  - change (eqb (u "coverage_range") (u "coverage_range")) with true.
    change (mem (u "coverage_range") defaulted_keys) with false.
    cbv iota.
    destruct (params !! u "coverage_range") eqn:Ec.
    + rewrite Ec. reflexivity.
    + destruct (params !! u "observation_area") eqn:Ea.
      * rewrite lookup_insert_eq. reflexivity.
      * rewrite Ec. reflexivity.
  - assert (Eq : eqb k (u "coverage_range") = false)
      by (apply str_eqb_neq; exact Hne).
    rewrite Eq.
    assert (El : (match params !! u "coverage_range",
                        params !! u "observation_area" with
                  | None, Some area =>
                    <[ u "coverage_range" := default_coverage area ]> params
                  | _, _ => params
                  end) !! k = params !! k).
    { destruct (params !! u "coverage_range"); [reflexivity|].
      destruct (params !! u "observation_area"); [|reflexivity].
      apply lookup_insert_ne. intros X. apply Hne. symmetry. exact X. }
    rewrite El. reflexivity.
Qed.

(** X18.  [apply_smart_defaults] only fills gaps.  Every parameter that
    is there keeps its value; the keys it adds are among
    ["coverage_range"] and the seven technical parameters it knows; a
    missing ["coverage_range"] is derived from the observation area when
    there is one; a missing technical parameter gets the default the
    configuration has for the monitoring target, if it has one; and a
    second application changes nothing. *)
Theorem X18_smart_defaults_only_fill_gaps
    (e : env) (params : gmap str str) :
  let result := apply_smart_defaults e params in
  (forall k v, params !! k = Some v -> result !! k = Some v)
  /\ (forall k, params !! k = None -> is_Some (result !! k) ->
                In k (u "coverage_range" :: defaulted_keys))
  /\ (params !! u "coverage_range" = None ->
      result !! u "coverage_range"
      = option_map default_coverage (params !! u "observation_area"))
  /\ (forall k, In k defaulted_keys -> params !! k = None ->
                result !! k
                = defaults_for e
                    (default [] (params !! u "monitoring_target")) !! k)
  /\ apply_smart_defaults e result = result.
Proof.
  intros result.
  assert (Hmem : forall k, mem k defaulted_keys = true <-> In k defaulted_keys).
  { intros k. unfold mem. rewrite existsb_exists. split.
    - intros (x & Hx & E). apply str_eqb_eq in E. subst x. exact Hx.
    - intros H. exists k. split; [exact H|apply str_eqb_refl]. }
  split; [|split; [|split; [|split]]].
  - intros k v H. unfold result. rewrite apply_smart_defaults_lookup, H.
    reflexivity.
  - intros k H. unfold result. rewrite apply_smart_defaults_lookup, H.
    destruct (eqb k (u "coverage_range")) eqn:E.
    + intros _. left. apply str_eqb_eq in E. symmetry. exact E.
    + destruct (mem k defaulted_keys) eqn:M.
      * intros _. right. apply Hmem, M.
      * intros [x X]. discriminate.
  - intros H. unfold result. rewrite apply_smart_defaults_lookup, H.
    reflexivity.
  - intros k Hk H. unfold result. rewrite apply_smart_defaults_lookup, H.
    assert (E : eqb k (u "coverage_range") = false).
    { apply str_eqb_neq. intros ->. vm_compute in Hk.
      repeat destruct Hk as [Hk|Hk]; try discriminate; exact Hk. }
    rewrite E. apply Hmem in Hk. rewrite Hk. reflexivity.
  - apply map_eq. intros k.
    rewrite apply_smart_defaults_lookup.
    assert (Ht : result !! u "monitoring_target"
                 = params !! u "monitoring_target").
    { unfold result. rewrite apply_smart_defaults_lookup.
      destruct (params !! u "monitoring_target"); reflexivity. }
    assert (Ha : result !! u "observation_area"
                 = params !! u "observation_area").
    { unfold result. rewrite apply_smart_defaults_lookup.
      destruct (params !! u "observation_area"); reflexivity. }
    rewrite Ht, Ha.
    destruct (result !! k) eqn:Er; [reflexivity|].
    unfold result in Er. rewrite apply_smart_defaults_lookup in Er.
    destruct (params !! k); [discriminate|]. exact Er.
Qed.

Lemma mem_In (x : str) (l : list str) : mem x l = true <-> In x l.
Proof.
  unfold mem. rewrite existsb_exists. split.
  - intros (y & Hy & E). apply str_eqb_eq in E. subst y. exact Hy.
  - intros H. exists x. split; [exact H|apply str_eqb_refl].
Qed.

Lemma NoDup_firstn (n : nat) (l : list str) :
  List.NoDup l -> List.NoDup (firstn n l).
Proof.
  intros H. rewrite <- (firstn_skipn n l) in H.
  exact (NoDup_app_remove_r _ _ H).
Qed.

Lemma NoDup_snoc (l : list str) (x : str) :
  List.NoDup l -> ~ In x l -> List.NoDup (l ++ [x]).
Proof.
  intros H Hx. apply List.NoDup_app; [exact H| |].
  - constructor; [intros []|constructor].
  - intros y Hy [<-|[]]. contradiction.
Qed.

Lemma technical_params_nodup (monitoring_target : str)
    (existing_params : gmap str str) :
  List.NoDup (_get_relevant_technical_params_for_stage monitoring_target
                                                        existing_params)
  /\ Forall (fun p => existing_params !! p = None)
            (_get_relevant_technical_params_for_stage monitoring_target
                                                      existing_params).
Proof.
  unfold _get_relevant_technical_params_for_stage. split.
  - apply List.NoDup_filter.
    assert (Hbase : List.NoDup [u "spatial_resolution";
                                u "analysis_requirements"; u "output_format"]).
    { repeat constructor; simpl; intros H;
        repeat destruct H as [H|H]; try discriminate; exact H. }
    destruct (List.find _ target_specific_params) as [[kw specific]|];
      [|exact Hbase].
    revert Hbase.
    generalize [u "spatial_resolution"; u "analysis_requirements";
                u "output_format"].
    induction specific as [|p rest IH]; intros sel Hsel; [exact Hsel|].
    cbn [fold_left]. apply IH.
    destruct (mem p sel) eqn:M; cbn [negb andb]; [exact Hsel|].
    destruct (absent_in existing_params p); [|exact Hsel].
    apply NoDup_snoc; [exact Hsel|].
    intros Hin. apply mem_In in Hin. congruence.
  - apply List.Forall_forall. intros p Hp. apply List.filter_In in Hp as [_ Hp].
    unfold absent_in in Hp. apply bool_decide_eq_true in Hp. exact Hp.
Qed.

Lemma stage_params_nodup (st : str) (info : stage_info) :
  stage_entry st = Some info ->
  List.NoDup (params info) /\ (List.length (params info) <= 5)%nat
  /\ (st <> u "technical" -> (List.length (params info) <= 2)%nat).
Proof.
  intros H. pose proof (stage_entry_Some _ _ H) as Hin.
  apply in_order_cases in Hin.
  destruct Hin as [-> |[-> |[-> |[-> | ->]]]];
    vm_compute in H; inversion H; subst info; cbn [params];
    (split; [|split; [simpl; lia|intros Hne; try (simpl; lia)]]);
    try (exfalso; apply Hne; reflexivity);
    repeat constructor; simpl; intros X;
    repeat destruct X as [X|X]; try discriminate; exact X.
Qed.

(** X16.  The questions of a stage.  [generate_stage_questions] raises
    the [KeyError] exactly for a stage that is not in
    [COLLECTION_STAGES].  Otherwise the questions it returns have
    distinct keys, all configured; each carries the stage, the retry
    count of the stage, and is required unless the stage is
    [technical].  Outside [technical] the keys are parameters of the
    stage: the missing ones on a first asking, and on a retry with
    uncertainty results the ones the results mark as needing
    clarification.  In [technical] there are at most four, none of them
    already extracted. *)
Theorem X16_questions_of_a_stage
    (e : env) (s : WorkflowState) (st : str) (results : gmap str uresult) :
  match generate_stage_questions e s st results with
  | None => stage_entry st = None
  | Some questions =>
    exists info,
      stage_entry st = Some info
      /\ List.NoDup (pending_keys questions)
      /\ Forall (fun q =>
                   Parser.stage q = st
                   /\ retry_count q = retries st s
                   /\ required q = negb (eqb st (u "technical"))
                   /\ is_Some (param_config e (parameter_key q)))
                questions
      /\ (st <> u "technical" ->
          (List.length questions <= 2)%nat
          /\ Forall (fun q => In (parameter_key q) (params info)) questions
          /\ (retries st s <= 0 \/ results = ∅ ->
              Forall (fun q =>
                        extracted_parameters s !! parameter_key q = None)
                     questions)
          /\ (0 < retries st s -> results <> ∅ ->
              Forall (fun q =>
                        exists r, results !! parameter_key q = Some r
                                  /\ needs_clarification r = true)
                     questions))
      /\ (st = u "technical" ->
          (List.length questions <= 4)%nat
          /\ Forall (fun q =>
                       extracted_parameters s !! parameter_key q = None)
                    questions)
  end.
Proof.
  destruct (generate_stage_questions e s st results) as [questions|] eqn:Hg.
  2:{ unfold generate_stage_questions in Hg.
      destruct (stage_entry st); [discriminate|reflexivity]. }
  destruct (generate_stage_questions_fields _ _ _ _ _ Hg)
    as (info & Hinfo & Hkeys & Hf).
  destruct (stage_params_nodup st info Hinfo) as (Hnd & _ & Hlen).
  exists info. split; [exact Hinfo|].
  assert (Hsub : forall P : str -> Prop,
             Forall P (params_to_collect s st info results) ->
             Forall (fun q => P (parameter_key q)) questions).
  { intros P HP. apply (proj1 (Forall_map parameter_key P questions)).
    rewrite Hkeys.
    apply List.Forall_forall. intros k Hk. apply List.filter_In in Hk as [Hk _].
    rewrite List.Forall_forall in HP. apply HP, Hk. }
  assert (Hlenq : (List.length questions
                   <= List.length (params_to_collect s st info results))%nat).
  { rewrite <- (List.length_map parameter_key questions), Hkeys.
    apply List.filter_length_le. }
  split; [|split; [|split]].
  - unfold pending_keys. rewrite Hkeys. apply List.NoDup_filter.
    unfold params_to_collect. destruct (eqb st (u "technical")).
    + apply NoDup_firstn, technical_params_nodup.
    + apply List.NoDup_filter, Hnd.
  - assert (Hq : Forall (fun q => is_Some (param_config e (parameter_key q)))
                        questions).
    { apply (proj1 (Forall_map parameter_key
                      (fun k => is_Some (param_config e k)) questions)).
      rewrite Hkeys. apply List.Forall_forall. intros k Hk.
      apply List.filter_In in Hk as [_ Hk]. apply bool_decide_eq_true in Hk.
      destruct (param_config e k); [eauto|contradiction]. }
    apply List.Forall_forall. intros q Hin.
    rewrite List.Forall_forall in Hf, Hq.
    destruct (Hf q Hin) as (H1 & H2 & H3 & _).
    split; [exact H1|]. split; [exact H2|]. split; [exact H3|].
    exact (Hq q Hin).
  - intros Hne. apply str_eqb_neq in Hne.
    unfold params_to_collect in Hsub, Hlenq. rewrite Hne in Hsub, Hlenq.
    split; [|split; [|split]].
    + pose proof (List.filter_length_le
                    (fun param_key =>
                       if (0 <? retries st s)
                          && negb (bool_decide (results = ∅))
                       then match results !! param_key with
                            | Some r => needs_clarification r
                            | None => false
                            end
                       else absent_in (extracted_parameters s) param_key)
                    (params info)) as L.
      apply str_eqb_neq in Hne. specialize (Hlen Hne). lia.
    + apply (Hsub (fun k => In k (params info))).
      apply List.Forall_forall. intros k Hk.
      apply List.filter_In in Hk. tauto.
    + intros Hfirst.
      apply (Hsub (fun k => extracted_parameters s !! k = None)).
      apply List.Forall_forall. intros k Hk.
      apply List.filter_In in Hk as [_ Hk].
      assert (Ec : (0 <? retries st s) && negb (bool_decide (results = ∅))
                   = false).
      { destruct Hfirst as [Hr| ->].
        - apply Z.ltb_ge in Hr. rewrite Hr. reflexivity.
        - rewrite bool_decide_eq_true_2 by reflexivity. apply andb_false_r. }
      rewrite Ec in Hk. unfold absent_in in Hk.
      apply bool_decide_eq_true in Hk. exact Hk.
    + intros Hr Hres.
      apply (Hsub (fun k => exists r, results !! k = Some r
                                      /\ needs_clarification r = true)).
      apply List.Forall_forall. intros k Hk.
      apply List.filter_In in Hk as [_ Hk].
      apply Z.ltb_lt in Hr. rewrite Hr in Hk.
      rewrite bool_decide_eq_false_2 in Hk by exact Hres. cbn [negb andb] in Hk.
      destruct (results !! k) as [r|]; [|discriminate]. exists r. auto.
  - intros ->. unfold params_to_collect in Hsub, Hlenq.
    change (eqb (u "technical") (u "technical")) with true in Hsub, Hlenq.
    cbv iota in Hsub, Hlenq. split.
    + pose proof (List.firstn_le_length 4
                    (_get_relevant_technical_params_for_stage
                       (default [] (extracted_parameters s
                                    !! u "monitoring_target"))
                       (extracted_parameters s))) as L.
      lia.
    + apply (Hsub (fun k => extracted_parameters s !! k = None)).
      apply Forall_take. apply technical_params_nodup.
Qed.

Lemma process_turn (e : env) (callback : bool) (s2 : WorkflowState) :
  known_stage (parameter_collection_stage s2) = true ->
  awaiting_clarification s2 = false ->
  exists s',
    process_staged_parameter_clarification e callback s2 = Some (Ok s')
    /\ ((parameter_collection_stage s' = u "completed"
         /\ awaiting_clarification s' = false)
        \/ (awaiting_clarification s' = true
            /\ pending_questions s' <> []
            /\ In (parameter_collection_stage s') stage_order
            /\ Stage.current_stage s' = u "parameter_clarification")).
Proof.
  intros K Hw.
  destruct (eqb (parameter_collection_stage s2) (u "completed")) eqn:Ec.
  - apply str_eqb_eq in Ec. exists s2.
    split; [apply process_completed, Ec|]. left. auto.
  - apply str_eqb_neq in Ec.
    destruct (process_returns e callback s2 K) as (s' & E & _).
    exists s'. split; [exact E|].
    destruct (process_ended e callback 8 s2 s2 (Ok s') (steady_refl s2)
                (retries_kept_refl s2) Ec E) as [_ [Hc|Ha]].
    + left. destruct Hc as (H1 & _ & _ & H2 & _).
      split; [exact H1|]. rewrite H2. exact Hw.
    + right. destruct Ha as (qs & rc & res & H1 & H2 & H3 & _ & H5 & H6 & _).
      split; [exact H5|]. split; [rewrite H3; exact H2|].
      split; [exact H1|exact H6].
Qed.

Lemma after_turn_ended (b : bool) (s s' : WorkflowState) :
  (parameter_collection_stage s' = u "completed"
   /\ awaiting_clarification s' = false)
  \/ (awaiting_clarification s' = true
      /\ pending_questions s' <> []
      /\ In (parameter_collection_stage s') stage_order
      /\ Stage.current_stage s' = u "parameter_clarification") ->
  turn_ended s (Ok (after_turn b s')).
Proof.
  intros [[Hc Hw]|(Hw & Hp & Hin & Hcs)]; unfold after_turn, turn_ended,
    get_current_collection_stage.
  - left. rewrite Hc, Hw. names.
    destruct b; (split; [exact Hc|split; [reflexivity|exact Hw]]).
  - right. rewrite Hw.
    assert (En : eqb (parameter_collection_stage s') (u "completed") = false)
      by (apply str_eqb_neq, in_order_not_completed, Hin).
    rewrite En.
    destruct b; (split; [exact Hw|split; [exact Hp|split; [exact Hin|]]]).
    + right. exact Hcs.
    + left. reflexivity.
Qed.

(** X20.  A turn never ends silently.  When a turn of the clarification
    handler starts in a known stage, and in a state that waits for an
    answer only with questions pending and in a stage of the list, then
    it returns or raises, and: if it returns, either the collection is
    closed, the waiting flag is off and the workflow stage is
    ["retrieve_knowledge"], or the user is asked (the waiting flag is on,
    questions are pending, the collection is in a stage of the list); if
    it raises, it is the [AttributeError] of a skip answer, the waiting
    flag and the pending questions are cleared and the collection stage
    is unchanged.  The state it leaves waits for an answer only with
    questions pending. *)
Theorem X20_a_turn_asks_closes_or_raises (t : turn) (s : WorkflowState) :
  known_stage (parameter_collection_stage s) = true ->
  waiting_well s ->
  exists r,
    take_turn t s = Some r /\ turn_ended s r /\ waiting_well (state_of r).
Proof.
  intros K Hwell.
  assert (Hww : forall r, turn_ended s r -> waiting_well (state_of r)).
  { intros [s'|err s']; simpl.
    - intros [(_ & _ & Hw)|(_ & Hp & Hin & _)] Ht; [congruence|auto].
    - intros (_ & Hw & _) Ht. congruence. }
  cut (exists r, take_turn t s = Some r /\ turn_ended s r).
  { intros (r & E & H). exists r. auto. }
  destruct t as [e callback text].
  unfold take_turn, handle_parameter_clarification. cbn [turn_env turn_callback user_text].
  set (s0 := add_message (u "user") text s).
  assert (Hlast : last_of (user_messages s0) = Some (Message (u "user") text)).
  { unfold last_of, user_messages, s0, add_message. simpl.
    rewrite List.filter_app. simpl.
    change (eqb (u "user") (u "user")) with true. cbv iota.
    rewrite rev_app_distr. reflexivity. }
  assert (K0 : known_stage (parameter_collection_stage s0) = true) by exact K.
  change (awaiting_clarification s0) with (awaiting_clarification s).
  destruct (awaiting_clarification s) eqn:Hw.
  - rewrite Hlast. cbn [msg_content].
    destruct (Hwell Hw) as [Hp Hin].
    destruct (stage_entry_in_order _ Hin) as [info Hinfo].
    unfold process_staged_clarification_response,
      get_current_collection_stage.
    change (awaiting_clarification s0) with (awaiting_clarification s).
    change (pending_questions s0) with (pending_questions s).
    change (parameter_collection_stage s0)
      with (parameter_collection_stage s).
    rewrite Hw, Hinfo. cbn [negb].
    destruct (pending_questions s) as [|q qs] eqn:Hq; [contradiction|].
    rewrite <- Hq.
    set (parse_result := parse_user_response _ _ _).
    set (s1 := with_pending_questions [] _).
    assert (Hgo : forall s2,
              known_stage (parameter_collection_stage s2) = true ->
              awaiting_clarification s2 = false ->
              exists r,
                lift (after_turn true)
                     (process_staged_parameter_clarification e callback s2)
                = Some r /\ turn_ended s r).
    { intros s2 K2 W2.
      destruct (process_turn e callback s2 K2 W2) as (s' & E & H).
      rewrite E. eexists. split; [reflexivity|].
      apply after_turn_ended, H. }
    destruct (skip_remaining parse_result).
    + destruct (eqb (parameter_collection_stage s) (u "technical")).
      * destruct callback; apply Hgo; reflexivity.
      * destruct (existsb _ (params info)).
        -- eexists. split; [reflexivity|]. repeat split.
        -- apply Hgo; [exact K|reflexivity].
    + destruct callback; apply Hgo; try exact K; reflexivity.
  - destruct (process_turn e callback s0 K0 Hw) as (s' & E & H).
    rewrite E. eexists. split; [reflexivity|].
    apply after_turn_ended, H.
Qed.

(** The first turn of a conversation. *)
Lemma X20_a_turn_asks_closes_or_raises_witness :
  exists r,
    take_turn (Turn Demo.strict true (u "监测青海湖水质")) initial = Some r
    /\ turn_ended initial r /\ waiting_well (state_of r).
Proof.
  apply (X20_a_turn_asks_closes_or_raises
           (Turn Demo.strict true (u "监测青海湖水质")) initial).
  - reflexivity.
  - intros H. discriminate.
Defined.
End StageMore.

(** ** The forced move past an exhausted stage *)

Section StageForced.
Import Py Parser Stage Forced.

Lemma values_kept_refl (s : WorkflowState) : values_kept s s.
Proof. intros k v H. exact H. Qed.

Lemma values_kept_same (b s s' : WorkflowState) :
  extracted_parameters s' = extracted_parameters s ->
  values_kept b s -> values_kept b s'.
Proof. intros E H k v Hk. rewrite E. exact (H k v Hk). Qed.

Lemma values_kept_defaults (e : env) (b s s' : WorkflowState) :
  extracted_parameters s'
  = apply_smart_defaults e (extracted_parameters s) ->
  values_kept b s -> values_kept b s'.
Proof.
  intros E H k v Hk. rewrite E, apply_smart_defaults_lookup.
  rewrite (H k v Hk). reflexivity.
Qed.

Lemma is_new_requirement_same (e : env) (s s' : WorkflowState) :
  messages s' = messages s ->
  awaiting_clarification s' = awaiting_clarification s ->
  _is_new_requirement e s' = _is_new_requirement e s.
Proof.
  intros Em Ea. unfold _is_new_requirement, user_messages.
  rewrite Em, Ea. reflexivity.
Qed.

Lemma same_requirement_same (e : env) (s s' : WorkflowState) :
  messages s' = messages s ->
  awaiting_clarification s' = awaiting_clarification s ->
  clarification_completed s' = clarification_completed s ->
  same_requirement e s -> same_requirement e s'.
Proof.
  intros Em Ea Ec H. unfold same_requirement.
  rewrite Ec, (is_new_requirement_same e s s' Em Ea). exact H.
Qed.

Lemma same_requirement_enter (e : env) (callback : bool) (s : WorkflowState) :
  same_requirement e s -> same_requirement e (enter callback s).
Proof.
  apply same_requirement_same; unfold enter;
    destruct (eqb _ _); try reflexivity; destruct callback; reflexivity.
Qed.

Lemma enter_params (callback : bool) (s : WorkflowState) :
  extracted_parameters (enter callback s) = extracted_parameters s.
Proof.
  unfold enter. destruct (eqb _ _); [|reflexivity].
  destruct callback; reflexivity.
Qed.

Lemma prepare_kept (e : env) (b s : WorkflowState) :
  values_kept b s -> same_requirement e s ->
  values_kept b (snd (prepare e s)) /\ same_requirement e (snd (prepare e s)).
Proof.
  intros Hk Hs. unfold prepare.
  destruct (bool_decide_reflect (extracted_parameters s = ∅)) as [He|He];
    [|split; assumption].
  destruct (eqb (get_current_collection_stage s) (u "purpose"));
    [|split; assumption].
  cbn [andb].
  assert (Hnone : forall s', values_kept b s').
  { intros s' k v Hb. apply Hk in Hb. rewrite He, lookup_empty in Hb.
    discriminate. }
  unfold extract_existing_parameters.
  destruct (awaiting_clarification s) eqn:Ea.
  - split; [apply Hnone|]. cbn [snd].
    apply (same_requirement_same e s); try reflexivity. exact Hs.
  - destruct (_is_new_requirement e s) eqn:En; cbn [snd].
    + split; [apply Hnone|]. reflexivity.
    + split; [apply Hnone|].
      apply (same_requirement_same e s); try reflexivity. exact Hs.
Qed.

Section Recursion.
Variables (again : WorkflowState -> option result).
Variables (e : env) (callback : bool).
Hypothesis again_kept :
  forall b s r,
    values_kept b s -> same_requirement e s ->
    again s = Some r -> values_kept b (state_of r).

Lemma continue_with_kept (b s : WorkflowState) (current : str) (rc : Z)
    (results : gmap str uresult) (r : result) :
  values_kept b s -> same_requirement e s ->
  continue_with again e callback s current rc results = Some r ->
  values_kept b (state_of r).
Proof.
  intros Hk Hs. unfold continue_with.
  destruct (generate_stage_questions e s current results) as [[|q qs]|].
  - destruct (get_next_collection_stage s) as [next|].
    + apply again_kept.
      * exact (values_kept_same b s _ eq_refl Hk).
      * apply (same_requirement_same e s); try reflexivity. exact Hs.
    + intros H. inversion H; subst r.
      exact (values_kept_same b s _ eq_refl Hk).
  - intros H. inversion H; subst r.
    apply (values_kept_same b s); [|exact Hk].
    unfold ask, emit, add_message. destruct callback; reflexivity.
  - intros H. inversion H; subst r. exact Hk.
Qed.

Lemma main_path_kept (b s2 : WorkflowState) (r : result) :
  values_kept b s2 -> same_requirement e s2 ->
  main_path again e callback s2 = Some r ->
  values_kept b (state_of r).
Proof.
  intros Hk Hs. unfold main_path.
  destruct (prepare_kept e b s2 Hk Hs) as [Hk3 Hs3].
  pose proof (prepare_params e s2) as Hpp.
  destruct (prepare e s2) as [existing s3]. cbn [fst snd] in *.
  destruct (check_stage_uncertainty e s3 _) as [results|];
    [|intros H; inversion H; subst r; exact Hk3].
  destruct (wants_retry results _ _).
  - apply continue_with_kept.
    + exact (values_kept_same b s3 _ eq_refl Hk3).
    + apply (same_requirement_same e s3); try reflexivity. exact Hs3.
  - destruct (get_next_collection_stage s3) as [next|].
    + apply continue_with_kept.
      * exact (values_kept_same b s3 _ eq_refl Hk3).
      * apply (same_requirement_same e s3); try reflexivity. exact Hs3.
    + intros H. inversion H; subst r.
      apply (values_kept_defaults e b s3); [|exact Hk3].
      rewrite <- Hpp. unfold complete_collection.
      destruct callback; reflexivity.
Qed.

End Recursion.

(** However deep the self-calls go, a call made in a state that is not
    taken for a new requirement keeps every value extracted so far. *)
Lemma process_kept (e : env) (callback : bool) (fuel : nat) :
  forall b s r,
    values_kept b s -> same_requirement e s ->
    process_fuel fuel e callback s = Some r -> values_kept b (state_of r).
Proof.
  induction fuel as [|fuel IH]; intros b s r Hk Hs; [discriminate|].
  rewrite process_fuel_S. cbv zeta.
  assert (Hk1 : values_kept b (enter callback s))
    by exact (values_kept_same b s _ (enter_params callback s) Hk).
  pose proof (same_requirement_enter e callback s Hs) as Hs1.
  set (s1 := enter callback s) in *.
  destruct (eqb (get_current_collection_stage s1) (u "completed")).
  { intros H. inversion H; subst r. exact Hk1. }
  pose proof (should_skip_same e s1 Hs1) as Hsame.
  destruct (should_skip_clarification e s1) as [skip s2]. cbn [snd] in Hsame.
  subst s2. destruct skip.
  - assert (Hdone : values_kept b (skip_collection e s1)).
    { apply (values_kept_defaults e b s1); [reflexivity|exact Hk1]. }
    destruct (has_all_stages s1);
      [intros H; inversion H; subst r; exact Hdone|].
    destruct (get_next_collection_stage s1) as [next|];
      [|intros H; inversion H; subst r; exact Hdone].
    apply IH.
    + exact (values_kept_same b s1 _ eq_refl Hk1).
    + apply (same_requirement_same e s1); try reflexivity. exact Hs1.
  - apply (main_path_kept (process_fuel fuel e callback) e callback);
      [|exact Hk1|exact Hs1].
    intros b' s' r'. apply IH.
Qed.




End StageForced.

(** ** The structural calculators and the custom input *)

Section CalcMore.
Import Py Calc.
Local Open Scope Q_scope.

Lemma rstrip_keeps (v : str) (a : N) :
  isspace a = false -> rstrip (v ++ [a]) = v ++ [a].
Proof.
  intros Ha. unfold rstrip. rewrite rev_app_distr. simpl. rewrite Ha.
  simpl. rewrite rev_involutive. reflexivity.
Qed.

Lemma lstrip_keeps_two (v : str) (a b : N) :
  isspace a = false ->
  exists w, lstrip (v ++ [a; b]) = w ++ [a; b].
Proof.
  intros Ha. induction v as [|c v IH].
  - exists []. simpl. rewrite Ha. reflexivity.
  - simpl. destruct (isspace c).
    + exact IH.
    + exists (c :: v). reflexivity.
Qed.

Lemma strip_keeps_two (v : str) (a b : N) :
  isspace a = false -> isspace b = false ->
  exists w, strip (v ++ [a; b]) = w ++ [a; b].
Proof.
  intros Ha Hb. unfold strip.
  change (v ++ [a; b]) with (v ++ [a] ++ [b]).
  rewrite app_assoc, (rstrip_keeps _ b Hb), <- app_assoc.
  apply lstrip_keeps_two. exact Ha.
Qed.

Lemma long_enough (v : str) :
  (len (strip (v ++ u "监测")) <? 2)%Z = false
  /\ truthy (v ++ u "监测") = true.
Proof.
  split.
  - destruct (strip_keeps_two v 30417%N 27979%N eq_refl eq_refl) as [w E].
    change (u "监测") with [30417%N; 27979%N]. rewrite E.
    unfold len. rewrite length_app. simpl. apply Z.ltb_ge. lia.
  - destruct v; reflexivity.
Qed.

Lemma find_first {A} (f : A -> bool) (x : A) (l : list A) :
  f x = true -> List.find f (x :: l) = Some x.
Proof. intros H. simpl. rewrite H. reflexivity. Qed.

Lemma find_in_prefix {A} (f : A -> bool) (n : nat) (l : list A) (y : A) :
  nth_error l n = Some y -> f y = true ->
  exists x, List.find f l = Some x /\ In x (firstn (S n) l).
Proof.
  revert l. induction n as [|n IH]; intros l Hn Hy.
  - destruct l as [|x l]; [discriminate|]. inversion Hn; subst.
    exists y. simpl. rewrite Hy. split; [reflexivity|left; reflexivity].
  - destruct l as [|x l]; [discriminate|]. simpl in Hn.
    destruct (f x) eqn:Hx.
    + exists x. simpl. rewrite Hx. split; [reflexivity|left; reflexivity].
    + destruct (IH l Hn Hy) as (z & Hz & Hin). exists z.
      simpl List.find. rewrite Hx. split; [exact Hz|].
      right. exact Hin.
Qed.

(** X21.  [validate_custom_input] never refuses an input.  It raises
    the [AttributeError] exactly when the stripped input has fewer than
    two characters or the parameter is ["observation_area"]; whenever it
    returns, ["valid"] is [True] and the confidence is 0.7, 0.8 or 0.9.
    For a monitoring target the value returned holds one of the six
    monitoring words and is accepted as it is when handed in again; for
    a parameter other than the target and the frequency the value
    returned is the input. *)
Theorem X21_custom_input_is_never_refused
    (e : env) (param_key custom_value : str) :
  (validate_custom_input e param_key custom_value = RaisesAttributeError
   <-> (len (strip custom_value) < 2)%Z \/ param_key = u "observation_area")
  /\ (forall valid normalized_value confidence,
        validate_custom_input e param_key custom_value
        = Returns valid normalized_value confidence ->
        valid = true
        /\ In confidence [7 # 10; 8 # 10; 9 # 10]
        /\ (param_key = u "monitoring_target" ->
            existsb (fun keyword => contains keyword normalized_value)
                    monitoring_keywords = true
            /\ validate_custom_input e param_key normalized_value
               = Returns true normalized_value (7 # 10))
        /\ (param_key <> u "monitoring_target" ->
            param_key <> u "observation_frequency" ->
            normalized_value = custom_value)).
Proof.
  assert (Hshort :
    negb (truthy custom_value) || (len (strip custom_value) <? 2)%Z
    = (len (strip custom_value) <? 2)%Z).
  { destruct custom_value; reflexivity. }
  unfold validate_custom_input at 1 2. rewrite Hshort.
  destruct (Z.ltb_spec (len (strip custom_value)) 2) as [Hlt|Hge].
  { split; [split; [intros _; left; exact Hlt|reflexivity]|].
    intros valid nv c H. discriminate. }
  assert (Hnot : truthy custom_value = true).
  { destruct custom_value; [|reflexivity]. unfold len in Hge. simpl in Hge. lia. }
  unfold eqb.
  destruct (bool_decide_reflect (param_key = u "monitoring_target")) as [->|Ht].
  { destruct (existsb _ monitoring_keywords) eqn:Hk; cbn [negb].
    - split.
      + split; [discriminate|]. intros [H|H]; [lia|discriminate].
      + intros valid nv c H. inversion H; subst.
        split; [reflexivity|]. split; [left; reflexivity|].
        split; [|congruence]. intros _. split; [exact Hk|].
        unfold validate_custom_input. rewrite Hnot.
        destruct (Z.ltb_spec (len (strip nv)) 2) as [?|_]; [lia|].
        cbn [negb orb]. unfold eqb. rewrite bool_decide_eq_true_2 by reflexivity.
        rewrite Hk. reflexivity.
    - split.
      + split; [discriminate|]. intros [H|H]; [lia|discriminate].
      + intros valid nv c H. inversion H; subst.
        split; [reflexivity|]. split; [right; left; reflexivity|].
        split; [|congruence]. intros _.
        assert (Hk' :
          existsb (fun keyword => contains keyword (custom_value ++ u "监测"))
                  monitoring_keywords = true).
        { unfold monitoring_keywords. cbn [existsb].
          rewrite (contains_app_r (u "监测") custom_value (u "监测")
                     (contains_self _)). reflexivity. }
        split; [exact Hk'|].
        unfold validate_custom_input.
        destruct (long_enough custom_value) as [Hl Hn].
        rewrite Hl, Hn. cbn [negb orb].
        unfold eqb. rewrite bool_decide_eq_true_2 by reflexivity.
        rewrite Hk'. reflexivity. }
  destruct (bool_decide_reflect (param_key = u "observation_frequency"))
    as [->|Hf].
  { split.
    - split; [|intros [H|H]; [lia|discriminate]].
      destruct (_normalize_frequency_expression e custom_value) as [n|];
        [destruct (truthy n)|]; discriminate.
    - intros valid nv c H.
      assert (Hc : valid = true /\ In c [7 # 10; 8 # 10; 9 # 10]).
      { destruct (_normalize_frequency_expression e custom_value) as [n|];
          [destruct (truthy n)|]; injection H as <- <- <-;
          (split; [reflexivity|]);
          first [left; reflexivity|right; right; left; reflexivity]. }
      destruct Hc as [Hv Hc]. split; [exact Hv|]. split; [exact Hc|].
      split; [discriminate|]. intros _ Hx. congruence. }
  destruct (bool_decide_reflect (param_key = u "observation_area")) as [->|Ha].
  { split; [split; [intros _; right; reflexivity|reflexivity]|].
    intros valid nv c H. discriminate. }
  split.
  - split; [discriminate|]. intros [H|H]; [lia|congruence].
  - intros valid nv c H. inversion H; subst.
    split; [reflexivity|]. split; [left; reflexivity|].
    split; [congruence|]. reflexivity.
Qed.

(** X22.  [_normalize_frequency_expression] returns the value of the
    first entry of its table, in the order written, whose key occurs in
    the lower-cased expression, and looks at the patterns only when no
    key occurs.  So an expression that holds "每天" comes out as "每天1次"
    whatever count it states, and the entry "准实时" is never used: an
    expression that holds it holds "实时", which stands before it. *)
Theorem X22_first_listed_phrase_wins (e : env) (expr : str) :
  (contains (u "每天") (lower e expr) = true ->
   _normalize_frequency_expression e expr = Some (u "每天1次"))
  /\ (contains (u "准实时") (lower e expr) = true ->
      exists key value,
        In (key, value) (firstn 11 frequency_mappings)
        /\ contains key (lower e expr) = true
        /\ _normalize_frequency_expression e expr = Some value)
  /\ (forallb (fun kv => negb (contains (fst kv) (lower e expr)))
              frequency_mappings = true ->
      _normalize_frequency_expression e expr
      = search_frequency_patterns e (lower e expr))
  /\ (contains (u "每天") (lower e expr) = true ->
      (2 <= len (strip expr))%Z ->
      validate_custom_input e (u "observation_frequency") expr
      = Returns true (u "每天1次") (9 # 10)).
Proof.
  assert (H1 : contains (u "每天") (lower e expr) = true ->
               _normalize_frequency_expression e expr = Some (u "每天1次")).
  { intros H. unfold _normalize_frequency_expression, frequency_mappings.
    rewrite find_first by exact H. reflexivity. }
  split; [exact H1|]. split; [|split].
  - intros H.
    assert (Hr : contains (u "实时") (lower e expr) = true).
    { apply (contains_trans _ (u "准实时")); [reflexivity|exact H]. }
    destruct (find_in_prefix
                (fun kv : str * str => contains (fst kv) (lower e expr))
                10 frequency_mappings (u "实时", u "每小时1次")
                eq_refl Hr) as ([key value] & Hfind & Hin).
    exists key, value. split; [exact Hin|]. split.
    + apply find_some in Hfind. exact (proj2 Hfind).
    + unfold _normalize_frequency_expression. rewrite Hfind. reflexivity.
  - intros H. unfold _normalize_frequency_expression.
    destruct (List.find _ frequency_mappings) as [[key value]|] eqn:Hfind;
      [|reflexivity].
    apply find_some in Hfind as [Hin Hc].
    rewrite forallb_forall in H. specialize (H _ Hin).
    simpl in H, Hc. rewrite Hc in H. discriminate.
  - intros H Hlen. unfold validate_custom_input.
    assert (Ht : truthy expr = true).
    { destruct expr; [unfold len in Hlen; simpl in Hlen; lia|reflexivity]. }
    rewrite Ht. destruct (Z.ltb_spec (len (strip expr)) 2) as [?|_]; [lia|].
    cbn [negb orb]. rewrite (H1 H). reflexivity.
Qed.


Lemma all_parameters_lookup (e : env) (gate : Gate.collaborators)
    (parameters : gmap str str) (k : str) :
  calculate_all_parameters_uncertainty e gate parameters !! k
  = if eqb k (u "coverage_range") then
      Some (summary (_calculate_range_uncertainty
                       e (parameters !! u "coverage_range") true))
    else if eqb k (u "observation_area") then
      Some (summary (_calculate_area_uncertainty
                       e (parameters !! u "observation_area") true))
    else if eqb k (u "monitoring_period") then
      Some (summary (_calculate_period_uncertainty
                       e (parameters !! u "monitoring_period") true))
    else if eqb k (u "observation_frequency") then
      Some (summary (_calculate_frequency_uncertainty
                       e (parameters !! u "observation_frequency") true))
    else if eqb k (u "monitoring_target") then
      option_map
        (fun target =>
           Stage.of_verdict
             (Gate.calculate_monitoring_target_uncertainty
                gate (Some target) true true))
        (parameters !! u "monitoring_target")
    else None.
Proof.
  unfold calculate_all_parameters_uncertainty, calculate_time_uncertainty,
    calculate_location_uncertainty, eqb.
  cbv beta iota zeta.
  destruct (bool_decide_reflect (k = u "coverage_range")) as [->|H1];
    [apply lookup_insert_eq|rewrite lookup_insert_ne by congruence].
  destruct (bool_decide_reflect (k = u "observation_area")) as [->|H2];
    [apply lookup_insert_eq|rewrite lookup_insert_ne by congruence].
  destruct (bool_decide_reflect (k = u "monitoring_period")) as [->|H3];
    [apply lookup_insert_eq|rewrite lookup_insert_ne by congruence].
  destruct (bool_decide_reflect (k = u "observation_frequency")) as [->|H4];
    [apply lookup_insert_eq|rewrite lookup_insert_ne by congruence].
  destruct (parameters !! u "monitoring_target") as [target|].
  - destruct (bool_decide_reflect (k = u "monitoring_target")) as [->|H5].
    + apply lookup_singleton_eq.
    + apply lookup_singleton_ne. congruence.
  - destruct (bool_decide (k = u "monitoring_target")); apply lookup_empty.
Qed.

Lemma absent_summary (e : env) (text : option str) :
  Gate.absent text = true ->
  summary (_calculate_frequency_uncertainty e text true)
  = Stage.UResult true 1
  /\ summary (_calculate_period_uncertainty e text true)
     = Stage.UResult true 1
  /\ summary (_calculate_area_uncertainty e text true)
     = Stage.UResult true 1
  /\ summary (_calculate_range_uncertainty e text true)
     = Stage.UResult true 1.
Proof.
  intros H.
  unfold _calculate_frequency_uncertainty, _calculate_period_uncertainty,
    _calculate_area_uncertainty, _calculate_range_uncertainty.
  rewrite H. repeat split.
Qed.

Lemma two_valued (e : env) (text : option str) (enable_llm : bool) :
  let two r := r = Stage.UResult false 0 \/ r = Stage.UResult true 1 in
  two (summary (_calculate_frequency_uncertainty e text enable_llm))
  /\ two (summary (_calculate_period_uncertainty e text enable_llm))
  /\ two (summary (_calculate_area_uncertainty e text enable_llm))
  /\ two (summary (_calculate_range_uncertainty e text enable_llm)).
Proof.
  cbv zeta.
  unfold _calculate_frequency_uncertainty, _calculate_period_uncertainty,
    _calculate_area_uncertainty, _calculate_range_uncertainty.
  destruct (Gate.absent text); [repeat split; right; reflexivity|].
  repeat split.
  - destruct (_ || _); [left|right]; reflexivity.
  - cbv zeta. destruct (_ || _ || _); [left|right]; reflexivity.
  - destruct (_check_location_validity e _) as [[v t] i].
    destruct (_ || _); [left|right]; reflexivity.
  - cbv zeta.
    destruct (bool_decide (_check_numeric_range e _ <> None));
      [|destruct (bool_decide (_check_descriptive_range _ <> None))];
      cbv beta iota;
      (destruct (_ || _ || _); [left|right]; reflexivity).
Qed.

End CalcMore.

Section CalcStage.
Import Py Parser Stage.

Ltac literals :=
  repeat match goal with
  | |- context [eqb (u ?a) (u ?b)] =>
    let v := eval vm_compute in (eqb (u a) (u b)) in
    change (eqb (u a) (u b)) with v
  | |- context [index (u ?a) ?l] =>
    let v := eval vm_compute in (index (u a) l) in
    change (index (u a) l) with v
  | |- context [stage_entry (u ?a)] =>
    let v := eval cbv in (stage_entry (u a)) in
    change (stage_entry (u a)) with v
  end.

(** X23.  [calculate_all_parameters_uncertainty] always reports the two
    time and the two location parameters, each with score 0 and no
    clarification needed or with score 1 and clarification needed, the
    latter whenever the parameter is missing or blank; the monitoring
    target it reports only when the parameters hold one, so a missing
    target is not reported as needing clarification.  And what the
    staged controller's [check_stage_uncertainty] reports for a
    parameter of a stage, run with the calculators of this class, is
    what this function reports for that parameter. *)
Theorem X23_all_parameters_report
    (c : Calc.env) (e : env) (s : WorkflowState) :
  let parameters := extracted_parameters s in
  let results :=
    Calc.calculate_all_parameters_uncertainty c (gate e) parameters in
  let structural :=
    [u "observation_frequency"; u "monitoring_period";
     u "observation_area"; u "coverage_range"] in
  (forall k, is_Some (results !! k)
             <-> In k structural
                 \/ (k = u "monitoring_target" /\ is_Some (parameters !! k)))
  /\ (forall k r, In k structural -> results !! k = Some r ->
                  r = UResult false 0 \/ r = UResult true 1)
  /\ (forall k, In k structural -> Gate.absent (parameters !! k) = true ->
                results !! k = Some (UResult true 1))
  /\ (forall stage staged k r,
        check_stage_uncertainty (Calc.with_calculators c e) s stage
        = Some staged ->
        staged !! k = Some r -> results !! k = Some r).
Proof.
  cbv zeta.
  split; [|split; [|split]].
  - intros k. rewrite all_parameters_lookup. unfold eqb.
    destruct (bool_decide_reflect (k = u "coverage_range")) as [->|H1].
    { split; [intros _; left; apply mem_In; vm_compute; reflexivity|
        intros _; eexists; reflexivity]. }
    destruct (bool_decide_reflect (k = u "observation_area")) as [->|H2].
    { split; [intros _; left; apply mem_In; vm_compute; reflexivity|
        intros _; eexists; reflexivity]. }
    destruct (bool_decide_reflect (k = u "monitoring_period")) as [->|H3].
    { split; [intros _; left; apply mem_In; vm_compute; reflexivity|
        intros _; eexists; reflexivity]. }
    destruct (bool_decide_reflect (k = u "observation_frequency")) as [->|H4].
    { split; [intros _; left; apply mem_In; vm_compute; reflexivity|
        intros _; eexists; reflexivity]. }
    assert (Hn : ~ In k [u "observation_frequency"; u "monitoring_period";
                         u "observation_area"; u "coverage_range"]).
    { simpl. intros [H|[H|[H|[H|[]]]]]; congruence. }
    destruct (bool_decide_reflect (k = u "monitoring_target")) as [->|H5].
    + destruct (extracted_parameters s !! u "monitoring_target") as [t|];
        simpl; split.
      * intros _. right. split; [reflexivity|eexists; reflexivity].
      * intros _. eexists; reflexivity.
      * intros [x Hx]. discriminate.
      * intros [H|[_ [x Hx]]]; [destruct (Hn H)|discriminate].
    + split; [intros [x Hx]; discriminate|].
      intros [H|[H _]]; [destruct (Hn H)|destruct (H5 H)].
  - intros k r Hk Hr. rewrite all_parameters_lookup in Hr.
    simpl in Hk.
    destruct Hk as [<-|[<-|[<-|[<-|[]]]]]; revert Hr; literals;
      cbv iota; intros Hr; inversion Hr; subst r;
      apply (two_valued c _ true).
  - intros k Hk Ha. rewrite all_parameters_lookup.
    simpl in Hk.
    destruct Hk as [<-|[<-|[<-|[<-|[]]]]]; literals; cbv iota; f_equal;
      apply (absent_summary c _ Ha).
  - intros stage staged k r Hc Hk.
    rewrite all_parameters_lookup.
    unfold check_stage_uncertainty in Hc.
    destruct (stage_entry stage) as [info|] eqn:Hs; [|discriminate].
    apply stage_entry_Some, in_order_cases in Hs.
    inversion Hc as [Hst]; clear Hc.
    destruct Hs as [->|[->|[->|[->| ->]]]]; revert Hk; subst staged;
      literals; cbv iota.
    + destruct (extracted_parameters s !! u "monitoring_target") as [t|];
        [|rewrite lookup_empty; discriminate].
      intros Hk. apply lookup_singleton_Some in Hk as [<- <-].
      literals. reflexivity.
    + unfold Calc.with_calculators, calculate_time_uncertainty,
        Calc.calculate_time_uncertainty. cbv beta iota zeta.
      intros Hk. apply lookup_insert_Some in Hk as [[<- <-]|[Hne Hk]].
      * literals. reflexivity.
      * apply lookup_singleton_Some in Hk as [<- <-]. literals. reflexivity.
    + destruct (extracted_parameters s !! u "observation_area") as [a|] eqn:Ha;
        [|rewrite lookup_empty; discriminate].
      unfold Calc.with_calculators, calculate_location_uncertainty,
        Calc.calculate_location_uncertainty. cbv beta iota zeta.
      intros Hk. apply lookup_singleton_Some in Hk as [<- <-].
      literals. reflexivity.
    + destruct (extracted_parameters s !! u "coverage_range") as [a|] eqn:Ha;
        [|rewrite lookup_empty; discriminate].
      unfold Calc.with_calculators, calculate_location_uncertainty,
        Calc.calculate_location_uncertainty. cbv beta iota zeta.
      intros Hk. apply lookup_singleton_Some in Hk as [<- <-].
      literals. reflexivity.
    + rewrite lookup_empty. discriminate.
Qed.


Lemma should_skip_time (e : env) (s : WorkflowState) :
  parameter_collection_stage s = u "time" ->
  snd (should_skip_clarification e s) = s.
Proof.
  intros Hst. unfold should_skip_clarification, get_current_collection_stage.
  destruct (match last_of (user_messages s) with
            | Some _ => _ | None => _ end); [reflexivity|].
  rewrite Hst. literals. reflexivity.
Qed.

Lemma prepare_time (e : env) (s : WorkflowState) :
  parameter_collection_stage s = u "time" ->
  prepare e s = (extracted_parameters s, s).
Proof.
  intros Hst. unfold prepare, get_current_collection_stage.
  rewrite Hst. literals. rewrite andb_false_r. reflexivity.
Qed.

Lemma time_results_filter (f p : uresult) :
  bool_decide
    (filter (fun kv : str * uresult => needs_clarification (snd kv) = true)
            (<[ u "monitoring_period" := p ]>
               ({[ u "observation_frequency" := f ]} : gmap str uresult))
     = ∅)
  = negb (needs_clarification f || needs_clarification p).
Proof.
  destruct (needs_clarification f) eqn:Hf;
    [|destruct (needs_clarification p) eqn:Hp]; cbn [orb negb].
  - apply bool_decide_eq_false_2. intros H.
    apply map_empty_filter_1 in H.
    apply (H (u "observation_frequency") f); [|exact Hf].
    rewrite lookup_insert_ne by (intros E; vm_compute in E; discriminate).
    apply lookup_singleton_eq.
  - apply bool_decide_eq_false_2. intros H.
    apply map_empty_filter_1 in H.
    apply (H (u "monitoring_period") p); [|exact Hp].
    apply lookup_insert_eq.
  - apply bool_decide_eq_true_2. apply map_empty_filter_2.
    intros i x Hi. simpl.
    apply lookup_insert_Some in Hi as [[_ <-]|[_ Hi]]; [congruence|].
    apply lookup_singleton_Some in Hi as [_ <-]. congruence.
Qed.

Lemma time_wants_retry (f p : uresult) (rc : Z) :
  wants_retry (<[ u "monitoring_period" := p ]>
                 ({[ u "observation_frequency" := f ]} : gmap str uresult))
              (u "time") rc
  = (rc <? 2) && (needs_clarification f || needs_clarification p).
Proof.
  unfold wants_retry, should_retry_stage. literals. cbv iota beta.
  rewrite time_results_filter, negb_involutive.
  rewrite bool_decide_eq_false_2 by apply insert_non_empty.
  cbn [negb andb max_retries].
  destruct (Z.leb_spec 2 rc), (Z.ltb_spec rc 2); try lia; reflexivity.
Qed.

(** X24.  The time stage run with the calculators of
    [ParameterUncertaintyCalculator].  While the stage has retries left,
    a call made in stage [time] asks again about exactly those of the
    two time parameters whose text is missing, blank or passes neither
    the pattern check nor the language model (and that are configured),
    counts one retry and stays in the stage; when both texts pass, the
    call leaves the stage. *)
Theorem X24_unclear_time_parameters_are_asked_again
    (c : Calc.env) (e : env) (callback : bool) (s : WorkflowState) :
  let e' := Calc.with_calculators c e in
  let frequency :=
    Calc.needs_clarification
      (Calc._calculate_frequency_uncertainty
         c (extracted_parameters s !! u "observation_frequency") true) in
  let period :=
    Calc.needs_clarification
      (Calc._calculate_period_uncertainty
         c (extracted_parameters s !! u "monitoring_period") true) in
  let again :=
    List.filter (fun k => bool_decide (param_config e k <> None))
      ((if frequency then [u "observation_frequency"] else [])
       ++ (if period then [u "monitoring_period"] else [])) in
  parameter_collection_stage s = u "time" ->
  fst (should_skip_clarification e' s) = false ->
  (0 <= retries (u "time") s < 2 -> again <> [] ->
   exists s',
     process_staged_parameter_clarification e' callback s = Some (Ok s')
     /\ parameter_collection_stage s' = u "time"
     /\ retries (u "time") s' = retries (u "time") s + 1
     /\ pending_keys (pending_questions s') = again
     /\ awaiting_clarification s' = true)
  /\ (frequency = false -> period = false ->
      exists s',
        process_staged_parameter_clarification e' callback s = Some (Ok s')
        /\ (rank (u "time") < rank (parameter_collection_stage s'))%nat).
Proof.
  intros e' frequency period again Hst Hskip.
  assert (Hin : In (parameter_collection_stage s) stage_order).
  { rewrite Hst. simpl. auto. }
  assert (Hstart :
    process_staged_parameter_clarification e' callback s
    = main_path (process_fuel 7 e' callback) e' callback s).
  { unfold process_staged_parameter_clarification. rewrite process_fuel_S.
    cbv zeta.
    assert (He : enter callback s = s).
    { unfold enter, get_current_collection_stage. rewrite Hst. literals.
      reflexivity. }
    rewrite He. unfold get_current_collection_stage at 1. rewrite Hst.
    literals. cbv iota.
    pose proof (should_skip_time e' s Hst) as Hsnd.
    destruct (should_skip_clarification e' s) as [skip s2].
    simpl in Hskip, Hsnd. subst skip s2. reflexivity. }
  assert (Hcheck :
    check_stage_uncertainty e' s (u "time")
    = Some (<[ u "monitoring_period" :=
                 Calc.summary
                   (Calc._calculate_period_uncertainty
                      c (extracted_parameters s !! u "monitoring_period")
                      true) ]>
              {[ u "observation_frequency" :=
                   Calc.summary
                     (Calc._calculate_frequency_uncertainty
                        c (extracted_parameters s
                           !! u "observation_frequency") true) ]})).
  { unfold check_stage_uncertainty. literals. reflexivity. }
  split.
  - intros Hrc Hagain. rewrite Hstart.
    unfold main_path, get_current_collection_stage.
    rewrite (prepare_time e' s Hst), Hst, Hcheck.
    rewrite time_wants_retry.
    change (needs_clarification (Calc.summary ?o))
      with (Calc.needs_clarification o).
    fold frequency period.
    assert (Hfp : frequency || period = true).
    { destruct frequency, period; try reflexivity.
      exfalso. apply Hagain. reflexivity. }
    rewrite Hfp.
    destruct (Z.ltb_spec (retries (u "time") s) 2) as [_|?]; [|lia].
    cbn [andb]. unfold continue_with.
    set (results := <[ u "monitoring_period" := _ ]> _).
    set (s1 := increment_stage_retry (u "time") s).
    assert (Hr1 : retries (u "time") s1 = retries (u "time") s + 1).
    { unfold s1, increment_stage_retry, retries at 1. simpl.
      rewrite lookup_insert_eq. reflexivity. }
    destruct (generate_stage_questions e' s1 (u "time") results)
      as [questions|] eqn:Hg.
    2:{ destruct (generate_stage_questions_Some e' s1 (u "time") results
                    _ eq_refl) as [qs Hqs]. congruence. }
    destruct (generate_stage_questions_fields e' s1 _ results questions Hg)
      as (info & Hinfo & Hkeys & _).
    assert (info = StageInfo (u "时间参数")
                     [u "observation_frequency"; u "monitoring_period"]
                     true 2)
      by (revert Hinfo; literals; intros H; injection H as <-; reflexivity).
    subst info.
    assert (Hcollect :
      params_to_collect s1 (u "time")
        (StageInfo (u "时间参数")
                   [u "observation_frequency"; u "monitoring_period"] true 2)
        results
      = (if frequency then [u "observation_frequency"] else [])
        ++ (if period then [u "monitoring_period"] else [])).
    { unfold params_to_collect. literals. cbv iota. rewrite Hr1.
      destruct (Z.ltb_spec 0 (retries (u "time") s + 1)) as [_|?]; [|lia].
      unfold results at 1.
      rewrite bool_decide_eq_false_2 by apply insert_non_empty.
      cbn [andb negb params List.filter].
      unfold results.
      rewrite lookup_insert_ne by (intros E; vm_compute in E; discriminate).
      rewrite lookup_singleton_eq, lookup_insert_eq.
      change (needs_clarification (Calc.summary ?o))
        with (Calc.needs_clarification o).
      fold frequency period.
      destruct frequency, period; reflexivity. }
    rewrite Hcollect in Hkeys.
    change (param_config e') with (param_config e) in Hkeys.
    fold again in Hkeys.
    destruct questions as [|q qs].
    { exfalso. apply Hagain. symmetry. exact Hkeys. }
    eexists. split; [reflexivity|].
    split; [rewrite ask_stage; exact Hst|].
    split; [|split].
    + rewrite <- Hr1. unfold ask, emit, add_message, retries.
      destruct callback; reflexivity.
    + unfold pending_keys. rewrite <- Hkeys.
      unfold ask, emit, add_message. destruct callback; reflexivity.
    + unfold ask, emit, add_message. destruct callback; reflexivity.
  - intros Hf Hp. rewrite Hstart.
    destruct (main_path_moves_on (process_fuel 7 e' callback) 7 e' callback s)
      as (s' & E & R).
    + intros t Kt Rt. apply process_good; assumption.
    + exact Hin.
    + rewrite Hst. vm_compute. lia.
    + intros results. rewrite (prepare_time e' s Hst), Hst. simpl snd.
      rewrite Hcheck. intros Hres. inversion Hres; subst results.
      rewrite time_wants_retry.
      change (needs_clarification (Calc.summary ?o))
        with (Calc.needs_clarification o).
      fold frequency period. rewrite Hf, Hp. apply andb_false_r.
    + exists s'. split; [exact E|]. rewrite Hst in R. exact R.
Qed.


Lemma X24_unclear_time_parameters_are_asked_again_witness :
  let c := Sample.patterns in
  let e := Demo.strict in
  let s := Sample.time_answered in
  (parameter_collection_stage s = u "time"
   /\ fst (should_skip_clarification (Calc.with_calculators c e) s) = false)
  /\ (let e' := Calc.with_calculators c e in
      let frequency :=
        Calc.needs_clarification
          (Calc._calculate_frequency_uncertainty
             c (extracted_parameters s !! u "observation_frequency") true) in
      let period :=
        Calc.needs_clarification
          (Calc._calculate_period_uncertainty
             c (extracted_parameters s !! u "monitoring_period") true) in
      let again :=
        List.filter (fun k => bool_decide (param_config e k <> None))
          ((if frequency then [u "observation_frequency"] else [])
           ++ (if period then [u "monitoring_period"] else [])) in
      (0 <= retries (u "time") s < 2 -> again <> [] ->
       exists s',
         process_staged_parameter_clarification e' true s = Some (Ok s')
         /\ parameter_collection_stage s' = u "time"
         /\ retries (u "time") s' = retries (u "time") s + 1
         /\ pending_keys (pending_questions s') = again
         /\ awaiting_clarification s' = true)
      /\ (frequency = false -> period = false ->
          exists s',
            process_staged_parameter_clarification e' true s = Some (Ok s')
            /\ (rank (u "time") < rank (parameter_collection_stage s'))%nat)).
Proof.
  cbv zeta. split; [split; reflexivity|].
  apply (X24_unclear_time_parameters_are_asked_again
           Sample.patterns Demo.strict true Sample.time_answered);
    reflexivity.
Defined.

End CalcStage.

(** ** The conversation record *)

Section HistoryMore.
Import Py History.

Lemma add_messages_fields (more : list Stage.message) (s : t) :
  messages (add_messages more s) = messages s ++ more
  /\ latest_plan_request_index (add_messages more s)
     = latest_plan_request_index s.
Proof.
  unfold add_messages. revert s.
  induction more as [|m more IH]; intros s.
  - simpl. rewrite app_nil_r. split; reflexivity.
  - simpl. destruct (IH (add_message (Stage.role m) (Stage.msg_content m) s))
      as (E1 & E2).
    rewrite E1, E2. simpl. rewrite <- app_assoc.
    destruct m. split; reflexivity.
Qed.

Lemma skipn_app_short {A} (n : nat) (l more : list A) :
  (n <= List.length l)%nat -> skipn n (l ++ more) = skipn n l ++ more.
Proof.
  intros H. rewrite skipn_app.
  replace (n - List.length l)%nat with 0%nat by lia. reflexivity.
Qed.

(** X25.  The window a new plan request opens.  After
    [mark_new_plan_request], whatever messages are added later,
    [get_messages_since_latest_plan_request] returns the last three
    messages present at the mark (all of them if there were fewer than
    three) followed by the messages added since, and the history since
    the latest plan is the history of these messages; a state never
    marked returns every message. *)
Theorem X25_messages_since_the_mark
    (s : t) (more : list Stage.message) (max_messages : option Z) :
  let marked := add_messages more (mark_new_plan_request s) in
  let window :=
    skipn (List.length (messages s) - 3) (messages s) ++ more in
  get_messages_since_latest_plan_request marked = window
  /\ get_conversation_history_since_latest_plan max_messages marked
     = format_history window max_messages
  /\ get_messages_since_latest_plan_request (add_messages more initial)
     = more.
Proof.
  cbv zeta.
  assert (H : get_messages_since_latest_plan_request
                (add_messages more (mark_new_plan_request s))
              = skipn (List.length (messages s) - 3) (messages s) ++ more).
  { unfold get_messages_since_latest_plan_request.
    destruct (add_messages_fields more (mark_new_plan_request s)) as [E1 E2].
    rewrite E1, E2. simpl.
    destruct (Z.ltb_spec (Z.of_nat (List.length (messages s)) - 3) 0)
      as [Hlt|Hge].
    - replace (List.length (messages s) - 3)%nat with 0%nat by lia.
      reflexivity.
    - unfold slice_from.
      destruct (Z.ltb_spec (Z.of_nat (List.length (messages s)) - 3) 0)
        as [?|_]; [lia|].
      replace (Z.to_nat (Z.of_nat (List.length (messages s)) - 3))
        with (List.length (messages s) - 3)%nat by lia.
      apply skipn_app_short. lia. }
  split; [exact H|]. split.
  - unfold get_conversation_history_since_latest_plan. rewrite H.
    reflexivity.
  - unfold get_messages_since_latest_plan_request.
    destruct (add_messages_fields more initial) as [E1 E2].
    rewrite E1, E2. reflexivity.
Qed.

Lemma filter_twice {A} (f : A -> bool) (l : list A) :
  List.filter f (List.filter f l) = List.filter f l.
Proof.
  induction l as [|x l IH]; [reflexivity|].
  simpl. destruct (f x) eqn:E; [|exact IH].
  simpl. rewrite E, IH. reflexivity.
Qed.

(** X26.  The bounds of [max_messages].  [get_conversation_history]
    with [max_messages=0] returns the whole history, as without a bound,
    not an empty one; a bound of at least the number of user and
    assistant messages changes nothing; a positive bound [n] keeps
    the last [n] of them; a negative bound [-k] drops the first [k]
    instead.  Messages of other roles are never shown and do not count
    towards the bound. *)
Theorem X26_history_bounds (s : t) (n : Z) :
  let valid :=
    List.filter
      (fun msg => mem (Stage.role msg) [u "user"; u "assistant"])
      (messages s) in
  let shown msgs := strip (concat (List.map render msgs)) in
  get_conversation_history (Some 0) s = get_conversation_history None s
  /\ (Z.of_nat (List.length valid) <= n ->
      get_conversation_history (Some n) s = get_conversation_history None s)
  /\ (0 < n ->
      get_conversation_history (Some n) s
      = shown (skipn (List.length valid - Z.to_nat n) valid))
  /\ (n < 0 ->
      get_conversation_history (Some n) s
      = shown (skipn (Z.to_nat (- n)) valid))
  /\ format_history valid (Some n) = get_conversation_history (Some n) s.
Proof.
  cbv zeta. unfold get_conversation_history, format_history.
  split; [reflexivity|]. split; [|split; [|split]].
  - intros H. unfold slice_from.
    destruct (Z.ltb_spec (- n) 0) as [Hlt|Hge].
    + replace (_ - Z.to_nat (- - n))%nat with 0%nat by lia. reflexivity.
    + assert (n = 0) by lia. subst n. reflexivity.
  - intros H. unfold slice_from.
    destruct (Z.ltb_spec (- n) 0) as [_|?]; [|lia].
    rewrite Z.opp_involutive. reflexivity.
  - intros H. unfold slice_from.
    destruct (Z.ltb_spec (- n) 0) as [?|_]; [lia|]. reflexivity.
  - rewrite filter_twice. reflexivity.
Qed.

Lemma add_satellite_list (satellite_name : str) (s : t) :
  extracted_satellites (add_extracted_satellite satellite_name s)
  = if mem satellite_name (extracted_satellites s)
    then extracted_satellites s
    else extracted_satellites s ++ [satellite_name].
Proof.
  unfold add_extracted_satellite.
  destruct (mem satellite_name (extracted_satellites s)); reflexivity.
Qed.

Lemma add_satellite_In (satellite_name x : str) (s : t) :
  In x (extracted_satellites (add_extracted_satellite satellite_name s))
  <-> In x (extracted_satellites s) \/ x = satellite_name.
Proof.
  rewrite add_satellite_list.
  destruct (mem satellite_name (extracted_satellites s)) eqn:E.
  - split; [auto|]. intros [H| ->]; [exact H|]. apply mem_In. exact E.
  - rewrite in_app_iff. simpl. split.
    + intros [H|[H|[]]]; auto.
    + intros [H|H]; auto.
Qed.

Lemma add_satellite_present (satellite_name : str) (s : t) :
  In satellite_name (extracted_satellites s) ->
  add_extracted_satellite satellite_name s = s.
Proof.
  intros H. unfold add_extracted_satellite.
  apply mem_In in H. rewrite H. reflexivity.
Qed.

Lemma add_satellite_NoDup (satellite_name : str) (s : t) :
  List.NoDup (extracted_satellites s) ->
  List.NoDup (extracted_satellites (add_extracted_satellite satellite_name s)).
Proof.
  intros H. rewrite add_satellite_list.
  destruct (mem satellite_name (extracted_satellites s)) eqn:E; [exact H|].
  apply NoDup_snoc; [exact H|].
  intros Hin. apply mem_In in Hin. congruence.
Qed.

Lemma add_satellites_same (names : list str) (s : t) :
  (forall x, In x names -> In x (extracted_satellites s)) ->
  add_satellites names s = s.
Proof.
  unfold add_satellites. revert s.
  induction names as [|x names IH]; intros s H; [reflexivity|].
  simpl. rewrite add_satellite_present by (apply H; left; reflexivity).
  apply IH. intros y Hy. apply H. right. exact Hy.
Qed.

(** X27.  [add_extracted_satellite] keeps the list of satellites free
    of repetitions.  After any sequence of additions the list holds the
    names it held and the names added, and nothing else; the names it
    held keep their places, the new ones follow, each once; a list free
    of repetitions stays so; and adding the same names once more changes
    nothing. *)
Theorem X27_satellites_are_added_once (names : list str) (s : t) :
  let s' := add_satellites names s in
  (forall x, In x (extracted_satellites s')
             <-> In x (extracted_satellites s) \/ In x names)
  /\ (exists added, extracted_satellites s' = extracted_satellites s ++ added
                    /\ List.NoDup added
                    /\ forall x, In x added -> ~ In x (extracted_satellites s))
  /\ (List.NoDup (extracted_satellites s) ->
      List.NoDup (extracted_satellites s'))
  /\ add_satellites names s' = s'
  /\ messages s' = messages s.
Proof.
  cbv zeta. unfold add_satellites. revert s.
  induction names as [|n names IH]; intros s.
  - simpl. split; [intros x; tauto|]. split.
    + exists []. rewrite app_nil_r. split; [reflexivity|].
      split; [constructor|intros x []].
    + repeat split. auto.
  - simpl.
    destruct (IH (add_extracted_satellite n s))
      as (I1 & (added & I2 & I2n & I2d) & I3 & I4 & I5).
    split; [|split; [|split; [|split]]].
    + intros x. rewrite I1, add_satellite_In. intuition (subst; auto).
    + rewrite add_satellite_list in I2, I2d.
      destruct (mem n (extracted_satellites s)) eqn:E.
      * exists added. split; [exact I2|split; [exact I2n|exact I2d]].
      * exists (n :: added). rewrite I2, <- app_assoc.
        split; [reflexivity|]. split.
        -- constructor; [|exact I2n]. intros Hn. apply (I2d n Hn).
           apply in_or_app. right. left. reflexivity.
        -- intros x [<-|Hx].
           ++ intros Hin. apply mem_In in Hin. congruence.
           ++ intros Hin. apply (I2d x Hx). apply in_or_app. left. exact Hin.
    + intros H. apply I3, add_satellite_NoDup, H.
    + rewrite add_satellite_present.
      * exact I4.
      * apply I1. left. apply add_satellite_In. right. reflexivity.
    + rewrite I5. unfold add_extracted_satellite.
      destruct (mem n (extracted_satellites s)); reflexivity.
Qed.

End HistoryMore.

(** ** Options and technical parameters *)

Section OptionsMore.
Import Py Options.
Local Open Scope Q_scope.

Variable reverse : bool.
Variable key : choice -> Q.

Local Abbreviation before := (Options.before reverse key).
Local Abbreviation ordered := (Options.ordered reverse key).

Lemma before_total (a b : choice) : ~ before a b -> before b a.
Proof.
  unfold Options.before. destruct reverse; intros H; apply Qle_bool_iff;
    apply Qlt_le_weak, Qnot_le_lt; intros Hle; apply H, Qle_bool_iff, Hle.
Qed.

Lemma before_trans (a b c : choice) : before a b -> before b c -> before a c.
Proof.
  unfold Options.before. destruct reverse; rewrite !Qle_bool_iff; intros H1 H2.
  - exact (Qle_trans _ _ _ H2 H1).
  - exact (Qle_trans _ _ _ H1 H2).
Qed.

Lemma insert_sorted_In (x y : choice) (l : list choice) :
  In y (insert_sorted reverse key x l) <-> y = x \/ In y l.
Proof.
  induction l as [|z l IH]; simpl.
  - intuition.
  - destruct (if reverse then _ else _); simpl; [intuition|].
    rewrite IH. intuition.
Qed.

Lemma insert_sorted_length (x : choice) (l : list choice) :
  List.length (insert_sorted reverse key x l) = S (List.length l).
Proof.
  induction l as [|z l IH]; simpl; [reflexivity|].
  destruct (if reverse then _ else _); simpl; [reflexivity|].
  rewrite IH. reflexivity.
Qed.

Lemma insert_sorted_ordered (x : choice) (l : list choice) :
  ordered l -> ordered (insert_sorted reverse key x l).
Proof.
  induction l as [|z l IH]; intros Ho.
  - simpl. split; [constructor|exact I].
  - simpl. destruct Ho as [Hz Ho].
    destruct (if reverse then Qle_bool (key z) (key x)
              else Qle_bool (key x) (key z)) eqn:E.
    + assert (Hxz : before x z) by exact E.
      split; [|split; assumption].
      constructor; [exact Hxz|].
      eapply List.Forall_impl; [|exact Hz].
      intros a Ha. exact (before_trans _ _ _ Hxz Ha).
    + assert (Hzx : before z x).
      { apply before_total. unfold Options.before. rewrite E. discriminate. }
      split; [|apply IH, Ho].
      apply List.Forall_forall. intros a Ha.
      apply insert_sorted_In in Ha as [->|Ha]; [exact Hzx|].
      rewrite List.Forall_forall in Hz. apply Hz, Ha.
Qed.

Lemma sorted_In (y : choice) (l : list choice) :
  In y (sorted reverse key l) <-> In y l.
Proof.
  induction l as [|x l IH]; simpl; [tauto|].
  rewrite insert_sorted_In, IH. intuition.
Qed.

Lemma sorted_length (l : list choice) :
  List.length (sorted reverse key l) = List.length l.
Proof.
  induction l as [|x l IH]; simpl; [reflexivity|].
  rewrite insert_sorted_length, IH. reflexivity.
Qed.

Lemma sorted_ordered (l : list choice) : ordered (sorted reverse key l).
Proof.
  induction l as [|x l IH]; simpl; [exact I|].
  apply insert_sorted_ordered, IH.
Qed.

Variable apart : Q -> Q -> option bool.

Lemma keep_apart_In (last : option Q) (l kept : list choice) :
  keep_apart apart key last l = Some kept ->
  forall x, In x kept -> In x l.
Proof.
  revert last kept. induction l as [|y l IH]; intros last kept H x Hx.
  - inversion H; subst. destruct Hx.
  - simpl in H.
    assert (Hcons :
      option_map (cons y) (keep_apart apart key (Some (key y)) l) = Some kept ->
      In x (y :: l)).
    { destruct (keep_apart apart key (Some (key y)) l) as [k|] eqn:E;
        [|discriminate].
      intros Hk. inversion Hk; subst. destruct Hx as [->|Hx].
      - left. reflexivity.
      - right. exact (IH _ _ E x Hx). }
    destruct last as [lv|]; [|exact (Hcons H)].
    destruct (apart lv (key y)) as [[|]|]; [exact (Hcons H)| |discriminate].
    right. exact (IH _ _ H x Hx).
Qed.

Lemma keep_apart_first (y : choice) (l kept : list choice) :
  keep_apart apart key None (y :: l) = Some kept ->
  exists rest, kept = y :: rest.
Proof.
  simpl. destruct (keep_apart apart key (Some (key y)) l) as [k|];
    [|discriminate].
  intros H. inversion H. exists k. reflexivity.
Qed.

End OptionsMore.

Section OptionsTables.
Import Py Options.
Local Open Scope Q_scope.

Lemma assoc_In {A} (k : str) (l : list (str * A)) (v : A) :
  Stage.assoc k l = Some v -> In (k, v) l.
Proof.
  induction l as [|[k' v'] l IH]; [discriminate|].
  simpl. destruct (eqb k k') eqn:E.
  - intros H. inversion H; subst. apply str_eqb_eq in E. subst. left.
    reflexivity.
  - intros H. right. exact (IH H).
Qed.

Lemma rank_in_cases (order : list (str * Q)) (x : choice) :
  Forall (fun kv => 0 < snd kv) order ->
  (unknown order x /\ rank_in order x = 0)
  \/ (~ unknown order x /\ 0 < rank_in order x).
Proof.
  intros Hpos. unfold unknown, rank_in.
  destruct (Stage.assoc (value x) order) as [q|] eqn:E.
  - right. split; [discriminate|]. apply assoc_In in E.
    rewrite List.Forall_forall in Hpos. exact (Hpos _ E).
  - left. split; reflexivity.
Qed.

Lemma frequency_positive : Forall (fun kv => 0 < snd kv) frequency_order.
Proof. repeat constructor. Qed.

Lemma period_positive : Forall (fun kv => 0 < snd kv) period_order.
Proof. repeat constructor. Qed.

Lemma zero_test (order : list (str * Q)) (x : choice) :
  Forall (fun kv => 0 < snd kv) order ->
  Qeq_bool (rank_in order x) 0 = true <-> unknown order x.
Proof.
  intros Hpos. destruct (rank_in_cases order x Hpos) as [[Hu E]|[Hk Hlt]].
  - rewrite E. split; [intros _; exact Hu|reflexivity].
  - split; [|contradiction]. intros H. apply Qeq_bool_eq in H.
    rewrite H in Hlt. discriminate.
Qed.

(** The frequency loop raises exactly when it meets, after the first
    option, one whose value is not in the table. *)
Lemma frequency_loop (last : Q) (l : list choice) :
  keep_apart frequency_apart (rank_in frequency_order) (Some last) l = None
  <-> Exists (unknown frequency_order) l.
Proof.
  revert last. induction l as [|y l IH]; intros last.
  - simpl. split; [discriminate|]. intros H. inversion H.
  - simpl. unfold frequency_apart at 1.
    destruct (Qeq_bool (rank_in frequency_order y) 0) eqn:E.
    + split; [|reflexivity]. intros _. left.
      apply (zero_test _ _ frequency_positive). exact E.
    + assert (Hk : ~ unknown frequency_order y).
      { intros Hu. apply (zero_test _ _ frequency_positive) in Hu. congruence. }
      destruct (Qle_bool 2 (last / rank_in frequency_order y)).
      * destruct (keep_apart _ _ (Some (rank_in frequency_order y)) l)
          as [k|] eqn:Ek; simpl.
        -- split; [discriminate|]. intros H. inversion H; subst;
             [contradiction|].
           apply (IH (rank_in frequency_order y)) in H1. congruence.
        -- split; [|reflexivity]. intros _. right.
           apply (IH (rank_in frequency_order y)). exact Ek.
      * rewrite IH. split; [intros H; right; exact H|].
        intros H. inversion H; subst; [contradiction|assumption].
Qed.

(** The period loop raises exactly when the value kept last is not in
    the table and another option follows. *)
Lemma period_loop_known (last : Q) (l : list choice) :
  Qeq_bool last 0 = false ->
  Forall (fun y => ~ unknown period_order y) l ->
  keep_apart period_apart (rank_in period_order) (Some last) l <> None.
Proof.
  revert last. induction l as [|y l IH]; intros last Hl Hall.
  - discriminate.
  - simpl. unfold period_apart at 1. rewrite Hl.
    inversion Hall as [|? ? Hy Hrest]; subst.
    assert (Hy0 : Qeq_bool (rank_in period_order y) 0 = false).
    { destruct (Qeq_bool (rank_in period_order y) 0) eqn:E; [|reflexivity].
      apply (zero_test _ _ period_positive) in E. contradiction. }
    destruct (Qle_bool (15 # 10) (rank_in period_order y / last)).
    + specialize (IH _ Hy0 Hrest).
      destruct (keep_apart _ _ (Some (rank_in period_order y)) l);
        [discriminate|contradiction].
    + exact (IH _ Hl Hrest).
Qed.

Lemma head_unknown (reverse : bool) (order : list (str * Q))
    (x : choice) (rest : list choice) :
  Forall (fun kv => 0 < snd kv) order ->
  ordered reverse (rank_in order) (x :: rest) ->
  Exists (unknown order) (x :: rest) ->
  if reverse then rest <> [] -> Exists (unknown order) rest
  else unknown order x.
Proof.
  intros Hpos [Hx _] Hex.
  rewrite List.Forall_forall in Hx.
  destruct reverse.
  - intros Hne. inversion Hex as [? ? Hu|? ? Hu]; subst; [|exact Hu].
    destruct rest as [|y rest]; [congruence|]. left.
    specialize (Hx y (or_introl eq_refl)). unfold before in Hx.
    apply Qle_bool_iff in Hx.
    destruct (rank_in_cases order x Hpos) as [[_ E]|[Hk _]]; [|contradiction].
    destruct (rank_in_cases order y Hpos) as [[Hy _]|[_ Hlt]]; [exact Hy|].
    rewrite E in Hx. exfalso. exact (Qlt_not_le _ _ Hlt Hx).
  - inversion Hex as [? ? Hu|? ? Hu]; subst; [exact Hu|].
    apply List.Exists_exists in Hu as (y & Hy & Hu).
    specialize (Hx y Hy). unfold before in Hx. apply Qle_bool_iff in Hx.
    destruct (rank_in_cases order y Hpos) as [[_ E]|[Hk _]]; [|contradiction].
    destruct (rank_in_cases order x Hpos) as [[Hxu _]|[_ Hlt]]; [exact Hxu|].
    rewrite E in Hx. exfalso. exact (Qlt_not_le _ _ Hlt Hx).
Qed.

Lemma every_go_In {A} (step skip : nat) (l : list A) (x : A) :
  In x (every_go step skip l) -> In x l.
Proof.
  revert skip. induction l as [|y l IH]; intros skip H; [exact H|].
  simpl in H. destruct skip as [|skip].
  - destruct H as [->|H]; [left; reflexivity|right; exact (IH _ H)].
  - right. exact (IH _ H).
Qed.

Lemma firstn_In {A} (n : nat) (l : list A) (x : A) :
  In x (firstn n l) -> In x l.
Proof.
  intros H. rewrite <- (firstn_skipn n l). apply in_or_app. left. exact H.
Qed.

Lemma Returns_inj (a b : list choice) : Returns a = Returns b -> a = b.
Proof. intros H. injection H as H. exact H. Qed.

Lemma Exists_sorted (reverse : bool) (key : choice -> Q)
    (P : choice -> Prop) (l : list choice) :
  Exists P (sorted reverse key l) <-> Exists P l.
Proof.
  rewrite !List.Exists_exists. split; intros (x & Hx & Hp); exists x;
    (split; [|exact Hp]); apply (sorted_In reverse key); exact Hx.
Qed.

(** X28.  [_validate_and_optimize_options] for the observation
    frequency and the monitoring period divides by the table entry of an
    option's value, zero when the value is not in the table.  It raises
    the [ZeroDivisionError] exactly when there are at least two options
    and the value of one of them is not in the table; otherwise it
    returns at most four of the options, the top one of the sorted list
    among them, so at least one when at least one was given.  For every
    other parameter it returns the options as they are.  On the entries
    of the two tables the comparison made on rationals is the one Python
    makes on binary64 numbers. *)
Theorem X28_an_unlisted_value_divides_by_zero
    (options : list choice) (param_key : str) :
  let order :=
    if eqb param_key (u "observation_frequency") then frequency_order
    else period_order in
  (param_key = u "observation_frequency" \/ param_key = u "monitoring_period" ->
   (_validate_and_optimize_options options param_key = RaisesZeroDivisionError
    <-> (2 <= List.length options)%nat /\ Exists (unknown order) options)
   /\ forall kept,
        _validate_and_optimize_options options param_key = Returns kept ->
        (List.length kept <= 4)%nat
        /\ (forall x, In x kept -> In x options)
        /\ (options <> [] -> kept <> []))
  /\ (param_key <> u "observation_frequency" ->
      param_key <> u "monitoring_period" ->
      _validate_and_optimize_options options param_key = Returns options)
  /\ same_on_tables = true.
Proof.
  cbv zeta. split; [|split].
  - intros [->| ->].
    + change (eqb (u "observation_frequency") (u "observation_frequency"))
        with true. cbv iota.
      unfold _validate_and_optimize_options.
      change (eqb (u "observation_frequency") (u "observation_frequency"))
        with true. cbv iota zeta.
      set (key := rank_in frequency_order).
      pose proof (sorted_ordered true key options) as Ho.
      pose proof (sorted_length true key options) as Hlen.
      pose proof (Exists_sorted true key (unknown frequency_order) options)
        as Hex.
      assert (Hin : forall y, In y (sorted true key options) -> In y options)
        by (intros y; apply (sorted_In true key)).
      destruct (sorted true key options) as [|x rest] eqn:Es.
      * simpl. split.
        -- split; [discriminate|]. simpl in Hlen. intros [H _]. lia.
        -- intros kept H. inversion H; subst. simpl.
           split; [lia|]. split; [intros x []|].
           destruct options; [congruence|discriminate].
      * assert (Hraise :
          keep_apart frequency_apart key None (x :: rest) = None
          <-> (2 <= List.length options)%nat
              /\ Exists (unknown frequency_order) options).
        { simpl.
          destruct (keep_apart frequency_apart key (Some (key x)) rest)
            as [k|] eqn:Ek; simpl.
          - split; [discriminate|]. intros [H2 Hu]. exfalso.
            apply Hex in Hu.
            pose proof (head_unknown true _ x rest frequency_positive Ho Hu)
              as Htail. simpl in Htail.
            assert (Hne : rest <> []).
            { destruct rest; [simpl in Hlen; lia|discriminate]. }
            apply Htail in Hne. apply (frequency_loop (key x)) in Hne.
            unfold key in *. congruence.
          - split; [|reflexivity]. intros _.
            apply (frequency_loop (key x)) in Ek.
            split.
            + rewrite <- Hlen. simpl. destruct rest; [inversion Ek|simpl; lia].
            + apply Hex. right. exact Ek. }
        destruct (keep_apart frequency_apart key None (x :: rest))
          as [filtered|] eqn:Ek.
        -- split.
           ++ split; [|intros H; apply Hraise in H; discriminate].
              destruct (4 <? List.length filtered)%nat; discriminate.
           ++ intros kept Hk.
              destruct (keep_apart_first _ _ _ _ _ Ek) as [tail ->].
              pose proof (keep_apart_In _ _ _ _ _ Ek) as Hsub.
              destruct (Nat.ltb_spec 4 (List.length (x :: tail)))
                as [Hlong|Hshort]; apply Returns_inj in Hk; subst kept.
              ** split; [apply firstn_le_length|]. split.
                 --- intros y Hy. apply Hin, Hsub.
                     apply firstn_In in Hy. unfold every in Hy.
                     exact (every_go_In _ _ _ _ Hy).
                 --- intros _. unfold every. simpl. discriminate.
              ** split; [exact Hshort|]. split.
                 --- intros y Hy. apply Hin, Hsub, Hy.
                 --- intros _. discriminate.
        -- split; [split; [intros _; apply Hraise; reflexivity|reflexivity]|].
           intros kept H. discriminate.
    + change (eqb (u "monitoring_period") (u "observation_frequency"))
        with false. cbv iota.
      unfold _validate_and_optimize_options.
      change (eqb (u "monitoring_period") (u "observation_frequency"))
        with false.
      change (eqb (u "monitoring_period") (u "monitoring_period")) with true.
      cbv iota zeta.
      set (key := rank_in period_order).
      pose proof (sorted_ordered false key options) as Ho.
      pose proof (sorted_length false key options) as Hlen.
      pose proof (Exists_sorted false key (unknown period_order) options)
        as Hex.
      assert (Hin : forall y, In y (sorted false key options) -> In y options)
        by (intros y; apply (sorted_In false key)).
      destruct (sorted false key options) as [|x rest] eqn:Es.
      * simpl. split.
        -- split; [discriminate|]. simpl in Hlen. intros [H _]. lia.
        -- intros kept H. inversion H; subst. simpl.
           split; [lia|]. split; [intros x []|].
           destruct options; [congruence|discriminate].
      * assert (Hraise :
          keep_apart period_apart key None (x :: rest) = None
          <-> (2 <= List.length options)%nat
              /\ Exists (unknown period_order) options).
        { split.
          - intros Hn. simpl in Hn.
            destruct (keep_apart period_apart key (Some (key x)) rest)
              as [k|] eqn:Ek; [discriminate|].
            assert (Hne : rest <> []).
            { intros ->. discriminate. }
            split.
            + rewrite <- Hlen. destruct rest; [congruence|simpl; lia].
            + apply Hex.
              destruct (List.Exists_dec (unknown period_order) (x :: rest))
                as [Hy|Hnone]; [|exact Hy|].
              { intros y. unfold unknown.
                destruct (Stage.assoc (value y) period_order);
                  [right; discriminate|left; reflexivity]. }
              exfalso.
              apply List.Forall_Exists_neg in Hnone.
              inversion Hnone as [|? ? Hx Hrest]; subst.
              apply (period_loop_known (key x) rest); [|exact Hrest|exact Ek].
              destruct (Qeq_bool (key x) 0) eqn:E; [|reflexivity].
              apply (zero_test _ _ period_positive) in E. contradiction.
          - intros [H2 Hu]. apply Hex in Hu.
            pose proof (head_unknown false _ x rest period_positive Ho Hu)
              as Hx. simpl in Hx.
            apply (zero_test _ _ period_positive) in Hx.
            destruct rest as [|y rest]; [simpl in Hlen; lia|].
            simpl. unfold period_apart at 1. unfold key. rewrite Hx.
            reflexivity. }
        destruct (keep_apart period_apart key None (x :: rest))
          as [filtered|] eqn:Ek.
        -- split.
           ++ split; [discriminate|]. intros H. apply Hraise in H.
              discriminate.
           ++ intros kept Hk. apply Returns_inj in Hk. subst kept.
              destruct (keep_apart_first _ _ _ _ _ Ek) as [tail ->].
              pose proof (keep_apart_In _ _ _ _ _ Ek) as Hsub.
              split; [apply firstn_le_length|]. split.
              ** intros y Hy. apply Hin, Hsub, (firstn_In 4). exact Hy.
              ** intros _. discriminate.
        -- split; [split; [intros _; apply Hraise; reflexivity|reflexivity]|].
           intros kept H. discriminate.
  - intros H1 H2. unfold _validate_and_optimize_options.
    apply str_eqb_neq in H1, H2. rewrite H1, H2. reflexivity.
  - vm_compute. reflexivity.
Qed.


Lemma fromkeys_fold (l seen : list str) :
  List.NoDup seen ->
  let result :=
    fold_left (fun seen key => if mem key seen then seen else seen ++ [key])
              l seen in
  List.NoDup result
  /\ (forall k, In k result <-> In k seen \/ In k l)
  /\ (List.length result <= List.length seen + List.length l)%nat.
Proof.
  revert seen. induction l as [|x l IH]; intros seen Hn; cbv zeta.
  - simpl. split; [exact Hn|]. split; [intros k; tauto|lia].
  - simpl. destruct (mem x seen) eqn:E.
    + destruct (IH seen Hn) as (I1 & I2 & I3).
      split; [exact I1|]. split; [|lia].
      intros k. rewrite I2. apply mem_In in E.
      intuition (subst; auto).
    + assert (Hn' : List.NoDup (seen ++ [x])).
      { apply NoDup_snoc; [exact Hn|]. intros Hin. apply mem_In in Hin.
        congruence. }
      destruct (IH _ Hn') as (I1 & I2 & I3).
      split; [exact I1|]. split.
      * intros k. rewrite I2, in_app_iff. simpl. intuition.
      * rewrite length_app in I3. simpl in I3. lia.
Qed.

Lemma fromkeys_spec (l : list str) :
  List.NoDup (fromkeys l)
  /\ (forall k, In k (fromkeys l) <-> In k l)
  /\ (List.length (fromkeys l) <= List.length l)%nat.
Proof.
  destruct (fromkeys_fold l [] (List.NoDup_nil _)) as (I1 & I2 & I3).
  split; [exact I1|]. split; [|exact I3].
  intros k. rewrite (I2 k). simpl. tauto.
Qed.

Lemma tech_mapping_lists :
  Forall (fun kv : str * list str =>
            List.length (snd kv) = 3%nat
            /\ forallb (fun k => mem k tech_params) (snd kv) = true)
         target_tech_mapping.
Proof. repeat constructor. Qed.

Lemma tech_params_nodup : List.NoDup tech_params.
Proof.
  repeat constructor; simpl; intros H;
    repeat destruct H as [H|H]; try discriminate; exact H.
Qed.

(** X29.  [_get_relevant_technical_params_from_config] returns at most
    three keys, without repetition, each of them one of the eight
    technical parameters and present in the configuration; and it
    returns none only when the configuration holds none of the eight. *)
Theorem X29_technical_params_from_the_configuration
    (existing_params : gmap str str) (all_params_info : gset str) :
  let result :=
    _get_relevant_technical_params_from_config existing_params
                                               all_params_info in
  List.NoDup result
  /\ (List.length result <= 3)%nat
  /\ (forall k, In k result -> In k tech_params /\ k ∈ all_params_info)
  /\ (result = [] <-> forall k, In k tech_params -> k ∉ all_params_info).
Proof.
  cbv zeta. unfold _get_relevant_technical_params_from_config.
  set (monitoring_target :=
         default [] (existing_params !! u "monitoring_target")).
  set (selected :=
    match List.find (fun kv : str * list str =>
                       contains (fst kv) monitoring_target)
                    target_tech_mapping with
    | Some (_, tech_keys) => (tech_keys, true)
    | None => ([], false)
    end).
  set (relevant :=
    if negb (snd selected) || Nat.eqb (List.length (fst selected)) 0
    then [u "spatial_resolution"; u "analysis_requirements"; u "output_format"]
    else fst selected).
  assert (Hrel : List.length relevant = 3%nat
                 /\ forall k, In k relevant -> In k tech_params).
  { assert (Hdefault :
      forall k, In k [u "spatial_resolution"; u "analysis_requirements";
                      u "output_format"] -> In k tech_params).
    { intros k [<-|[<-|[<-|[]]]]; apply mem_In; vm_compute; reflexivity. }
    unfold relevant, selected.
    destruct (List.find _ target_tech_mapping) as [[kw keys]|] eqn:Hf;
      cbn [fst snd].
    - apply find_some in Hf as [Hin _].
      pose proof tech_mapping_lists as Hl.
      rewrite List.Forall_forall in Hl. destruct (Hl _ Hin) as [H3 Hall].
      cbn [snd] in H3, Hall. rewrite H3. cbn [Nat.eqb negb orb].
      split; [exact H3|].
      intros k Hk. rewrite forallb_forall in Hall.
      apply mem_In, Hall, Hk.
    - split; [reflexivity|exact Hdefault]. }
  destruct Hrel as [Hlen Hsub].
  replace (let '(relevant_keys, matched) := selected in _)
    with (let available :=
            List.filter (fun key => bool_decide (key ∈ all_params_info))
                        (fromkeys relevant) in
          if Nat.eqb (List.length available) 0
          then firstn 3 (List.filter
                           (fun param => bool_decide (param ∈ all_params_info))
                           tech_params)
          else available)
    by (unfold relevant; destruct selected; reflexivity).
  cbv zeta.
  destruct (fromkeys_spec relevant) as (Fn & Fi & Fl).
  set (available :=
         List.filter (fun key => bool_decide (key ∈ all_params_info))
                     (fromkeys relevant)).
  set (fallback :=
         List.filter (fun param => bool_decide (param ∈ all_params_info))
                     tech_params).
  assert (Ha : forall k, In k available -> In k tech_params /\ k ∈ all_params_info).
  { intros k Hk. apply List.filter_In in Hk as [Hk Hc].
    apply bool_decide_eq_true in Hc. split; [|exact Hc].
    apply Hsub, Fi, Hk. }
  assert (Hb : forall k, In k fallback <-> In k tech_params /\ k ∈ all_params_info).
  { intros k. unfold fallback. rewrite List.filter_In, bool_decide_eq_true.
    tauto. }
  destruct (Nat.eqb_spec (List.length available) 0) as [Hz|Hnz].
  - split; [|split; [|split]].
    + apply NoDup_firstn, List.NoDup_filter, tech_params_nodup.
    + apply firstn_le_length.
    + intros k Hk. apply Hb. exact (firstn_In _ _ _ Hk).
    + split.
      * intros He k Hk Hc.
        assert (Hin : In k fallback) by (apply Hb; split; assumption).
        destruct fallback as [|y rest]; [exact Hin|discriminate].
      * intros Hnone. destruct fallback as [|y rest] eqn:Ef; [reflexivity|].
        exfalso. destruct (proj1 (Hb y) (or_introl eq_refl)) as [Hy Hc].
        exact (Hnone _ Hy Hc).
  - split; [|split; [|split]].
    + apply List.NoDup_filter, Fn.
    + unfold available.
      pose proof (List.filter_length_le
                    (fun key => bool_decide (key ∈ all_params_info))
                    (fromkeys relevant)). lia.
    + exact Ha.
    + split.
      * intros He. rewrite He in Hnz. contradiction.
      * intros Hnone. destruct available as [|y rest] eqn:Ea;
          [reflexivity|].
        exfalso. destruct (Ha y (or_introl eq_refl)) as [Hy Hc].
        exact (Hnone _ Hy Hc).
Qed.


Lemma append_new_spec (test : technical_param -> bool)
    (l sorted_params : list technical_param) :
  List.NoDup sorted_params ->
  exists added,
    append_new test l sorted_params = sorted_params ++ added
    /\ List.NoDup (sorted_params ++ added)
    /\ forall p, In p added
                 <-> In p l /\ test p = true /\ ~ In p sorted_params.
Proof.
  unfold append_new. revert sorted_params.
  induction l as [|x l IH]; intros sorted_params Hn.
  - exists []. rewrite app_nil_r. split; [reflexivity|].
    split; [exact Hn|]. intros p. simpl. tauto.
  - simpl.
    destruct (test x && negb (bool_decide (x ∈ sorted_params))) eqn:E.
    + apply andb_true_iff in E as [Et Em].
      apply negb_true_iff, bool_decide_eq_false in Em.
      rewrite list_elem_of_In in Em.
      destruct (IH (sorted_params ++ [x])) as (added & E1 & E2 & E3).
      { apply List.NoDup_app; [exact Hn| |].
        - constructor; [intros []|constructor].
        - intros y Hy [<-|[]]. contradiction. }
      exists (x :: added). rewrite E1, <- app_assoc. split; [reflexivity|].
      split; [rewrite <- app_assoc in E2; exact E2|].
      intros p. simpl. rewrite E3, in_app_iff. simpl. split.
      * intros [<-|(Hl & Ht & Hs)]; [tauto|].
        split; [right; exact Hl|]. split; [exact Ht|]. tauto.
      * intros ([<-|Hl] & Ht & Hs); [left; reflexivity|].
        destruct (decide (x = p)) as [->|Hne]; [left; reflexivity|].
        right. split; [exact Hl|]. split; [exact Ht|].
        intros [H|[H|[]]]; [exact (Hs H)|exact (Hne H)].
    + destruct (IH sorted_params Hn) as (added & E1 & E2 & E3).
      exists added. split; [exact E1|]. split; [exact E2|].
      intros p. rewrite E3. simpl. split; [tauto|].
      intros ([<-|Hl] & Ht & Hs); [|tauto].
      exfalso. rewrite Ht in E. simpl in E.
      apply negb_false_iff, bool_decide_eq_true in E.
      rewrite list_elem_of_In in E. exact (Hs E).
Qed.

Lemma by_priority_spec (tech_params : list technical_param)
    (keys : list str) (sorted_params : list technical_param) :
  List.NoDup sorted_params ->
  let result :=
    fold_left
      (fun sorted_params key =>
         append_new (fun param => eqb (param_key param) key)
                    tech_params sorted_params)
      keys sorted_params in
  List.NoDup result
  /\ forall p, In p result
               <-> In p sorted_params
                   \/ (In p tech_params /\ In (param_key p) keys).
Proof.
  revert sorted_params. induction keys as [|k keys IH];
    intros sorted_params Hn; cbv zeta.
  - simpl. split; [exact Hn|]. intros p. tauto.
  - simpl.
    destruct (append_new_spec (fun param => eqb (param_key param) k)
                tech_params sorted_params Hn) as (added & E1 & E2 & E3).
    rewrite E1. destruct (IH _ E2) as [I1 I2].
    split; [exact I1|]. intros p. rewrite I2, in_app_iff, E3.
    rewrite str_eqb_eq. split.
    + intros [[H|(Hl & Hk & _)]|[Hl Hk]]; auto.
    + intros [H|[Hl [Hk|Hk]]]; auto.
      destruct (List.In_dec technical_param_eq_dec p sorted_params)
        as [Hs|Hs]; [auto|].
      left. right. symmetry in Hk. auto.
Qed.

(** X30.  [_get_most_relevant_technical_params] reorders and loses
    nothing: the list returned holds the parameters given, each once;
    those whose key is among the priority keys of the monitoring target
    come first, all the others after them; and a list given without
    repetition comes back with the same length. *)
Theorem X30_technical_params_reordered
    (tech_params : list technical_param) (existing_params : gmap str str) :
  let result :=
    _get_most_relevant_technical_params tech_params existing_params in
  let relevant_keys :=
    relevant_keys_for (default [] (existing_params !! u "monitoring_target")) in
  List.NoDup result
  /\ (forall p, In p result <-> In p tech_params)
  /\ (exists first others,
        result = first ++ others
        /\ (forall p, In p first -> In (param_key p) relevant_keys)
        /\ (forall p, In p others -> ~ In (param_key p) relevant_keys))
  /\ (List.NoDup tech_params -> List.length result = List.length tech_params).
Proof.
  cbv zeta. unfold _get_most_relevant_technical_params.
  set (keys := relevant_keys_for _).
  destruct (by_priority_spec tech_params keys [] (List.NoDup_nil _))
    as [P1 P2].
  cbv zeta in P1, P2.
  set (first := fold_left _ keys []) in *.
  destruct (append_new_spec (fun _ => true) tech_params first P1)
    as (others & E1 & E2 & E3).
  rewrite E1.
  assert (Hin : forall p, In p (first ++ others) <-> In p tech_params).
  { intros p. rewrite in_app_iff. split.
    - intros [Hf|Ho].
      + apply P2 in Hf as [[]|[H _]]. exact H.
      + apply E3 in Ho. tauto.
    - intros H.
      destruct (List.In_dec technical_param_eq_dec p first) as [Hf|Hf].
      + left. exact Hf.
      + right. apply E3. auto. }
  split; [exact E2|]. split; [exact Hin|]. split.
  - exists first, others. split; [reflexivity|]. split.
    + intros p Hp. apply P2 in Hp as [[]|[_ Hk]]. exact Hk.
    + intros p Hp Hk. apply E3 in Hp as (Hl & _ & Hf).
      apply Hf, P2. right. split; assumption.
  - intros Hn. apply Nat.le_antisymm.
    + apply List.NoDup_incl_length; [exact E2|].
      intros p Hp. apply Hin. exact Hp.
    + apply List.NoDup_incl_length; [exact Hn|].
      intros p Hp. apply Hin. exact Hp.
Qed.

End OptionsTables.
